(* ===== verification/_CoqProject ===== *)
-Q . S2P
Prelude.v
BTree.v
ImportState.v
Disk.v
BlobStore.v
Archive.v
Registry.v
Json.v
Parser.v
Digest.v
Reconciliation.v
Std.v
Config.v
Principals.v
Postgres.v
BlobProtocol.v
Receipt.v
ReceiptPg.v
Fault.v
ReceiptHttp.v
OutboxTable.v
StreamErasure.v
AckConsumer.v
Outbox.v
ArchiveTables.v
NormalizedStore.v
ArchiveEvents.v
ContractProjection.v
PortableExport.v
FixtureAdmission.v
Reparse.v
ParserMigration.v
InitialImport.v
DeletionPlan.v
SampleArchive.v
DeletionPlanLaws.v
DeletionRows.v
PrivacyDeletion.v
Commands.v
Lifecycle.v
PortableLoad.v
Service.v
