(* ===== verification/Prelude.v ===== *)
(** * Ratatoskr ChatGPT archive: root of the verification library

    The service keeps the ChatGPT archives of its tenants: it receives an
    export, stores its bytes by digest, inspects and parses them as hostile
    input, keeps normalized records with the evidence of which export presented
    them, announces facts about them through an outbox, replays newer parsers
    over what it kept, exports a portable archive, and deletes a tenant's data
    on request.  Sources are named relative to src/crates/chatgpt-archive/src/
    unless they begin with schema.sql (src/schema.sql) or services/.

    ** How the program is modelled

    Fallible code returns [result]; stateful code is a computation of the monad
    [sm] over an explicit state, and an error does not undo the state ([Prelude]).
    Durable state is a [world] ([Postgres]): a disk ([Disk]), the database's
    tables, and three schedules.  The disk's schedule decides which operation
    fails; the database's decides whether a statement takes effect, is refused,
    or takes effect and is not answered; the third holds what other processes
    do to disk and tables before each transaction or autocommit statement.  A
    theorem about every world is therefore about every pattern of failures and
    of interleaving, and a crash is a schedule that refuses everything from some
    point on.  What the others may do is a relation: [respects Q] says that a
    computation moves the shared state along [Q] as long as the others do.
    Strings are byte strings; a UUID is its canonical text; instants are
    numbers, [now()] a logical clock; fixed-width integers are [N] or [Z] with
    the source's checks and saturations written out; a [BTreeMap] is a sorted
    association list ([BTree]), a table a finite map from its key.

    ** Files

    - Foundations: [Prelude] (results, the monad, orders, sorting, byte strings,
      the tactics [evaluates] and [stable]), [BTree], [Json], [Std] (white space,
      socket addresses), [Disk], [Postgres].
    - Receiving: [ImportState] (receipt/state.rs), [Receipt] (receipt/mod.rs and
      the seam receipt/repository.rs as a class), [ReceiptPg] (receipt/pg.rs, its
      instance), [Principals] (receipt/auth.rs, owner.rs), [Config] (config.rs),
      [Fault] (error.rs, fault.rs), [ReceiptHttp] (receipt/http.rs).
    - Bytes: [BlobStore] (blob_store.rs), [BlobProtocol] (blob_protocol.rs),
      [Archive] (archive.rs).
    - Parsing: [Registry] (parser_registry.rs), [Parser] (synthetic_parser/),
      [Digest] and [Reconciliation] (reconciliation/), [FixtureAdmission]
      (fixture_admission.rs).
    - Records and facts: [ArchiveTables] (schema.sql), [NormalizedStore]
      (entity_versions.rs, normalized_persist.rs), [ArchiveEvents] (outbox.rs,
      announced_subjects.rs), [ContractProjection] (contract_projection.rs,
      contract_projection/), [Reparse] (reparse.rs), [ParserMigration]
      (parser_migration.rs), [InitialImport] (initial_import.rs,
      receipt/report.rs), [PortableExport] (portable_export.rs: the archive) and
      [PortableLoad] (the same file's SELECTs, and the command that runs both).
    - Publishing: [OutboxTable] (schema.sql), [Outbox] (receipt/outbox/),
      [StreamErasure] (stream_erasure.rs, privacy_deletion/erasure.rs,
      deletion_ack.rs, pg_instant.rs), [AckConsumer] (deletion_ack/consumer.rs,
      services deletion_acks.rs).
    - Deleting: [DeletionPlan] and [DeletionPlanLaws] (privacy_deletion/model.rs,
      service.rs), [DeletionRows] (rows.rs, restore.rs), [PrivacyDeletion]
      (execution.rs); [SampleArchive] is the archive of their closed examples.
    - The process: [Commands] (the command lines of services lib.rs), [Lifecycle]
      (persistence.rs, services lifecycle_commands.rs), [Service] (the readiness
      of admin.rs, the background loops and the exit of services lib.rs).

    ** How they interact

    [ReceiptHttp] turns a request into a call of [Receipt] and its outcome into one
    of the envelopes of [Fault].  [Receipt] calls its repository through the class
    [ReceiptRepository] and is proved against its laws ([SeamRespects]); [ReceiptPg]
    discharges them.  Whoever puts a blob reference into a row ([ReceiptPg],
    [InitialImport], [Reparse], the tombstone evidence of [PrivacyDeletion]) goes
    through [BlobProtocol.register_blobs], which promises that the bytes are present
    under the digest's lock.  The writers of records ([NormalizedStore]) are shared by
    [Reparse], whose writers [InitialImport] uses, and by the restoration in
    [DeletionRows]; the facts of [ContractProjection] go through [ArchiveEvents]
    into the rows that [Outbox] publishes; a deletion drops such rows and hands
    their stream copies to [StreamErasure], and what its consumers acknowledge comes
    back through [AckConsumer].  [Service] runs [InitialImport], [Outbox] and
    [AckConsumer] in loops until it is told to stop; [Lifecycle] runs the engines of
    [PrivacyDeletion], [Reparse] and [ParserMigration] once for an operator, and
    [PortableLoad] the export.

    ** What the theorems show

    - Bytes: what is stored is read back as it was or not at all
      ([store_verify_roundtrip]), objects are never rewritten, erased only when
      their content matches ([erase_exact]), and no row ever references a missing
      blob ([no_row_references_a_missing_blob], [register_blobs_protocol],
      [execution_keeps_named_blobs]).
    - Hostile input: inspection keeps every limit ([inspect_zip_sound]), extraction
      stays in its directory and publishes exactly the inventory
      ([extraction_confined], [extract_publishes_inventory]).
    - Receipt: whatever the schedules do, stages follow the declared machine
      ([stages_follow_the_machine]); a success answers for a row that is there
      ([successes_are_recorded]), an answer that blames the client publishes nothing
      ([client_errors_publish_nothing]), and every answer of the HTTP surface is one
      of a closed set and repeats nothing of the request ([answers_are_closed]).
    - Publishing: a row is published only on acknowledgement
      ([rows_published_on_acknowledgement_only]), no acknowledged copy is forgotten
      while the process lives ([service_ends_as_its_tasks_did]), copies whose row
      disappeared are erased ([orphaned_copies_are_erased]), and an acknowledgement
      of a deletion is settled only once it is recorded
      ([settled_acknowledgements_are_recorded]).
    - Parsing: no member of a record is lost ([raw_records_complete]); reconciliation
      refines an order-free specification of histories; the fixture gate admits
      exactly the clean trees and always ends.
    - Imports: an answered pass settles the head of its queue
      ([import_pass_settles]), a reported operation has its report queued
      ([reported_operations_are_queued]), and the stored summary is the one computed
      ([import_summary_is_kept]).
    - Replays: the comparison is exact ([compare_exact]); a replay takes nothing away
      ([apply_retains]) and settles ([apply_settles]); a migration classifies and
      reports exactly ([migration_plan_exact], [migration_report_exact]).
    - Deletion: the plan lists exactly what the specification asks
      ([plan_lists_exactly]); every announced owner gets a tombstone, every recorded
      stream copy is asked back, kept records go back to what a kept export
      presents, and an execution can be repeated.
    - Portable archive: it is published whole or not at all, its paths are safe, and
      it does not depend on the order of the state's lists; loaded by the command, it
      holds everything the filter asks for of one account and depends on no row of
      another ([portable_export_is_the_tenants]).
    - Operators: a deletion's command line is accepted exactly in its grammar, with
      its confirmation ([privacy_command_exact]); a dry run writes no row
      ([dry_runs_write_no_row]).

    ** Fuel and bounds

    [Archive.copy_loop] has one unit of fuel per answer of the reader up to the
    byte limit; the tree walk of [FixtureAdmission] has the number of nodes of the
    tree ([inspection_ends] shows it suffices); the text grammars of [Std] and
    [Prelude] have the length of their input.  The loops of [AckConsumer] and
    [Service] run over the finite list of what happens to them: messages, ticks, a
    shutdown.  Every other recursion is structural.

    ** Parameters

    SHA-256, the ZIP reader and writer, the JSON text of a value and what serde
    derives, the UUID and URL grammars, the collation, the contracts crate (classes
    [Contracts] and [OperationContracts]), the names and the value grammar of
    headers, the message broker and what it delivers, the process clock, the
    compiled parsers handed to the registry, and the answers of the operating
    system.  Properties that rely on them name what they rely on (that a stored
    report decodes to what was encoded, that a digest tells the ids of one archive
    apart), and their witnesses instantiate every parameter with a function.

    ** Not modelled

    telemetry.rs, lib.rs and main.rs (log formatting, re-exports, the entry point),
    test_support.rs and receipt/probe.rs (doubles and probes of the tests),
    services listeners.rs and the wiring of services lib.rs (binding sockets,
    building the routers, signals), the liveness, version and metrics text of
    admin.rs.  Inside modelled files: tracing, metrics, the unwinding that hands a
    panic to its responder, and the JSON text of what a command prints.  Isolation is
    modelled at the level of transactions: statements of one transaction do not
    interleave with those of another, which is what the advisory locks and row locks
    of the code ensure where it matters.  A digest is assumed to be stored with one
    reference wherever a deletion compares references. *)

From stdpp Require Export base tactics numbers option list strings gmap sorting.
From stdpp Require Export pretty.
From Stdlib Require Export Ascii.
From Stdlib Require Import Bool.

(** ** Fallible code

    Rust's [Result<A, E>] and the [?] operator.  The bind notation lives in a
    scope of its own so that no component is forced to open it. *)

Inductive result (E A : Type) : Type :=
| Ok (a : A)
| Err (e : E).

Arguments Ok {E A} a.
Arguments Err {E A} e.

Declare Scope result_scope.
Delimit Scope result_scope with result.

(** [let? x := c in k]: continue with the success value of [c], or stop with
    its error, as [let x = c?; k]. *)
Notation "'let?' x := c 'in' k" :=
  (match c with Ok x => k | Err e => Err e end)
  (at level 10, x pattern, c at level 200, k at level 200,
   format "'[v' 'let?'  x  :=  c  'in' '/' k ']'") : result_scope.

#[global] Instance result_eq_dec {E A} `{EqDecision E, EqDecision A} :
  EqDecision (result E A).
Proof. solve_decision. Defined.

Definition is_ok {E A} (r : result E A) : bool :=
  match r with Ok _ => true | Err _ => false end.

Definition map_err {E F A} (f : E → F) (r : result E A) : result F A :=
  match r with Ok a => Ok a | Err e => Err (f e) end.

(** [Option::ok_or]. *)
Definition ok_or {E A} (e : E) (o : option A) : result E A :=
  match o with Some a => Ok a | None => Err e end.

(** ** Stateful fallible code

    [sm S E A]: a computation over the state [S] that returns a value or an
    error.  An error does not undo the state: cleanup is written where the
    source writes it. *)

Definition sm (S E A : Type) : Type := S → result E A * S.

Definition sret {S E A} (a : A) : sm S E A := λ s, (Ok a, s).
Definition sfail {S E A} (e : E) : sm S E A := λ s, (Err e, s).
Definition sbind {S E A B} (c : sm S E A) (k : A → sm S E B) : sm S E B := λ s,
  match c s with
  | (Ok a, s') => k a s'
  | (Err e, s') => (Err e, s')
  end.

(** [.map_err(f)] on a computation. *)
Definition smap_err {S E F A} (f : E → F) (c : sm S E A) : sm S F A := λ s,
  let '(r, s') := c s in (map_err f r, s').

(** [let _ = c]: run and drop the outcome. *)
Definition signore {S E F A} (c : sm S E A) : sm S F unit := λ s,
  let '(_, s') := c s in (Ok tt, s').

(** The outcome as a value, for code that matches on it. *)
Definition stry {S E F A} (c : sm S E A) : sm S F (result E A) := λ s,
  let '(r, s') := c s in (Ok r, s').

Definition slift {S E A} (r : result E A) : sm S E A := λ s, (r, s).

Notation "'let!' x := c 'in' k" :=
  (sbind c (λ x, k%result))
  (at level 10, x pattern, c at level 200, k at level 200,
   format "'[v' 'let!'  x  :=  c  'in' '/' k ']'") : result_scope.

(** ** Machine integers

    Unsigned values are [N]; the width is written where the code relies on
    it.  [usize] is 64 bits wide on the deployment targets. *)

Definition u64_max : N := 18446744073709551615.
Definition u32_max : N := 4294967295.
Definition i64_max : N := 9223372036854775807.

Definition checked_add_u64 (a b : N) : option N :=
  if decide (a + b <= u64_max)%N then Some (a + b)%N else None.
Definition saturating_add_u64 (a b : N) : N := N.min (a + b) u64_max.
Definition saturating_mul_u64 (a b : N) : N := N.min (a * b) u64_max.

(** ** Ordered types

    [Ord] is Rust's trait of the same name; [OrdLaws] is the contract the
    ordered collections and the sorting routine rely on. *)

Class Ord (A : Type) := cmp : A → A → comparison.
#[global] Hint Mode Ord ! : typeclass_instances.

Class OrdLaws (A : Type) `{Ord A} : Prop := {
  cmp_eq_iff (a b : A) : cmp a b = Eq ↔ a = b;
  cmp_antisym (a b : A) : cmp a b = CompOpp (cmp b a);
  cmp_lt_trans (a b c : A) : cmp a b = Lt → cmp b c = Lt → cmp a c = Lt;
}.

(** [Ordering::then_with]. *)
Definition then_cmp (c d : comparison) : comparison :=
  match c with Eq => d | _ => c end.

#[global] Instance nat_ord : Ord nat := Nat.compare.
#[global] Instance N_ord : Ord N := N.compare.
#[global] Instance Z_ord : Ord Z := Z.compare.
#[global] Instance string_ord : Ord string := String.compare.
#[global] Instance pair_ord {A B} `{Ord A, Ord B} : Ord (A * B) :=
  λ p q, then_cmp (cmp p.1 q.1) (cmp p.2 q.2).
#[global] Instance option_ord {A} `{Ord A} : Ord (option A) := λ a b,
  match a, b with
  | None, None => Eq
  | None, Some _ => Lt
  | Some _, None => Gt
  | Some a, Some b => cmp a b
  end.

(** [Vec]'s lexicographic order. *)
Fixpoint list_cmp {A} `{Ord A} (l k : list A) : comparison :=
  match l, k with
  | [], [] => Eq
  | [], _ :: _ => Lt
  | _ :: _, [] => Gt
  | a :: l, b :: k => then_cmp (cmp a b) (list_cmp l k)
  end.
#[global] Instance list_ord {A} `{Ord A} : Ord (list A) := list_cmp.

(** A derived order: compare the images under [f]. *)
Definition cmp_on {A B} `{Ord B} (f : A → B) : A → A → comparison :=
  λ a b, cmp (f a) (f b).

(** ** Stable sorting

    [slice::sort_by] is stable; insertion before the first strictly greater
    element gives the same permutation. *)

Definition le_by {A} (c : A → A → comparison) (a b : A) : bool :=
  match c a b with Gt => false | _ => true end.

Fixpoint insert_by {A} (c : A → A → comparison) (x : A) (l : list A) : list A :=
  match l with
  | [] => [x]
  | y :: l' => if le_by c x y then x :: y :: l' else y :: insert_by c x l'
  end.

Fixpoint sort_by {A} (c : A → A → comparison) (l : list A) : list A :=
  match l with
  | [] => []
  | x :: l' => insert_by c x (sort_by c l')
  end.

(** [slice::dedup] on adjacent equal elements. *)
Fixpoint dedup {A} `{EqDecision A} (l : list A) : list A :=
  match l with
  | [] => []
  | x :: l' =>
      match l' with
      | y :: _ => if decide (x = y) then dedup l' else x :: dedup l'
      | [] => [x]
      end
  end.

(** ** Strings

    Rust strings and byte slices are lists of bytes, here Stdlib's [string]
    read as a byte sequence (UTF-8 for [str]).  Every separator the program
    splits at is ASCII, so splitting bytes and splitting characters agree. *)

Fixpoint to_bytes (s : string) : list ascii :=
  match s with EmptyString => [] | String c s => c :: to_bytes s end.

Fixpoint of_bytes (l : list ascii) : string :=
  match l with [] => EmptyString | c :: l => String c (of_bytes l) end.

Definition byte (c : ascii) : N := Ascii.N_of_ascii c.

Definition starts_with (p s : string) : bool := String.prefix p s.

Definition any_byte (f : ascii → bool) (s : string) : bool := existsb f (to_bytes s).

Definition is_char (d c : ascii) : bool := Ascii.eqb d c.

(** [str::split] at every byte satisfying [f]; never empty. *)
Fixpoint split_on (f : ascii → bool) (s : string) : list string :=
  match s with
  | EmptyString => [EmptyString]
  | String c s' =>
      if f c then EmptyString :: split_on f s'
      else match split_on f s' with
           | p :: ps => String c p :: ps
           | [] => [String c EmptyString]
           end
  end.

(** [str::split_once] at the first byte [d]. *)
Fixpoint split_once (d : ascii) (s : string) : option (string * string) :=
  match s with
  | EmptyString => None
  | String c s' =>
      if Ascii.eqb d c then Some (EmptyString, s')
      else match split_once d s' with
           | Some (a, b) => Some (String c a, b)
           | None => None
           end
  end.

(** [[T]::join]. *)
Definition join (sep : string) (l : list string) : string := String.concat sep l.

Definition to_lower (c : ascii) : ascii :=
  let n := byte c in
  if decide (65 <= n <= 90)%N then Ascii.ascii_of_N (n + 32) else c.

Definition to_ascii_lowercase (s : string) : string :=
  of_bytes (to_lower <$> to_bytes s).

(** [str::eq_ignore_ascii_case]. *)
Definition eq_ignore_ascii_case (a b : string) : bool :=
  String.eqb (to_ascii_lowercase a) (to_ascii_lowercase b).

(** [str::parse::<u64>] and [::<u32>]: an optional [+], at least one decimal
    digit, no other byte, and a value within the width. *)
Definition digit_value (c : ascii) : option N :=
  let n := byte c in
  if decide (48 <= n <= 57)%N then Some (n - 48)%N else None.

Fixpoint parse_digits (max : N) (acc : N) (s : string) : option N :=
  match s with
  | EmptyString => Some acc
  | String c s' =>
      d ← digit_value c;
      let acc' := (acc * 10 + d)%N in
      if decide (acc' <= max)%N then parse_digits max acc' s' else None
  end.

Definition parse_unsigned (max : N) (s : string) : option N :=
  match s with
  | EmptyString => None
  | String c s' =>
      if Ascii.eqb c "+"%char
      then match s' with EmptyString => None | _ => parse_digits max 0 s' end
      else parse_digits max 0 s
  end.

Definition parse_u64 : string → option N := parse_unsigned u64_max.
Definition parse_u32 : string → option N := parse_unsigned u32_max.

(** [usize::to_string], as [pretty] prints a [nat]. *)
Definition show_nat (n : nat) : string := pretty n.

(** ** Automation

    [archive] collects the generic facts about orders, sorting and strings
    that close the routine side conditions of the component files. *)

Create HintDb archive.

(** Split every [match] and [if] of the goal and the hypotheses, with
    equations, closing contradictory branches. *)
Ltac split_cases := simplify_eq/=; repeat (case_match; simplify_eq/=; try done).

(** Reduce [decide] and boolean tests in a hypothesis to propositions. *)
Ltac reflect_bools :=
  repeat match goal with
  | H : (_ && _) = true |- _ => apply andb_true_iff in H as [? ?]
  | H : (_ && _) = false |- _ => apply andb_false_iff in H
  | H : (_ || _) = true |- _ => apply orb_true_iff in H
  | H : (_ || _) = false |- _ => apply orb_false_iff in H as [? ?]
  | H : negb _ = true |- _ => apply negb_true_iff in H
  | H : negb _ = false |- _ => apply negb_false_iff in H
  | H : bool_decide _ = true |- _ => apply bool_decide_eq_true in H
  | H : bool_decide _ = false |- _ => apply bool_decide_eq_false in H
  | H : (_ =? _)%N = true |- _ => apply N.eqb_eq in H
  | H : (_ =? _)%N = false |- _ => apply N.eqb_neq in H
  | H : (_ <? _)%N = true |- _ => apply N.ltb_lt in H
  | H : (_ <? _)%N = false |- _ => apply N.ltb_ge in H
  | H : (_ <=? _)%N = true |- _ => apply N.leb_le in H
  | H : (_ <=? _)%N = false |- _ => apply N.leb_gt in H
  | H : String.eqb _ _ = true |- _ => apply String.eqb_eq in H
  | H : String.eqb _ _ = false |- _ => apply String.eqb_neq in H
  end.

(** ** Orders *)

Lemma then_cmp_eq c d : then_cmp c d = Eq ↔ c = Eq ∧ d = Eq.
Proof. destruct c; simpl; naive_solver. Qed.

Lemma then_cmp_lt c d : then_cmp c d = Lt ↔ c = Lt ∨ (c = Eq ∧ d = Lt).
Proof. destruct c; simpl; naive_solver. Qed.

Lemma then_cmp_opp c d : CompOpp (then_cmp c d) = then_cmp (CompOpp c) (CompOpp d).
Proof. by destruct c. Qed.

Lemma cmp_refl {A} `{OrdLaws A} (a : A) : cmp a a = Eq.
Proof. by apply cmp_eq_iff. Qed.

Lemma cmp_gt_lt {A} `{OrdLaws A} (a b : A) : cmp a b = Gt ↔ cmp b a = Lt.
Proof. rewrite (cmp_antisym a b). destruct (cmp b a); naive_solver. Qed.

Lemma cmp_not_gt_trans {A} `{OrdLaws A} (a b c : A) :
  cmp a b ≠ Gt → cmp b c ≠ Gt → cmp a c ≠ Gt.
Proof.
  intros Hab Hbc.
  destruct (cmp a b) eqn:Eab; [..|done].
  { apply cmp_eq_iff in Eab as ->. done. }
  destruct (cmp b c) eqn:Ebc; [..|done].
  { apply cmp_eq_iff in Ebc as ->. by rewrite Eab. }
  by rewrite (cmp_lt_trans a b c).
Qed.

#[global] Instance nat_ord_laws : OrdLaws nat.
Proof.
  split; unfold cmp, nat_ord; intros.
  - apply Nat.compare_eq_iff.
  - apply Nat.compare_antisym.
  - by rewrite !Nat.compare_lt_iff in *; lia.
Qed.

#[global] Instance N_ord_laws : OrdLaws N.
Proof.
  split; unfold cmp, N_ord; intros.
  - apply N.compare_eq_iff.
  - apply N.compare_antisym.
  - rewrite N.compare_lt_iff in *. lia.
Qed.

#[global] Instance Z_ord_laws : OrdLaws Z.
Proof.
  split; unfold cmp, Z_ord; intros.
  - apply Z.compare_eq_iff.
  - apply Z.compare_antisym.
  - rewrite Z.compare_lt_iff in *. lia.
Qed.

Lemma string_compare_refl s : String.compare s s = Eq.
Proof.
  induction s as [|c s IH]; simpl; [done|].
  unfold Ascii.compare. by rewrite N.compare_refl.
Qed.

#[global] Instance string_ord_laws : OrdLaws string.
Proof.
  split; unfold cmp, string_ord.
  - intros a b. split; [apply String.compare_eq_iff|].
    intros ->. apply string_compare_refl.
  - intros a b. apply String.compare_antisym.
  - intros s1. induction s1 as [|a1 s1 IH]; intros [|a2 s2] [|a3 s3]; simpl; try done.
    unfold Ascii.compare. intros H12 H23.
    destruct (N.compare (N_of_ascii a1) (N_of_ascii a2)) eqn:E12; simplify_eq.
    + apply N.compare_eq in E12. rewrite E12.
      destruct (N.compare (N_of_ascii a2) (N_of_ascii a3)) eqn:E23; simplify_eq; eauto.
    + destruct (N.compare (N_of_ascii a2) (N_of_ascii a3)) eqn:E23; simplify_eq.
      * apply N.compare_eq in E23. by rewrite <-E23, E12.
      * rewrite N.compare_lt_iff in E12, E23.
        assert (N_of_ascii a1 ?= N_of_ascii a3 = Lt)%N as ->; [|done].
        apply N.compare_lt_iff. lia.
Qed.

Lemma cmp_pair {A B} `{Ord A, Ord B} (a c : A) (b d : B) :
  cmp (a, b) (c, d) = then_cmp (cmp a c) (cmp b d).
Proof. done. Qed.

Lemma cmp_list {A} `{Ord A} (a b : A) (l k : list A) :
  cmp (a :: l) (b :: k) = then_cmp (cmp a b) (cmp l k).
Proof. done. Qed.

Lemma cmp_some {A} `{Ord A} (a b : A) : cmp (Some a) (Some b) = cmp a b.
Proof. done. Qed.

#[global] Instance pair_ord_laws {A B} `{OrdLaws A, OrdLaws B} : OrdLaws (A * B).
Proof.
  split.
  - intros [a b] [c d]. rewrite cmp_pair, then_cmp_eq, !cmp_eq_iff. naive_solver.
  - intros [a b] [c d]. rewrite !cmp_pair, then_cmp_opp.
    by rewrite (cmp_antisym a c), (cmp_antisym b d).
  - intros [a b] [c d] [e f]. rewrite !cmp_pair, !then_cmp_lt, !cmp_eq_iff.
    intros [?|[-> ?]] [?|[-> ?]]; eauto using cmp_lt_trans.
Qed.

#[global] Instance option_ord_laws {A} `{OrdLaws A} : OrdLaws (option A).
Proof.
  split.
  - intros [a|] [b|]; try (split; done).
    rewrite cmp_some, cmp_eq_iff. naive_solver.
  - intros [a|] [b|]; try done. rewrite !cmp_some. apply cmp_antisym.
  - intros [a|] [b|] [c|]; try done. rewrite !cmp_some. apply cmp_lt_trans.
Qed.

#[global] Instance list_ord_laws {A} `{OrdLaws A} : OrdLaws (list A).
Proof.
  split.
  - intros l. induction l as [|a l IH]; intros [|b k]; try (split; done).
    rewrite cmp_list, then_cmp_eq, cmp_eq_iff, IH. naive_solver.
  - intros l. induction l as [|a l IH]; intros [|b k]; try done.
    by rewrite !cmp_list, then_cmp_opp, <-cmp_antisym, <-IH.
  - intros l. induction l as [|a l IH]; intros [|b k] [|c m]; try done.
    rewrite !cmp_list, !then_cmp_lt, !cmp_eq_iff.
    intros [?|[-> ?]] [?|[-> ?]]; eauto using cmp_lt_trans.
Qed.

Lemma cmp_on_laws {A B} `{OrdLaws B} (f : A → B) `{!Inj (=) (=) f} :
  @OrdLaws A (cmp_on f).
Proof.
  split; unfold cmp, cmp_on.
  - intros a b. rewrite cmp_eq_iff. split; [apply (inj f)|by intros ->].
  - intros a b. apply cmp_antisym.
  - intros a b c. apply cmp_lt_trans.
Qed.

(** ** Stateful code: what a computation preserves

    [stable R c]: whatever the outcome, [c] relates the state before to the
    state after by the preorder [R].  One lemma per combinator, so that a
    component proves [stable] for its primitive operations only. *)

Definition stable {S E A} (R : S → S → Prop) (c : sm S E A) : Prop :=
  ∀ s r s', c s = (r, s') → R s s'.

Create HintDb stable.

Section stable.
  Context {S : Type} (R : S → S → Prop) `{!PreOrder R}.

Lemma stable_ret {E A} (a : A) : stable R (sret (E := E) a).
Proof. intros s r s' [= <- <-]. reflexivity. Qed.

Lemma stable_fail {E A} (e : E) : stable R (sfail (A := A) e).
Proof. intros s r s' [= <- <-]. reflexivity. Qed.

Lemma stable_lift {E A} (x : result E A) : stable R (slift x).
Proof. intros s r s' [= <- <-]. reflexivity. Qed.

Lemma stable_read {E A} (f : S → result E A) : stable R (λ s, (f s, s)).
Proof. intros s r s' [= <- <-]. reflexivity. Qed.

Lemma stable_bind {E A B} (c : sm S E A) (k : A → sm S E B) :
  stable R c → (∀ a, stable R (k a)) → stable R (sbind c k).
Proof.
  intros Hc Hk s r s'. unfold sbind. destruct (c s) as [[a|e] t] eqn:E'.
  - intros H. trans t; [by eapply Hc|by eapply Hk].
  - intros [= <- <-]. by eapply Hc.
Qed.

Lemma stable_map_err {E F A} (f : E → F) (c : sm S E A) :
  stable R c → stable R (smap_err f c).
Proof.
  intros Hc s r s'. unfold smap_err. destruct (c s) as [x t] eqn:E'.
  intros [= <- <-]. by eapply Hc.
Qed.

Lemma stable_ignore {E F A} (c : sm S E A) : stable R c → stable R (signore (F := F) c).
Proof.
  intros Hc s r s'. unfold signore. destruct (c s) as [x t] eqn:E'.
  intros [= <- <-]. by eapply Hc.
Qed.

Lemma stable_try {E F A} (c : sm S E A) : stable R c → stable R (stry (F := F) c).
Proof.
  intros Hc s r s'. unfold stry. destruct (c s) as [x t] eqn:E'.
  intros [= <- <-]. by eapply Hc.
Qed.
End stable.

#[export] Hint Resolve stable_ret stable_fail stable_lift stable_read stable_bind
  stable_map_err stable_ignore stable_try : stable.

(** Walk through a computation; primitive operations come from the [stable]
    database, branches are split. *)
Ltac solve_stable :=
  repeat first
    [ progress intros
    | solve [eauto with stable typeclass_instances]
    | apply stable_bind; [apply _| |]
    | apply stable_map_err
    | apply stable_ignore
    | apply stable_try
    | case_match ].

(** Inversion of a bind that is known to have run. *)
Lemma sbind_inv {S E A B} (c : sm S E A) (k : A → sm S E B) s r s' :
  sbind c k s = (r, s') →
  (∃ a t, c s = (Ok a, t) ∧ k a t = (r, s')) ∨
  (∃ e, c s = (Err e, s') ∧ r = Err e).
Proof. unfold sbind. destruct (c s) as [[a|e] t]; naive_solver. Qed.

Lemma sbind_Ok_inv {S E A B} (c : sm S E A) (k : A → sm S E B) s b s' :
  sbind c k s = (Ok b, s') → ∃ a t, c s = (Ok a, t) ∧ k a t = (Ok b, s').
Proof. intros [?|(? & ? & ?)]%sbind_inv; done. Qed.

Lemma smap_err_Ok_inv {S E F A} (f : E → F) (c : sm S E A) s a s' :
  smap_err f c s = (Ok a, s') → c s = (Ok a, s').
Proof. unfold smap_err. destruct (c s) as [[]]; naive_solver. Qed.

(** A run that returns, from a test of its answer. *)
Definition value_or {E A} (d : A) (r : result E A) : A := match r with Ok a => a | Err _ => d end.

Lemma ran {E A S} (d : A) (p : result E A * S) : is_ok p.1 = true → p = (Ok (value_or d p.1), p.2).
Proof. by destruct p as [[] ?]. Qed.

Lemma ran_unit {E S} (p : result E unit * S) : is_ok p.1 = true → p = (Ok tt, p.2).
Proof. by destruct p as [[[]|] ?]. Qed.

(** A closed test that holds. *)
Ltac evaluates := vm_cast_no_check (eq_refl true).

Lemma sbind_run {S E A B} (c : sm S E A) (k : A → sm S E B) s a t :
  c s = (Ok a, t) → sbind c k s = k a t.
Proof. unfold sbind. by intros ->. Qed.

(** ** Lists *)

(** A duplicate-free image is injective on the list it comes from. *)
Lemma NoDup_fmap_inj_on {A B} (f : A → B) (l : list A) x y :
  NoDup (f <$> l) → x ∈ l → y ∈ l → f x = f y → x = y.
Proof.
  induction l as [|a l IH]; [by intros _ ?%elem_of_nil|].
  rewrite fmap_cons, NoDup_cons, !elem_of_cons. intros [Ha Hl] Hx Hy E.
  destruct Hx as [->|Hx], Hy as [->|Hy]; eauto; exfalso; apply Ha.
  - rewrite E. by apply list_elem_of_fmap_2.
  - rewrite <-E. by apply list_elem_of_fmap_2.
Qed.

Lemma filter_all {A} (P : A → Prop) `{!∀ x, Decision (P x)} l : Forall P l → filter P l = l.
Proof. induction 1 as [|x l Hx _ IH]; [done|]. by rewrite filter_cons_True, IH. Qed.

Lemma filter_none {A} (P : A → Prop) `{!∀ x, Decision (P x)} l :
  Forall (λ x, ¬ P x) l → filter P l = [].
Proof. induction 1 as [|x l Hx _ IH]; [done|]. by rewrite filter_cons_False. Qed.

Lemma existsb_false {A} (f : A → bool) l : existsb f l = false ↔ Forall (λ x, f x = false) l.
Proof. induction l; simpl; rewrite ?orb_false_iff, ?Forall_cons; naive_solver. Qed.

Lemma Forall2_elem_l {A B} (R : A → B → Prop) l k x :
  Forall2 R l k → x ∈ l → ∃ y, y ∈ k ∧ R x y.
Proof.
  induction 1 as [|a b l k Hab _ IH]; [by intros ?%elem_of_nil|].
  intros [->|Hx]%elem_of_cons; [exists b|destruct (IH Hx) as (y & ? & ?); exists y];
    split; rewrite ?elem_of_cons; auto.
Qed.

Lemma Forall2_elem_r {A B} (R : A → B → Prop) l k y :
  Forall2 R l k → y ∈ k → ∃ x, x ∈ l ∧ R x y.
Proof. intros H%Forall2_flip. apply (Forall2_elem_l _ _ _ _ H). Qed.

Definition sum_nat (l : list nat) : nat := foldr Nat.add 0 l.

Lemma sum_nat_app l k : sum_nat (l ++ k) = sum_nat l + sum_nat k.
Proof. induction l as [|n l IH]; simpl; [done|]. unfold sum_nat in *. simpl. lia. Qed.

(** ** Sorting *)

Section sorting.
  Context {A : Type} (c : A → A → comparison).

Lemma insert_by_perm x l : insert_by c x l ≡ₚ x :: l.
Proof.
  induction l as [|y l IH]; simpl; [done|].
  case_match; [done|]. rewrite IH. apply Permutation_swap.
Qed.

Lemma sort_by_perm l : sort_by c l ≡ₚ l.
Proof. induction l as [|x l IH]; simpl; [done|]. by rewrite insert_by_perm, IH. Qed.

Lemma sort_by_length l : length (sort_by c l) = length l.
Proof. by rewrite sort_by_perm. Qed.

Lemma elem_of_sort_by x l : x ∈ sort_by c l ↔ x ∈ l.
Proof. by rewrite sort_by_perm. Qed.
End sorting.

Section sorting_key.
  Context {A B : Type} `{OrdLaws B} (f : A → B).

  #[local] Abbreviation le := (λ a b, cmp (f a) (f b) ≠ Gt).
  #[local] Abbreviation c := (cmp_on f).

Lemma le_by_spec a b : le_by c a b = true ↔ le a b.
Proof. unfold le_by, cmp_on. destruct (cmp (f a) (f b)); naive_solver. Qed.

Lemma insert_by_sorted x l :
  StronglySorted le l → StronglySorted le (insert_by c x l).
Proof.
  induction 1 as [|y l Hl IH Hy]; simpl; [repeat constructor|].
  destruct (le_by c x y) eqn:E.
  - apply le_by_spec in E. repeat (constructor; [done..|]).
    constructor; [by constructor|]. constructor; [done|].
    eapply Forall_impl; [exact Hy|]. simpl. eauto using cmp_not_gt_trans.
  - constructor; [done|]. rewrite insert_by_perm. constructor; [|done].
    unfold le_by, cmp_on in E.
    destruct (cmp (f x) (f y)) eqn:E'; simplify_eq.
    apply cmp_gt_lt in E'. by rewrite E'.
Qed.

(** The result is ordered by key. *)
Lemma sort_by_sorted l : StronglySorted le (sort_by c l).
Proof. induction l; simpl; [constructor|]. by apply insert_by_sorted. Qed.

(** With distinct keys, strictly. *)
Lemma sort_by_strict l :
  NoDup (f <$> l) → StronglySorted (λ a b, cmp (f a) (f b) = Lt) (sort_by c l).
Proof.
  intros Hnd. assert (Hnd' : NoDup (f <$> sort_by c l)) by by rewrite sort_by_perm.
  pose proof (sort_by_sorted l) as Hs. induction Hs as [|x k Hk IH Hx]; [constructor|].
  apply NoDup_cons in Hnd' as [Hin Hnd']. constructor; [auto|].
  apply Forall_forall. intros y Hy. eapply Forall_forall in Hx; [|exact Hy].
  destruct (cmp (f x) (f y)) eqn:E; [|done|done].
  apply cmp_eq_iff in E. destruct Hin. rewrite E. by apply list_elem_of_fmap_2.
Qed.

(** Sorting is stable: the elements of one key keep their order. *)
Lemma insert_by_stable `{EqDecision B} k x l :
  filter (λ y, f y = k) (insert_by c x l) = filter (λ y, f y = k) (x :: l).
Proof.
  induction l as [|y l IH]; simpl; [done|].
  destruct (le_by c x y) eqn:E; [done|].
  rewrite !filter_cons in *. rewrite IH.
  repeat case_decide; try done. subst.
  unfold le_by, cmp_on in E. by rewrite (proj2 (cmp_eq_iff _ _)) in E.
Qed.

Lemma sort_by_stable `{EqDecision B} k l :
  filter (λ y, f y = k) (sort_by c l) = filter (λ y, f y = k) l.
Proof.
  induction l as [|x l IH]; simpl; [done|].
  rewrite insert_by_stable, !filter_cons, IH. done.
Qed.

(** Lists with the same elements and pairwise distinct keys sort alike. *)
Lemma sort_by_unique l k :
  l ≡ₚ k → NoDup (f <$> l) → sort_by c l = sort_by c k.
Proof.
  intros Hp Hnd.
  apply (StronglySorted_unique_strong le); [..|apply sort_by_sorted|apply sort_by_sorted|].
  - intros x y Hx Hy Hxy Hyx.
    rewrite elem_of_sort_by in Hx, Hy. rewrite <-Hp in Hy.
    apply (NoDup_fmap_inj_on f l); try done.
    destruct (cmp (f x) (f y)) eqn:E; try done.
    + by apply cmp_eq_iff.
    + rewrite (cmp_antisym (f y)), E in Hyx. done.
  - by rewrite !sort_by_perm.
Qed.

(** When the key tells elements apart, lists with the same elements sort alike. *)
Lemma sort_by_canonical `{!Inj (=) (=) f} l k : l ≡ₚ k → sort_by c l = sort_by c k.
Proof.
  intros Hp. apply (StronglySorted_unique_strong le); [..|apply sort_by_sorted|apply sort_by_sorted|].
  - intros x y _ _ Hxy Hyx. apply (inj f). destruct (cmp (f x) (f y)) eqn:E; try done.
    + by apply cmp_eq_iff.
    + rewrite (cmp_antisym (f y)), E in Hyx. done.
  - by rewrite !sort_by_perm.
Qed.
End sorting_key.

(** ** Strings *)

Lemma of_to_bytes s : of_bytes (to_bytes s) = s.
Proof. induction s; simpl; congruence. Qed.

Lemma to_of_bytes l : to_bytes (of_bytes l) = l.
Proof. induction l; simpl; congruence. Qed.

#[global] Instance to_bytes_inj : Inj (=) (=) to_bytes.
Proof. intros s t E. by rewrite <-(of_to_bytes s), E, of_to_bytes. Qed.

Lemma to_bytes_app s t : to_bytes (s +:+ t) = to_bytes s ++ to_bytes t.
Proof.
  induction s as [|c s IH]; [done|].
  change (String c s +:+ t) with (String c (s +:+ t)). simpl. by rewrite IH.
Qed.

Lemma string_app_nil_r s : s +:+ "" = s.
Proof. apply (inj to_bytes). by rewrite to_bytes_app, app_nil_r. Qed.

Lemma append_cons c s t : String c s +:+ t = String c (s +:+ t).
Proof. done. Qed.

Lemma string_app_inj a b c : a +:+ b = a +:+ c → b = c.
Proof. apply String.app_inj. Qed.

Lemma string_app_assoc a b c : (a +:+ b) +:+ c = a +:+ b +:+ c.
Proof. apply (inj to_bytes). by rewrite !to_bytes_app, app_assoc. Qed.

Lemma starts_with_spec p s : starts_with p s = true ↔ ∃ r, s = p +:+ r.
Proof.
  unfold starts_with. revert s. induction p as [|c p IH]; intros s.
  { split; [by exists s|by destruct s]. }
  destruct s as [|d s]; simpl; [split; [done|by intros [r Hr]]|].
  destruct (ascii_dec c d) as [->|Hne]; [rewrite IH|].
  - split; intros [r Hr]; exists r; rewrite ?append_cons in *; congruence.
  - split; [done|]. intros [r Hr]. rewrite append_cons in Hr. congruence.
Qed.

Lemma any_byte_false f s :
  any_byte f s = false ↔ Forall (λ c, f c = false) (to_bytes s).
Proof.
  unfold any_byte. induction (to_bytes s) as [|c l IH]; simpl; [by split|].
  rewrite orb_false_iff, Forall_cons, IH. done.
Qed.

Lemma any_byte_true f s : any_byte f s = true ↔ ∃ c, c ∈ to_bytes s ∧ f c = true.
Proof.
  unfold any_byte. rewrite existsb_exists. by setoid_rewrite list_elem_of_In.
Qed.

Lemma any_byte_cons f c s : any_byte f (String c s) = f c || any_byte f s.
Proof. done. Qed.

Lemma any_byte_app f s t : any_byte f (s +:+ t) = any_byte f s || any_byte f t.
Proof. unfold any_byte. by rewrite to_bytes_app, existsb_app. Qed.

(** A decimal number has none of the bytes that are not digits. *)
Section digits.
Context (f : ascii → bool) (Hf : any_byte f "0123456789" = false).

Lemma pretty_N_char_clear x : f (pretty_N_char x) = false.
Proof.
  apply any_byte_false in Hf. rewrite Forall_forall in Hf. apply Hf.
  unfold pretty_N_char. repeat case_match; repeat first [apply list_elem_of_here|apply list_elem_of_further].
Qed.

Lemma pretty_N_go_clear x : ∀ s, any_byte f s = false → any_byte f (pretty_N_go x s) = false.
Proof.
  induction (N.lt_wf_0 x) as [x _ IH]. intros s Hs.
  destruct (decide (0 < x)%N) as [Hx|Hx].
  - rewrite pretty_N_go_step by done. apply IH; [apply N.div_lt; lia|].
    by rewrite any_byte_cons, pretty_N_char_clear, Hs.
  - assert (x = 0%N) as -> by lia. by rewrite pretty_N_go_0.
Qed.

Lemma show_nat_clear n : any_byte f (show_nat n) = false.
Proof.
  unfold show_nat, pretty, pretty_nat, pretty, pretty_N. case_decide; [|by apply pretty_N_go_clear].
  apply any_byte_false in Hf. apply any_byte_false. inversion_clear Hf. by repeat constructor.
Qed.
End digits.

(** *** Splitting and joining *)

Lemma split_on_ne f s : split_on f s ≠ [].
Proof. destruct s; simpl; [done|]. split_cases. Qed.

(** No piece contains a separator. *)
Lemma split_on_pieces f s : Forall (λ p, any_byte f p = false) (split_on f s).
Proof.
  induction s as [|c s IH]; simpl; [by repeat constructor|].
  destruct (f c) eqn:Ec; [by constructor|].
  destruct (split_on f s) as [|p ps] eqn:E; [by apply split_on_ne in E|].
  inversion_clear IH as [|?? Hp Hps]. constructor; [|done].
  unfold any_byte in *. simpl. by rewrite Ec, Hp.
Qed.

Lemma split_on_none f s : any_byte f s = false → split_on f s = [s].
Proof.
  induction s as [|c s IH]; simpl; [done|].
  unfold any_byte. simpl. rewrite orb_false_iff. intros [-> Hs].
  by rewrite (IH Hs).
Qed.

Lemma split_on_app f s c t :
  any_byte f s = false → f c = true →
  split_on f (s +:+ String c t) = s :: split_on f t.
Proof.
  intros Hs Hc. induction s as [|d s IH].
  { change ("" +:+ String c t) with (String c t). simpl. by rewrite Hc. }
  rewrite append_cons. simpl. unfold any_byte in Hs. simpl in Hs.
  apply orb_false_iff in Hs as [-> Hs]. by rewrite (IH Hs).
Qed.

Lemma join_cons sep p q l : join sep (p :: q :: l) = p +:+ sep +:+ join sep (q :: l).
Proof. done. Qed.

(** Joining separator-free pieces and splitting again gives the pieces. *)
Lemma split_join f c l :
  f c = true → l ≠ [] → Forall (λ p, any_byte f p = false) l →
  split_on f (join (String c "") l) = l.
Proof.
  intros Hc. induction l as [|p [|q l] IH]; intros Hne Hl; [done|..].
  - inversion_clear Hl. by apply split_on_none.
  - inversion_clear Hl as [|?? Hp Hl']. rewrite join_cons.
    change (String c "" +:+ join (String c "") (q :: l))
      with (String c (join (String c "") (q :: l))).
    rewrite split_on_app by done. f_equal. by apply IH.
Qed.

(** Splitting at one byte and joining with it restores the string. *)
Lemma join_split d s : join (String d "") (split_on (is_char d) s) = s.
Proof.
  induction s as [|c s IH]; [done|]. simpl.
  destruct (split_on (is_char d) s) as [|p ps] eqn:E; [by apply split_on_ne in E|].
  unfold is_char at 1. destruct (Ascii.eqb_spec d c) as [->|Hne].
  - rewrite join_cons. by rewrite IH.
  - destruct ps as [|q ps]; [by simpl in *; congruence|].
    rewrite join_cons in *. by rewrite append_cons, IH.
Qed.

Lemma split_once_Some d s a b :
  split_once d s = Some (a, b) → s = a +:+ String d b ∧ any_byte (is_char d) a = false.
Proof.
  revert a. induction s as [|c s IH]; intros a; simpl; [done|].
  destruct (Ascii.eqb_spec d c) as [->|Hne]; [by intros [= <- <-]|].
  destruct (split_once d s) as [[a' b']|]; [|done]. intros [= <- <-].
  destruct (IH a' eq_refl) as [-> Ha]. split; [done|].
  rewrite any_byte_cons, Ha. unfold is_char. by apply Ascii.eqb_neq in Hne as ->.
Qed.

Lemma split_once_app d a b :
  any_byte (is_char d) a = false → split_once d (a +:+ String d b) = Some (a, b).
Proof.
  induction a as [|c a IH]; intros Ha.
  { change ("" +:+ String d b) with (String d b). simpl. by rewrite Ascii.eqb_refl. }
  rewrite any_byte_cons in Ha. apply orb_false_iff in Ha as [Hc Ha].
  rewrite append_cons. simpl. unfold is_char in Hc. by rewrite Hc, (IH Ha).
Qed.

(** The part before the first, or after the last, of a byte is unique. *)
Lemma split_first_inj d a b a' b' :
  any_byte (is_char d) a = false → any_byte (is_char d) a' = false →
  a +:+ String d b = a' +:+ String d b' → a = a' ∧ b = b'.
Proof.
  intros Ha Ha' E. apply (split_once_app d a b) in Ha.
  apply (split_once_app d a' b') in Ha'. rewrite E, Ha' in Ha. by simplify_eq.
Qed.

Lemma split_last_inj d a b a' b' :
  any_byte (is_char d) b = false → any_byte (is_char d) b' = false →
  a +:+ String d b = a' +:+ String d b' → a = a' ∧ b = b'.
Proof.
  assert (Hin : ∀ c s t, t = c +:+ String d s → any_byte (is_char d) t = true).
  { intros c s t ->. apply any_byte_true. exists d. rewrite to_bytes_app. split; [set_solver|].
    apply Ascii.eqb_refl. }
  intros Hb Hb'. revert a'. induction a as [|x a IH]; intros [|x' a'] E.
  - by injection E.
  - injection E as _ E. apply Hin in E. congruence.
  - injection E as _ E. symmetry in E. apply Hin in E. congruence.
  - injection E as -> E. apply IH in E as [-> ->]. done.
Qed.

Lemma split_once_None d s : split_once d s = None ↔ any_byte (is_char d) s = false.
Proof.
  induction s as [|c s IH]; simpl; [done|].
  rewrite any_byte_cons. unfold is_char at 1.
  destruct (Ascii.eqb d c); [done|]. simpl. rewrite <-IH.
  destruct (split_once d s) as [[]|]; done.
Qed.

(** *** Decimal numbers *)

Lemma parse_digits_bound max acc s n :
  (acc <= max)%N → parse_digits max acc s = Some n → (n <= max)%N.
Proof.
  revert acc. induction s as [|c s IH]; intros acc Hacc; simpl; [by intros [= <-]|].
  destruct (digit_value c) as [d|]; simpl; [|done].
  case_decide; [|done]. eauto.
Qed.

Lemma parse_unsigned_bound max s n : parse_unsigned max s = Some n → (n <= max)%N.
Proof.
  destruct s as [|c s]; [done|]. unfold parse_unsigned.
  destruct (Ascii.eqb c "+").
  - destruct s; [done|]. apply parse_digits_bound. lia.
  - apply parse_digits_bound. lia.
Qed.

Lemma checked_add_u64_Some a b n :
  checked_add_u64 a b = Some n ↔ n = (a + b)%N ∧ (a + b <= u64_max)%N.
Proof. unfold checked_add_u64. case_decide; naive_solver. Qed.

(** *** Adjacent duplicates *)

Lemma dedup_cons {A} `{EqDecision A} (x y : A) l :
  dedup (x :: y :: l) = if decide (x = y) then dedup (y :: l) else x :: dedup (y :: l).
Proof. done. Qed.

Lemma dedup_spec {A} `{EqDecision A} (l : list A) :
  (∀ x, x ∈ dedup l ↔ x ∈ l) ∧ head (dedup l) = head l.
Proof.
  induction l as [|x [|y l] [IH IHh]]; [by (split; [intros ?|])|by (split; [intros ?; cbn [dedup]|])|].
  rewrite dedup_cons. case_decide as E.
  - subst. split; [|done]. intros z. rewrite IH, !elem_of_cons. tauto.
  - split; [|done]. intros z. specialize (IH z).
    rewrite (elem_of_cons (dedup (y :: l))), (elem_of_cons (y :: l)), IH. done.
Qed.

Lemma dedup_sorted (l : list string) :
  StronglySorted (λ a b, cmp a b ≠ Gt) l → StronglySorted (λ a b, cmp a b = Lt) (dedup l).
Proof.
  induction 1 as [|x l Hl IH Hx]; [constructor|].
  destruct l as [|y l]; [repeat constructor|]. rewrite dedup_cons.
  case_decide as E; [done|]. constructor; [done|]. apply Forall_forall.
  intros z Hz%(proj1 (dedup_spec (y :: l)) z).
  assert (Hxy : cmp x y = Lt).
  { rewrite Forall_cons in Hx. destruct Hx as [Hx _].
    destruct (cmp x y) eqn:C; [by apply cmp_eq_iff in C|done|done]. }
  rewrite elem_of_cons in Hz. destruct Hz as [->|Hz]; [done|].
  apply StronglySorted_inv in Hl as [_ Hy]. eapply Forall_forall in Hy; [|exact Hz].
  destruct (cmp y z) eqn:C; [|by eapply cmp_lt_trans|done].
  by apply cmp_eq_iff in C as <-.
Qed.

#[export] Hint Resolve cmp_refl parse_unsigned_bound sort_by_perm : archive.
