(* ===== verification/BTree.v ===== *)
(** * Ordered maps and sets

    Rust's [BTreeMap] as an association list kept in ascending key order.
    The program relies on three features of it that an unordered map does
    not have: iteration is in key order ([into_values], [keys]), [collect]
    and [from_iter] keep the last value of a repeated key, and two maps with
    the same entries are equal.  The ordering invariant [bt_wf] is proved for
    every operation, and [bt_ext] is the extensionality principle. *)

From S2P Require Import Prelude.

Section btree.
  Context {K V : Type} `{Ord K}.

(** [BTreeMap::get]. *)
Fixpoint bt_get (k : K) (m : list (K * V)) : option V :=
  match m with
  | [] => None
  | (k', v) :: m' =>
      match cmp k k' with
      | Lt => None
      | Eq => Some v
      | Gt => bt_get k m'
      end
  end.

(** The [entry] API: replace the value of [k], present or absent, by
    [f] of its current value. *)
Fixpoint bt_upd (k : K) (f : option V → V) (m : list (K * V)) : list (K * V) :=
  match m with
  | [] => [(k, f None)]
  | (k', v) :: m' =>
      match cmp k k' with
      | Lt => (k, f None) :: (k', v) :: m'
      | Eq => (k, f (Some v)) :: m'
      | Gt => (k', v) :: bt_upd k f m'
      end
  end.

(** [BTreeMap::insert]. *)
Definition bt_insert (k : K) (v : V) : list (K * V) → list (K * V) :=
  bt_upd k (λ _, v).

(** [BTreeMap::remove]. *)
Fixpoint bt_remove (k : K) (m : list (K * V)) : list (K * V) :=
  match m with
  | [] => []
  | (k', v) :: m' =>
      match cmp k k' with
      | Lt => (k', v) :: m'
      | Eq => m'
      | Gt => (k', v) :: bt_remove k m'
      end
  end.

(** [FromIterator]: insertion in iteration order, so the last value of a
    repeated key stays. *)
Definition bt_of_list (l : list (K * V)) : list (K * V) :=
  foldl (λ m kv, bt_insert kv.1 kv.2 m) [] l.

Definition bt_keys (m : list (K * V)) : list K := m.*1.
(** [into_values]. *)
Definition bt_values (m : list (K * V)) : list V := m.*2.
Definition bt_mem (k : K) (m : list (K * V)) : bool :=
  match bt_get k m with Some _ => true | None => false end.

(** A loop over [iter_mut]. *)
Definition bt_map (f : K → V → V) (m : list (K * V)) : list (K * V) :=
  (λ kv, (kv.1, f kv.1 kv.2)) <$> m.

Definition key_lt (p q : K * V) : Prop := cmp p.1 q.1 = Lt.

(** The representation invariant: keys strictly ascending. *)
Definition bt_wf (m : list (K * V)) : Prop := StronglySorted key_lt m.
End btree.

(** [BTreeSet] is a [BTreeMap] with unit values. *)
Definition bset_insert {K} `{Ord K} (k : K) : list (K * unit) → list (K * unit) :=
  bt_insert k tt.
Definition bset_of_list {K} `{Ord K} (l : list K) : list (K * unit) :=
  bt_of_list ((., tt) <$> l).

Section btree_laws.
  Context {K V : Type} `{OrdLaws K}.
  Implicit Types (m : list (K * V)) (k : K).

Lemma cmp_case k k' :
  (cmp k k' = Lt ∧ k ≠ k') ∨ (cmp k k' = Eq ∧ k = k') ∨ (cmp k k' = Gt ∧ k ≠ k').
Proof.
  destruct (cmp k k') eqn:E.
  - right; left. by rewrite <-cmp_eq_iff.
  - left. split; [done|]. intros ->. by rewrite cmp_refl in E.
  - right; right. split; [done|]. intros ->. by rewrite cmp_refl in E.
Qed.

Lemma key_lt_trans (p q r : K * V) : key_lt p q → key_lt q r → key_lt p r.
Proof. unfold key_lt. apply cmp_lt_trans. Qed.

Lemma bt_wf_cons p m : bt_wf (p :: m) ↔ Forall (key_lt p) m ∧ bt_wf m.
Proof.
  split; [by intros Hm; inversion_clear Hm|].
  intros [??]. by constructor.
Qed.

Lemma bt_get_below k m : Forall (λ q, cmp k q.1 = Lt) m → bt_get k m = None.
Proof.
  destruct m as [|[k' v] m]; simpl; [done|].
  intros [Hk _]%Forall_cons. simpl in Hk. by rewrite Hk.
Qed.

Lemma bt_get_cons_lt p m k :
  bt_wf (p :: m) → cmp k p.1 = Lt → bt_get k m = None.
Proof.
  intros [Hp _]%bt_wf_cons Hk. apply bt_get_below.
  eapply Forall_impl; [exact Hp|]. unfold key_lt. simpl. eauto using cmp_lt_trans.
Qed.

Lemma bt_get_cons p m k :
  bt_wf (p :: m) →
  bt_get k (p :: m) = match cmp k p.1 with Eq => Some p.2 | _ => bt_get k m end.
Proof.
  intros Hm. destruct p as [k' v]. simpl in *.
  destruct (cmp k k') eqn:E; [done| |done].
  symmetry. by apply (bt_get_cons_lt (k', v)).
Qed.

(** *** Lookup laws *)

Lemma bt_get_upd_eq k f m : bt_wf m → bt_get k (bt_upd k f m) = Some (f (bt_get k m)).
Proof.
  induction m as [|[k' v] m IH]; simpl; intros Hm; [by rewrite cmp_refl|].
  apply bt_wf_cons in Hm as [Hp Hm].
  destruct (cmp_case k k') as [[E ?]|[[E ->]|[E ?]]]; rewrite E; simpl;
    rewrite ?cmp_refl, ?E; eauto.
Qed.

Lemma bt_get_upd_ne k k' f m :
  bt_wf m → k ≠ k' → bt_get k' (bt_upd k f m) = bt_get k' m.
Proof.
  induction m as [|[k1 v] m IH]; intros Hm Hne.
  { simpl. destruct (cmp_case k' k) as [[-> ?]|[[? ->]|[-> ?]]]; done. }
  assert (Hm' := Hm). apply bt_wf_cons in Hm as [Hp Hm]. simpl.
  destruct (cmp_case k k1) as [[E ?]|[[E ->]|[E ?]]]; rewrite E.
  - simpl. destruct (cmp_case k' k) as [[E' ?]|[[? ->]|[E' ?]]]; [|done|by rewrite E'].
    rewrite E'. by rewrite (cmp_lt_trans k' k k1).
  - simpl. by destruct (cmp_case k' k1) as [[-> ?]|[[? ->]|[-> ?]]].
  - simpl. destruct (cmp k' k1); eauto.
Qed.

Lemma bt_get_upd k k' f m `{EqDecision K} :
  bt_wf m →
  bt_get k' (bt_upd k f m) = if decide (k = k') then Some (f (bt_get k m)) else bt_get k' m.
Proof.
  intros. case_decide; subst; [by apply bt_get_upd_eq|by apply bt_get_upd_ne].
Qed.

Lemma bt_upd_Forall k f m (P : K * V → Prop) :
  P (k, f (bt_get k m)) → bt_wf m → Forall P m → Forall P (bt_upd k f m).
Proof.
  induction m as [|[k' v] m IH]; simpl; intros Hk Hm HP; [by repeat constructor|].
  apply bt_wf_cons in Hm as [? ?]. apply Forall_cons in HP as [? ?].
  destruct (cmp_case k k') as [[E ?]|[[E ->]|[E ?]]]; rewrite E in *;
    repeat constructor; eauto.
Qed.

Lemma bt_upd_wf k f m : bt_wf m → bt_wf (bt_upd k f m).
Proof.
  induction m as [|[k' v] m IH]; intros Hm; [by repeat constructor|].
  assert (Hm' := Hm). apply bt_wf_cons in Hm as [Hp Hm]. simpl.
  destruct (cmp_case k k') as [[E ?]|[[E ->]|[E ?]]]; rewrite E.
  - apply bt_wf_cons. split; [|done]. constructor; [done|].
    eapply Forall_impl; [exact Hp|]. intros q. by apply key_lt_trans.
  - apply bt_wf_cons. split; [|done]. eapply Forall_impl; [exact Hp|]. done.
  - apply bt_wf_cons. split; [|by apply IH].
    apply bt_upd_Forall; [|done|done]. unfold key_lt; simpl. by apply cmp_gt_lt.
Qed.

Lemma bt_insert_wf k v m : bt_wf m → bt_wf (bt_insert k v m).
Proof. apply bt_upd_wf. Qed.

Lemma bt_get_insert k k' v m `{EqDecision K} :
  bt_wf m → bt_get k' (bt_insert k v m) = if decide (k = k') then Some v else bt_get k' m.
Proof. apply bt_get_upd. Qed.

Lemma bt_remove_Forall k m (P : K * V → Prop) : Forall P m → Forall P (bt_remove k m).
Proof.
  induction 1 as [|[k' v] m]; simpl; [done|]. by case_match; repeat constructor.
Qed.

Lemma bt_remove_wf k m : bt_wf m → bt_wf (bt_remove k m).
Proof.
  induction m as [|[k' v] m IH]; [done|]. intros Hm. assert (Hm' := Hm).
  apply bt_wf_cons in Hm as [Hp Hm]. simpl. case_match; [done..|].
  apply bt_wf_cons. split; [by apply bt_remove_Forall|eauto].
Qed.

Lemma bt_get_remove k k' m `{EqDecision K} :
  bt_wf m → bt_get k' (bt_remove k m) = if decide (k = k') then None else bt_get k' m.
Proof.
  induction m as [|[k1 v] m IH]; intros Hm; [by case_decide|].
  assert (Hm' := Hm). apply bt_wf_cons in Hm as [Hp Hm]. simpl.
  destruct (cmp_case k k1) as [[E ?]|[[E ->]|[E ?]]]; rewrite E.
  - case_decide; [subst|done]. simpl. by rewrite E.
  - case_decide; [subst; by apply (bt_get_below k'), Hp|].
    destruct (cmp_case k' k1) as [[E' ?]|[[? ->]|[-> ?]]]; [rewrite E'|done|done].
    by apply (bt_get_cons_lt (k1, v)).
  - simpl. rewrite IH by done.
    destruct (cmp_case k' k1) as [[E' ?]|[[E' ->]|[E' ?]]]; rewrite E';
      case_decide; simplify_eq; try done.
Qed.

(** *** Keys, values and extensionality *)

Lemma bt_get_elem k v m : bt_wf m → bt_get k m = Some v ↔ (k, v) ∈ m.
Proof.
  induction m as [|[k' v'] m IH]; intros Hm.
  { simpl. split; [done|by intros ?%elem_of_nil]. }
  assert (Hm' := Hm). apply bt_wf_cons in Hm as [Hp Hm].
  rewrite bt_get_cons, elem_of_cons by done. simpl. rewrite <-IH by done.
  destruct (cmp_case k k') as [[E ?]|[[E ->]|[E ?]]]; rewrite E; [naive_solver| |naive_solver].
  split; [naive_solver|]. intros [?|Hg]; [naive_solver|].
  by rewrite (bt_get_below k' m Hp) in Hg.
Qed.

Lemma bt_keys_get k m : bt_wf m → k ∈ bt_keys m ↔ is_Some (bt_get k m).
Proof.
  intros Hm. unfold bt_keys. rewrite list_elem_of_fmap. split.
  - intros [[k' v] [-> Hv]]. exists v. by apply bt_get_elem.
  - intros [v Hv%bt_get_elem]; [|done]. by exists (k, v).
Qed.

Lemma bt_keys_sorted m : bt_wf m → StronglySorted (λ a b, cmp a b = Lt) (bt_keys m).
Proof.
  induction 1 as [|p m Hm IH Hp]; simpl; constructor; [done|].
  apply Forall_fmap. eapply Forall_impl; [exact Hp|]. done.
Qed.

Lemma bt_keys_NoDup m : bt_wf m → NoDup (bt_keys m).
Proof.
  induction 1 as [|p m Hm IH Hp]; simpl; constructor; [|done].
  unfold bt_keys. rewrite list_elem_of_fmap. intros [q [E Hq]].
  eapply Forall_forall in Hp; [|exact Hq]. unfold key_lt in Hp.
  by rewrite E, cmp_refl in Hp.
Qed.

Lemma bt_values_get v m : bt_wf m → v ∈ bt_values m ↔ ∃ k, bt_get k m = Some v.
Proof.
  intros Hm. unfold bt_values. rewrite list_elem_of_fmap. split.
  - intros [[k v'] [-> Hv]]. exists k. by apply bt_get_elem.
  - intros [k Hk%bt_get_elem]; [|done]. by exists (k, v).
Qed.

Lemma bt_mem_spec k m : bt_mem k m = true ↔ is_Some (bt_get k m).
Proof. unfold bt_mem. destruct (bt_get k m); naive_solver. Qed.

Lemma bt_get_tail p m k :
  bt_wf (p :: m) → k ≠ p.1 → bt_get k (p :: m) = bt_get k m.
Proof.
  intros Hm Hk. rewrite bt_get_cons by done.
  by destruct (cmp_case k p.1) as [[-> ?]|[[? ->]|[-> ?]]].
Qed.

Lemma bt_get_head p m : bt_get p.1 (p :: m) = Some p.2.
Proof. destruct p as [k v]. simpl. by rewrite cmp_refl. Qed.

(** Two maps with the same entries are the same list. *)
Lemma bt_ext m1 m2 :
  bt_wf m1 → bt_wf m2 → (∀ k, bt_get k m1 = bt_get k m2) → m1 = m2.
Proof.
  intros H1 H2 E.
  apply (StronglySorted_unique_strong key_lt); [|done|done|].
  - intros p q _ _ Hpq Hqp. exfalso. unfold key_lt in *.
    assert (cmp p.1 p.1 = Lt) as Hc by eauto using cmp_lt_trans.
    by rewrite cmp_refl in Hc.
  - apply NoDup_Permutation.
    + by apply (NoDup_fmap_1 fst), bt_keys_NoDup.
    + by apply (NoDup_fmap_1 fst), bt_keys_NoDup.
    + intros [k v]. rewrite <-!bt_get_elem by done. by rewrite E.
Qed.

Lemma bt_upd_id k f m :
  bt_wf m → bt_get k m = Some (f (bt_get k m)) → bt_upd k f m = m.
Proof.
  intros Hm E. apply bt_ext; [by apply bt_upd_wf|done|]. intros k'.
  destruct (cmp_case k k') as [[_ ?]|[[_ <-]|[_ ?]]].
  - by rewrite bt_get_upd_ne.
  - by rewrite bt_get_upd_eq.
  - by rewrite bt_get_upd_ne.
Qed.

(** *** [iter_mut] and [collect] *)

(** A sum over the values changes by the one that is updated. *)
Lemma bt_upd_sum (w : V → nat) k f m :
  sum_nat (w <$> bt_values (bt_upd k f m)) + from_option w 0 (bt_get k m) =
  sum_nat (w <$> bt_values m) + w (f (bt_get k m)).
Proof.
  unfold bt_values, sum_nat. induction m as [|[k' v] m IH]; csimpl; [lia|].
  destruct (cmp k k'); csimpl; lia.
Qed.

(** An update by a function, or by the value it would compute. *)
Lemma bt_upd_const k f m :
  bt_wf m → bt_upd k (λ _, f (bt_get k m)) m = bt_upd k f m.
Proof.
  intros Hm. apply bt_ext; [by apply bt_upd_wf..|]. intros k'.
  destruct (cmp_case k k') as [[_ ?]|[[_ <-]|[_ ?]]].
  - by rewrite !bt_get_upd_ne.
  - by rewrite !bt_get_upd_eq.
  - by rewrite !bt_get_upd_ne.
Qed.

Lemma bt_get_map k f m : bt_get k (bt_map f m) = f k <$> bt_get k m.
Proof.
  induction m as [|[k' v] m IH]; simpl; [done|].
  destruct (cmp k k') eqn:E; simpl; [|done|done].
  by apply cmp_eq_iff in E as ->.
Qed.

Lemma bt_map_keys f m : bt_keys (bt_map f m) = bt_keys m.
Proof. unfold bt_keys, bt_map. rewrite <-list_fmap_compose. by apply list_fmap_ext. Qed.

Lemma bt_map_wf f m : bt_wf m → bt_wf (bt_map f m).
Proof.
  induction 1 as [|p m Hm IH Hp]; simpl; constructor; [done|].
  apply Forall_fmap. eapply Forall_impl; [exact Hp|]. done.
Qed.

Lemma bt_fold_insert_wf (l : list (K * V)) m :
  bt_wf m → bt_wf (foldl (λ m kv, bt_insert kv.1 kv.2 m) m l).
Proof. revert m. induction l; simpl; eauto using bt_insert_wf. Qed.

(** Strictly sorted lists with the same elements are equal. *)
Lemma strictly_sorted_ext (l k : list K) :
  StronglySorted (λ a b, cmp a b = Lt) l → StronglySorted (λ a b, cmp a b = Lt) k →
  (∀ x, x ∈ l ↔ x ∈ k) → l = k.
Proof.
  assert (Hnd : ∀ l, StronglySorted (λ a b : K, cmp a b = Lt) l → NoDup l).
  { induction 1 as [|x l' _ IH Hx]; constructor; [|done]. intros Hin.
    rewrite Forall_forall in Hx. specialize (Hx x Hin). by rewrite cmp_refl in Hx. }
  intros Hl Hk Hx. apply (StronglySorted_unique_strong (λ a b, cmp a b = Lt)); [|done..|].
  - intros x y _ _ Hxy Hyx. by rewrite cmp_antisym, Hyx in Hxy.
  - by apply NoDup_Permutation; [apply Hnd..|].
Qed.

(** The values, through the keys. *)
Lemma bt_values_keys m : bt_wf m → bt_values m = omap (λ k, bt_get k m) (bt_keys m).
Proof.
  intros Hm. unfold bt_values, bt_keys.
  assert (H' : ∀ m', (∀ p, p ∈ m' → bt_get p.1 m = Some p.2) →
    m'.*2 = omap (λ k, bt_get k m) m'.*1).
  { induction m' as [|p m' IH]; intros Hp; [done|]. rewrite !fmap_cons. simpl.
    rewrite (Hp p) by (apply elem_of_cons; by left). f_equal. apply IH.
    intros q Hq. apply Hp, elem_of_cons. by right. }
  apply H'. intros [k v] Hin. by apply bt_get_elem.
Qed.

Lemma bt_of_list_wf (l : list (K * V)) : bt_wf (bt_of_list l).
Proof. apply bt_fold_insert_wf. constructor. Qed.

Lemma bt_of_list_snoc (l : list (K * V)) k v :
  bt_of_list (l ++ [(k, v)]) = bt_insert k v (bt_of_list l).
Proof. unfold bt_of_list. by rewrite foldl_app. Qed.

Lemma bt_of_list_keys (l : list (K * V)) k :
  is_Some (bt_get k (bt_of_list l)) ↔ k ∈ l.*1.
Proof.
  induction l as [|[k' v] l IH] using rev_ind.
  { simpl. split; [by intros [? ?]|by intros ?%elem_of_nil]. }
  rewrite bt_of_list_snoc, fmap_app, elem_of_app, <-IH. simpl.
  rewrite list_elem_of_singleton. unfold bt_insert.
  assert (Hwf := bt_of_list_wf l).
  destruct (cmp_case k' k) as [[_ ?]|[[_ <-]|[_ ?]]].
  - rewrite bt_get_upd_ne by done. naive_solver.
  - rewrite bt_get_upd_eq by done. naive_solver.
  - rewrite bt_get_upd_ne by done. naive_solver.
Qed.

(** Without repeated keys, every pair is found. *)
Lemma bt_of_list_get (l : list (K * V)) k v :
  NoDup l.*1 → bt_get k (bt_of_list l) = Some v ↔ (k, v) ∈ l.
Proof.
  induction l as [|[k' v'] l IH] using rev_ind; intros Hnd.
  { simpl. split; [done|by intros ?%elem_of_nil]. }
  rewrite fmap_app in Hnd. apply NoDup_app in Hnd as (Hnd & Hk & _).
  rewrite bt_of_list_snoc, elem_of_app, list_elem_of_singleton, <-IH by done.
  unfold bt_insert. assert (Hwf := bt_of_list_wf l).
  destruct (cmp_case k' k) as [[_ ?]|[[_ <-]|[_ ?]]].
  - rewrite bt_get_upd_ne by done. naive_solver.
  - rewrite bt_get_upd_eq by done. split; [naive_solver|].
    intros [Hg|?]; [|naive_solver]. exfalso. apply (Hk k'); [|set_solver].
    apply bt_of_list_keys. by exists v.
  - rewrite bt_get_upd_ne by done. naive_solver.
Qed.

(** The order of the pairs does not matter when keys are distinct. *)
Lemma bt_of_list_perm (l l' : list (K * V)) :
  l ≡ₚ l' → NoDup l.*1 → bt_of_list l = bt_of_list l'.
Proof.
  intros Hp Hnd. apply bt_ext; [apply bt_of_list_wf..|]. intros k.
  assert (Hnd' : NoDup l'.*1) by by rewrite <-Hp.
  apply option_eq. intros v. by rewrite !bt_of_list_get, Hp.
Qed.

(** Collecting an ordered list gives the list back. *)
Lemma bt_of_list_id m : bt_wf m → bt_of_list m = m.
Proof.
  intros Hm. apply bt_ext; [apply bt_of_list_wf|done|]. intros k.
  apply option_eq. intros v. rewrite bt_of_list_get, bt_get_elem; [done|done|].
  by apply bt_keys_NoDup.
Qed.
End btree_laws.

(** *** Sets *)

Lemma bset_mem {K} `{OrdLaws K} (k : K) (l : list K) :
  bt_mem k (bset_of_list l) = true ↔ k ∈ l.
Proof.
  rewrite bt_mem_spec. unfold bset_of_list. rewrite bt_of_list_keys.
  rewrite <-list_fmap_compose. by rewrite list_fmap_id.
Qed.

#[export] Hint Resolve bt_upd_wf bt_insert_wf bt_remove_wf bt_map_wf bt_of_list_wf : archive.
#[export] Hint Extern 1 (bt_wf []) => constructor : archive.

Lemma bset_insert_keys {K} `{OrdLaws K, !EqDecision K} (k x : K) (m : list (K * unit)) :
  bt_wf m → x ∈ bt_keys (bset_insert k m) ↔ x = k ∨ x ∈ bt_keys m.
Proof.
  intros Hm. unfold bset_insert. rewrite !bt_keys_get by eauto using bt_insert_wf.
  rewrite (bt_get_insert k x tt m Hm). case_decide; naive_solver.
Qed.

Lemma bset_keys {K} `{OrdLaws K} (k : K) (l : list K) : k ∈ bt_keys (bset_of_list l) ↔ k ∈ l.
Proof.
  rewrite bt_keys_get by apply bt_of_list_wf. by rewrite <-bt_mem_spec, bset_mem.
Qed.
