(* ===== verification/ImportState.v ===== *)
(** * The durable import state machine ([receipt/state.rs])

    The eleven stages of an import run, their database spellings, and
    [advance], the one declaration of which stage changes are legal.  The
    abstract specification is the step relation [legal_step]; the theorems
    show that [advance] implements it, that every sequence of accepted
    changes is one of the declared chains, and that it stops. *)

From S2P Require Import Prelude.

(** One durable stage of an import run. *)
Inductive import_state : Set :=
| Received | Hashed | Stored | Inspected | Parsed | Reconciled
| Completed | Partial | Failed | Duplicate | Quarantined.

#[global] Instance import_state_eq_dec : EqDecision import_state.
Proof. solve_decision. Defined.

(** Why a stage change was refused. *)
Inductive transition_error : Set :=
| AlreadyTerminal (current : import_state)
| IllegalJump (current target : import_state).

#[global] Instance transition_error_eq_dec : EqDecision transition_error.
Proof. solve_decision. Defined.

Definition is_terminal (s : import_state) : bool :=
  match s with
  | Completed | Partial | Failed | Duplicate | Quarantined => true
  | _ => false
  end.

Definition state_as_str (s : import_state) : string :=
  match s with
  | Received => "received"
  | Hashed => "hashed"
  | Stored => "stored"
  | Inspected => "inspected"
  | Parsed => "parsed"
  | Reconciled => "reconciled"
  | Completed => "completed"
  | Partial => "partial"
  | Failed => "failed"
  | Duplicate => "duplicate"
  | Quarantined => "quarantined"
  end.

Definition all_states : list import_state :=
  [Received; Hashed; Stored; Inspected; Parsed; Reconciled;
   Completed; Partial; Failed; Duplicate; Quarantined].

Definition state_parse (spelling : string) : option import_state :=
  if String.eqb spelling "received" then Some Received
  else if String.eqb spelling "hashed" then Some Hashed
  else if String.eqb spelling "stored" then Some Stored
  else if String.eqb spelling "inspected" then Some Inspected
  else if String.eqb spelling "parsed" then Some Parsed
  else if String.eqb spelling "reconciled" then Some Reconciled
  else if String.eqb spelling "completed" then Some Completed
  else if String.eqb spelling "partial" then Some Partial
  else if String.eqb spelling "failed" then Some Failed
  else if String.eqb spelling "duplicate" then Some Duplicate
  else if String.eqb spelling "quarantined" then Some Quarantined
  else None.

(** [ImportState::advance]. *)
Definition advance (self target : import_state) : result transition_error import_state :=
  if is_terminal self then Err (AlreadyTerminal self)
  else
    let legal :=
      match self, target with
      | Received, Hashed => true
      | Hashed, (Stored | Duplicate) => true
      | Stored, Inspected => true
      | Inspected, Parsed => true
      | Parsed, Reconciled => true
      | Reconciled, (Completed | Partial) => true
      | _, Failed => true
      | _, _ => false
      end in
    if legal then Ok target else Err (IllegalJump self target).

(** A run that asks for the stages [targets] in turn, stopping at the first
    refusal. *)
Fixpoint advance_all (self : import_state) (targets : list import_state)
    : result transition_error import_state :=
  match targets with
  | [] => Ok self
  | t :: ts =>
      match advance self t with
      | Ok s => advance_all s ts
      | Err e => Err e
      end
  end.

(** ** Specification *)

(** The chain the documentation draws, one step at a time. *)
Inductive legal_step : import_state → import_state → Prop :=
| step_hash : legal_step Received Hashed
| step_store : legal_step Hashed Stored
| step_duplicate : legal_step Hashed Duplicate
| step_inspect : legal_step Stored Inspected
| step_parse : legal_step Inspected Parsed
| step_reconcile : legal_step Parsed Reconciled
| step_complete : legal_step Reconciled Completed
| step_partial : legal_step Reconciled Partial
| step_fail s : is_terminal s = false → legal_step s Failed.

(** How many steps of the chain lie behind a stage. *)
Definition rank (s : import_state) : nat :=
  match s with
  | Received => 0 | Hashed => 1 | Stored => 2 | Inspected => 3 | Parsed => 4
  | Reconciled => 5
  | Completed | Partial | Failed | Duplicate | Quarantined => 6
  end.

(** The stages of a run that finishes whole, without its start. *)
Definition full_chain : list import_state :=
  [Hashed; Stored; Inspected; Parsed; Reconciled].

(** ** Lemmas *)

#[export] Hint Constructors legal_step : archive.

Lemma advance_legal s t s' : advance s t = Ok s' ↔ legal_step s t ∧ s' = t.
Proof.
  split.
  - destruct s, t; intros H; vm_compute in H; simplify_eq; (split; [by constructor|done]).
  - intros [Hstep ->]. destruct Hstep as [| | | | | | | |s Hs]; [done..|].
    by destruct s.
Qed.

Lemma legal_step_rank s t : legal_step s t → rank s < rank t.
Proof. destruct 1 as [| | | | | | | |s Hs]; simpl; [lia..|]. destruct s; simpl in *; try done; lia. Qed.

Lemma legal_step_source s t : legal_step s t → is_terminal s = false.
Proof. by destruct 1. Qed.

Lemma advance_all_cons s t ts s' :
  advance_all s (t :: ts) = Ok s' ↔ legal_step s t ∧ advance_all t ts = Ok s'.
Proof.
  simpl. destruct (advance s t) as [u|e] eqn:E.
  - apply advance_legal in E as [? ->]. naive_solver.
  - split; [done|]. intros [Hs _].
    assert (advance s t = Ok t) as E' by by apply advance_legal. congruence.
Qed.

Lemma advance_all_rank s ts s' :
  advance_all s ts = Ok s' → rank s + length ts <= rank s'.
Proof.
  revert s. induction ts as [|t ts IH]; intros s.
  { simpl. intros [= ->]. lia. }
  rewrite advance_all_cons. intros [?%legal_step_rank ?%IH]. simpl. lia.
Qed.

Lemma advance_all_terminal s ts s' :
  is_terminal s = true → advance_all s ts = Ok s' → ts = [] ∧ s' = s.
Proof.
  intros Hs. destruct ts as [|t ts]; [by intros [= ->]|].
  rewrite advance_all_cons. intros [Hl%legal_step_source _]. congruence.
Qed.

(** ** Properties *)

(** [advance] implements the declared machine: it accepts exactly the
    steps of [legal_step] and returns the target, refuses every request from
    a terminal stage by naming that stage, and refuses every other request by
    naming the stage and the target. *)
Theorem advance_refines_machine (s t : import_state) :
  (legal_step s t → advance s t = Ok t) ∧
  (is_terminal s = true → advance s t = Err (AlreadyTerminal s)) ∧
  (is_terminal s = false → ¬ legal_step s t → advance s t = Err (IllegalJump s t)).
Proof.
  split_and!.
  - intros Hs. by apply advance_legal.
  - unfold advance. by intros ->.
  - intros Hterm Hn. destruct (advance s t) as [u|e] eqn:E.
    + exfalso. apply Hn. by apply advance_legal in E as [? _].
    + unfold advance in E. rewrite Hterm in E. by destruct s, t; simplify_eq/=.
Qed.

Lemma advance_refines_machine_witness :
  legal_step Hashed Duplicate ∧ advance Hashed Duplicate = Ok Duplicate.
Proof. split; [constructor|]. apply (advance_refines_machine Hashed Duplicate). constructor. Defined.

(** The only way from [received] to [completed] or [partial] is the whole
    chain: a run that ends in either class was hashed, stored, inspected,
    parsed and reconciled, once each and in this order. *)
Theorem success_needs_full_chain (ts : list import_state) (s : import_state) :
  advance_all Received ts = Ok s → s = Completed ∨ s = Partial →
  ts = full_chain ++ [s].
Proof.
  intros Hrun Hs.
  repeat match type of Hrun with
  | advance_all _ ?l = _ =>
      apply advance_all_terminal in Hrun as [-> ->]; [|reflexivity]
  | advance_all _ ?l = _ =>
      destruct l as [|? ?];
      [simpl in Hrun; simplify_eq; by destruct Hs
      |apply advance_all_cons in Hrun as [Hstep Hrun]; inversion Hstep; subst; clear Hstep]
  end; by destruct Hs.
Qed.

Lemma success_needs_full_chain_witness :
  advance_all Received [Hashed; Stored; Inspected; Parsed; Reconciled; Partial] = Ok Partial ∧
  [Hashed; Stored; Inspected; Parsed; Reconciled; Partial] = full_chain ++ [Partial].
Proof.
  split; [reflexivity|].
  apply (success_needs_full_chain _ Partial); [reflexivity|by right].
Defined.

(** No run loops: the stage changes accepted from any stage are at most
    six, and after a terminal stage there is none. *)
Theorem stage_changes_terminate (s s' : import_state) (ts : list import_state) :
  advance_all s ts = Ok s' →
  length ts <= 6 - rank s ∧ (is_terminal s = true → ts = []).
Proof.
  intros Hrun. split.
  - apply advance_all_rank in Hrun. destruct s'; simpl in *; lia.
  - intros Hs. by eapply advance_all_terminal.
Qed.

Lemma stage_changes_terminate_witness :
  length [Hashed; Duplicate] <= 6 - rank Received.
Proof. apply (stage_changes_terminate Received Duplicate). reflexivity. Defined.

(** The database spelling is a bijection between the stages and the
    eleven declared spellings: parsing accepts a spelling exactly when it is
    the spelling of the stage it returns. *)
Theorem state_spelling_roundtrip (spelling : string) (s : import_state) :
  state_parse spelling = Some s ↔ state_as_str s = spelling.
Proof.
  split; [|intros <-; by destruct s].
  unfold state_parse. intros H. repeat case_match; simplify_eq; by reflect_bools.
Qed.
