(* ===== verification/Disk.v ===== *)
(** * The local file system

    The part of [std::fs] and [tokio::fs] the program uses, as operations on
    an explicit state.  A disk is a finite map from paths to nodes and a
    schedule of faults: every operation first consumes one entry of the
    schedule and fails with [OtherIo] when it is [true], so a theorem that
    quantifies over disks quantifies over every pattern of device failures.
    Parent directories are not modelled: the program creates them first. *)

From S2P Require Import Prelude.

Inductive node : Type :=
| NFile (content : string)
| NDir.

#[global] Instance node_eq_dec : EqDecision node.
Proof. solve_decision. Defined.

(** [std::io::ErrorKind], as far as the program distinguishes it. *)
Inductive io_error : Set := NotFound | NotADirectory | AlreadyExists | OtherIo.

#[global] Instance io_error_eq_dec : EqDecision io_error.
Proof. solve_decision. Defined.

Record disk : Type := Disk {
  d_nodes : gmap string node;
  d_faults : list bool;
}.

Definition io (A : Type) : Type := sm disk io_error A.

(** Run an operation unless the schedule faults it. *)
Definition faulty {A} (op : gmap string node → result io_error (A * gmap string node)) : io A :=
  λ d,
    match d_faults d with
    | true :: fs => (Err OtherIo, Disk (d_nodes d) fs)
    | fs =>
        match op (d_nodes d) with
        | Ok (a, ns) => (Ok a, Disk ns (tail fs))
        | Err e => (Err e, Disk (d_nodes d) (tail fs))
        end
    end.

Definition create_dir_all (p : string) : io unit := faulty (λ ns,
  match ns !! p with
  | Some (NFile _) => Err AlreadyExists
  | _ => Ok (tt, <[p := NDir]> ns)
  end).

Definition create_dir (p : string) : io unit := faulty (λ ns,
  match ns !! p with
  | Some _ => Err AlreadyExists
  | None => Ok (tt, <[p := NDir]> ns)
  end).

(** [File::create]: truncate or create. *)
Definition create_file (p : string) : io unit := faulty (λ ns,
  match ns !! p with
  | Some NDir => Err OtherIo
  | _ => Ok (tt, <[p := NFile ""]> ns)
  end).

(** [OpenOptions::create_new]. *)
Definition create_new (p : string) : io unit := faulty (λ ns,
  match ns !! p with
  | Some _ => Err AlreadyExists
  | None => Ok (tt, <[p := NFile ""]> ns)
  end).

(** [write_all] on the open file [p]. *)
Definition append (p data : string) : io unit := faulty (λ ns,
  match ns !! p with
  | Some (NFile c) => Ok (tt, <[p := NFile (c +:+ data)]> ns)
  | _ => Err OtherIo
  end).

(** [flush], [sync_all], [set_permissions]: no visible effect, may fail. *)
Definition touch : io unit := faulty (λ ns, Ok (tt, ns)).

(** [hard_link]: create-new, sharing the bytes. *)
Definition hard_link (src dst : string) : io unit := faulty (λ ns,
  match ns !! dst, ns !! src with
  | Some _, _ => Err AlreadyExists
  | None, Some (NFile c) => Ok (tt, <[dst := NFile c]> ns)
  | None, Some NDir => Err OtherIo
  | None, None => Err NotFound
  end).

Definition remove_file (p : string) : io unit := faulty (λ ns,
  match ns !! p with
  | Some (NFile _) => Ok (tt, delete p ns)
  | Some NDir => Err OtherIo
  | None => Err NotFound
  end).

(** [metadata]: the node itself. *)
Definition metadata (p : string) : io node := faulty (λ ns,
  match ns !! p with
  | Some n => Ok (n, ns)
  | None => Err NotFound
  end).

(** Open and read to the end. *)
Definition read_file (p : string) : io string := faulty (λ ns,
  match ns !! p with
  | Some (NFile c) => Ok (c, ns)
  | Some NDir => Err OtherIo
  | None => Err NotFound
  end).

(** [remove_dir_all]: the directory and everything below it. *)
Definition below (p q : string) : bool := String.eqb p q || starts_with (p +:+ "/") q.

Definition remove_dir_all (p : string) : io unit := faulty (λ ns,
  match ns !! p with
  | Some NDir => Ok (tt, filter (λ kv, below p kv.1 = false) ns)
  | Some (NFile _) => Err NotADirectory
  | None => Err NotFound
  end).

(** [fs::write]: create or truncate, then write all. *)
Definition write_file (p data : string) : io unit :=
  sbind (create_file p) (λ _, append p data).

(** [fs::rename] of a file: replaces what is at [dst], at once. *)
Definition rename (src dst : string) : io unit := faulty (λ ns,
  match ns !! src, ns !! dst with
  | Some (NFile _), Some NDir => Err OtherIo
  | Some (NFile c), _ => Ok (tt, <[dst := NFile c]> (delete src ns))
  | Some NDir, _ => Err OtherIo
  | None, _ => Err NotFound
  end).

(** ** Laws *)

(** A disk without scheduled faults stays without, and its operations are
    decided by the nodes alone. *)
Definition quiet (d : disk) : Prop := Forall (λ b, b = false) (d_faults d).

Lemma faulty_quiet {A} op d (r : result io_error A) (d' : disk) :
  quiet d → faulty op d = (r, d') → quiet d'.
Proof.
  unfold quiet, faulty. destruct d as [ns fs]; simpl. intros Hq.
  destruct Hq as [|b fs -> Hq]; simpl; destruct (op ns) as [[]|]; naive_solver.
Qed.

Lemma faulty_quiet_run {A} op d (a : A) ns :
  quiet d → op (d_nodes d) = Ok (a, ns) →
  ∃ d', faulty op d = (Ok a, d') ∧ d_nodes d' = ns ∧ quiet d'.
Proof.
  unfold quiet, faulty. destruct d as [n fs]; simpl. intros Hq Hop.
  destruct Hq as [|b fs -> Hq]; simpl; rewrite Hop; eexists; split_and!; eauto.
Qed.

(** Either nothing happened and an error is returned, or the operation ran. *)
Lemma faulty_cases {A} op d (r : result io_error A) d' :
  faulty op d = (r, d') →
  (∃ e, r = Err e ∧ d_nodes d' = d_nodes d) ∨
  (∃ a, r = Ok a ∧ op (d_nodes d) = Ok (a, d_nodes d')).
Proof.
  unfold faulty. destruct d as [ns [|[] fs]]; simpl; [|naive_solver|];
    destruct (op ns) as [[]|] eqn:E; naive_solver.
Qed.

Lemma metadata_Ok p d n d' :
  metadata p d = (Ok n, d') → d_nodes d' = d_nodes d ∧ d_nodes d !! p = Some n.
Proof.
  intros H. apply faulty_cases in H as [(e & ? & _)|(m & ? & H)]; [done|]. by split_cases.
Qed.

Lemma read_file_Ok p d c d' :
  read_file p d = (Ok c, d') → d_nodes d' = d_nodes d ∧ d_nodes d !! p = Some (NFile c).
Proof.
  intros H. apply faulty_cases in H as [(e & ? & _)|(m & ? & H)]; [done|]. by split_cases.
Qed.

Lemma metadata_Err p d e d' :
  metadata p d = (Err e, d') →
  d_nodes d' = d_nodes d ∧ (e = NotFound → d_nodes d !! p = None).
Proof.
  unfold metadata, faulty. destruct d as [ns [|[] fs]]; simpl; intros H;
    simplify_eq; repeat (case_match; simplify_eq/=); naive_solver.
Qed.

Lemma metadata_run p d n :
  quiet d → d_nodes d !! p = Some n →
  ∃ d', metadata p d = (Ok n, d') ∧ d_nodes d' = d_nodes d ∧ quiet d'.
Proof. intros Hq Hn. apply faulty_quiet_run; [done|]. by rewrite Hn. Qed.

Lemma read_file_run p d c :
  quiet d → d_nodes d !! p = Some (NFile c) →
  ∃ d', read_file p d = (Ok c, d') ∧ d_nodes d' = d_nodes d ∧ quiet d'.
Proof. intros Hq Hn. apply faulty_quiet_run; [done|]. by rewrite Hn. Qed.

(** A relation on nodes, read as a relation on disks. *)
Definition on_nodes (R : gmap string node → gmap string node → Prop) (d d' : disk) : Prop :=
  R (d_nodes d) (d_nodes d').

#[export] Instance on_nodes_preorder R `{!PreOrder R} : PreOrder (on_nodes R).
Proof.
  split; unfold on_nodes; [intros d; reflexivity|].
  intros d1 d2 d3 H1 H2. by etrans.
Qed.

Lemma stable_faulty R `{!PreOrder R} {A} op :
  (∀ ns (a : A) ns', op ns = Ok (a, ns') → R ns ns') →
  stable (on_nodes R) (faulty op).
Proof.
  intros Hop d r d' H. unfold on_nodes.
  apply faulty_cases in H as [(e & _ & ->)|(a & _ & Ha)]; [done|eauto].
Qed.

(** Read-only operations preserve every preorder. *)
Lemma metadata_stable R `{!PreOrder R} p : stable (on_nodes R) (metadata p).
Proof. apply stable_faulty; [apply _|]. intros ns a ns' H. split_cases. Qed.

Lemma read_file_stable R `{!PreOrder R} p : stable (on_nodes R) (read_file p).
Proof. apply stable_faulty; [apply _|]. intros ns a ns' H. split_cases. Qed.

Lemma touch_stable R `{!PreOrder R} : stable (on_nodes R) touch.
Proof. apply stable_faulty; [apply _|]. intros ns a ns' H. by simplify_eq. Qed.

#[export] Hint Resolve metadata_stable read_file_stable touch_stable : stable.
#[export] Hint Extern 2 (PreOrder _) => apply _ : stable.

(** No operation schedules a fault. *)
Definition quiet_kept (d d' : disk) : Prop := quiet d → quiet d'.

#[export] Instance quiet_kept_preorder : PreOrder quiet_kept.
Proof. split; unfold quiet_kept; [intros d|intros a b c]; auto. Qed.

Lemma faulty_quiet_kept {A} op : stable quiet_kept (faulty (A := A) op).
Proof. intros d r d' H Hq. by eapply faulty_quiet. Qed.

#[export] Hint Resolve faulty_quiet_kept : stable.
#[export] Hint Extern 1 (stable quiet_kept (create_dir_all _)) => apply faulty_quiet_kept : stable.
#[export] Hint Extern 1 (stable quiet_kept (create_dir _)) => apply faulty_quiet_kept : stable.
#[export] Hint Extern 1 (stable quiet_kept (create_file _)) => apply faulty_quiet_kept : stable.
#[export] Hint Extern 1 (stable quiet_kept (create_new _)) => apply faulty_quiet_kept : stable.
#[export] Hint Extern 1 (stable quiet_kept (append _ _)) => apply faulty_quiet_kept : stable.
#[export] Hint Extern 1 (stable quiet_kept touch) => apply faulty_quiet_kept : stable.
#[export] Hint Extern 1 (stable quiet_kept (hard_link _ _)) => apply faulty_quiet_kept : stable.
#[export] Hint Extern 1 (stable quiet_kept (remove_file _)) => apply faulty_quiet_kept : stable.
#[export] Hint Extern 1 (stable quiet_kept (metadata _)) => apply faulty_quiet_kept : stable.
#[export] Hint Extern 1 (stable quiet_kept (read_file _)) => apply faulty_quiet_kept : stable.
#[export] Hint Extern 1 (stable quiet_kept (remove_dir_all _)) => apply faulty_quiet_kept : stable.

