(* ===== verification/BlobStore.v ===== *)
(** * Content-addressed blob storage ([blob_store.rs])

    The facade [BlobStore] and its local file system backend: a byte stream
    is staged, hashed while it is written, and published by a create-new hard
    link under a path that is a function of its digest.  The hash, the media
    type grammar and the canonical path are code of other packages and of the
    operating system, so they are parameters. *)

From S2P Require Import Prelude Disk.
#[local] Open Scope result_scope.

(** The fleet contract's reference type. *)
Inductive digest_algorithm : Set := Sha256 | OtherAlgorithm.

#[global] Instance digest_algorithm_eq_dec : EqDecision digest_algorithm.
Proof. solve_decision. Defined.

Record content_digest : Set := ContentDigest {
  cd_algorithm : digest_algorithm;
  cd_hex : string;
}.

Record blob_ref : Set := BlobRef {
  br_owner_service : string;
  br_digest : content_digest;
  br_media_type : string;
  br_length_bytes : N;
}.

#[global] Instance content_digest_eq_dec : EqDecision content_digest.
Proof. solve_decision. Defined.
#[global] Instance blob_ref_eq_dec : EqDecision blob_ref.
Proof. solve_decision. Defined.

(** [BlobStoreError]. *)
Inductive blob_store_error : Set :=
| Unavailable (e : io_error)
| InvalidMediaType
| StreamError
| Missing.

#[global] Instance blob_store_error_eq_dec : EqDecision blob_store_error.
Proof. solve_decision. Defined.

Definition OWNER : string := "ratatoskr-chatgpt".

(** [LocalFsBackend]: the root directory. *)
Record blob_store : Set := BlobStore { bs_root : string }.

(** [Path::join] with a relative component. *)
Definition path_join (p q : string) : string := p +:+ "/" +:+ q.

(** [str::split_at_checked(2)] on ASCII digits. *)
Definition split_at_2 (hex : string) : option (string * string) :=
  match hex with
  | String a (String b r) => Some (String a (String b ""), r)
  | _ => None
  end.

(** [read_failure]: an absent object is missing, any other fault is a fault. *)
Definition read_failure (e : io_error) : blob_store_error :=
  match e with
  | NotFound | NotADirectory => Missing
  | e => Unavailable e
  end.

Section blob_store.
  (** SHA-256 and hexadecimal encoding. *)
  Context (sha256_hex : string → string).
  (** [MediaType::parse] of the contract package. *)
  Context (media_type_ok : string → bool).
  (** [tokio::fs::canonicalize]. *)
  Context (canonicalize : gmap string node → string → option string).

  #[local] Abbreviation blob_io := (sm disk blob_store_error).

Definition content_path (s : blob_store) (r : blob_ref) : result blob_store_error string :=
  if decide (cd_algorithm (br_digest r) = Sha256) then
    match split_at_2 (cd_hex (br_digest r)) with
    | Some (directory, remainder) =>
        Ok (path_join (path_join (path_join (bs_root s) "sha256") directory) remainder)
    | None => Err Missing
    end
  else Err Missing.

(** The receive loop: consume the stream, hashing and writing every chunk,
    until it ends or something fails.  [None] is a stream error. *)
Fixpoint receive_loop (part : string) (stream : list (option string))
    (hashed : string) (total : N) : sm disk blob_store_error (result blob_store_error (string * N)) :=
  match stream with
  | [] => sret (Ok (hashed, total))
  | None :: _ => sret (Err StreamError)
  | Some chunk :: rest =>
      let hashed := hashed +:+ chunk in
      let total := saturating_add_u64 total (N.of_nat (String.length chunk)) in
      let! w := stry (append part chunk) in
      match w with
      | Ok _ => receive_loop part rest hashed total
      | Err e => sret (Err (Unavailable e))
      end
  end.

(** [LocalFsBackend::receive]; [id] is the freshly minted name suffix. *)
Definition receive (s : blob_store) (id : string) (media_type : string)
    (stream : list (option string)) : blob_io blob_ref :=
  let staging := path_join (bs_root s) "staging" in
  let! _ := smap_err Unavailable (create_dir_all staging) in
  let part := path_join staging ("ratatoskr-chatgpt-" +:+ id +:+ ".part") in
  let! _ := smap_err Unavailable (create_file part) in
  let! outcome := receive_loop part stream "" 0 in
  let! _ := smap_err Unavailable touch in
  match outcome with
  | Err error =>
      let! _ := signore (remove_file part) in
      sfail error
  | Ok (hashed, total) =>
      let hex := sha256_hex hashed in
      match split_at_2 hex with
      | None => sfail Missing
      | Some (directory, remainder) =>
          let parent := path_join (path_join (bs_root s) "sha256") directory in
          let destination := path_join parent remainder in
          let! _ := smap_err Unavailable (create_dir_all parent) in
          let! linked := stry (hard_link part destination) in
          match linked with
          | Ok _ | Err AlreadyExists =>
              let! _ := signore (remove_file part) in
              sret (BlobRef OWNER (ContentDigest Sha256 hex) media_type total)
          | Err error =>
              let! _ := signore (remove_file part) in
              sfail (Unavailable error)
          end
      end
  end.

(** [BlobStore::store]. *)
Definition store (s : blob_store) (id : string) (media_type : string)
    (stream : list (option string)) : blob_io blob_ref :=
  if media_type_ok media_type then receive s id media_type stream
  else sfail InvalidMediaType.

(** [LocalFsBackend::locate]. *)
Definition locate (s : blob_store) (r : blob_ref) : blob_io string :=
  let! path := slift (content_path s r) in
  let! n := smap_err read_failure (metadata path) in
  match n with
  | NFile _ => sret path
  | NDir => sfail Missing
  end.

(** [LocalFsBackend::read_verified]. *)
Definition read_verified (s : blob_store) (r : blob_ref) : blob_io string :=
  let! path := locate s r in
  let! n := smap_err read_failure (metadata path) in
  match n with
  | NDir => sfail Missing
  | NFile c =>
      if decide (N.of_nat (String.length c) = br_length_bytes r) then
        let! content := smap_err read_failure (read_file path) in
        if decide (sha256_hex content = cd_hex (br_digest r)) then sret path
        else sfail Missing
      else sfail Missing
  end.

(** [BlobStore::verify]. *)
Definition verify (s : blob_store) (r : blob_ref) : blob_io string :=
  if decide (br_owner_service r = OWNER) then read_verified s r else sfail Missing.

(** [BlobStore::resolve]. *)
Definition resolve (s : blob_store) (r : blob_ref) : blob_io string :=
  if decide (br_owner_service r = OWNER) then locate s r else sfail Missing.

(** [LocalFsBackend::erase]. *)
Definition erase_object (s : blob_store) (r : blob_ref) : blob_io unit :=
  let! path := slift (content_path s r) in
  let object_root := path_join (bs_root s) "sha256" in
  match split_at_2 (cd_hex (br_digest r)) with
  | None => sfail Missing
  | Some (directory, remainder) =>
      let relative_path := path_join directory remainder in
      let! m := stry (metadata path) in
      match m with
      | Err NotFound => sret tt
      | Err e => sfail (Unavailable e)
      | Ok NDir => sfail Missing
      | Ok (NFile c) =>
          if decide (N.of_nat (String.length c) = br_length_bytes r) then
            let! d := λ d, (Ok d, d) in
            match canonicalize (d_nodes d) object_root, canonicalize (d_nodes d) path with
            | Some canonical_root, Some canonical_path =>
                if decide (canonical_path = path_join canonical_root relative_path) then
                  let! content := smap_err (λ _, Missing) (read_file path) in
                  if decide (sha256_hex content = cd_hex (br_digest r)) then
                    smap_err Unavailable (remove_file path)
                  else sfail Missing
                else sfail Missing
            | _, _ => sfail Missing
            end
          else sfail Missing
      end
  end.

(** [BlobStore::erase]. *)
Definition erase (s : blob_store) (r : blob_ref) : blob_io unit :=
  if decide (br_owner_service r = OWNER) then erase_object s r else sfail Missing.
End blob_store.

(** ** Object paths *)

Definition object_path (s : blob_store) (dir rem : string) : string :=
  path_join (path_join (path_join (bs_root s) "sha256") dir) rem.

(** Published objects never change: what is at an object path stays. *)
Definition objects_kept (s : blob_store) (ns ns' : gmap string node) : Prop :=
  ∀ dir rem n, String.length dir = 2 →
    ns !! object_path s dir rem = Some n → ns' !! object_path s dir rem = Some n.

#[export] Instance objects_kept_preorder s : PreOrder (objects_kept s).
Proof. split; unfold objects_kept; [intros ns|intros a b c]; naive_solver. Qed.

Lemma string_length_bytes a : length (to_bytes a) = String.length a.
Proof. induction a; simpl; auto. Qed.

Lemma string_length_app a b : String.length (a +:+ b) = String.length a + String.length b.
Proof. rewrite <-!string_length_bytes, to_bytes_app. apply length_app. Qed.

Lemma object_path_flat s dir rem :
  object_path s dir rem = bs_root s +:+ "/sha256/" +:+ dir +:+ "/" +:+ rem.
Proof. unfold object_path, path_join. by rewrite !string_app_assoc. Qed.

Lemma split_at_2_spec hex dir rem :
  split_at_2 hex = Some (dir, rem) → hex = dir +:+ rem ∧ String.length dir = 2.
Proof. destruct hex as [|a [|b r]]; [done..|]. by intros [= <- <-]. Qed.

Lemma string_app_inj_len a a' b b' :
  String.length a = String.length a' → a +:+ b = a' +:+ b' → a = a' ∧ b = b'.
Proof.
  revert a'. induction a as [|c a IH]; intros [|c' a']; try done.
  rewrite !append_cons. simpl. intros [= Hl] [= -> E].
  by destruct (IH a' Hl E) as [-> ->].
Qed.

Lemma object_path_inj s dir rem dir' rem' :
  String.length dir = 2 → String.length dir' = 2 →
  object_path s dir rem = object_path s dir' rem' → dir = dir' ∧ rem = rem'.
Proof.
  intros H1 H2. rewrite !object_path_flat. intros E%string_app_inj%string_app_inj.
  apply string_app_inj_len in E as [-> E]; [|congruence].
  by apply string_app_inj in E.
Qed.

(** Staging paths and shard directories are not object paths. *)
Lemma staging_not_object s q dir rem :
  path_join (bs_root s) "staging" +:+ q ≠ object_path s dir rem.
Proof.
  unfold path_join. rewrite object_path_flat, !string_app_assoc.
  by intros E%string_app_inj.
Qed.

Lemma shard_not_object s dir dir' rem :
  String.length dir = 2 → String.length dir' = 2 →
  path_join (path_join (bs_root s) "sha256") dir ≠ object_path s dir' rem.
Proof.
  unfold path_join. rewrite object_path_flat, !string_app_assoc.
  intros H1 H2 E%string_app_inj%(f_equal String.length).
  rewrite !string_length_app, H1, H2 in E. simpl in E. lia.
Qed.

Lemma content_path_spec s r path :
  content_path s r = Ok path →
  ∃ dir rem, split_at_2 (cd_hex (br_digest r)) = Some (dir, rem) ∧
    path = object_path s dir rem ∧ cd_algorithm (br_digest r) = Sha256.
Proof.
  unfold content_path. case_decide; [|done].
  destruct (split_at_2 _) as [[dir rem]|]; [|done]. naive_solver.
Qed.

(** Work away from the object paths leaves the objects alone. *)
Definition objects_same (s : blob_store) (ns ns' : gmap string node) : Prop :=
  ∀ dir rem, String.length dir = 2 →
    ns' !! object_path s dir rem = ns !! object_path s dir rem.

#[export] Instance objects_same_preorder s : PreOrder (objects_same s).
Proof. split; unfold objects_same; [intros ns|intros a b c Hab Hbc ???; rewrite Hbc]; auto. Qed.

Lemma objects_same_kept s ns ns' : objects_same s ns ns' → objects_kept s ns ns'.
Proof. intros H dir rem n Hd Hn. by rewrite H. Qed.

Lemma objects_same_insert s ns p n :
  (∀ dir rem, String.length dir = 2 → p ≠ object_path s dir rem) →
  objects_same s ns (<[p := n]> ns).
Proof. intros Hp dir rem Hd. rewrite lookup_insert_ne; eauto. Qed.

Lemma objects_same_delete s ns p :
  (∀ dir rem, String.length dir = 2 → p ≠ object_path s dir rem) →
  objects_same s ns (delete p ns).
Proof. intros Hp dir rem Hd. rewrite lookup_delete_ne; eauto. Qed.

(** Create-new never overwrites. *)
Lemma objects_kept_new s ns p n : ns !! p = None → objects_kept s ns (<[p := n]> ns).
Proof.
  intros Hp dir rem m Hd Hm. rewrite lookup_insert_ne; [done|].
  intros ->. congruence.
Qed.

#[local] Abbreviation kept s := (stable (on_nodes (objects_kept s))).
#[local] Abbreviation same s := (stable (on_nodes (objects_same s))).

Lemma same_kept s {E A} (c : sm disk E A) : same s c → kept s c.
Proof. intros Hc d r d' H. by eapply objects_same_kept, Hc. Qed.

Section blob_store_stable.
  Context (s : blob_store) (p : string)
    (Hp : ∀ dir rem, String.length dir = 2 → p ≠ object_path s dir rem).

Lemma create_file_same : same s (create_file p).
Proof.
  apply stable_faulty; [apply _|]. intros ns a ns' H.
  split_cases; by apply objects_same_insert.
Qed.

Lemma create_dir_all_same : same s (create_dir_all p).
Proof.
  apply stable_faulty; [apply _|]. intros ns a ns' H.
  split_cases; by apply objects_same_insert.
Qed.

Lemma append_same data : same s (append p data).
Proof.
  apply stable_faulty; [apply _|]. intros ns a ns' H.
  split_cases; by apply objects_same_insert.
Qed.

Lemma remove_file_same : same s (remove_file p).
Proof.
  apply stable_faulty; [apply _|]. intros ns a ns' H.
  split_cases; by apply objects_same_delete.
Qed.

Lemma receive_loop_same stream hashed total :
  same s (receive_loop p stream hashed total).
Proof.
  revert hashed total. induction stream as [|[chunk|] rest IH]; intros; simpl;
    [solve_stable| |solve_stable].
  apply stable_bind; [apply _| |].
  { apply stable_try, append_same. }
  intros [?|?]; [apply IH|solve_stable].
Qed.
End blob_store_stable.

Lemma hard_link_kept s src dst : kept s (hard_link src dst).
Proof.
  apply stable_faulty; [apply _|]. intros ns a ns' H.
  split_cases; by apply objects_kept_new.
Qed.

Definition concat_bytes (chunks : list string) : string := String.concat "" chunks.

Definition part_path (s : blob_store) (id : string) : string :=
  path_join (path_join (bs_root s) "staging") ("ratatoskr-chatgpt-" +:+ id +:+ ".part").

Lemma part_not_object s id dir rem : part_path s id ≠ object_path s dir rem.
Proof.
  unfold part_path. unfold path_join at 1. apply staging_not_object.
Qed.

Lemma staging_dir_not_object s dir rem :
  path_join (bs_root s) "staging" ≠ object_path s dir rem.
Proof. rewrite <-(string_app_nil_r (path_join _ _)). apply staging_not_object. Qed.

Lemma shard_not_part s dir id : path_join (path_join (bs_root s) "sha256") dir ≠ part_path s id.
Proof.
  unfold part_path, path_join. rewrite !string_app_assoc. by intros E%string_app_inj.
Qed.

Section blob_store_laws.
  Context (sha256_hex : string → string) (media_type_ok : string → bool).
  Context (canonicalize : gmap string node → string → option string).

  #[local] Abbreviation receive := (receive sha256_hex).
  #[local] Abbreviation store := (store sha256_hex media_type_ok).
  #[local] Abbreviation verify := (verify sha256_hex).
  #[local] Abbreviation erase := (erase sha256_hex canonicalize).

(** The store invariant: every object hashes to its address. *)
Definition store_wf (s : blob_store) (ns : gmap string node) : Prop :=
  ∀ dir rem n, String.length dir = 2 → ns !! object_path s dir rem = Some n →
    ∃ c, n = NFile c ∧ sha256_hex c = dir +:+ rem.

(** Each step of [receive] before the publishing link leaves the objects. *)
Lemma stage_steps_same s id :
  same s (smap_err Unavailable (create_dir_all (path_join (bs_root s) "staging"))) ∧
  same s (smap_err Unavailable (create_file (part_path s id))) ∧
  (∀ stream h t, same s (receive_loop (part_path s id) stream h t)) ∧
  same s (smap_err Unavailable touch) ∧
  (∀ F, same s (signore (F := F) (remove_file (part_path s id)))) ∧
  (∀ dir, String.length dir = 2 →
     same s (smap_err Unavailable (create_dir_all (path_join (path_join (bs_root s) "sha256") dir)))).
Proof.
  split_and!; intros; try apply stable_map_err; try apply stable_ignore;
    first [apply create_dir_all_same|apply create_file_same|apply receive_loop_same
          |apply remove_file_same|apply touch_stable; apply _];
    auto using part_not_object, staging_dir_not_object, shard_not_object.
Qed.

(** *** What the receive loop wrote *)

Lemma saturating_total a b :
  saturating_add_u64 (N.min a u64_max) b = N.min (a + b) u64_max.
Proof. unfold saturating_add_u64. lia. Qed.

Lemma concat_bytes_cons c cs : concat_bytes (c :: cs) = c +:+ concat_bytes cs.
Proof. destruct cs; [by rewrite string_app_nil_r|done]. Qed.

Lemma append_Ok p data d d' :
  append p data d = (Ok tt, d') →
  ∃ c, d_nodes d !! p = Some (NFile c) ∧
    d_nodes d' = <[p := NFile (c +:+ data)]> (d_nodes d).
Proof.
  intros H. apply faulty_cases in H as [(e & ? & _)|([] & _ & H)]; [done|].
  split_cases. eauto.
Qed.

Lemma receive_loop_Ok part stream hashed total d h t d' c :
  receive_loop part stream hashed (N.min total u64_max) d = (Ok (Ok (h, t)), d') →
  d_nodes d !! part = Some (NFile c) →
  ∃ chunks, stream = Some <$> chunks ∧ h = hashed +:+ concat_bytes chunks ∧
    t = N.min (total + N.of_nat (String.length (concat_bytes chunks))) u64_max ∧
    d_nodes d' = <[part := NFile (c +:+ concat_bytes chunks)]> (d_nodes d).
Proof.
  revert hashed total d c. induction stream as [|[chunk|] rest IH];
    intros hashed total d c Hrun Hc; simpl in Hrun; [| |done].
  - injection Hrun as <- <- <-. exists []. unfold concat_bytes. simpl.
    rewrite !string_app_nil_r, N.add_0_r, insert_id by done. done.
  - apply sbind_Ok_inv in Hrun as (w & d1 & Hw & Hrun).
    unfold stry in Hw. destruct (append part chunk d) as [x d2] eqn:Ha.
    simplify_eq. destruct w as [[]|]; [|done].
    apply append_Ok in Ha as (c' & Hc' & Hd1). simplify_eq.
    rewrite saturating_total in Hrun.
    eapply IH in Hrun as (chunks & -> & -> & -> & Hd'); [|by rewrite Hd1, lookup_insert_eq].
    exists (chunk :: chunks). rewrite concat_bytes_cons, string_length_app.
    split_and!; [done|by rewrite string_app_assoc|f_equal; lia|].
    by rewrite Hd', Hd1, insert_insert_eq, string_app_assoc.
Qed.

(** Effects of the primitive operations that succeeded. *)
Lemma create_dir_all_Ok p d d' :
  create_dir_all p d = (Ok tt, d') → d_nodes d' = <[p := NDir]> (d_nodes d).
Proof.
  intros H. apply faulty_cases in H as [(e & ? & _)|([] & _ & H)]; [done|].
  by split_cases.
Qed.

Lemma create_file_Ok p d d' :
  create_file p d = (Ok tt, d') → d_nodes d' = <[p := NFile ""]> (d_nodes d).
Proof.
  intros H. apply faulty_cases in H as [(e & ? & _)|([] & _ & H)]; [done|].
  by split_cases.
Qed.

Lemma touch_nodes d r d' : touch d = (r, d') → d_nodes d' = d_nodes d.
Proof. intros H. apply faulty_cases in H as [(e & ? & ?)|([] & _ & H)]; [done|by split_cases]. Qed.

Lemma remove_file_other p q d r d' :
  remove_file p d = (r, d') → p ≠ q → d_nodes d' !! q = d_nodes d !! q.
Proof.
  intros H Hne. apply faulty_cases in H as [(e & _ & ->)|([] & _ & H)]; [done|].
  split_cases. match goal with E : _ = d_nodes d' |- _ => rewrite <-E end.
  by rewrite lookup_delete_ne.
Qed.

Lemma hard_link_cases src dst d r d' :
  hard_link src dst d = (r, d') →
  (∃ c, r = Ok tt ∧ d_nodes d !! dst = None ∧ d_nodes d !! src = Some (NFile c) ∧
     d_nodes d' = <[dst := NFile c]> (d_nodes d)) ∨
  (∃ e, r = Err e ∧ d_nodes d' = d_nodes d ∧ (e = AlreadyExists → is_Some (d_nodes d !! dst))).
Proof.
  unfold hard_link, faulty. destruct d as [ns [|[] fs]]; simpl; intros H;
    simplify_eq; repeat (case_match; simplify_eq/=);
    first [by left; eexists; split_and!
          |right; eexists; split_and!; [done|done|intros; simplify_eq; eauto]].
Qed.

(** The object a successful receive leaves under the returned digest. *)
Lemma receive_Ok s id mt stream d r d' :
  receive s id mt stream d = (Ok r, d') →
  ∃ chunks dir rem,
    stream = Some <$> chunks ∧
    r = BlobRef OWNER (ContentDigest Sha256 (sha256_hex (concat_bytes chunks))) mt
          (N.min (N.of_nat (String.length (concat_bytes chunks))) u64_max) ∧
    split_at_2 (sha256_hex (concat_bytes chunks)) = Some (dir, rem) ∧
    objects_same s
      (<[object_path s dir rem :=
         default (NFile (concat_bytes chunks)) (d_nodes d !! object_path s dir rem)]> (d_nodes d))
      (d_nodes d').
Proof.
  unfold BlobStore.receive. fold (part_path s id).
  destruct (stage_steps_same s id) as (S1 & S2 & S3 & S4 & S5 & S6).
  intros ([] & d1 & H1 & Hrun)%sbind_Ok_inv.
  pose proof (S1 _ _ _ H1) as K1. apply smap_err_Ok_inv, create_dir_all_Ok in H1.
  apply sbind_Ok_inv in Hrun as ([] & d2 & H2 & Hrun).
  pose proof (S2 _ _ _ H2) as K2. apply smap_err_Ok_inv, create_file_Ok in H2.
  apply sbind_Ok_inv in Hrun as (outcome & d3 & H3 & Hrun).
  pose proof (S3 _ _ _ _ _ _ H3) as K3.
  apply sbind_Ok_inv in Hrun as ([] & d4 & H4 & Hrun).
  pose proof (S4 _ _ _ H4) as K4. apply smap_err_Ok_inv, touch_nodes in H4.
  destruct outcome as [[h t]|e]; cycle 1.
  { by apply sbind_Ok_inv in Hrun as (? & ? & _ & ?). }
  apply (receive_loop_Ok _ _ _ 0 _ _ _ _ "") in H3
    as (chunks & -> & -> & -> & H3); [|by rewrite H2, lookup_insert_eq].
  change ("" +:+ concat_bytes chunks) with (concat_bytes chunks) in *.
  rewrite N.add_0_l in Hrun.
  destruct (split_at_2 _) as [[dir rem]|] eqn:Es; [|done].
  pose proof (split_at_2_spec _ _ _ Es) as [_ Hdir].
  fold (object_path s dir rem) in Hrun.
  apply sbind_Ok_inv in Hrun as ([] & d5 & H5 & Hrun).
  pose proof (S6 _ Hdir _ _ _ H5) as K5. apply smap_err_Ok_inv, create_dir_all_Ok in H5.
  assert (K : objects_same s (d_nodes d) (d_nodes d5)).
  { unfold on_nodes in *. by repeat (etrans; [eassumption|]). }
  apply sbind_Ok_inv in Hrun as (linked & d6 & H6 & Hrun).
  unfold stry in H6. destruct (hard_link _ _ d5) as [x d6'] eqn:Hl. simplify_eq.
  assert (Hend : ∃ d7, signore (F := blob_store_error) (remove_file (part_path s id)) d6 = (Ok tt, d7) ∧
    d7 = d' ∧ (linked = Ok tt ∨ linked = Err AlreadyExists) ∧
    r = BlobRef OWNER (ContentDigest Sha256 (sha256_hex (concat_bytes chunks))) mt
          (N.min (N.of_nat (String.length (concat_bytes chunks))) u64_max)).
  { destruct linked as [[]|[]]; apply sbind_Ok_inv in Hrun as ([] & d7 & Hrm & Hrun);
      unfold sret, sfail in Hrun; simplify_eq; eexists; split_and!; eauto. }
  destruct Hend as (d7 & Hrm & -> & Hlinked & ->). apply S5 in Hrm. clear Hrun.
  exists chunks, dir, rem. split_and!; [done..|].
  etrans; [|exact Hrm]. intros dir' rem' Hdir'. rewrite lookup_insert.
  apply hard_link_cases in Hl as [(c & -> & Hn & Hpart & Hd6)|(e & -> & Hd6 & Hex)].
  - rewrite Hd6, lookup_insert. case_decide as E; [|by apply K].
    rewrite (K dir rem Hdir) in Hn. rewrite Hn.
    rewrite H5, lookup_insert_ne, H4, H3, lookup_insert_eq in Hpart
      by apply shard_not_part. by simplify_eq/=.
  - destruct Hlinked as [?|[= ->]]; [done|]. rewrite Hd6.
    destruct (Hex eq_refl) as [n Hx]. rewrite (K dir rem Hdir) in Hx.
    case_decide as E; [|by apply K]. rewrite Hx, <-E, (K dir rem Hdir). done.
Qed.

(** A receive that fails publishes nothing. *)
Lemma receive_Err s id mt stream d e d' :
  receive s id mt stream d = (Err e, d') → objects_same s (d_nodes d) (d_nodes d').
Proof.
  unfold BlobStore.receive. fold (part_path s id).
  destruct (stage_steps_same s id) as (S1 & S2 & S3 & S4 & S5 & S6).
  intros [(? & d1 & K1%S1 & Hrun)|(? & K1%S1 & _)]%sbind_inv; [|exact K1].
  apply sbind_inv in Hrun as [(? & d2 & K2%S2 & Hrun)|(? & K2%S2 & _)]; [|by etrans].
  apply sbind_inv in Hrun as [(outcome & d3 & K3%S3 & Hrun)|(? & K3%S3 & _)]; [|by do 2 (etrans; [eassumption|])].
  apply sbind_inv in Hrun as [(? & d4 & K4%S4 & Hrun)|(? & K4%S4 & _)]; [|by do 3 (etrans; [eassumption|])].
  assert (K : objects_same s (d_nodes d) (d_nodes d4)) by by do 3 (etrans; [eassumption|]).
  clear K1 K2 K3 K4. etrans; [exact K|]. destruct outcome as [[h t]|e']; cycle 1.
  { apply sbind_inv in Hrun as [(? & d5 & K5%S5 & Hrun)|(? & K5%S5 & _)]; [|done].
    unfold sfail in Hrun. by simplify_eq. }
  destruct (split_at_2 _) as [[dir rem]|] eqn:Es; [|unfold sfail in Hrun; by simplify_eq].
  pose proof (split_at_2_spec _ _ _ Es) as [_ Hdir].
  apply sbind_inv in Hrun as [(? & d5 & K5%S6 & Hrun)|(? & K5%S6 & _)]; [|done..].
  etrans; [exact K5|].
  apply sbind_inv in Hrun as [(linked & d6 & H6 & Hrun)|(e6 & H6 & _)]; unfold stry in H6;
    destruct (hard_link _ _ d5) as [y d6'] eqn:Hl; simplify_eq.
  apply hard_link_cases in Hl as [(c & -> & _)|(e' & -> & Hd6 & _)].
  { apply sbind_inv in Hrun as [(? & d7 & _ & Hrun)|(? & Hrm & _)]; [done|].
    unfold signore in Hrm. by destruct (remove_file _ _). }
  destruct e'; (apply sbind_inv in Hrun as [(? & d7 & K7%S5 & Hrun)|(? & K7%S5 & _)];
    unfold sret, sfail in *; simplify_eq; by unfold on_nodes in K7; rewrite Hd6 in K7).
Qed.

Lemma receive_loop_quiet_kept part stream h t :
  stable quiet_kept (receive_loop part stream h t).
Proof.
  revert h t. induction stream as [|[chunk|] rest IH]; intros; simpl; [solve_stable| |solve_stable].
  apply stable_bind; [apply _|solve_stable|]. intros [?|?]; [apply IH|solve_stable].
Qed.

Lemma store_quiet_kept s id mt stream : stable quiet_kept (store s id mt stream).
Proof.
  unfold BlobStore.store, BlobStore.receive. case_match; [|solve_stable].
  repeat first [progress intros|apply receive_loop_quiet_kept
    |solve [eauto with stable typeclass_instances]
    |apply stable_bind; [apply _| |]|apply stable_map_err|apply stable_ignore
    |apply stable_try|case_match].
Qed.

(** Verification reads only. *)
Lemma verify_reading s r : stable (on_nodes eq) (verify s r).
Proof.
  unfold verify, read_verified, locate.
  repeat first [progress intros | solve [eauto with stable typeclass_instances]
    | apply stable_bind; [apply _| |] | apply stable_map_err | apply stable_lift
    | case_match | apply metadata_stable; apply _ | apply read_file_stable; apply _].
Qed.

Lemma verify_Ok s r d path d' :
  verify s r d = (Ok path, d') →
  d_nodes d' = d_nodes d ∧ br_owner_service r = OWNER ∧
  cd_algorithm (br_digest r) = Sha256 ∧
  ∃ dir rem c, cd_hex (br_digest r) = dir +:+ rem ∧ String.length dir = 2 ∧
    path = object_path s dir rem ∧ d_nodes d !! path = Some (NFile c) ∧
    sha256_hex c = cd_hex (br_digest r) ∧ N.of_nat (String.length c) = br_length_bytes r.
Proof.
  unfold BlobStore.verify, read_verified, locate. case_decide; [|done].
  intros (p & d1 & Hloc & Hrun)%sbind_Ok_inv.
  apply sbind_Ok_inv in Hloc as (p' & d0 & Hcp & Hloc). injection Hcp as Hcp <-.
  apply content_path_spec in Hcp as (dir & rem & Hs & -> & Halg).
  apply split_at_2_spec in Hs as [Hhex Hdir].
  apply sbind_Ok_inv in Hloc as (n & d2 & [Hd2 Hn]%smap_err_Ok_inv%metadata_Ok & Hloc).
  destruct n; [|done]. unfold sret in Hloc. simplify_eq.
  apply sbind_Ok_inv in Hrun as (n & d3 & [Hd3 Hn3]%smap_err_Ok_inv%metadata_Ok & Hrun).
  destruct n as [c|]; [|done]. case_decide; [|done].
  apply sbind_Ok_inv in Hrun as (c' & d4 & [Hd4 Hc]%smap_err_Ok_inv%read_file_Ok & Hrun).
  case_decide; [|done]. unfold sret in Hrun. simplify_eq.
  rewrite Hd3, Hd2 in *. simplify_eq.
  split_and!; [congruence..|]. eexists dir, rem, _. split_and!; eauto.
Qed.

(** Success and state of [verify] on a disk without faults. *)
Lemma verify_run s r d dir rem c :
  quiet d → br_owner_service r = OWNER → cd_algorithm (br_digest r) = Sha256 →
  split_at_2 (cd_hex (br_digest r)) = Some (dir, rem) →
  d_nodes d !! object_path s dir rem = Some (NFile c) →
  sha256_hex c = cd_hex (br_digest r) → N.of_nat (String.length c) = br_length_bytes r →
  (verify s r d).1 = Ok (object_path s dir rem).
Proof.
  intros Hq Ho Ha Hs Hc Hsha Hlen.
  unfold BlobStore.verify, read_verified, locate, content_path.
  rewrite !decide_True, Hs by done. fold (object_path s dir rem).
  destruct (metadata_run _ _ _ Hq Hc) as (d1 & H1 & Hd1 & Hq1).
  rewrite <-Hd1 in Hc. destruct (metadata_run _ _ _ Hq1 Hc) as (d2 & H2 & Hd2 & Hq2).
  rewrite <-Hd2 in Hc. destruct (read_file_run _ _ _ Hq2 Hc) as (d3 & H3 & Hd3 & Hq3).
  unfold sbind, smap_err, slift. rewrite H1. simpl. rewrite H2. simpl.
  rewrite decide_True, H3 by done. simpl. by rewrite decide_True.
Qed.

(** What an erase did to the disk. *)
Lemma erase_cases s r d x d' :
  erase s r d = (x, d') →
  (d_nodes d' = d_nodes d ∧ (x = Ok tt → ∃ dir rem,
    cd_hex (br_digest r) = dir +:+ rem ∧ String.length dir = 2 ∧
    d_nodes d !! object_path s dir rem = None)) ∨
  (x = Ok tt ∧ ∃ dir rem c, cd_hex (br_digest r) = dir +:+ rem ∧ String.length dir = 2 ∧
    d_nodes d !! object_path s dir rem = Some (NFile c) ∧
    sha256_hex c = cd_hex (br_digest r) ∧
    d_nodes d' = delete (object_path s dir rem) (d_nodes d)).
Proof.
  unfold BlobStore.erase, erase_object. case_decide; [|intros [= <- <-]; by left].
  intros [(p & d1 & Hcp & Hrun)|(e & Hcp & ->)]%sbind_inv; injection Hcp as Hcp <-;
    [|by left].
  apply content_path_spec in Hcp as (dir & rem & Hs & -> & _). rewrite Hs in Hrun.
  pose proof (split_at_2_spec _ _ _ Hs) as [Hhex Hdir].
  unfold sbind at 1, stry in Hrun. destruct (metadata _ d) as [m d2] eqn:Hm.
  unfold sfail, sret in Hrun. destruct m as [[c|]|e].
  - apply metadata_Ok in Hm as [Hd2 Hc]. case_decide; [|by simplify_eq; left].
    unfold sbind at 1 in Hrun. repeat (case_match; [|by simplify_eq; left]).
    apply sbind_inv in Hrun as [(c' & d3 & [Hd3 Hc']%smap_err_Ok_inv%read_file_Ok & Hrun)
      |(e1 & Hr & ->)].
    + rewrite Hd2, Hc in Hc'. simplify_eq. case_decide; [|simplify_eq; left; by rewrite Hd3, Hd2].
      unfold smap_err in Hrun. destruct (remove_file _ d3) as [y d4] eqn:Hrm. simplify_eq.
      apply faulty_cases in Hrm as [(e1 & -> & ->)|([] & -> & Hrm)].
      * left. by rewrite Hd3, Hd2.
      * rewrite Hd3, Hd2, Hc in Hrm. simplify_eq. right. split; [done|]. eauto 10.
    + left. split; [|done]. unfold smap_err in Hr.
      destruct (read_file _ d2) as [y d4] eqn:Hrd. simplify_eq.
      rewrite <-Hd2. symmetry. exact (read_file_stable eq _ _ _ _ Hrd).
  - apply metadata_Ok in Hm as [Hd2 Hc]. simplify_eq. by left.
  - apply metadata_Err in Hm as [Hd2 Hc]. left.
    destruct e; simplify_eq; (split; [done|]); try done.
    intros _. exists dir, rem. auto.
Qed.

(** ** Properties *)

(** Publication is create-new: whatever the stream, the faults and the
    outcome, an object that was published before a [store] is byte for byte
    the same after it, and a [store] that returns an error has published
    nothing at all. *)
Theorem store_never_rewrites (s : blob_store) (id mt : string)
    (stream : list (option string)) (d d' : disk) (r : result blob_store_error blob_ref)
    (dir rem : string) (n : node) :
  store s id mt stream d = (r, d') → String.length dir = 2 →
  (d_nodes d !! object_path s dir rem = Some n →
   d_nodes d' !! object_path s dir rem = Some n) ∧
  (is_ok r = false →
   d_nodes d' !! object_path s dir rem = d_nodes d !! object_path s dir rem).
Proof.
  intros Hrun Hdir. unfold BlobStore.store in Hrun.
  destruct (media_type_ok mt); [|injection Hrun as <- <-; done].
  destruct r as [r|e].
  - split; [|done]. apply receive_Ok in Hrun as (cs & dir' & rem' & _ & _ & Hs & Hsame).
    intros Hn. rewrite (Hsame dir rem Hdir), lookup_insert.
    case_decide as E; [|done]. by rewrite E, Hn.
  - apply receive_Err in Hrun. rewrite (Hrun dir rem Hdir). done.
Qed.

(** The address invariant: if every object hashes to its address, then so
    it does after any [store] and any [erase], whatever their outcome. *)
Theorem store_and_erase_keep_addresses (s : blob_store) (d : disk) :
  store_wf s (d_nodes d) →
  (∀ id mt stream, store_wf s (d_nodes (store s id mt stream d).2)) ∧
  (∀ r, store_wf s (d_nodes (erase s r d).2)).
Proof.
  intros Hwf. split.
  - intros id mt stream. unfold BlobStore.store. destruct (media_type_ok mt); [|done].
    destruct (receive s id mt stream d) as [[r|e] d'] eqn:Hrun; simpl; intros dir rem n Hdir.
    + apply receive_Ok in Hrun as (cs & dir' & rem' & _ & _ & Hs & Hsame).
      apply split_at_2_spec in Hs as [Hhex Hdir'].
      rewrite (Hsame dir rem Hdir), lookup_insert. case_decide as E; [|by apply Hwf].
      apply object_path_inj in E as [<- <-]; [|done..]. intros [= <-].
      destruct (d_nodes d !! object_path s dir' rem') as [m|] eqn:Hm; simpl; eauto.
    + apply receive_Err in Hrun. rewrite (Hrun dir rem Hdir). by apply Hwf.
  - intros r. destruct (erase s r d) as [x d'] eqn:Hrun. simpl.
    apply erase_cases in Hrun as [[-> _]|(_ & dir' & rem' & c & _ & _ & _ & _ & ->)]; [done|].
    intros dir rem n Hdir Hn. apply (Hwf dir rem); [done|].
    by apply lookup_delete_Some in Hn as [_ ?].
Qed.

(** C1. Round trip: on a disk without faults whose objects hash to their
    addresses, the reference [store] returns verifies, the object it resolves
    to is exactly the streamed bytes, and the reference carries their digest
    and length - provided no other byte string shares their digest. *)
Theorem store_verify_roundtrip (s : blob_store) (id mt : string)
    (chunks : list string) (d d' : disk) (r : blob_ref) :
  let bytes := concat_bytes chunks in
  quiet d → store_wf s (d_nodes d) →
  (N.of_nat (String.length bytes) <= u64_max)%N →
  (∀ c, sha256_hex c = sha256_hex bytes → c = bytes) →
  store s id mt (Some <$> chunks) d = (Ok r, d') →
  cd_hex (br_digest r) = sha256_hex bytes ∧
  br_length_bytes r = N.of_nat (String.length bytes) ∧
  ∃ path, (verify s r d').1 = Ok path ∧ d_nodes d' !! path = Some (NFile bytes).
Proof.
  intros bytes Hq Hwf Hlen Hcoll Hrun.
  assert (Hq' : quiet d') by (by eapply store_quiet_kept).
  unfold BlobStore.store in Hrun. destruct (media_type_ok mt); [|done].
  apply receive_Ok in Hrun as (cs & dir & rem & Hcs & -> & Hs & Hsame).
  assert (cs = chunks) as -> by (by apply (inj (fmap Some)) in Hcs).
  fold bytes in Hs, Hsame |- *. pose proof (split_at_2_spec _ _ _ Hs) as [Hhex Hdir].
  assert (Hobj : d_nodes d' !! object_path s dir rem = Some (NFile bytes)).
  { rewrite (Hsame dir rem Hdir), lookup_insert_eq.
    destruct (d_nodes d !! object_path s dir rem) as [n|] eqn:Hn; [|done].
    destruct (Hwf _ _ _ Hdir Hn) as (c & -> & Hc). simpl.
    rewrite (Hcoll c); [done|congruence]. }
  simpl. split; [done|]. split; [lia|]. exists (object_path s dir rem). split; [|done].
  eapply verify_run; simpl; eauto; lia.
Qed.

(** [verify] vouches for bytes: when it returns a path, that path holds a
    file whose length and SHA-256 digest are the ones in the reference, and
    the reference is this service's own; it never changes the disk. *)
Theorem verify_sound (s : blob_store) (r : blob_ref) (d d' : disk) (path : string) :
  verify s r d = (Ok path, d') →
  br_owner_service r = OWNER ∧ d_nodes d' = d_nodes d ∧
  ∃ c, d_nodes d !! path = Some (NFile c) ∧ sha256_hex c = cd_hex (br_digest r) ∧
    N.of_nat (String.length c) = br_length_bytes r.
Proof.
  intros (Hd & Ho & _ & dir & rem & c & _ & _ & _ & ?)%verify_Ok. naive_solver.
Qed.

(** C37. [erase] removes exactly the object the reference addresses: after a
    success that address is empty, no other node changed, and what was
    removed hashed to the digest; after a failure nothing changed. *)
Theorem erase_exact (s : blob_store) (r : blob_ref) (d d' : disk)
    (x : result blob_store_error unit) :
  erase s r d = (x, d') →
  (is_ok x = false → d_nodes d' = d_nodes d) ∧
  (x = Ok tt → ∃ dir rem, cd_hex (br_digest r) = dir +:+ rem ∧ String.length dir = 2 ∧
     d_nodes d' = delete (object_path s dir rem) (d_nodes d) ∧
     ∀ n, d_nodes d !! object_path s dir rem = Some n →
       ∃ c, n = NFile c ∧ sha256_hex c = cd_hex (br_digest r)).
Proof.
  intros [[Hd Hx]|(-> & dir & rem & c & Hhex & Hdir & Hc & Hsha & Hd)]%erase_cases.
  - split; [done|]. intros (dir & rem & ? & ? & Hn)%Hx. exists dir, rem.
    split_and!; [done..| |naive_solver]. rewrite Hd. symmetry. by apply delete_id.
  - split; [done|]. intros _. exists dir, rem. split_and!; naive_solver.
Qed.
End blob_store_laws.

(** ** Witnesses

    A store rooted at ["/b"] with a toy digest that prefixes two characters. *)

Module BlobStoreWitness.
Definition toy_sha (s : string) : string := "ab" +:+ s.
Definition st : blob_store := BlobStore "/b".
Definition d0 : disk := Disk ∅ [].
Definition after : disk := (store toy_sha (λ _, true) st "1" "text/plain" [Some "x"; Some "yz"] d0).2.

Lemma store_never_rewrites_witness :
  d_nodes (store toy_sha (λ _, true) st "2" "text/plain" [Some "xyz"] after).2
    !! object_path st "ab" "xyz" = Some (NFile "xyz").
Proof.
  refine (proj1 (store_never_rewrites toy_sha (λ _, true) st "2" "text/plain" [Some "xyz"]
    after _ _ "ab" "xyz" (NFile "xyz") (surjective_pairing _) eq_refl) _).
  vm_compute. reflexivity.
Defined.

Lemma store_and_erase_keep_addresses_witness :
  store_wf toy_sha st (d_nodes (store toy_sha (λ _, true) st "1" "t/p" [Some "x"] d0).2).
Proof. apply store_and_erase_keep_addresses; [exact (λ _ _, None)|]. done. Defined.

Lemma store_verify_roundtrip_witness :
  ∃ path, (verify toy_sha st
      (BlobRef OWNER (ContentDigest Sha256 "abxyz") "text/plain" 3) after).1 = Ok path ∧
    d_nodes after !! path = Some (NFile "xyz").
Proof.
  apply (store_verify_roundtrip toy_sha (λ _, true) st "1" "text/plain" ["x"; "yz"] d0 after).
  - by constructor.
  - done.
  - vm_compute. done.
  - intros c. apply String.app_inj.
  - vm_compute. reflexivity.
Defined.

Lemma verify_sound_witness :
  ∃ c, d_nodes after !! "/b/sha256/ab/xyz" = Some (NFile c) ∧ toy_sha c = "abxyz".
Proof.
  destruct (verify_sound toy_sha (λ _, true) st
    (BlobRef OWNER (ContentDigest Sha256 "abxyz") "text/plain" 3) after after "/b/sha256/ab/xyz")
    as (_ & _ & c & ? & ? & _); [vm_compute; reflexivity|]. by exists c.
Defined.

Lemma erase_exact_witness :
  d_nodes (erase toy_sha (λ _ p, Some p) st
    (BlobRef OWNER (ContentDigest Sha256 "abxyz") "text/plain" 3) after).2
  = d_nodes (erase toy_sha (λ _ p, Some p) st
    (BlobRef OWNER (ContentDigest Sha256 "abxyz") "text/plain" 3) after).2 ∧
  ∃ dir rem, "abxyz" = dir +:+ rem ∧ String.length dir = 2.
Proof.
  split; [done|].
  destruct (erase_exact toy_sha (λ _, true) (λ _ p, Some p) st
    (BlobRef OWNER (ContentDigest Sha256 "abxyz") "text/plain" 3) after _ _
    (surjective_pairing _)) as [_ H].
  destruct H as (dir & rem & ? & ? & _); [vm_compute; reflexivity|]. by exists dir, rem.
Defined.
End BlobStoreWitness.
