(* ===== verification/Archive.v ===== *)
(** * Bounded archive inspection and extraction ([archive.rs])

    Hostile ZIP input is inspected against finite limits, and extracted into
    a private staging directory whose file names never come from the archive.
    The ZIP reader is a third-party package: an archive is the list of entries
    it yields, and an entry's bytes are whatever a sequence of [read] calls
    returns, without any assumption that the sequence ends. *)

From S2P Require Import Prelude Disk BlobStore.
#[local] Open Scope result_scope.

(** ** Types *)

Record archive_limits : Set := ArchiveLimits {
  max_entries : N;
  max_compressed_bytes : N;
  max_entry_bytes : N;
  max_decompressed_bytes : N;
  max_compression_ratio : N;
}.

Inductive entry_kind : Set := Directory | Json | Html | Media | Text | UnknownKind.

#[global] Instance entry_kind_eq_dec : EqDecision entry_kind.
Proof. solve_decision. Defined.

Record archive_entry : Set := ArchiveEntry {
  ae_path : string;
  ae_kind : entry_kind;
  ae_compressed_bytes : N;
  ae_decompressed_bytes : N;
}.

#[global] Instance archive_entry_eq_dec : EqDecision archive_entry.
Proof. solve_decision. Defined.

Record archive_inventory : Type := ArchiveInventory {
  ai_entries : list archive_entry;
  ai_compressed_bytes : N;
  ai_decompressed_bytes : N;
  ai_signals : gset string;
}.

#[global] Instance archive_inventory_eq_dec : EqDecision archive_inventory.
Proof. solve_decision. Defined.

Inductive archive_intake_error : Set :=
| UnsupportedFormat | UnsafePath | DuplicateName | SpecialFile
| LimitExceeded | EvidenceUnavailable.

#[global] Instance archive_intake_error_eq_dec : EqDecision archive_intake_error.
Proof. solve_decision. Defined.

Record artifact_provenance : Set := ArtifactProvenance {
  ap_raw_archive_digest : string;
  ap_entry_path : string;
}.

Record extracted_artifact : Set := ExtractedArtifact {
  ea_blob : blob_ref;
  ea_provenance : artifact_provenance;
  ea_quarantined : bool;
}.

Record staged_artifact : Set := StagedArtifact {
  sa_entry : archive_entry;
  sa_path : string;
}.

Record staged_extraction : Set := StagedExtraction {
  se_root : string;
  se_artifacts : list staged_artifact;
}.

(** What the ZIP package yields for one entry. [ze_name] is its decoded name,
    [ze_prefix] the outcome of one [read] into a 512-byte buffer, [ze_read i]
    the outcome of the [i]-th [read] into a 64 KiB buffer; [None] is a read
    error and the empty string the end of the entry. *)
Record zip_entry : Type := ZipEntry {
  ze_flags : N;
  ze_name_raw : string;
  ze_name : option string;
  ze_unix_mode : option N;
  ze_compressed_size : N;
  ze_size : N;
  ze_is_dir : bool;
  ze_prefix : option string;
  ze_read : nat → option string;
}.

(** [File::open] followed by [ZipArchive::new]; an entry the central directory
    names but [by_index] refuses is [None]. *)
Inductive zip_source : Type :=
| OpenFailed
| NotAnArchive
| ZipSource (entries : list (option zip_entry)).

Definition open_zip (z : zip_source) : result archive_intake_error (list (option zip_entry)) :=
  match z with
  | OpenFailed => Err EvidenceUnavailable
  | NotAnArchive => Err UnsupportedFormat
  | ZipSource es => Ok es
  end.

(** ** Path normalization *)

Definition slash : ascii := "/"%char.
Definition backslash : ascii := "\"%char.
Definition is_separator (c : ascii) : bool := is_char slash c || is_char backslash c.

Definition normalize_path (name : string) : result archive_intake_error string :=
  if String.eqb name "" || starts_with "/" name || starts_with "\" name
     || existsb (String.eqb "..") (split_on is_separator name)
  then Err UnsafePath
  else
    let parts := filter (λ part, part ≠ "" ∧ part ≠ ".") (split_on is_separator name) in
    if bool_decide (parts = []) || existsb (any_byte (is_char ":"%char)) parts
    then Err UnsafePath
    else Ok (join "/" parts).

(** ** Entry checks *)

Definition S_IFMT : N := 61440.   (* 0o170000 *)
Definition S_IFREG : N := 32768.  (* 0o100000 *)
Definition S_IFDIR : N := 16384.  (* 0o040000 *)

Definition reject_special_file (entry : zip_entry) : result archive_intake_error unit :=
  match ze_unix_mode entry with
  | Some mode =>
      let kind := N.land mode S_IFMT in
      if negb (kind =? 0)%N && negb (kind =? S_IFREG)%N && negb (kind =? S_IFDIR)%N
      then Err SpecialFile else Ok tt
  | None => Ok tt
  end.

(** The running totals are returned instead of written through references. *)
Definition checked_metadata_totals (limits : archive_limits)
    (compressed decompressed compressed_total decompressed_total : N)
    : result archive_intake_error (N * N) :=
  let? next_compressed := ok_or LimitExceeded (checked_add_u64 compressed_total compressed) in
  let? next_decompressed := ok_or LimitExceeded (checked_add_u64 decompressed_total decompressed) in
  if (max_compressed_bytes limits <? compressed)%N
     || (max_compressed_bytes limits <? next_compressed)%N
     || (max_entry_bytes limits <? decompressed)%N
     || (max_decompressed_bytes limits <? next_decompressed)%N
     || ((compressed =? 0)%N && (0 <? decompressed)%N)
     || ((0 <? compressed)%N
         && (saturating_mul_u64 compressed (max_compression_ratio limits) <? decompressed)%N)
  then Err LimitExceeded
  else Ok (next_compressed, next_decompressed).

(** ** Content classification *)

(** [u8::is_ascii_whitespace]: space, tab, line feed, form feed, return. *)
Definition is_ascii_whitespace (c : ascii) : bool :=
  match byte c with 9%N | 10%N | 12%N | 13%N | 32%N => true | _ => false end.

Fixpoint trim_ascii_whitespace (s : string) : string :=
  match s with
  | String c s' => if is_ascii_whitespace c then trim_ascii_whitespace s' else s
  | EmptyString => EmptyString
  end.

Definition starts_html (bytes : string) : bool :=
  let prefix := to_ascii_lowercase (String.substring 0 32 bytes) in
  starts_with "<html" prefix || starts_with "<!doctype html" prefix.

Definition bytes_of_N (l : list N) : string := of_bytes (Ascii.ascii_of_N <$> l).

Definition is_media (bytes : string) : bool :=
  starts_with (bytes_of_N [137; 80; 78; 71; 13; 10; 26; 10]%N) bytes
  || starts_with (bytes_of_N [255; 216; 255]%N) bytes
  || starts_with "GIF87a" bytes
  || starts_with "GIF89a" bytes
  || (starts_with "RIFF" bytes && String.eqb (String.substring 8 4 bytes) "WEBP").

(** [std::str::from_utf8]: the well-formed byte sequences of the Unicode
    standard, table 3-7. *)
Definition in_range (lo hi : N) (c : ascii) : bool := (lo <=? byte c)%N && (byte c <=? hi)%N.
Definition is_cont (c : ascii) : bool := in_range 128 191 c.

Fixpoint utf8_valid_fuel (fuel : nat) (s : list ascii) : bool :=
  match fuel, s with
  | _, [] => true
  | O, _ => false
  | S n, a :: s1 =>
      if in_range 0 127 a then utf8_valid_fuel n s1
      else match s1 with
      | b :: s2 =>
        if in_range 194 223 a && is_cont b then utf8_valid_fuel n s2
        else match s2 with
        | c :: s3 =>
          if ((in_range 224 224 a && in_range 160 191 b)
              || (in_range 225 236 a && is_cont b)
              || (in_range 237 237 a && in_range 128 159 b)
              || (in_range 238 239 a && is_cont b)) && is_cont c
          then utf8_valid_fuel n s3
          else match s3 with
          | d :: s4 =>
            if ((in_range 240 240 a && in_range 144 191 b)
                || (in_range 241 243 a && is_cont b)
                || (in_range 244 244 a && in_range 128 143 b)) && is_cont c && is_cont d
            then utf8_valid_fuel n s4 else false
          | [] => false
          end
        | [] => false
        end
      | [] => false
      end
  end.

Definition utf8_valid (s : string) : bool :=
  utf8_valid_fuel (String.length s) (to_bytes s).

Definition classify_bytes (bytes : string) : entry_kind :=
  let trimmed := trim_ascii_whitespace bytes in
  if starts_with "{" trimmed || starts_with "[" trimmed then Json
  else if starts_html trimmed then Html
  else if is_media trimmed then Media
  else if utf8_valid trimmed then Text
  else UnknownKind.

Definition classify_prefix (entry : zip_entry) : result archive_intake_error entry_kind :=
  match ze_prefix entry with
  | None => Err UnsupportedFormat
  | Some prefix => Ok (classify_bytes prefix)
  end.

Definition media_type (kind : entry_kind) : string :=
  match kind with
  | Json => "application/json"
  | Html => "text/html"
  | Text => "text/plain"
  | Directory | Media | UnknownKind => "application/octet-stream"
  end.

(** ** Inspection *)

Section inspection.
  (** [oem_cp::Cp437]: the text of one code page 437 byte. *)
  Context (cp437 : ascii → string).
  (** What opening a path as a ZIP archive yields on a disk. *)
  Context (zip_at : gmap string node → string → zip_source).
  (** The parameters of the blob store, and how the operating system cuts a
      file into reads. *)
  Context (sha256_hex : string → string) (media_type_ok : string → bool).
  Context (os_reads : string → list (option string)).

Definition is_ascii (s : string) : bool := negb (any_byte (λ c, (127 <? byte c)%N) s).

(** Bit 11 of the flags requires UTF-8; an unflagged name that is not ASCII
    is code page 437 even when its bytes form valid UTF-8. *)
Definition decoded_entry_name (entry : zip_entry) : result archive_intake_error string :=
  let library_name := ok_or UnsupportedFormat (ze_name entry) in
  if negb (N.land (ze_flags entry) 2048 =? 0)%N then
    if utf8_valid (ze_name_raw entry) then library_name else Err UnsupportedFormat
  else if negb (is_ascii (ze_name_raw entry)) then
    Ok (String.concat "" (cp437 <$> to_bytes (ze_name_raw entry)))
  else library_name.

(** The last path segment: [rsplit('/').next()]. *)
Definition last_segment (path : string) : string :=
  default "" (last (split_on (is_char slash) path)).

(** The accumulators of the first loop of [inspect_zip]. *)
Record inspection : Type := Inspection {
  in_names : gset string;
  in_entries : list archive_entry;
  in_compressed : N;
  in_decompressed : N;
  in_signals : gset string;
}.

(** One iteration of the first loop. *)
Definition inspect_entry (limits : archive_limits) (st : inspection)
    (e : option zip_entry) : result archive_intake_error inspection :=
  let? entry := ok_or UnsupportedFormat e in
  let? name := decoded_entry_name entry in
  let? normalized := normalize_path name in
  if decide (normalized ∈ in_names st) then Err DuplicateName
  else
    let? _ := reject_special_file entry in
    let compressed := ze_compressed_size entry in
    let decompressed := ze_size entry in
    let? (compressed_bytes, decompressed_bytes) :=
      checked_metadata_totals limits compressed decompressed
        (in_compressed st) (in_decompressed st) in
    let kind := if ze_is_dir entry then Directory else UnknownKind in
    let signals :=
      if ze_is_dir entry then in_signals st
      else {[last_segment normalized]} ∪ in_signals st in
    Ok (Inspection
          ({[normalized]} ∪ in_names st)
          (in_entries st ++ [ArchiveEntry normalized kind compressed decompressed])
          compressed_bytes decompressed_bytes signals).

Fixpoint inspect_entries (limits : archive_limits) (st : inspection)
    (es : list (option zip_entry)) : result archive_intake_error inspection :=
  match es with
  | [] => Ok st
  | e :: es =>
      let? st := inspect_entry limits st e in
      inspect_entries limits st es
  end.

(** The second loop: the kind of every entry that is not a directory. *)
Fixpoint classify_entries (entries : list archive_entry) (es : list (option zip_entry))
    : result archive_intake_error (list archive_entry) :=
  match entries, es with
  | inspected :: entries, e :: es =>
      let? inspected :=
        if decide (ae_kind inspected = Directory) then Ok inspected
        else
          let? entry := ok_or UnsupportedFormat e in
          let? kind := classify_prefix entry in
          Ok (ArchiveEntry (ae_path inspected) kind
                (ae_compressed_bytes inspected) (ae_decompressed_bytes inspected)) in
      let? rest := classify_entries entries es in
      Ok (inspected :: rest)
  | _, _ => Ok entries
  end.

Definition inspect_zip (z : zip_source) (limits : archive_limits)
    : result archive_intake_error archive_inventory :=
  let? es := open_zip z in
  if (max_entries limits <? N.of_nat (length es))%N then Err LimitExceeded
  else
    let? st := inspect_entries limits (Inspection ∅ [] 0 0 ∅) es in
    let? entries := classify_entries (in_entries st) es in
    Ok (ArchiveInventory entries (in_compressed st) (in_decompressed st) (in_signals st)).

(** ** Extraction *)

(** Disk operations fail as unavailable evidence. *)
#[local] Abbreviation intake := (sm disk archive_intake_error).
Definition on_disk {A} (c : io A) : intake A := smap_err (λ _, EvidenceUnavailable) c.

(** The copy loop of one entry.  [fuel] bounds the number of [read] calls;
    [None] is the model running out of fuel, which [copy_loop_terminates]
    excludes for the fuel [copy_fuel] grants. *)
Fixpoint copy_loop (fuel : nat) (i : nat) (limits : archive_limits) (staged_path : string)
    (entry : zip_entry) (entry_total total : N) : intake (option (N * N)) :=
  match fuel with
  | O => sret None
  | S fuel =>
      match ze_read entry i with
      | None => sfail UnsupportedFormat
      | Some chunk =>
          if decide (chunk = "") then sret (Some (entry_total, total))
          else
            let bytes := N.of_nat (String.length chunk) in
            let! entry_total := slift (ok_or LimitExceeded (checked_add_u64 entry_total bytes)) in
            let! total := slift (ok_or LimitExceeded (checked_add_u64 total bytes)) in
            if (max_entry_bytes limits <? entry_total)%N
               || (max_decompressed_bytes limits <? total)%N
            then sfail LimitExceeded
            else
              let! _ := on_disk (append staged_path chunk) in
              copy_loop fuel (S i) limits staged_path entry entry_total total
      end
  end.

(** Every chunk before the last [read] holds a byte, and the entry limit stops
    the loop once more bytes than it allows arrived. *)
Definition copy_fuel (limits : archive_limits) : nat := N.to_nat (max_entry_bytes limits) + 2.

Definition staged_name (root : string) (index : nat) : string :=
  path_join root ("entry-" +:+ show_nat index +:+ ".part").

(** One iteration of [extract_entries]; [None] skips a directory. *)
Definition extract_entry (limits : archive_limits) (root : string) (index : nat)
    (observed : archive_entry) (e : option zip_entry) (total : N)
    : intake (option (staged_artifact * N)) :=
  if decide (ae_kind observed = Directory) then sret None
  else
    let! entry := slift (ok_or UnsupportedFormat e) in
    let! name := slift (decoded_entry_name entry) in
    let! normalized := slift (normalize_path name) in
    if decide (normalized ≠ ae_path observed) then sfail UnsafePath
    else
      let staged_path := staged_name root index in
      let! _ := on_disk (create_new staged_path) in
      let! _ := on_disk touch in
      let! copied := copy_loop (copy_fuel limits) 0 limits staged_path entry 0 total in
      match copied with
      | None => sfail LimitExceeded
      | Some (entry_total, total) =>
          let! _ := on_disk touch in
          if decide (entry_total ≠ ae_decompressed_bytes observed) then sfail UnsupportedFormat
          else sret (Some (StagedArtifact observed staged_path, total))
      end.

Fixpoint extract_loop (limits : archive_limits) (root : string) (index : nat)
    (expected : list archive_entry) (es : list (option zip_entry)) (total : N)
    : intake (list staged_artifact) :=
  match expected with
  | [] => sret []
  | observed :: expected =>
      let! one := extract_entry limits root index observed (mjoin (head es)) total in
      match one with
      | None => extract_loop limits root (S index) expected (tail es) total
      | Some (artifact, total) =>
          let! rest := extract_loop limits root (S index) expected (tail es) total in
          sret (artifact :: rest)
      end
  end.

Definition extract_entries (path : string) (expected : list archive_entry)
    (limits : archive_limits) (root : string) : intake (list staged_artifact) :=
  let! es := (λ d, (open_zip (zip_at (d_nodes d) path), d)) in
  extract_loop limits root 0 expected es 0.

(** The archive is opened twice, and each time the disk decides what is read:
    the model does not assume that the file stays the same in between.  [id]
    is the minted UUID. *)
Definition extract_zip_to_staging (path : string) (expected : archive_inventory)
    (limits : archive_limits) (staging_root id : string) : intake staged_extraction :=
  let! inspected := (λ d, (inspect_zip (zip_at (d_nodes d) path) limits, d)) in
  if decide (inspected ≠ expected) then sfail UnsupportedFormat
  else
    let! _ := on_disk (create_dir_all staging_root) in
    let! _ := on_disk touch in
    let root := path_join staging_root ("archive-" +:+ id) in
    let! _ := on_disk (create_dir root) in
    let! _ := on_disk touch in
    let! outcome := stry (extract_entries path (ai_entries inspected) limits root) in
    match outcome with
    | Ok artifacts => sret (StagedExtraction root artifacts)
    | Err e =>
        let! _ := signore (remove_dir_all root) in
        sfail e
    end.

Definition remove_owned_staging (path : string) : intake unit := on_disk (remove_dir_all path).

(** ** The inspector and the extractor *)

(** [ArchiveExtractor] and [ArchiveInspector]; the inspector has no staging
    root. *)
Record archive_extractor : Set := ArchiveExtractor {
  ax_blob : blob_store;
  ax_limits : archive_limits;
  ax_staging_root : string;
}.

(** Failures of the blob store are unavailable evidence. *)
Definition evidence {A} (c : sm disk blob_store_error A) : intake A :=
  smap_err (λ _, EvidenceUnavailable) c.

(** [ArchiveInspector::inspect]. *)
Definition inspect (s : blob_store) (limits : archive_limits) (raw : blob_ref)
    : intake archive_inventory :=
  let! path := evidence (verify sha256_hex s raw) in
  λ d, (inspect_zip (zip_at (d_nodes d) path) limits, d).

(** [publish_staged_artifact]; [id] names the blob store's staging file. *)
Definition publish_staged_artifact (ax : archive_extractor) (raw : blob_ref)
    (id : string) (staged : staged_artifact) : intake extracted_artifact :=
  let! content := on_disk (read_file (sa_path staged)) in
  let! blob := evidence (store sha256_hex media_type_ok (ax_blob ax) id
                           (media_type (ae_kind (sa_entry staged))) (os_reads content)) in
  let! _ := evidence (verify sha256_hex (ax_blob ax) blob) in
  sret (ExtractedArtifact blob
    (ArtifactProvenance (cd_hex (br_digest raw)) (ae_path (sa_entry staged)))
    (bool_decide (ae_kind (sa_entry staged) = Html ∨ ae_kind (sa_entry staged) = Media))).

(** The publishing loop of [extract]: the first failure removes the staging
    directory and is returned, unless the removal itself fails. *)
Fixpoint publish_all (ax : archive_extractor) (raw : blob_ref) (root : string)
    (ids : list string) (staged : list staged_artifact) : intake (list extracted_artifact) :=
  match staged with
  | [] => sret []
  | one :: staged =>
      let! r := stry (publish_staged_artifact ax raw (default "" (head ids)) one) in
      match r with
      | Ok artifact =>
          let! rest := publish_all ax raw root (tail ids) staged in
          sret (artifact :: rest)
      | Err error =>
          let! _ := remove_owned_staging root in
          sfail error
      end
  end.

(** [ArchiveExtractor::extract]; [id] and [ids] are the UUIDs it mints. *)
Definition extract (ax : archive_extractor) (raw : blob_ref) (inventory : archive_inventory)
    (id : string) (ids : list string) : intake (list extracted_artifact) :=
  let! path := evidence (verify sha256_hex (ax_blob ax) raw) in
  let! staging := extract_zip_to_staging path inventory (ax_limits ax) (ax_staging_root ax) id in
  let! artifacts := publish_all ax raw (se_root staging) ids (se_artifacts staging) in
  let! _ := remove_owned_staging (se_root staging) in
  sret artifacts.
End inspection.

(** ** Normalized paths *)

(** What the rest of the program relies on: a non-empty sequence of names,
    none of which can leave the archive's own tree. *)
Definition safe_part (p : string) : Prop :=
  p ≠ "" ∧ p ≠ "." ∧ p ≠ ".." ∧
  any_byte is_separator p = false ∧ any_byte (is_char ":"%char) p = false.

Definition safe_path (path : string) : Prop :=
  ∃ parts, parts ≠ [] ∧ path = join "/" parts ∧ Forall safe_part parts.

Lemma separator_slash p : any_byte is_separator p = false → any_byte (is_char slash) p = false.
Proof.
  rewrite !any_byte_false. intros H. eapply Forall_impl; [exact H|]. unfold is_separator.
  intros c. by intros [? _]%orb_false_iff.
Qed.

Lemma normalize_path_Ok name path :
  normalize_path name = Ok path →
  ∃ parts, parts = filter (λ p, p ≠ "" ∧ p ≠ ".") (split_on is_separator name) ∧
    parts ≠ [] ∧ path = join "/" parts ∧ Forall safe_part parts.
Proof.
  unfold normalize_path. destruct (_ || _) eqn:H1; [done|].
  apply orb_false_iff in H1 as [_ Hdd].
  destruct (bool_decide _ || _) eqn:H2; [done|].
  apply orb_false_iff in H2 as [Hne%bool_decide_eq_false Hcolon]. intros [= <-].
  eexists. split_and!; [done..|].
  apply Forall_forall. intros p Hp.
  rewrite existsb_false, Forall_forall in Hdd, Hcolon.
  pose proof (Hcolon p Hp). apply list_elem_of_filter in Hp as [[??] Hin].
  pose proof (split_on_pieces is_separator name) as Hs. rewrite Forall_forall in Hs.
  split_and!; eauto. intros ->. by specialize (Hdd _ Hin).
Qed.

(** Splitting a join of safe parts at either separator. *)
Lemma split_safe parts :
  parts ≠ [] → Forall safe_part parts → split_on is_separator (join "/" parts) = parts.
Proof.
  intros Hne Hp. apply split_join; [done..|].
  eapply Forall_impl; [exact Hp|]. by intros p (? & ? & ? & ? & ?).
Qed.

Lemma safe_starts_with c parts :
  is_separator c = true → parts ≠ [] → Forall safe_part parts →
  starts_with (String c "") (join "/" parts) = false.
Proof.
  intros Hc Hne Hp. destruct (starts_with _ _) eqn:E; [|done]. exfalso.
  apply starts_with_spec in E as [r Hr].
  change (String c "" +:+ r) with (String c r) in Hr.
  pose proof (split_safe parts Hne Hp) as Hs. rewrite Hr in Hs. simpl in Hs.
  rewrite Hc in Hs. subst parts. inversion_clear Hp as [|?? Hbad]. by destruct Hbad.
Qed.

Lemma normalize_safe parts :
  parts ≠ [] → Forall safe_part parts → normalize_path (join "/" parts) = Ok (join "/" parts).
Proof.
  intros Hne Hp. pose proof (split_safe parts Hne Hp) as Hs.
  unfold normalize_path. rewrite Hs.
  rewrite !safe_starts_with by done.
  assert (join "/" parts ≠ "") as Hj%String.eqb_neq.
  { intros E. rewrite E in Hs. simpl in Hs. subst parts.
    inversion_clear Hp as [|?? Hbad]. by destruct Hbad. }
  assert (Forall (λ p, String.eqb ".." p = false) parts) as Hd%existsb_false.
  { eapply Forall_impl; [exact Hp|]. intros p (? & ? & ? & ? & ?). by apply String.eqb_neq. }
  rewrite Hj, Hd. simpl. rewrite filter_all.
  - rewrite bool_decide_eq_false_2 by done. simpl.
    assert (existsb (any_byte (is_char ":")) parts = false) as ->; [|done].
    apply existsb_false. eapply Forall_impl; [exact Hp|]. by intros p (? & ? & ? & ? & ?).
  - eapply Forall_impl; [exact Hp|]. by intros p (? & ? & ? & ? & ?).
Qed.

(** ** Inspection *)

(** The declared sizes of one entry respect the limits, the compression ratio
    included. *)
Definition entry_within (limits : archive_limits) (compressed decompressed : N) : Prop :=
  (compressed <= max_compressed_bytes limits)%N ∧
  (decompressed <= max_entry_bytes limits)%N ∧
  (compressed = 0 → decompressed = 0)%N ∧
  (decompressed <= compressed * max_compression_ratio limits)%N.

Lemma checked_metadata_totals_Ok limits c d ct dt ct' dt' :
  checked_metadata_totals limits c d ct dt = Ok (ct', dt') →
  ct' = (ct + c)%N ∧ dt' = (dt + d)%N ∧
  (ct' <= max_compressed_bytes limits)%N ∧ (dt' <= max_decompressed_bytes limits)%N ∧
  (ct' <= u64_max)%N ∧ (dt' <= u64_max)%N ∧ entry_within limits c d.
Proof.
  unfold checked_metadata_totals, ok_or, saturating_mul_u64, entry_within.
  destruct (checked_add_u64 ct c) as [n|] eqn:E1; [|done].
  destruct (checked_add_u64 dt d) as [m|] eqn:E2; [|done].
  apply checked_add_u64_Some in E1 as [-> ?], E2 as [-> ?].
  case_match eqn:Hl; [done|]. intros [= <- <-]. reflect_bools.
  match goal with H : _ ∨ _, H' : _ ∨ _ |- _ => destruct H, H' end; reflect_bools;
    split_and!; try done; try lia.
Qed.

(** The invariant of the first loop. *)
Definition paths_of (es : list archive_entry) : list string := ae_path <$> es.
Definition sum_N (l : list N) : N := foldr N.add 0%N l.

Record inspection_wf (limits : archive_limits) (st : inspection) : Prop := {
  iw_names : ∀ n, n ∈ in_names st ↔ n ∈ paths_of (in_entries st);
  iw_unique : NoDup (paths_of (in_entries st));
  iw_safe : Forall safe_path (paths_of (in_entries st));
  iw_compressed : in_compressed st = sum_N (ae_compressed_bytes <$> in_entries st);
  iw_decompressed : in_decompressed st = sum_N (ae_decompressed_bytes <$> in_entries st);
  iw_within : Forall (λ e, entry_within limits (ae_compressed_bytes e) (ae_decompressed_bytes e))
                (in_entries st);
  iw_bounds : (in_compressed st <= N.min (max_compressed_bytes limits) u64_max)%N ∧
              (in_decompressed st <= N.min (max_decompressed_bytes limits) u64_max)%N;
  iw_signals : ∀ s, s ∈ in_signals st ↔
    ∃ e, e ∈ in_entries st ∧ ae_kind e ≠ Directory ∧ s = last_segment (ae_path e);
}.

Lemma sum_N_cons n l : sum_N (n :: l) = (n + sum_N l)%N.
Proof. done. Qed.

Lemma sum_N_app l k : sum_N (l ++ k) = (sum_N l + sum_N k)%N.
Proof. induction l as [|n l IH]; [done|]. unfold sum_N in *. simpl. lia. Qed.

Section inspection_laws.
  Context (cp437 : ascii → string).
  #[local] Abbreviation inspect_entry := (Archive.inspect_entry cp437).
  #[local] Abbreviation inspect_entries := (Archive.inspect_entries cp437).
  #[local] Abbreviation inspect_zip := (Archive.inspect_zip cp437).

(** What one iteration adds. *)
Lemma inspect_entry_Ok limits st e st' :
  inspect_entry limits st e = Ok st' →
  ∃ entry name path, e = Some entry ∧ decoded_entry_name cp437 entry = Ok name ∧
    normalize_path name = Ok path ∧ path ∉ in_names st ∧
    reject_special_file entry = Ok tt ∧
    checked_metadata_totals limits (ze_compressed_size entry) (ze_size entry)
      (in_compressed st) (in_decompressed st) = Ok (in_compressed st', in_decompressed st') ∧
    in_names st' = {[path]} ∪ in_names st ∧
    in_entries st' = in_entries st ++ [ArchiveEntry path
      (if ze_is_dir entry then Directory else UnknownKind)
      (ze_compressed_size entry) (ze_size entry)] ∧
    in_signals st' = (if ze_is_dir entry then in_signals st
                      else {[last_segment path]} ∪ in_signals st).
Proof.
  unfold Archive.inspect_entry. destruct e as [entry|]; simpl; [|done].
  destruct (decoded_entry_name cp437 entry) as [name|] eqn:Hname; [|done].
  destruct (normalize_path name) as [path|] eqn:Hpath; [|done].
  case_decide as Hin; [done|].
  destruct (reject_special_file entry) as [[]|] eqn:Hs; [|done].
  destruct (checked_metadata_totals _ _ _ _ _) as [[c d]|] eqn:Ht; [|done].
  intros [= <-]. simpl. naive_solver.
Qed.

Lemma inspect_entry_wf limits st e st' :
  inspection_wf limits st → inspect_entry limits st e = Ok st' → inspection_wf limits st'.
Proof.
  intros [Hn Hu Hs Hc Hd Hw Hb Hsig]
    (entry & name & path & -> & _ & Hp & Hnew & _ & Ht & En & Ee & Es)%inspect_entry_Ok.
  apply checked_metadata_totals_Ok in Ht as (Hc' & Hd' & ? & ? & ? & ? & Hwithin).
  apply normalize_path_Ok in Hp as (parts & _ & Hne & -> & Hparts).
  split; rewrite ?En, ?Ee; unfold paths_of in *; rewrite ?fmap_app; simpl.
  - intros n. rewrite elem_of_union, elem_of_singleton, elem_of_app, list_elem_of_singleton, Hn.
    naive_solver.
  - rewrite NoDup_app. split_and!; [done| |apply NoDup_singleton].
    intros x Hx ->%list_elem_of_singleton. by apply Hnew, Hn.
  - apply Forall_app; split; [done|]. constructor; [|done]. by exists parts.
  - rewrite sum_N_app, Hc', Hc. simpl. lia.
  - rewrite sum_N_app, Hd', Hd. simpl. lia.
  - apply Forall_app; split; [done|]. by constructor.
  - lia.
  - intros s. rewrite Es. setoid_rewrite elem_of_app. setoid_rewrite list_elem_of_singleton.
    destruct (ze_is_dir entry); [|rewrite elem_of_union, elem_of_singleton];
      rewrite Hsig; split; naive_solver.
Qed.

Lemma inspect_entries_wf limits es st st' :
  inspection_wf limits st → inspect_entries limits st es = Ok st' →
  inspection_wf limits st' ∧ length (in_entries st') = length (in_entries st) + length es.
Proof.
  revert st. induction es as [|e es IH]; intros st Hwf; simpl.
  { intros [= <-]. split; [done|lia]. }
  destruct (inspect_entry limits st e) as [st1|] eqn:E; [|done]. intros H.
  pose proof (inspect_entry_wf _ _ _ _ Hwf E) as Hwf1.
  destruct (IH _ Hwf1 H) as [? ->]. split; [done|].
  apply inspect_entry_Ok in E as (? & ? & ? & _ & _ & _ & _ & _ & _ & _ & -> & _).
  rewrite length_app. simpl. lia.
Qed.

Lemma inspection_start_wf limits : inspection_wf limits (Inspection ∅ [] 0 0 ∅).
Proof.
  split; simpl; try done; try constructor; try set_solver; try lia.
Qed.

(** The second loop changes kinds only, and never those of directories. *)
Definition same_but_kind (e e' : archive_entry) : Prop :=
  ae_path e = ae_path e' ∧ ae_compressed_bytes e = ae_compressed_bytes e' ∧
  ae_decompressed_bytes e = ae_decompressed_bytes e' ∧
  (ae_kind e = Directory ↔ ae_kind e' = Directory).

Lemma classify_bytes_not_directory bytes : classify_bytes bytes ≠ Directory.
Proof. unfold classify_bytes. by repeat case_match. Qed.

Lemma classify_entries_Ok entries es entries' :
  classify_entries entries es = Ok entries' → Forall2 same_but_kind entries entries'.
Proof.
  revert es entries'. induction entries as [|i entries IH]; intros es entries'; simpl.
  { intros [= <-]. constructor. }
  destruct es as [|e es].
  { intros [= <-]. apply Forall_Forall2_diag, Forall_true. done. }
  destruct (if decide _ then _ else _) as [i'|] eqn:Ei; [|done].
  destruct (classify_entries entries es) as [rest|] eqn:Er; [|done]. intros [= <-].
  constructor; [|eauto]. case_decide as Hk; [by simplify_eq|].
  destruct e as [entry|]; [|done]. simpl in Ei. unfold classify_prefix in Ei.
  destruct (ze_prefix entry) as [b|]; [|done]. simplify_eq.
  split_and!; try done. simpl. split; [done|]. intros H. by apply classify_bytes_not_directory in H.
Qed.

Lemma same_but_kind_fmap {B} (f : archive_entry → B) es es' :
  (∀ e e', same_but_kind e e' → f e = f e') → Forall2 same_but_kind es es' → f <$> es = f <$> es'.
Proof. intros Hf. induction 1; simpl; [done|]. f_equal; auto. Qed.

Lemma inspect_zip_Ok z limits inv :
  inspect_zip z limits = Ok inv →
  ∃ es st, open_zip z = Ok es ∧ (N.of_nat (length es) <= max_entries limits)%N ∧
    inspection_wf limits st ∧ length (in_entries st) = length es ∧
    Forall2 same_but_kind (in_entries st) (ai_entries inv) ∧
    ai_compressed_bytes inv = in_compressed st ∧
    ai_decompressed_bytes inv = in_decompressed st ∧ ai_signals inv = in_signals st.
Proof.
  unfold Archive.inspect_zip. destruct (open_zip z) as [es|]; [|done].
  case_match eqn:Hc; [done|]. reflect_bools.
  destruct (inspect_entries limits _ es) as [st|] eqn:Hst; [|done].
  destruct (classify_entries _ _) as [entries|] eqn:Hcl; [|done]. intros [= <-].
  apply classify_entries_Ok in Hcl.
  apply inspect_entries_wf in Hst as [Hwf Hlen]; [|apply inspection_start_wf].
  exists es, st. naive_solver.
Qed.
End inspection_laws.

(** ** Properties of inspection *)

(** Path normalization is safe and idempotent: what it accepts is a
    non-empty sequence of parts none of which is empty, ["."], [".."], or
    holds a separator or a colon, so the result is relative and cannot climb;
    and a normalized path normalizes to itself. *)
Theorem normalize_path_safe (name path : string) :
  normalize_path name = Ok path → safe_path path ∧ normalize_path path = Ok path.
Proof.
  intros (parts & _ & Hne & -> & Hp)%normalize_path_Ok. split; [by exists parts|].
  by apply normalize_safe.
Qed.

(** C34. An accepted inventory is bounded and unambiguous: no more entries
    than the limit, pairwise distinct safe paths, every entry within the entry
    and ratio limits, totals that are the exact sums (no wrap-around) and
    within the limits, and signals that are exactly the last segments of the
    files' paths. *)
Theorem inspect_zip_sound (cp437 : ascii → string) (z : zip_source)
    (limits : archive_limits) (inv : archive_inventory) :
  inspect_zip cp437 z limits = Ok inv →
  let es := ai_entries inv in
  (N.of_nat (length es) <= max_entries limits)%N ∧
  NoDup (paths_of es) ∧ Forall safe_path (paths_of es) ∧
  Forall (λ e, entry_within limits (ae_compressed_bytes e) (ae_decompressed_bytes e)) es ∧
  ai_compressed_bytes inv = sum_N (ae_compressed_bytes <$> es) ∧
  ai_decompressed_bytes inv = sum_N (ae_decompressed_bytes <$> es) ∧
  (ai_compressed_bytes inv <= N.min (max_compressed_bytes limits) u64_max)%N ∧
  (ai_decompressed_bytes inv <= N.min (max_decompressed_bytes limits) u64_max)%N ∧
  (∀ s, s ∈ ai_signals inv ↔
     ∃ e, e ∈ es ∧ ae_kind e ≠ Directory ∧ s = last_segment (ae_path e)).
Proof.
  intros (zs & st & _ & Hcount & [Hn Hu Hs Hc Hd Hw Hb Hsig] & Hlen & Hkind & -> & -> & ->)%inspect_zip_Ok.
  cbv zeta. unfold paths_of in *.
  rewrite <-!(same_but_kind_fmap _ _ _ (λ _ _ H, proj1 H) Hkind).
  rewrite <-(same_but_kind_fmap ae_compressed_bytes _ _ (λ _ _ H, proj1 (proj2 H)) Hkind).
  rewrite <-(same_but_kind_fmap ae_decompressed_bytes _ _
    (λ _ _ H, proj1 (proj2 (proj2 H))) Hkind).
  split_and!; try done; try lia.
  - apply Forall2_length in Hkind. lia.
  - apply Forall_forall. intros e He.
    destruct (Forall2_elem_r _ _ _ _ Hkind He) as (e0 & He0 & Hk).
    rewrite Forall_forall in Hw. destruct Hk as (_ & <- & <- & _). by apply Hw.
  - intros s. rewrite Hsig. split; intros (e & He & Hdir & ->).
    + destruct (Forall2_elem_l _ _ _ _ Hkind He) as (e1 & He1 & Hp & _ & _ & Hk).
      exists e1. rewrite Hp. naive_solver.
    + destruct (Forall2_elem_r _ _ _ _ Hkind He) as (e1 & He1 & Hp & _ & _ & Hk).
      exists e1. rewrite Hp. naive_solver.
Qed.

(** ** Extraction *)

Lemma on_disk_inv {A} (c : io A) d r d' :
  on_disk c d = (r, d') →
  ∃ r0, c d = (r0, d') ∧ r = map_err (λ _, EvidenceUnavailable) r0.
Proof. unfold on_disk, smap_err. destruct (c d) as [x t]. naive_solver. Qed.

Lemma append_cases p data d r d' c :
  append p data d = (r, d') → d_nodes d !! p = Some (NFile c) →
  (∃ e, r = Err e ∧ d_nodes d' = d_nodes d) ∨
  (r = Ok tt ∧ d_nodes d' = <[p := NFile (c +:+ data)]> (d_nodes d)).
Proof.
  intros H Hp. apply faulty_cases in H as [?|([] & -> & H)]; [by left|right].
  rewrite Hp in H. by simplify_eq.
Qed.

Lemma string_length_0 s : s ≠ "" → 0 < String.length s.
Proof. destruct s; simpl; [done|lia]. Qed.

(** The copy loop writes a prefix of what the entry yields, within both
    limits, and the fuel covers every reader. *)
Lemma copy_loop_spec limits p entry fuel : ∀ i et t d c r d',
  copy_loop fuel i limits p entry et t d = (r, d') →
  (et <= max_entry_bytes limits)%N → (t <= max_decompressed_bytes limits)%N →
  (max_entry_bytes limits + 1 <= et + N.of_nat fuel)%N →
  d_nodes d !! p = Some (NFile c) →
  ∃ data, d_nodes d' = <[p := NFile (c +:+ data)]> (d_nodes d) ∧
    (et + N.of_nat (String.length data) <= max_entry_bytes limits)%N ∧
    (t + N.of_nat (String.length data) <= max_decompressed_bytes limits)%N ∧
    r ≠ Ok None ∧
    ∀ et' t', r = Ok (Some (et', t')) →
      et' = (et + N.of_nat (String.length data))%N ∧
      t' = (t + N.of_nat (String.length data))%N.
Proof.
  assert (Hnil : ∀ d c d', d_nodes d !! p = Some (NFile c) → d_nodes d' = d_nodes d →
    d_nodes d' = <[p := NFile (c +:+ "")]> (d_nodes d)).
  { intros d c d' Hp ->. rewrite string_app_nil_r. symmetry. by apply insert_id. }
  induction fuel as [|fuel IH]; intros i et t d c r d' Hrun Het Ht Hfuel Hp; [lia|].
  simpl in Hrun. destruct (ze_read entry i) as [chunk|]; cycle 1.
  { unfold sfail in Hrun. simplify_eq. exists "". split_and!; simpl; naive_solver lia. }
  case_decide as Hchunk.
  { unfold sret in Hrun. simplify_eq. exists "". split_and!; simpl; naive_solver lia. }
  apply string_length_0 in Hchunk.
  unfold slift, ok_or in Hrun. unfold sbind at 1 in Hrun.
  destruct (checked_add_u64 et _) as [et1|] eqn:E1; cycle 1.
  { simplify_eq. exists "". split_and!; simpl; naive_solver lia. }
  unfold sbind at 1 in Hrun.
  destruct (checked_add_u64 t _) as [t1|] eqn:E2; cycle 1.
  { simplify_eq. exists "". split_and!; simpl; naive_solver lia. }
  apply checked_add_u64_Some in E1 as [-> _], E2 as [-> _].
  case_match eqn:Hlim.
  { unfold sfail in Hrun. simplify_eq. exists "". split_and!; simpl; naive_solver lia. }
  reflect_bools.
  apply sbind_inv in Hrun as [([] & d1 & H1 & Hrun)|(e & H1 & ->)];
    apply on_disk_inv in H1 as (r0 & H1 & Hr0);
    eapply append_cases in H1 as [(e' & -> & Hd1)|[-> Hd1]]; try exact Hp; simplify_eq/=.
  - apply IH with (c := c +:+ chunk) in Hrun as (data & Hd' & ? & ? & ? & Hres);
      [|lia|lia|lia|rewrite Hd1; apply lookup_insert_eq].
    exists (chunk +:+ data). rewrite string_length_app.
    rewrite Hd', Hd1, insert_insert_eq, string_app_assoc. split_and!; [done|lia|lia|done|].
    intros et' t' [-> ->]%Hres. lia.
  - exists "". split_and!; simpl; naive_solver lia.
Qed.

Section extraction_laws.
  Context (cp437 : ascii → string) (zip_at : gmap string node → string → zip_source).
  #[local] Abbreviation extract_entry := (Archive.extract_entry cp437).
  #[local] Abbreviation extract_loop := (Archive.extract_loop cp437).
  #[local] Abbreviation extract_zip_to_staging := (Archive.extract_zip_to_staging cp437 zip_at).

(** A staged artifact holds exactly the bytes its entry declared. *)
Definition staged_ok (ns : gmap string node) (a : staged_artifact) : Prop :=
  ∃ data, ns !! sa_path a = Some (NFile data) ∧
    N.of_nat (String.length data) = ae_decompressed_bytes (sa_entry a).

Definition kept (ns ns' : gmap string node) : Prop := ∀ q n, ns !! q = Some n → ns' !! q = Some n.

#[local] Instance kept_preorder : PreOrder kept.
Proof. split; [by intros ns q n|intros a b c Hab Hbc q n ?; eauto]. Qed.

Lemma extract_entry_Ok limits root i observed e t d x d' :
  extract_entry limits root i observed e t d = (Ok x, d') →
  (t <= max_decompressed_bytes limits)%N →
  match x with
  | None => ae_kind observed = Directory ∧ d_nodes d' = d_nodes d
  | Some (a, t') =>
      ae_kind observed ≠ Directory ∧ a = StagedArtifact observed (staged_name root i) ∧
      kept (d_nodes d) (d_nodes d') ∧ staged_ok (d_nodes d') a ∧
      t' = (t + ae_decompressed_bytes observed)%N ∧ (t' <= max_decompressed_bytes limits)%N
  end.
Proof.
  unfold Archive.extract_entry. case_decide as Hk; [by intros [= <- <-]|].
  intros (entry & d1 & [_ <-]%pair_equal_spec & Hrun)%sbind_Ok_inv Ht.
  apply sbind_Ok_inv in Hrun as (name & d2 & [_ <-]%pair_equal_spec & Hrun).
  apply sbind_Ok_inv in Hrun as (norm & d3 & [_ <-]%pair_equal_spec & Hrun).
  case_decide as Hpath; [done|].
  apply sbind_Ok_inv in Hrun as ([] & d4 & H4%smap_err_Ok_inv & Hrun).
  apply faulty_cases in H4 as [(? & ? & _)|([] & _ & H4)]; [done|].
  destruct (d_nodes d !! staged_name root i) eqn:Hfree; [done|]. injection H4 as H4.
  apply sbind_Ok_inv in Hrun as ([] & d5 & H5%smap_err_Ok_inv%(touch_stable eq) & Hrun).
  apply sbind_Ok_inv in Hrun as (copied & d6 & H6 & Hrun). unfold on_nodes in H5.
  eapply copy_loop_spec with (c := "") in H6 as (data & Hd6 & _ & Hmax & _ & Hres); cycle 1.
  { lia. } { lia. } { unfold copy_fuel. lia. }
  { rewrite <-H5, <-H4. apply lookup_insert_eq. }
  destruct copied as [[et t']|]; [|done].
  apply sbind_Ok_inv in Hrun as ([] & d7 & H7%smap_err_Ok_inv%(touch_stable eq) & Hrun).
  unfold on_nodes in H7. case_decide as Hlen; [done|].
  unfold sret in Hrun. simplify_eq. destruct (Hres _ _ eq_refl) as [Het ->].
  rewrite <-H5, <-H4, insert_insert_eq in Hd6.
  split_and!; try done; try lia.
  - rewrite <-H7, Hd6. intros q n Hq. rewrite lookup_insert_ne; [done|]. intros <-. congruence.
  - exists data. simpl. rewrite <-H7, Hd6, lookup_insert_eq. split; [done|]. simpl. lia.
Qed.

Lemma extract_loop_Ok limits root expected : ∀ i es t d arts d',
  extract_loop limits root i expected es t d = (Ok arts, d') →
  (t <= max_decompressed_bytes limits)%N →
  sa_entry <$> arts = filter (λ e, ae_kind e ≠ Directory) expected ∧
  kept (d_nodes d) (d_nodes d') ∧ Forall (staged_ok (d_nodes d')) arts ∧
  (t + sum_N (ae_decompressed_bytes ∘ sa_entry <$> arts) <= max_decompressed_bytes limits)%N ∧
  Forall (λ a, ∃ n, sa_path a = staged_name root n) arts.
Proof.
  induction expected as [|o expected IH]; intros i es t d arts d' Hrun Ht; simpl in Hrun.
  { unfold sret in Hrun. simplify_eq. simpl. split_and!; try done; simpl; lia. }
  apply sbind_Ok_inv in Hrun as (x & d1 & H1 & Hrun).
  apply extract_entry_Ok in H1; [|done]. destruct x as [[a t']|].
  - apply sbind_Ok_inv in Hrun as (rest & d2 & Hrest & Hrun). unfold sret in Hrun. simplify_eq.
    destruct H1 as (Hk & -> & Hkeep & Hst & -> & Ht').
    apply IH in Hrest as (He & Hkeep' & Hst' & Hsum & Hnames); [|done].
    rewrite filter_cons_True, fmap_cons, He by done.
    split_and!; [done|by etrans| |rewrite fmap_cons, sum_N_cons; simpl; lia|constructor; eauto].
    constructor; [|done]. destruct Hst as (data & Hdata & ?). exists data. eauto.
  - destruct H1 as [Hk Hd1]. apply IH in Hrun as (He & Hkeep & ?); [|done].
    rewrite Hd1 in Hkeep. rewrite filter_cons_False by naive_solver. done.
Qed.

(** *** Confinement *)

(** [root] stays a directory, and nothing outside it changes. *)
Definition inside (root : string) (ns ns' : gmap string node) : Prop :=
  (∀ q, below root q = false → ns' !! q = ns !! q) ∧
  (ns !! root = Some NDir → ns' !! root = Some NDir).

#[local] Instance inside_preorder root : PreOrder (inside root).
Proof.
  split; [done|]. intros a b c [H1 H2] [H3 H4]. split; [|auto].
  intros q Hq. by rewrite H3, H1.
Qed.

Lemma staged_name_below root i : below root (staged_name root i) = true.
Proof.
  unfold below, staged_name, path_join. apply orb_true_iff. right.
  apply starts_with_spec. eexists. by rewrite !string_app_assoc.
Qed.

Lemma create_new_inside root i :
  stable (on_nodes (inside root)) (on_disk (create_new (staged_name root i))).
Proof.
  apply stable_map_err, stable_faulty; [apply _|]. intros ns [] ns' H. split_cases.
  split; [|intros Hr; rewrite lookup_insert_ne; congruence].
  intros q Hq. rewrite lookup_insert_ne; [done|]. intros <-. by rewrite staged_name_below in Hq.
Qed.

Lemma append_inside root i data :
  stable (on_nodes (inside root)) (on_disk (append (staged_name root i) data)).
Proof.
  apply stable_map_err, stable_faulty; [apply _|]. intros ns [] ns' H. split_cases.
  split; [|intros Hr; rewrite lookup_insert_ne; congruence].
  intros q Hq. rewrite lookup_insert_ne; [done|]. intros <-. by rewrite staged_name_below in Hq.
Qed.

#[local] Hint Resolve create_new_inside append_inside : stable.

Lemma copy_loop_inside limits root k entry fuel : ∀ i et t,
  stable (on_nodes (inside root)) (copy_loop fuel i limits (staged_name root k) entry et t).
Proof. induction fuel; intros; simpl; solve_stable. Qed.

#[local] Hint Resolve copy_loop_inside : stable.

Lemma extract_loop_inside limits root expected : ∀ i es t,
  stable (on_nodes (inside root)) (extract_loop limits root i expected es t).
Proof.
  induction expected as [|o expected IH]; intros i es t; simpl; [solve_stable|].
  unfold Archive.extract_entry, on_disk. solve_stable; try apply touch_stable; try apply _.
Qed.

Lemma on_disk_quiet {A} (op : _ → result io_error (A * _)) : stable quiet_kept (on_disk (faulty op)).
Proof. apply stable_map_err, faulty_quiet_kept. Qed.

#[local] Hint Extern 1 (stable quiet_kept (on_disk _)) => apply on_disk_quiet : stable.

Lemma copy_loop_quiet limits p entry fuel : ∀ i et t,
  stable quiet_kept (copy_loop fuel i limits p entry et t).
Proof. induction fuel; intros; simpl; solve_stable. Qed.

#[local] Hint Resolve copy_loop_quiet : stable.

Lemma extract_loop_quiet limits root expected : ∀ i es t,
  stable quiet_kept (extract_loop limits root i expected es t).
Proof.
  induction expected as [|o expected IH]; intros i es t; simpl; [solve_stable|].
  unfold Archive.extract_entry. solve_stable.
Qed.

Lemma remove_dir_all_run root d :
  quiet d → d_nodes d !! root = Some NDir →
  ∃ d', remove_dir_all root d = (Ok tt, d') ∧
    d_nodes d' = filter (λ kv, below root kv.1 = false) (d_nodes d) ∧ quiet d'.
Proof. intros Hq Hr. apply faulty_quiet_run; [done|]. by rewrite Hr. Qed.

Lemma remove_dir_all_outside root d r d' q :
  remove_dir_all root d = (r, d') → below root q = false → d_nodes d' !! q = d_nodes d !! q.
Proof.
  intros H Hq. apply faulty_cases in H as [(? & _ & ->)|([] & _ & H)]; [done|].
  destruct (d_nodes d !! root) as [[]|]; [done| |done]. injection H as <-.
  rewrite map_lookup_filter. destruct (d_nodes d !! q); simpl; [|done]. by rewrite option_guard_True.
Qed.

(** The disk operations before the staging directory exists. *)
Lemma create_dir_all_outside p d r d' q :
  on_disk (create_dir_all p) d = (r, d') → q ≠ p → d_nodes d' !! q = d_nodes d !! q.
Proof.
  intros (r0 & H & _)%on_disk_inv Hq. apply faulty_cases in H as [(? & _ & ->)|([] & _ & H)]; [done|].
  destruct (d_nodes d !! p) as [[]|]; [done|..]; injection H as <-; by rewrite lookup_insert_ne.
Qed.

Lemma on_disk_touch d r d' : on_disk touch d = (r, d') → d_nodes d' = d_nodes d.
Proof. intros (r0 & H & _)%on_disk_inv. symmetry. exact (touch_stable eq _ _ _ H). Qed.

(** On a disk without faults [touch] succeeds. *)
Lemma on_disk_touch_run d r d' :
  quiet d → on_disk touch d = (r, d') → r = Ok tt.
Proof.
  intros Hq (r0 & H & ->)%on_disk_inv.
  edestruct (faulty_quiet_run (A := unit) (λ ns, Ok (tt, ns))) as (d1 & H1 & _);
    [exact Hq|done|]. unfold touch in H. rewrite H in H1. by simplify_eq.
Qed.

Lemma below_refl root : below root root = true.
Proof. unfold below. by rewrite String.eqb_refl. Qed.

(** What [extract_zip_to_staging] did: stop before the staging directory was
    made, fail to restrict it, or run the loop and clean up on failure. *)
Lemma extract_zip_cases path expected limits sroot id d r d' :
  let root := path_join sroot ("archive-" +:+ id) in
  extract_zip_to_staging path expected limits sroot id d = (r, d') →
  (is_ok r = false ∧ ∀ q, q ≠ sroot → d_nodes d' !! q = d_nodes d !! q) ∨
  (inspect_zip cp437 (zip_at (d_nodes d) path) limits = Ok expected ∧
   ∃ d1, (∀ q, q ≠ sroot → q ≠ root → d_nodes d1 !! q = d_nodes d !! q) ∧
     d_nodes d1 !! root = Some NDir ∧ (quiet d → quiet d1) ∧
     ((is_ok r = false ∧ ¬ quiet d ∧ d_nodes d' = d_nodes d1) ∨
      ∃ x d2, extract_entries cp437 zip_at path (ai_entries expected) limits root d1 = (x, d2) ∧
        match x with
        | Ok arts => r = Ok (StagedExtraction root arts) ∧ d' = d2
        | Err e => r = Err e ∧ ∃ y, remove_dir_all root d2 = (y, d')
        end)).
Proof.
  intros root. unfold Archive.extract_zip_to_staging. fold root.
  intros [(ins & d0 & [Hins <-]%pair_equal_spec & Hrun)|(e & [_ <-]%pair_equal_spec & ->)]%sbind_inv;
    [|by left].
  case_decide as Hexp; [by left; unfold sfail in Hrun; simplify_eq|]. subst ins.
  apply sbind_inv in Hrun as [([] & d2 & H2 & Hrun)|(e & H2 & ->)]; cycle 1.
  { left. split; [done|]. intros q. by eapply create_dir_all_outside. }
  assert (Q2 : quiet d → quiet d2) by (by apply (on_disk_quiet _ _ _ _ H2)).
  pose proof (λ q, create_dir_all_outside _ _ _ _ q H2) as N2.
  apply sbind_inv in Hrun as [([] & d3 & H3 & Hrun)|(e & H3 & ->)]; cycle 1.
  { left. split; [done|]. intros q Hq. rewrite (on_disk_touch _ _ _ H3). eauto. }
  assert (Q3 : quiet d → quiet d3) by (intros; apply (on_disk_quiet _ _ _ _ H3); auto).
  apply on_disk_touch in H3. rewrite <-H3 in N2.
  apply sbind_inv in Hrun as [([] & d4 & H4 & Hrun)|(e & H4 & ->)];
    pose proof (on_disk_quiet _ _ _ _ H4) as Q4; apply on_disk_inv in H4 as (r0 & H4 & E4);
    apply faulty_cases in H4 as [(? & -> & H4)|([] & -> & H4)]; simplify_eq/=; cycle 1.
  { left. split; [done|]. intros q Hq. rewrite H4. eauto. }
  destruct (d_nodes d3 !! root) eqn:Hfree; [done|]. injection H4 as H4.
  right. split; [done|].
  apply sbind_inv in Hrun as [([] & d5 & H5 & Hrun)|(e & H5 & ->)].
  - exists d5. rewrite (on_disk_touch _ _ _ H5), <-H4. split_and!.
    + intros q Hs Hr. rewrite lookup_insert_ne by done. auto.
    + apply lookup_insert_eq.
    + intros. apply (on_disk_quiet _ _ _ _ H5), Q4, Q3. done.
    + right. apply sbind_inv in Hrun as [(x & d6 & H6 & Hrun)|(e & H6 & _)]; unfold stry in H6;
        destruct (extract_entries _ _ _ _ _ _ d5) as [y d7] eqn:Hx; simplify_eq.
      exists x, d6. split; [done|]. destruct x as [arts|e].
      * unfold sret in Hrun. by simplify_eq.
      * unfold sbind, signore in Hrun. destruct (remove_dir_all root d6) as [y d7].
        unfold sfail in Hrun. simplify_eq. eauto.
  - exists d4. rewrite <-H4. split_and!.
    + intros q Hs Hr. rewrite lookup_insert_ne by done. auto.
    + apply lookup_insert_eq.
    + intros. by apply Q4, Q3.
    + left. split_and!; [done| |by rewrite (on_disk_touch _ _ _ H5)].
      intros Hq. by apply on_disk_touch_run in H5; [|by apply Q4, Q3].
Qed.

(** ** Properties of extraction *)

(** A hostile entry cannot make the copy loop run or write without bound:
    for every reader, one that never reports its end included, the fuel the
    extraction grants is enough, what the staged file holds stays within the
    entry limit and, with the running total, within the archive limit, and
    the counts returned are exactly the bytes written. *)
Theorem copy_loop_bounded (limits : archive_limits) (p : string) (entry : zip_entry)
    (t : N) (d d' : disk) (r : result archive_intake_error (option (N * N))) :
  (t <= max_decompressed_bytes limits)%N →
  d_nodes d !! p = Some (NFile "") →
  copy_loop (copy_fuel limits) 0 limits p entry 0 t d = (r, d') →
  r ≠ Ok None ∧
  ∃ data, d_nodes d' = <[p := NFile data]> (d_nodes d) ∧
    let n := N.of_nat (String.length data) in
    (n <= max_entry_bytes limits)%N ∧ (t + n <= max_decompressed_bytes limits)%N ∧
    ∀ et' t', r = Ok (Some (et', t')) → et' = n ∧ t' = (t + n)%N.
Proof.
  intros Ht Hp Hrun. eapply copy_loop_spec in Hrun as (data & ? & ? & ? & ? & ?);
    [|unfold copy_fuel; lia..|exact Hp].
  split; [done|]. exists data. split; [done|]. intros n. subst n. split_and!; [lia|lia|]. naive_solver.
Qed.

(** A successful extraction stages exactly what was inspected: the fresh
    inspection equals the inventory the caller approved, every entry that is
    not a directory has one artifact, in order, whose file holds exactly the
    declared number of bytes under a name made of the index alone, and all of
    them together stay within the archive limit. *)
Theorem extraction_stages_inventory (path : string) (expected : archive_inventory)
    (limits : archive_limits) (sroot id : string) (d d' : disk) (st : staged_extraction) :
  extract_zip_to_staging path expected limits sroot id d = (Ok st, d') →
  inspect_zip cp437 (zip_at (d_nodes d) path) limits = Ok expected ∧
  se_root st = path_join sroot ("archive-" +:+ id) ∧
  sa_entry <$> se_artifacts st = filter (λ e, ae_kind e ≠ Directory) (ai_entries expected) ∧
  Forall (staged_ok (d_nodes d')) (se_artifacts st) ∧
  Forall (λ a, ∃ n, sa_path a = staged_name (se_root st) n) (se_artifacts st) ∧
  (sum_N (ae_decompressed_bytes ∘ sa_entry <$> se_artifacts st)
     <= max_decompressed_bytes limits)%N.
Proof.
  intros [[? _]|(Hins & d1 & _ & _ & _ & [[? _]|(x & d2 & Hx & Hr)])]%extract_zip_cases;
    [done|done|].
  destruct x as [arts|e]; [destruct Hr as [[= ->] ->]|by destruct Hr as [? _]].
  unfold extract_entries in Hx.
  apply sbind_Ok_inv in Hx as (es & d3 & [_ <-]%pair_equal_spec & Hx).
  apply extract_loop_Ok in Hx as (? & _ & ? & ? & ?); [|lia].
  split_and!; done.
Qed.

(** C32. Extraction is confined to the directory it creates, and cleans up:
    whatever the archive, the faults and the outcome, no node outside that
    directory (and the staging root above it) changes; and when it fails on a
    disk without faults, nothing is left below the directory. *)
Theorem extraction_confined (path : string) (expected : archive_inventory)
    (limits : archive_limits) (sroot id : string) (d d' : disk)
    (r : result archive_intake_error staged_extraction) :
  let root := path_join sroot ("archive-" +:+ id) in
  extract_zip_to_staging path expected limits sroot id d = (r, d') →
  (∀ q, below root q = false → q ≠ sroot → d_nodes d' !! q = d_nodes d !! q) ∧
  (is_ok r = false → quiet d →
   (∀ q, below root q = true → d_nodes d !! q = None) →
   ∀ q, below root q = true → q ≠ sroot → d_nodes d' !! q = None).
Proof.
  intros root. intros [[Hr Hsame]|(_ & d1 & Hsame & Hroot & Hq & Hrun)]%extract_zip_cases;
    [by split; eauto using eq_trans|].
  fold root in Hsame, Hroot, Hrun.
  assert (Hout : ∀ q, below root q = false → q ≠ sroot → d_nodes d1 !! q = d_nodes d !! q).
  { intros q Hb Hs. apply Hsame; [done|]. intros ->. by rewrite below_refl in Hb. }
  destruct Hrun as [(Hr & Hnq & ->)|(x & d2 & Hx & Hrun)]; [by split|].
  unfold extract_entries in Hx.
  apply sbind_inv in Hx as [(es & d3 & [_ <-]%pair_equal_spec & Hx)|(e & [_ <-]%pair_equal_spec & ->)].
  - pose proof (extract_loop_inside _ _ _ _ _ _ _ _ _ Hx) as [Hin Hdir].
    pose proof (extract_loop_quiet _ _ _ _ _ _ _ _ _ Hx) as Hq2.
    destruct x as [arts|e].
    + destruct Hrun as [-> ->]. split; [|done]. intros q Hb Hs. by rewrite Hin, Hout.
    + destruct Hrun as (-> & y & Hrm). split.
      * intros q Hb Hs. by rewrite (remove_dir_all_outside _ _ _ _ _ Hrm), Hin, Hout.
      * intros _ Hquiet _ q Hb _.
        destruct (remove_dir_all_run root d2) as (d4 & Hrm' & Hd4 & _); [auto..|].
        rewrite Hrm in Hrm'. simplify_eq. rewrite Hd4, map_lookup_filter.
        destruct (d_nodes d2 !! q); simpl; [|done]. rewrite option_guard_False; [done|simpl; congruence].
  - destruct Hrun as (-> & y & Hrm). split.
    + intros q Hb Hs. by rewrite (remove_dir_all_outside _ _ _ _ _ Hrm), Hout.
    + intros _ Hquiet _ q Hb _.
      destruct (remove_dir_all_run root d1) as (d4 & Hrm' & Hd4 & _); [auto..|].
      rewrite Hrm in Hrm'. simplify_eq. rewrite Hd4, map_lookup_filter.
      destruct (d_nodes d1 !! q); simpl; [|done]. rewrite option_guard_False; [done|simpl; congruence].
Qed.
End extraction_laws.

Section extract_laws.
  Context (cp437 : ascii → string) (zip_at : gmap string node → string → zip_source).
  Context (sha256_hex : string → string) (media_type_ok : string → bool).
  Context (os_reads : string → list (option string)).
  #[local] Abbreviation publish_all := (Archive.publish_all sha256_hex media_type_ok os_reads).
  #[local] Abbreviation extract :=
    (Archive.extract cp437 zip_at sha256_hex media_type_ok os_reads).

(** What a published artifact says about the entry it comes from. *)
Definition published_from (raw : blob_ref) (a : extracted_artifact) (e : archive_entry) : Prop :=
  ap_raw_archive_digest (ea_provenance a) = cd_hex (br_digest raw) ∧
  ap_entry_path (ea_provenance a) = ae_path e ∧
  (ea_quarantined a = true ↔ ae_kind e = Html ∨ ae_kind e = Media) ∧
  br_owner_service (ea_blob a) = OWNER.

Lemma publish_all_Ok ax raw root staged : ∀ ids d arts d',
  publish_all ax raw root ids staged d = (Ok arts, d') →
  Forall2 (published_from raw) arts (sa_entry <$> staged).
Proof.
  induction staged as [|one staged IH]; intros ids d arts d' Hrun; simpl in Hrun.
  { unfold sret in Hrun. simplify_eq. constructor. }
  apply sbind_Ok_inv in Hrun as (r & d1 & Hone & Hrun). unfold stry in Hone.
  destruct (publish_staged_artifact _ _ _ _ _ _ _ d) as [x d2] eqn:Hp.
  injection Hone as <- <-. destruct x as [a|e]; cycle 1.
  { by apply sbind_Ok_inv in Hrun as (? & ? & _ & ?). }
  apply sbind_Ok_inv in Hrun as (rest & d3 & Hrest & Hrun). unfold sret in Hrun. simplify_eq.
  constructor; [|by eapply IH]. unfold publish_staged_artifact in Hp.
  apply sbind_Ok_inv in Hp as (c & d4 & _ & Hp).
  apply sbind_Ok_inv in Hp as (blob & d5 & _ & Hp).
  apply sbind_Ok_inv in Hp as (path & d6 & Hv%smap_err_Ok_inv & Hp). unfold sret in Hp. simplify_eq.
  apply verify_Ok in Hv as (_ & Ho & _).
  split_and!; simpl; try done. apply bool_decide_eq_true.
Qed.

(** C33. A successful extraction publishes one artifact per file of the
    approved inventory, in order: its provenance names the raw archive's
    digest and the entry's normalized path, it is quarantined exactly when the
    entry is HTML or media, its reference is this service's own, and the
    private staging directory is gone. *)
Theorem extract_publishes_inventory (ax : archive_extractor) (raw : blob_ref)
    (inventory : archive_inventory) (id : string) (ids : list string) (d d' : disk)
    (arts : list extracted_artifact) :
  extract ax raw inventory id ids d = (Ok arts, d') →
  Forall2 (published_from raw) arts (filter (λ e, ae_kind e ≠ Directory) (ai_entries inventory)) ∧
  ∀ q, below (path_join (ax_staging_root ax) ("archive-" +:+ id)) q = true → d_nodes d' !! q = None.
Proof.
  unfold Archive.extract.
  intros (path & d1 & _ & Hrun)%sbind_Ok_inv.
  apply sbind_Ok_inv in Hrun as (st & d2 & Hst & Hrun).
  apply sbind_Ok_inv in Hrun as (arts' & d3 & Hpub & Hrun).
  apply sbind_Ok_inv in Hrun as ([] & d4 & Hrm & Hrun). unfold sret in Hrun. simplify_eq.
  apply publish_all_Ok in Hpub.
  apply extract_zip_cases in Hst as [[? _]|(_ & d0 & _ & _ & _ & [[? _]|(x & d5 & Hx & Hr)])];
    [done|done|].
  destruct x as [staged|e]; [destruct Hr as [[= ->] ->]|by destruct Hr as [? _]]. simpl in *.
  unfold extract_entries in Hx.
  apply sbind_Ok_inv in Hx as (es & d6 & [_ <-]%pair_equal_spec & Hx).
  apply extract_loop_Ok in Hx as (Hentries & _); [|lia]. rewrite Hentries in Hpub.
  split; [done|]. intros q Hq. apply smap_err_Ok_inv in Hrm.
  apply faulty_cases in Hrm as [(? & ? & _)|([] & _ & Hrm)]; [done|].
  destruct (d_nodes d3 !! _) as [[]|]; [done| |done]. injection Hrm as <-.
  rewrite map_lookup_filter. destruct (d_nodes d3 !! q); simpl; [|done].
  rewrite option_guard_False; [done|simpl; congruence].
Qed.
End extract_laws.

(** ** Witnesses

    An archive with a directory, a JSON file whose reader delivers it in two
    pieces, and an HTML page. *)

Module ArchiveWitness.
Definition reads (l : list string) (i : nat) : option string := Some (default "" (l !! i)).

Definition entry (name : string) (dir : bool) (l : list string) : zip_entry :=
  let content := String.concat "" l in
  ZipEntry 0 name (Some name) None (N.of_nat (String.length content))
    (N.of_nat (String.length content)) dir (Some content) (reads l).

Definition zip : zip_source :=
  ZipSource [Some (entry "export/" true []);
             Some (entry "export/./a.json" false ["{'a':"; "1}"]);
             Some (entry "export/b.html" false ["<html>"])].

Definition limits : archive_limits := ArchiveLimits 10 1000 100 1000 10.
Definition no_cp437 (c : ascii) : string := "?".
Definition zip_at (ns : gmap string node) (p : string) : zip_source := zip.

Definition inventory : archive_inventory :=
  ArchiveInventory
    [ArchiveEntry "export" Directory 0 0; ArchiveEntry "export/a.json" Json 7 7;
     ArchiveEntry "export/b.html" Html 6 6] 13 13 {["a.json"; "b.html"]}.

Example inspect_zip_example : inspect_zip no_cp437 zip limits = Ok inventory.
Proof. vm_compute. reflexivity. Qed.

Lemma normalize_path_safe_witness :
  normalize_path "a/./b\c" = Ok "a/b/c" ∧ safe_path "a/b/c".
Proof.
  split; [reflexivity|]. apply (normalize_path_safe "a/./b\c" "a/b/c"). reflexivity.
Defined.

Lemma inspect_zip_sound_witness : NoDup (paths_of (ai_entries inventory)).
Proof. apply (inspect_zip_sound no_cp437 zip limits). vm_compute. reflexivity. Defined.

(** A reader that never ends: four bytes per call, for ever. *)
Definition endless : zip_entry :=
  ZipEntry 0 "x" (Some "x") None 4 4 false (Some "aaaa") (λ _, Some "aaaa").
Definition start : disk := Disk {["/s" := NFile ""]} [].

Lemma copy_loop_bounded_witness :
  (copy_loop (copy_fuel limits) 0 limits "/s" endless 0 0 start).1 = Err LimitExceeded ∧
  (copy_loop (copy_fuel limits) 0 limits "/s" endless 0 0 start).1 ≠ Ok None.
Proof.
  split; [vm_compute; reflexivity|].
  apply (copy_loop_bounded limits "/s" endless 0 start
    (copy_loop (copy_fuel limits) 0 limits "/s" endless 0 0 start).2); [done|reflexivity|].
  apply surjective_pairing.
Defined.

Definition disk0 : disk := Disk ∅ [].
Definition staged : result archive_intake_error staged_extraction * disk :=
  extract_zip_to_staging no_cp437 zip_at "/raw" inventory limits "/st" "1" disk0.

Lemma extraction_stages_inventory_witness :
  sa_entry <$> [StagedArtifact (ArchiveEntry "export/a.json" Json 7 7) "/st/archive-1/entry-1.part";
                StagedArtifact (ArchiveEntry "export/b.html" Html 6 6) "/st/archive-1/entry-2.part"]
  = filter (λ e, ae_kind e ≠ Directory) (ai_entries inventory).
Proof.
  apply (extraction_stages_inventory no_cp437 zip_at "/raw" inventory limits "/st" "1" disk0
    staged.2 (StagedExtraction "/st/archive-1" _)).
  vm_compute. reflexivity.
Defined.

(** A second reading that lies about a length: the extraction fails and leaves
    nothing. *)
Definition lying_at (ns : gmap string node) (p : string) : zip_source :=
  match ns !! "/st/archive-1" with
  | None => zip
  | Some _ => ZipSource [Some (entry "export/" true []);
                         Some (entry "export/a.json" false ["{}"]);
                         Some (entry "export/b.html" false ["<html>"])]
  end.
Definition lied : result archive_intake_error staged_extraction * disk :=
  extract_zip_to_staging no_cp437 lying_at "/raw" inventory limits "/st" "1" disk0.

Lemma extraction_confined_witness :
  lied.1 = Err UnsupportedFormat ∧ d_nodes lied.2 !! "/st/archive-1/entry-1.part" = None.
Proof.
  split; [vm_compute; reflexivity|].
  apply (extraction_confined no_cp437 lying_at "/raw" inventory limits "/st" "1" disk0 lied.2 lied.1).
  - apply surjective_pairing.
  - vm_compute. reflexivity.
  - constructor.
  - done.
  - vm_compute. reflexivity.
  - done.
Defined.

Definition toy_sha (s : string) : string := "ab" +:+ s.
Definition ax : archive_extractor := ArchiveExtractor (BlobStore "/b") limits "/st".
Definition raw : blob_ref := BlobRef OWNER (ContentDigest Sha256 "abzip") "application/zip" 3.
Definition evidence_disk : disk := Disk {["/b/sha256/ab/zip" := NFile "zip"]} [].
Definition extracted : result archive_intake_error (list extracted_artifact) * disk :=
  extract no_cp437 zip_at toy_sha (λ _, true) (λ s, [Some s]) ax raw inventory "1" ["2"; "3"]
    evidence_disk.

Lemma extract_publishes_inventory_witness :
  ∃ arts, extracted.1 = Ok arts ∧
    Forall2 (published_from raw) arts (filter (λ e, ae_kind e ≠ Directory) (ai_entries inventory)).
Proof.
  eexists. split; [vm_compute; reflexivity|].
  refine (proj1 (extract_publishes_inventory no_cp437 zip_at toy_sha (λ _, true) (λ s, [Some s])
    ax raw inventory "1" ["2"; "3"] evidence_disk extracted.2 _ _)).
  vm_compute. reflexivity.
Defined.
End ArchiveWitness.
