(* ===== verification/Registry.v ===== *)
(** * Conservative versioned parser selection ([parser_registry.rs])

    Write-once parser declarations, the compatibility test, the declared
    version order, and the selection that refuses to guess between parsers.
    [AcquisitionMode] comes from [receipt/mod.rs]. *)

From S2P Require Import Prelude Archive.
#[local] Open Scope result_scope.

Inductive acquisition_mode : Set :=
| ConsumerExport | EduExport | ComplianceLog | ManualCapture | LegacyImport.

#[global] Instance acquisition_mode_eq_dec : EqDecision acquisition_mode.
Proof. solve_decision. Defined.

(** [AcquisitionMode::as_str]. *)
Definition mode_as_str (m : acquisition_mode) : string :=
  match m with
  | ConsumerExport => "consumer_export"
  | EduExport => "edu_export"
  | ComplianceLog => "compliance_log"
  | ManualCapture => "manual_capture"
  | LegacyImport => "legacy_import"
  end.

(** [AcquisitionMode::parse]. *)
Definition mode_parse (spelling : string) : option acquisition_mode :=
  if String.eqb spelling "consumer_export" then Some ConsumerExport
  else if String.eqb spelling "edu_export" then Some EduExport
  else if String.eqb spelling "compliance_log" then Some ComplianceLog
  else if String.eqb spelling "manual_capture" then Some ManualCapture
  else if String.eqb spelling "legacy_import" then Some LegacyImport
  else None.

Record parser_id : Set := ParserId { pi_name : string; pi_version : string }.

#[global] Instance parser_id_eq_dec : EqDecision parser_id.
Proof. solve_decision. Defined.

Record parser_registration : Type := ParserRegistration {
  pr_id : parser_id;
  pr_modes : list acquisition_mode;
  pr_required_signals : gset string;
}.

Inductive registry_error : Set := DuplicateIdentity.

Inductive parser_selection : Set :=
| Selected (id : parser_id)
| Unsupported
| Ambiguous (ids : list parser_id).

(** ** Declared versions *)

Inductive version_part : Set := Number (n : N) | VText (s : string).

(** The derived order: numbers before texts. *)
#[global] Instance version_part_ord : Ord version_part := λ a b,
  match a, b with
  | Number m, Number n => cmp m n
  | Number _, VText _ => Lt
  | VText _, Number _ => Gt
  | VText s, VText t => cmp s t
  end.

Definition is_version_separator (c : ascii) : bool :=
  is_char "."%char c || is_char "-"%char c || is_char "_"%char c.

Definition version_parts (version : string) : list version_part :=
  (λ part, match parse_u64 part with Some n => Number n | None => VText part end)
    <$> split_on is_version_separator version.

Definition compare_versions (left right : string) : comparison :=
  cmp (version_parts left) (version_parts right).

(** The comparison [compatible_versions] and [select] sort by. *)
Definition compare_ids (left right : parser_id) : comparison :=
  then_cmp (cmp (pi_name left) (pi_name right))
           (compare_versions (pi_version left) (pi_version right)).

(** ** The registry *)

Definition compatible (r : parser_registration) (inventory : archive_inventory)
    (mode : acquisition_mode) : bool :=
  bool_decide (mode ∈ pr_modes r) && bool_decide (pr_required_signals r ⊆ ai_signals inventory).

Section registry.
  (** The compiled parsers: any [ParserExecutor]. *)
  Context {X : Type}.

Record registered_parser : Type := RegisteredParser {
  rp_declaration : parser_registration;
  rp_executor : option X;
}.

(** [ParserRegistry]. *)
#[local] Abbreviation registry := (list registered_parser).

Record compiled_parser : Type := CompiledParser {
  cp_id : parser_id;
  cp_executor : X;
}.

Definition has_id (id : parser_id) (item : registered_parser) : bool :=
  bool_decide (pr_id (rp_declaration item) = id).

Definition register (regs : registry) (r : parser_registration) : result registry_error registry :=
  if existsb (has_id (pr_id r)) regs then Err DuplicateIdentity
  else Ok (regs ++ [RegisteredParser r None]).

Definition register_compiled (regs : registry) (r : parser_registration) (executor : X)
    : result registry_error registry :=
  if existsb (has_id (pr_id r)) regs then Err DuplicateIdentity
  else Ok (regs ++ [RegisteredParser r (Some executor)]).

Definition compatible_versions (regs : registry) (inventory : archive_inventory)
    (mode : acquisition_mode) : list parser_id :=
  sort_by compare_ids
    (pr_id ∘ rp_declaration <$>
      filter (λ item, compatible (rp_declaration item) inventory mode = true) regs).

Fixpoint find_exact (regs : registry) (id : parser_id) (inventory : archive_inventory)
    (mode : acquisition_mode) : option compiled_parser :=
  match regs with
  | [] => None
  | item :: regs =>
      match (if bool_decide (pr_id (rp_declaration item) = id)
                && compatible (rp_declaration item) inventory mode
             then CompiledParser (pr_id (rp_declaration item)) <$> rp_executor item
             else None) with
      | Some found => Some found
      | None => find_exact regs id inventory mode
      end
  end.

Definition select (regs : registry) (inventory : archive_inventory)
    (mode : acquisition_mode) : parser_selection :=
  let matches :=
    sort_by compare_ids
      (pr_id ∘ rp_declaration <$>
        filter (λ item, compatible (rp_declaration item) inventory mode = true) regs) in
  match length matches with
  | 0 => Unsupported
  | 1 => match head matches with Some id => Selected id | None => Unsupported end
  | _ => Ambiguous matches
  end.
End registry.

Arguments registered_parser : clear implicits.
Arguments compiled_parser : clear implicits.
Abbreviation registry X := (list (registered_parser X)).

(** ** Laws *)

#[global] Instance version_part_ord_laws : OrdLaws version_part.
Proof.
  split.
  - intros [m|s] [n|t]; unfold cmp at 1; simpl; try (split; done);
      rewrite cmp_eq_iff; naive_solver.
  - intros [m|s] [n|t]; unfold cmp at 1 2; simpl; try done; apply cmp_antisym.
  - intros [m|s] [n|t] [k|u]; unfold cmp at 1 2 3; simpl; try done; apply cmp_lt_trans.
Qed.

(** Two identities compare equal exactly when their keys agree. *)
Definition id_key (id : parser_id) : string * list version_part :=
  (pi_name id, version_parts (pi_version id)).

Lemma compare_ids_key a b : compare_ids a b = cmp_on id_key a b.
Proof. done. Qed.

Section registry_laws.
  Context {X : Type}.
  #[local] Abbreviation registry := (list (registered_parser X)).

Definition ids_of (regs : registry) : list parser_id := pr_id ∘ rp_declaration <$> regs.

(** The registry invariant: identities are pairwise distinct. *)
Definition registry_wf (regs : registry) : Prop := NoDup (ids_of regs).

Lemma has_id_spec id regs : existsb (has_id (X := X) id) regs = true ↔ id ∈ ids_of regs.
Proof.
  unfold ids_of. rewrite existsb_exists, list_elem_of_fmap.
  unfold has_id. setoid_rewrite bool_decide_eq_true. setoid_rewrite list_elem_of_In.
  naive_solver.
Qed.

Lemma register_step (regs : registry) r item regs' :
  pr_id (rp_declaration item) = pr_id r →
  (if existsb (has_id (pr_id r)) regs then Err DuplicateIdentity
   else Ok (regs ++ [item])) = Ok regs' →
  pr_id r ∉ ids_of regs ∧ regs' = regs ++ [item] ∧ (registry_wf regs → registry_wf regs').
Proof.
  intros Hid. destruct (existsb _ regs) eqn:E; [done|]. intros [= <-].
  assert (pr_id r ∉ ids_of regs) as Hnew by (by rewrite <-has_id_spec, E).
  split_and!; [done..|]. unfold registry_wf, ids_of. rewrite fmap_app, NoDup_app. simpl.
  intros Hnd. split_and!; [done| |apply NoDup_singleton].
  intros x Hx ->%list_elem_of_singleton. rewrite Hid in Hx. done.
Qed.

Lemma compatible_versions_perm (regs : registry) inventory mode :
  compatible_versions regs inventory mode ≡ₚ
    ids_of (filter (λ item, compatible (rp_declaration item) inventory mode = true) regs).
Proof. apply sort_by_perm. Qed.

Lemma ids_of_filter_NoDup (regs : registry) (P : registered_parser X → Prop)
    `{!∀ x, Decision (P x)} :
  registry_wf regs → NoDup (ids_of (filter P regs)).
Proof.
  unfold registry_wf, ids_of. induction regs as [|r regs IH]; [done|].
  rewrite fmap_cons, NoDup_cons, filter_cons. intros [Hr Hnd].
  case_decide; [|by apply IH]. rewrite fmap_cons, NoDup_cons. split; [|by apply IH].
  intros (x & Hx & [_ Hin]%list_elem_of_filter)%list_elem_of_fmap.
  apply Hr, list_elem_of_fmap. eauto.
Qed.

(** ** Properties *)

(** Registration is write-once: it succeeds exactly when the identity is
    new, then appends one declaration and leaves every earlier one in place,
    and it keeps the identities pairwise distinct. *)
Theorem registration_write_once (regs : registry) (r : parser_registration) (x : X) :
  (∀ regs', register regs r = Ok regs' →
     pr_id r ∉ ids_of regs ∧ regs' = regs ++ [RegisteredParser r None] ∧
     (registry_wf regs → registry_wf regs')) ∧
  (∀ regs', register_compiled regs r x = Ok regs' →
     pr_id r ∉ ids_of regs ∧ regs' = regs ++ [RegisteredParser r (Some x)] ∧
     (registry_wf regs → registry_wf regs')) ∧
  (register regs r = Err DuplicateIdentity ↔ pr_id r ∈ ids_of regs) ∧
  (register_compiled regs r x = Err DuplicateIdentity ↔ pr_id r ∈ ids_of regs).
Proof.
  split_and!; try (intros regs' H; by eapply register_step in H).
  all: rewrite <-has_id_spec; unfold register, register_compiled;
    destruct (existsb _ regs); naive_solver.
Qed.

(** Selection never guesses: with distinct identities it selects an
    identity exactly when that parser is compatible and no other is, reports
    an unsupported archive exactly when none is, and otherwise lists all of
    the compatible ones, each once, in version order. *)
Theorem select_conservative (regs : registry) (inventory : archive_inventory)
    (mode : acquisition_mode) :
  registry_wf regs →
  let ok id := ∃ item, item ∈ regs ∧ pr_id (rp_declaration item) = id ∧
                 compatible (rp_declaration item) inventory mode = true in
  match select regs inventory mode with
  | Selected id => ∀ id', ok id' ↔ id' = id
  | Unsupported => ∀ id', ¬ ok id'
  | Ambiguous ids => 2 ≤ length ids ∧ NoDup ids ∧ (∀ id', id' ∈ ids ↔ ok id') ∧
      StronglySorted (λ a b, compare_ids a b ≠ Gt) ids
  end.
Proof.
  intros Hwf ok.
  set (ms := compatible_versions regs inventory mode).
  assert (Hok : ∀ id, id ∈ ms ↔ ok id).
  { intros id. unfold ms. rewrite compatible_versions_perm. unfold ids_of, ok.
    rewrite list_elem_of_fmap. setoid_rewrite list_elem_of_filter. naive_solver. }
  assert (Hnd : NoDup ms).
  { unfold ms. rewrite compatible_versions_perm. by apply ids_of_filter_NoDup. }
  assert (Hs : StronglySorted (λ a b, compare_ids a b ≠ Gt) ms)
    by exact (sort_by_sorted id_key _).
  unfold select. fold (compatible_versions regs inventory mode). fold ms.
  destruct ms as [|a [|b ms]]; simpl.
  - intros id' Hid%Hok. by apply elem_of_nil in Hid.
  - intros id'. by rewrite <-Hok, list_elem_of_singleton.
  - split_and!; [lia|done..].
Qed.

(** The selection is a function of the set of declarations: registering
    the same parsers in another order gives the same list of compatible
    versions and the same selection, as long as no two compatible versions
    have the same parts. *)
Theorem select_registration_order (regs regs' : registry) (inventory : archive_inventory)
    (mode : acquisition_mode) :
  regs ≡ₚ regs' →
  NoDup (id_key <$> ids_of (filter
    (λ item, compatible (rp_declaration item) inventory mode = true) regs)) →
  compatible_versions regs inventory mode = compatible_versions regs' inventory mode ∧
  select regs inventory mode = select regs' inventory mode.
Proof.
  intros Hp Hnd.
  assert (E : compatible_versions regs inventory mode = compatible_versions regs' inventory mode).
  { refine (sort_by_unique id_key _ _ _ Hnd). apply fmap_Permutation.
    clear Hnd. induction Hp; rewrite ?filter_cons; repeat case_decide; eauto using Permutation. }
  split; [done|]. unfold select. unfold compatible_versions in E. by rewrite E.
Qed.

(** Exact resolution agrees with the declarations: with distinct
    identities it returns the compiled behaviour registered under the
    requested identity when that declaration is compatible, and nothing
    otherwise. *)
Theorem find_exact_spec (regs : registry) (id : parser_id) (inventory : archive_inventory)
    (mode : acquisition_mode) (p : compiled_parser X) :
  registry_wf regs →
  find_exact regs id inventory mode = Some p ↔
  ∃ item, item ∈ regs ∧ pr_id (rp_declaration item) = id ∧
    compatible (rp_declaration item) inventory mode = true ∧
    cp_id p = id ∧ rp_executor item = Some (cp_executor p).
Proof.
  unfold registry_wf, ids_of. induction regs as [|r regs IH]; simpl.
  { intros _. split; [done|]. intros (? & ?%elem_of_nil & _). done. }
  rewrite NoDup_cons. intros [Hr Hnd]. setoid_rewrite elem_of_cons. specialize (IH Hnd).
  assert (Hother : ∀ item, item ∈ regs → pr_id (rp_declaration item) ≠ pr_id (rp_declaration r)).
  { intros item Hin E. apply Hr, list_elem_of_fmap. exists item. simpl. by rewrite E. }
  destruct p as [pid px]. simpl in *.
  destruct (bool_decide (pr_id (rp_declaration r) = id)) eqn:Hid; simpl; reflect_bools.
  - assert (Hnone : find_exact regs id inventory mode ≠ Some (CompiledParser pid px)).
    { intros (item & Hin & ? & _)%IH. apply (Hother _ Hin). congruence. }
    destruct (compatible (rp_declaration r) inventory mode) eqn:Hc; simpl.
    + destruct (rp_executor r) as [x|] eqn:Hx; simpl; split.
      * intros [= <- <-]. exists r. naive_solver.
      * intros (item & [->|Hin] & ? & ? & ? & ?); [by simplify_eq|].
        exfalso. apply (Hother _ Hin). congruence.
      * done.
      * intros (item & [->|Hin] & ? & ? & ? & ?); [congruence|].
        exfalso. apply (Hother _ Hin). congruence.
    + split; [done|]. intros (item & [->|Hin] & ? & ? & ? & ?); [congruence|].
      exfalso. apply (Hother _ Hin). congruence.
  - rewrite IH. naive_solver.
Qed.
End registry_laws.

(** The database spelling of an acquisition mode determines it, and only
    those spellings are accepted. *)
Theorem mode_spelling_roundtrip (m : acquisition_mode) (s : string) :
  mode_parse s = Some m ↔ mode_as_str m = s.
Proof.
  unfold mode_parse.
  repeat (case_match; reflect_bools; [subst; by destruct m|]).
  split; [done|]. intros <-. by destruct m.
Qed.

(** ** Witnesses *)

Module RegistryWitness.
Definition p (v : string) (m : acquisition_mode) : parser_registration :=
  ParserRegistration (ParserId "p" v) [m] {["a.json"]}.
Definition regs : registry nat :=
  [RegisteredParser (p "1.10" ConsumerExport) (Some 1);
   RegisteredParser (p "1.2" ConsumerExport) None;
   RegisteredParser (p "1.2b" EduExport) (Some 3)].
Definition inv : archive_inventory := ArchiveInventory [] 0 0 {["a.json"; "b"]}.

Example versions_ordered :
  compatible_versions regs inv ConsumerExport = [ParserId "p" "1.2"; ParserId "p" "1.10"].
Proof. vm_compute. reflexivity. Qed.

Lemma regs_wf : registry_wf regs.
Proof. unfold registry_wf. apply (bool_decide_eq_true_1 _). vm_compute. reflexivity. Qed.

Lemma select_conservative_witness :
  (∃ item, item ∈ regs ∧ pr_id (rp_declaration item) = ParserId "p" "1.10" ∧
    compatible (rp_declaration item) inv EduExport = true) ↔
  ParserId "p" "1.10" = ParserId "p" "1.2b".
Proof. exact (select_conservative regs inv EduExport regs_wf (ParserId "p" "1.10")). Defined.

Lemma select_registration_order_witness :
  select regs inv ConsumerExport = select (reverse regs) inv ConsumerExport.
Proof.
  apply (select_registration_order regs (reverse regs) inv ConsumerExport).
  - symmetry. apply reverse_Permutation.
  - vm_compute. repeat constructor; set_solver.
Defined.

Lemma find_exact_spec_witness :
  find_exact regs (ParserId "p" "1.10") inv ConsumerExport
    = Some (CompiledParser (ParserId "p" "1.10") 1).
Proof.
  apply (find_exact_spec regs (ParserId "p" "1.10") inv ConsumerExport
    (CompiledParser (ParserId "p" "1.10") 1) regs_wf).
  eexists. split; [apply elem_of_cons; by left|]. split_and!; reflexivity.
Defined.
End RegistryWitness.
