(* ===== verification/Json.v ===== *)
(** * JSON values

    [serde_json::Value], with an object as the list of its members in
    iteration order, so that nothing here depends on how the map type orders
    them; JSON pointers as the parser writes them ([synthetic_parser/parts.rs]
    [child_path]); and the canonical form of [reconciliation/digest.rs]. *)

From S2P Require Import Prelude BTree.

(** A number is one of serde_json's three representations; a float is its bit
    pattern (JSON has no non-finite ones). *)
Inductive json_number : Set :=
| PosInt (n : N)
| NegInt (z : Z)
| Float (bits : N).

#[global] Instance json_number_eq_dec : EqDecision json_number.
Proof. solve_decision. Defined.

Inductive json : Set :=
| JNull
| JBool (b : bool)
| JNumber (n : json_number)
| JString (s : string)
| JArray (l : list json)
| JObject (l : list (string * json)).

(** The induction principle with hypotheses for nested values. *)
Lemma json_rect' (P : json → Prop) :
  P JNull → (∀ b, P (JBool b)) → (∀ n, P (JNumber n)) → (∀ s, P (JString s)) →
  (∀ l, Forall P l → P (JArray l)) →
  (∀ l, Forall (λ kv, P kv.2) l → P (JObject l)) →
  ∀ v, P v.
Proof.
  intros Hnull Hbool Hnum Hstr Harr Hobj. fix IH 1. intros [|b|n|s|l|l].
  - apply Hnull.
  - apply Hbool.
  - apply Hnum.
  - apply Hstr.
  - apply Harr. revert l. fix IHl 1. intros [|v l]; constructor; [apply IH|apply IHl].
  - apply Hobj. revert l. fix IHl 1. intros [|[k v] l]; constructor; [apply IH|apply IHl].
Qed.

#[global] Instance json_eq_dec : EqDecision json.
Proof.
  refine (fix go v w := let _ : EqDecision _ := @go in
    match v, w with
    | JNull, JNull => left eq_refl
    | JBool a, JBool b => cast_if (decide (a = b))
    | JNumber a, JNumber b => cast_if (decide (a = b))
    | JString a, JString b => cast_if (decide (a = b))
    | JArray l, JArray k => cast_if (decide (l = k))
    | JObject l, JObject k => cast_if (decide (l = k))
    | _, _ => right _
    end); abstract congruence.
Defined.

(** ** Accessors *)

(** [Map::get]: keys are unique, so the first member decides. *)
Fixpoint obj_get (k : string) (l : list (string * json)) : option json :=
  match l with
  | [] => None
  | (k', v) :: l => if String.eqb k k' then Some v else obj_get k l
  end.

Definition as_str (v : json) : option string :=
  match v with JString s => Some s | _ => None end.
Definition as_object (v : json) : option (list (string * json)) :=
  match v with JObject l => Some l | _ => None end.
Definition is_string (v : json) : bool :=
  match v with JString _ => true | _ => false end.

(** [json!] of an option. *)
Definition json_option {A} (f : A → json) (o : option A) : json :=
  match o with Some a => f a | None => JNull end.

(** [json!] of an object: the map type orders the members. *)
Definition json_map (l : list (string * json)) : json := JObject (bt_of_list l).

(** ** Pointers *)

(** [str::replace] of one character. *)
Fixpoint replace (c : ascii) (by' : string) (s : string) : string :=
  match s with
  | EmptyString => EmptyString
  | String d s => if Ascii.eqb c d then by' +:+ replace c by' s else String d (replace c by' s)
  end.

Definition tilde : ascii := "~"%char.
Definition solidus : ascii := "/"%char.

Definition escape (segment : string) : string :=
  replace solidus "~1" (replace tilde "~0" segment).

(** [child_path]. *)
Definition child_path (path segment : string) : string := path +:+ "/" +:+ escape segment.

(** The reading side (RFC 6901), which the program leaves to its readers: the
    reference against which the paths are checked. *)
Fixpoint unescape (s : string) : string :=
  match s with
  | EmptyString => EmptyString
  | String c s' =>
      if Ascii.eqb c tilde then
        match s' with
        | String d s'' =>
            if Ascii.eqb d "1" then String solidus (unescape s'')
            else if Ascii.eqb d "0" then String tilde (unescape s'')
            else String c (unescape s')
        | EmptyString => String c EmptyString
        end
      else String c (unescape s')
  end.

Definition step (t : string) (v : json) : option json :=
  match v with
  | JObject l => obj_get t l
  | JArray l => '(i, _) ← list_find (λ i, show_nat i = t) (seq 0 (length l)); l !! i
  | _ => None
  end.

Fixpoint walk (ts : list string) (v : json) : option json :=
  match ts with
  | [] => Some v
  | t :: ts => step t v ≫= walk ts
  end.

Definition pointer (p : string) (v : json) : option json :=
  match split_on (is_char solidus) p with
  | "" :: ts => walk (unescape <$> ts) v
  | _ => None
  end.

(** ** Canonical form *)

(** [canonicalize]: every object's members in key order. *)
Fixpoint canonicalize (v : json) : json :=
  match v with
  | JArray l => JArray (canonicalize <$> l)
  | JObject l => JObject (bt_of_list ((λ kv, (kv.1, canonicalize kv.2)) <$> l))
  | scalar => scalar
  end.

(** Values that differ in the order of object members only. *)
Inductive json_equiv : json → json → Prop :=
| equiv_refl v : json_equiv v v
| equiv_array l k : Forall2 json_equiv l k → json_equiv (JArray l) (JArray k)
| equiv_object l l' k :
    NoDup l.*1 → l ≡ₚ l' →
    Forall2 (λ p q, p.1 = q.1 ∧ json_equiv p.2 q.2) l' k →
    json_equiv (JObject l) (JObject k).

(** Object keys are unique, at every depth. *)
Inductive json_wf : json → Prop :=
| wf_null : json_wf JNull
| wf_bool b : json_wf (JBool b)
| wf_number n : json_wf (JNumber n)
| wf_string s : json_wf (JString s)
| wf_array l : Forall json_wf l → json_wf (JArray l)
| wf_object l : NoDup l.*1 → Forall (λ kv, json_wf kv.2) l → json_wf (JObject l).

(** ** Laws *)

Lemma obj_get_elem k v l : NoDup l.*1 → (k, v) ∈ l → obj_get k l = Some v.
Proof.
  induction l as [|[k' v'] l IH]; simpl; [by intros _ ?%elem_of_nil|].
  rewrite NoDup_cons, elem_of_cons. intros [Hk Hnd] [[= -> ->]|Hin].
  - by rewrite String.eqb_refl.
  - destruct (String.eqb_spec k k') as [->|]; [|eauto].
    destruct Hk. apply list_elem_of_fmap. by exists (k', v).
Qed.

Lemma escape_cons c s :
  escape (String c s) =
    (if Ascii.eqb c tilde then "~0" else if Ascii.eqb c solidus then "~1" else String c "")
    +:+ escape s.
Proof.
  unfold escape. cbn [replace].
  destruct (Ascii.eqb_spec tilde c) as [<-|Ht]; [reflexivity|].
  rewrite (proj2 (Ascii.eqb_neq c tilde)) by congruence. cbn [replace].
  destruct (Ascii.eqb_spec solidus c) as [<-|Hs]; [reflexivity|].
  by rewrite (proj2 (Ascii.eqb_neq c solidus)) by congruence.
Qed.

Lemma unescape_escape s : unescape (escape s) = s.
Proof.
  induction s as [|c s IH]; [done|]. rewrite escape_cons.
  destruct (Ascii.eqb_spec c tilde) as [->|Ht].
  { change (String tilde (unescape (escape s)) = String tilde s). by rewrite IH. }
  destruct (Ascii.eqb_spec c solidus) as [->|Hs].
  { change (String solidus (unescape (escape s)) = String solidus s). by rewrite IH. }
  change (String c "" +:+ escape s) with (String c (escape s)). cbn [unescape].
  apply Ascii.eqb_neq in Ht as ->. by rewrite IH.
Qed.

Lemma escape_no_solidus s : any_byte (is_char solidus) (escape s) = false.
Proof.
  induction s as [|c s IH]; [done|]. rewrite escape_cons, any_byte_app, IH, orb_false_r.
  destruct (Ascii.eqb_spec c tilde) as [->|Ht]; [done|].
  destruct (Ascii.eqb_spec c solidus) as [->|Hs]; [done|].
  change (is_char solidus c || false = false). rewrite orb_false_r.
  apply Ascii.eqb_neq. congruence.
Qed.

(** The path of a list of segments, and reading it back. *)
Definition path_of (ts : list string) : string := foldl child_path "" ts.

Lemma path_of_snoc ts t : path_of (ts ++ [t]) = child_path (path_of ts) t.
Proof. unfold path_of. by rewrite foldl_app. Qed.

Lemma foldl_child_path p ts :
  foldl child_path p ts = p +:+ foldl child_path "" ts.
Proof.
  revert p. induction ts as [|t ts IH]; intros p; simpl; [by rewrite string_app_nil_r|].
  rewrite IH, (IH (child_path "" t)). unfold child_path.
  apply (inj to_bytes). rewrite !to_bytes_app. simpl. by rewrite <-app_assoc.
Qed.

Lemma join_head e es : join "/" (e :: es) = e +:+ join "/" ("" :: es).
Proof. destruct es; [by rewrite string_app_nil_r|done]. Qed.

Lemma path_of_join ts : path_of ts = join "/" ("" :: (escape <$> ts)).
Proof.
  unfold path_of. induction ts as [|t ts IH]; [done|].
  change (foldl child_path (child_path "" t) ts
    = "/" +:+ join "/" (escape t :: (escape <$> ts))).
  by rewrite foldl_child_path, IH, (join_head (escape t)).
Qed.

Lemma pointer_path_of ts v : pointer (path_of ts) v = walk ts v.
Proof.
  unfold pointer. rewrite path_of_join, split_join; [|done..|].
  - rewrite <-list_fmap_compose. f_equal.
    rewrite <-(list_fmap_id ts) at 2. apply list_fmap_ext. intros i t _. apply unescape_escape.
  - constructor; [done|]. apply Forall_fmap, Forall_true. intros t. apply escape_no_solidus.
Qed.

Lemma walk_app ts us v : walk (ts ++ us) v = walk ts v ≫= walk us.
Proof.
  revert v. induction ts as [|t ts IH]; intros v; simpl; [done|].
  destruct (step t v) as [w|]; simpl; [apply IH|done].
Qed.

Lemma step_array i l v : l !! i = Some v → step (show_nat i) (JArray l) = Some v.
Proof.
  intros Hv. unfold step. pose proof (lookup_lt_Some _ _ _ Hv) as Hlt.
  assert (list_find (λ j, show_nat j = show_nat i) (seq 0 (length l)) = Some (i, i)) as ->; [|done].
  apply list_find_Some. split_and!; [by apply lookup_seq|done|].
  intros j y [-> Hj]%lookup_seq Hlt'. intros E%(inj pretty). simpl in *. lia.
Qed.

Lemma walk_member k v l : NoDup l.*1 → (k, v) ∈ l → walk [k] (JObject l) = Some v.
Proof. intros Hnd Hin. simpl. by rewrite (obj_get_elem _ _ _ Hnd Hin). Qed.

(** *** Canonicalization *)

Lemma canonicalize_keys (l : list (string * json)) :
  ((λ kv, (kv.1, canonicalize kv.2)) <$> l).*1 = l.*1.
Proof. rewrite <-list_fmap_compose. by apply list_fmap_ext. Qed.

Lemma fmap_eq_Forall2 {A B} (f : A → B) (R : A → A → Prop) l k :
  Forall (λ x, ∀ y, R x y → f x = f y) l → Forall2 R l k → f <$> l = f <$> k.
Proof.
  intros Hl Hr. induction Hr as [|x y l k Hxy _ IH]; [done|].
  inversion_clear Hl. rewrite !fmap_cons. f_equal; auto.
Qed.

Lemma canonicalize_equiv_eq v : ∀ w, json_equiv v w → canonicalize v = canonicalize w.
Proof.
  induction v as [| | | |l IH|l IH] using json_rect'; intros w H;
    inversion H as [|? k Hk|? l' k Hnd Hp Hk]; subst; try done; simpl; f_equal.
  - by eapply fmap_eq_Forall2.
  - trans (bt_of_list ((λ kv, (kv.1, canonicalize kv.2)) <$> l')).
    { apply bt_of_list_perm; [by apply fmap_Permutation|]. by rewrite canonicalize_keys. }
    f_equal. rewrite Hp in IH. eapply fmap_eq_Forall2; [|exact Hk].
    eapply Forall_impl; [exact IH|]. intros [p v] Hv [q w] [Hpq Hvw]; simpl in *.
    f_equal; auto.
Qed.

Lemma bt_of_list_members (l : list (string * json)) :
  NoDup l.*1 → bt_of_list l ≡ₚ l.
Proof.
  intros Hnd. apply NoDup_Permutation.
  - apply (NoDup_fmap_1 (@fst string json)), bt_keys_NoDup, bt_of_list_wf.
  - by apply (NoDup_fmap_1 (@fst string json)).
  - intros [k v]. rewrite <-(bt_of_list_get l) by done.
    symmetry. apply bt_get_elem, bt_of_list_wf.
Qed.

Lemma json_equiv_canonicalize v : json_wf v → json_equiv v (canonicalize v).
Proof.
  induction v as [| | | |l IH|l IH] using json_rect'; intros Hwf; simpl; [by constructor..| |].
  - apply equiv_array. inversion_clear Hwf as [| | | |? Hall|].
    induction IH as [|v l Hv _ IHl]; inversion_clear Hall; rewrite ?fmap_cons; constructor; auto.
  - inversion_clear Hwf as [| | | | |? Hnd Hall].
    destruct (Permutation_map_inv (λ kv : string * json, (kv.1, canonicalize kv.2)) l
      (l1 := bt_of_list ((λ kv, (kv.1, canonicalize kv.2)) <$> l))) as (l' & -> & Hp).
    { apply bt_of_list_members. by rewrite canonicalize_keys. }
    apply (equiv_object l l'); [done..|]. rewrite Hp in IH, Hall. clear Hp Hnd.
    induction IH as [|[k v] l' Hv _ IHl]; inversion_clear Hall; constructor; simpl in *; auto.
Qed.

(** Canonicalization decides the equality of values up to member order. *)
Lemma canonicalize_idem v : json_wf v → canonicalize (canonicalize v) = canonicalize v.
Proof. intros Hwf. symmetry. by apply canonicalize_equiv_eq, json_equiv_canonicalize. Qed.
