(* ===== verification/Parser.v ===== *)
(** * The synthetic conversations parser ([synthetic_parser/])

    Typed inputs ([input.rs]), the normalized records ([model.rs]), decoding
    with raw-field preservation ([decode.rs], [parts.rs]), declared assets and
    their verification against stored blobs ([assets.rs]), and the executor
    ([mod.rs]).  Turning bytes into typed inputs is serde's work and a
    parameter; what its derived code guarantees about them is stated as the
    [reads_*] relations. *)

From S2P Require Import Prelude BTree Disk BlobStore Archive Registry Json.
#[local] Open Scope result_scope.

#[local] Abbreviation members := (list (string * json)).

(** ** Inputs ([input.rs]) *)

Record author_input : Set := AuthorInput { au_role : string; au_extra : members }.
Record metadata_input : Set := MetadataInput { md_model_slug : option string; md_extra : members }.
Record content_input : Set := ContentInput { ct_parts : list json; ct_extra : members }.

Record message_input : Set := MessageInput {
  mi_id : string;
  mi_author : author_input;
  mi_create_time : option N;
  mi_update_time : option N;
  mi_metadata : metadata_input;
  mi_content : content_input;
  mi_extra : members;
}.

Record mapping_input : Set := MappingInput {
  mp_id : option string;
  mp_parent : option string;
  mp_message : option message_input;
  mp_extra : members;
}.

Record conversation_input : Set := ConversationInput {
  ci_id : string;
  ci_title : option string;
  ci_create_time : option N;
  ci_update_time : option N;
  ci_mapping : list (string * mapping_input);
  ci_extra : members;
}.

Record instruction_input : Set := InstructionInput {
  ii_id : option string;
  ii_kind : string;
  ii_content : json;
  ii_extra : members;
}.

Record project_input : Set := ProjectInput {
  pj_id : string;
  pj_title : option string;
  pj_description : option string;
  pj_instructions : list instruction_input;
  pj_conversation_ids : list string;
  pj_asset_ids : list string;
  pj_extra : members;
}.

Record canvas_input : Set := CanvasInput {
  cv_id : string;
  cv_project_id : option string;
  cv_conversation_id : option string;
  cv_content : list json;
  cv_extra : members;
}.

Record asset_input : Set := AssetInput {
  as_id : string;
  as_kind : string;
  as_project_id : option string;
  as_conversation_id : option string;
  as_display_name : option string;
  as_archive_path : option string;
  as_media_type : option string;
  as_length_bytes : option N;
  as_sha256 : option string;
  as_extra : members;
}.

(** ** Normalized records ([model.rs]) *)

Inductive message_role : Set := System | User | Assistant | Tool | Internal | UnknownRole.
Inductive content_part_kind : Set := PText | ToolCall | ToolResult | Image | File | UnknownPart.
Inductive instruction_kind : Set := Instruction | SystemPrompt | UnknownInstruction.
Inductive asset_kind : Set := Uploaded | Generated | UnknownAsset.
Inductive asset_availability : Set := AssetMissing | Quarantined | Verified.
Inductive asset_anomaly : Set :=
| MissingArtifact | ExtractedArtifactQuarantined | BlobVerificationFailed | DigestMismatch
| LengthMismatch | MediaTypeMismatch | InvalidDeclaration | AmbiguousArtifact.

#[global] Instance message_role_eq_dec : EqDecision message_role.
Proof. solve_decision. Defined.
#[global] Instance content_part_kind_eq_dec : EqDecision content_part_kind.
Proof. solve_decision. Defined.
#[global] Instance instruction_kind_eq_dec : EqDecision instruction_kind.
Proof. solve_decision. Defined.
#[global] Instance asset_kind_eq_dec : EqDecision asset_kind.
Proof. solve_decision. Defined.
#[global] Instance asset_availability_eq_dec : EqDecision asset_availability.
Proof. solve_decision. Defined.
#[global] Instance asset_anomaly_eq_dec : EqDecision asset_anomaly.
Proof. solve_decision. Defined.

Record raw_record : Set := RawRecord { rr_path : string; rr_payload : json }.

Record parsed_content_part : Set := ParsedContentPart {
  pp_ordinal : nat;
  pp_kind : content_part_kind;
  pp_payload : json;
}.

Record parsed_message : Set := ParsedMessage {
  pm_external_id : string;
  pm_parent_external_id : option string;
  pm_role : message_role;
  pm_created : option N;
  pm_updated : option N;
  pm_model_slug : option string;
  pm_provider_metadata : json;
  pm_parts : list parsed_content_part;
}.

Record parsed_conversation : Set := ParsedConversation {
  pc_external_id : string;
  pc_title : option string;
  pc_created : option N;
  pc_updated : option N;
  pc_provider_metadata : json;
  pc_messages : list parsed_message;
}.

Record parsed_instruction : Set := ParsedInstruction {
  pin_external_id : option string;
  pin_ordinal : nat;
  pin_kind : instruction_kind;
  pin_content : json;
  pin_provider_metadata : json;
}.

Record parsed_project : Set := ParsedProject {
  pp_external_id : string;
  pp_title : option string;
  pp_description : option string;
  pp_instructions : list parsed_instruction;
  pp_conversation_external_ids : list string;
  pp_asset_external_ids : list string;
  pp_provider_metadata : json;
}.

Record parsed_canvas_document : Set := ParsedCanvasDocument {
  pcv_external_id : string;
  pcv_project_external_id : option string;
  pcv_conversation_external_id : option string;
  pcv_content : list json;
  pcv_provider_metadata : json;
}.

Record parsed_asset : Set := ParsedAsset {
  pa_external_id : string;
  pa_kind : asset_kind;
  pa_project_external_id : option string;
  pa_conversation_external_id : option string;
  pa_display_name : option string;
  pa_media_type : option string;
  pa_availability : asset_availability;
  pa_blob : option blob_ref;
  pa_anomaly : option asset_anomaly;
  pa_provider_metadata : json;
}.

Record parsed_conversations : Set := ParsedConversations {
  pcs_schema_id : string;
  pcs_parser : parser_id;
  pcs_conversations : list parsed_conversation;
  pcs_projects : list parsed_project;
  pcs_canvas_documents : list parsed_canvas_document;
  pcs_assets : list parsed_asset;
  pcs_raw_records : list raw_record;
}.

(** ** Parts ([parts.rs]) *)

(** Code that pushes raw records: the vector is threaded. *)
#[local] Abbreviation records := (list raw_record).

Definition record_extra (path : string) (values : members) (raw : records) : records :=
  raw ++ ((λ kv, RawRecord (child_path path kv.1) kv.2) <$> values).

(** [into_iter().enumerate().map(f).collect()] with the vector threaded. *)
Fixpoint map_records {A B} (f : nat → A → records → B * records) (i : nat) (l : list A)
    (raw : records) : list B * records :=
  match l with
  | [] => ([], raw)
  | x :: l =>
      let (y, raw) := f i x raw in
      let (ys, raw) := map_records f (S i) l raw in
      (y :: ys, raw)
  end.

Definition normalize_role (role : string) : message_role :=
  if String.eqb role "system" then System
  else if String.eqb role "user" then User
  else if String.eqb role "assistant" then Assistant
  else if String.eqb role "tool" then Tool
  else if String.eqb role "internal" then Internal
  else UnknownRole.

Definition media_kind (object : members) : content_part_kind :=
  match obj_get "mime_type" object ≫= as_str with
  | Some media_type => if starts_with "image/" media_type then Image else File
  | None => File
  end.

Definition part_kind (payload : json) : content_part_kind :=
  if is_string payload then PText
  else match as_object payload with
  | None => UnknownPart
  | Some object =>
      match obj_get "kind" object ≫= as_str with
      | Some kind =>
          if String.eqb kind "tool_call" then ToolCall
          else if String.eqb kind "tool_result" then ToolResult
          else if String.eqb kind "media_reference" then media_kind object
          else UnknownPart
      | None => UnknownPart
      end
  end.

Definition parse_part (content_path : string) (ordinal : nat) (payload : json) (raw : records)
    : parsed_content_part * records :=
  let kind := part_kind payload in
  let raw :=
    if decide (kind = UnknownPart) then
      raw ++ [RawRecord (child_path (child_path content_path "parts") (show_nat ordinal)) payload]
    else raw in
  (ParsedContentPart ordinal kind payload, raw).

Definition parse_parts (values : list json) (content_path : string) : records →
    list parsed_content_part * records :=
  map_records (parse_part content_path) 0 values.

(** ** Decoding ([decode.rs]) *)

Definition parse_message (input : message_input) (parent_external_id : option string)
    (mapping_path : string) (raw : records) : parsed_message * records :=
  let path := child_path mapping_path "message" in
  let raw := record_extra path (mi_extra input) raw in
  let raw := record_extra (child_path path "author") (au_extra (mi_author input)) raw in
  let raw := record_extra (child_path path "metadata") (md_extra (mi_metadata input)) raw in
  let raw := record_extra (child_path path "content") (ct_extra (mi_content input)) raw in
  let role := normalize_role (au_role (mi_author input)) in
  let raw :=
    if decide (role = UnknownRole) then
      raw ++ [RawRecord (child_path (child_path path "author") "role")
                (JString (au_role (mi_author input)))]
    else raw in
  let (parts, raw) := parse_parts (ct_parts (mi_content input)) (child_path path "content") raw in
  (ParsedMessage (mi_id input) parent_external_id role (mi_create_time input)
     (mi_update_time input) (md_model_slug (mi_metadata input)) (JObject (mi_extra input)) parts,
   raw).

Definition parse_mapping (input : mapping_input) (mapping_path key : string) (raw : records)
    : option parsed_message * records :=
  let path := child_path mapping_path key in
  let raw := record_extra path (mp_extra input) raw in
  let raw :=
    match mp_id input with
    | Some id =>
        if decide (id ≠ key) then raw ++ [RawRecord (child_path path "id") (JString id)] else raw
    | None => raw
    end in
  match mp_message input with
  | Some message =>
      let (m, raw) := parse_message message (mp_parent input) path raw in (Some m, raw)
  | None => (None, raw)
  end.

Definition parse_conversation (index : nat) (input : conversation_input) (raw : records)
    : parsed_conversation * records :=
  let path := "/" +:+ show_nat index in
  let raw := record_extra path (ci_extra input) raw in
  let (messages, raw) :=
    map_records (λ _ kv, parse_mapping kv.2 (child_path path "mapping") kv.1)
      0 (ci_mapping input) raw in
  (ParsedConversation (ci_id input) (ci_title input) (ci_create_time input)
     (ci_update_time input) (JObject (ci_extra input)) (omap id messages), raw).

Definition parse_instruction (project_path : string) (ordinal : nat) (input : instruction_input)
    (raw : records) : parsed_instruction * records :=
  let path := child_path (child_path project_path "instructions") (show_nat ordinal) in
  let raw := record_extra path (ii_extra input) raw in
  let (kind, raw) :=
    if String.eqb (ii_kind input) "instruction" then (Instruction, raw)
    else if String.eqb (ii_kind input) "system_prompt" then (SystemPrompt, raw)
    else (UnknownInstruction, raw ++ [RawRecord (child_path path "kind") (JString (ii_kind input))])
  in
  (ParsedInstruction (ii_id input) ordinal kind (ii_content input) (JObject (ii_extra input)), raw).

Definition parse_project (index : nat) (input : project_input) (raw : records)
    : parsed_project * records :=
  let path := "/projects/" +:+ show_nat index in
  let raw := record_extra path (pj_extra input) raw in
  let (instructions, raw) := map_records (parse_instruction path) 0 (pj_instructions input) raw in
  (ParsedProject (pj_id input) (pj_title input) (pj_description input) instructions
     (pj_conversation_ids input) (pj_asset_ids input) (JObject (pj_extra input)), raw).

Definition parse_canvas_document (index : nat) (input : canvas_input) (raw : records)
    : parsed_canvas_document * records :=
  let path := "/canvas/" +:+ show_nat index in
  let raw := record_extra path (cv_extra input) raw in
  (ParsedCanvasDocument (cv_id input) (cv_project_id input) (cv_conversation_id input)
     (cv_content input) (JObject (cv_extra input)), raw).

Definition SYNTHETIC_SCHEMA_ID : string := "chatgpt.synthetic.conversations-json".
Definition SYNTHETIC_PARSER_VERSION : string := "0.1.0".
Definition SYNTHETIC_PARSER_NAME : string := "synthetic-conversations".

Inductive synthetic_parser_error : Set :=
| UnexpectedSelection | InvalidDocument | StorageUnavailable.

#[global] Instance synthetic_parser_error_eq_dec : EqDecision synthetic_parser_error.
Proof. solve_decision. Defined.

Inductive parser_execution_error : Set := Failed | Storage.

(** [SyntheticConversationsParser::registration]. *)
Definition registration : parser_registration :=
  ParserRegistration (ParserId SYNTHETIC_PARSER_NAME SYNTHETIC_PARSER_VERSION)
    [ConsumerExport] {["conversations.json"]}.

(** [ParserRegistry::runtime]; the compiled parser is [tt]. *)
Definition runtime : result registry_error (registry unit) :=
  register_compiled [] registration tt.

(** ** Evidence handed to the parser *)

(** [ParserArtifactEvidence]. *)
Record parser_artifact_evidence : Set := ParserArtifactEvidence {
  pe_path : string;
  pe_bytes : string;
  pe_quarantined : bool;
}.

(** [ParserExecutionInput]. *)
Record parser_execution_input : Type := ParserExecutionInput {
  px_inventory : archive_inventory;
  px_artifacts : list parser_artifact_evidence;
  px_raw_archive : blob_ref;
  px_blobs : blob_store;
}.

(** [SyntheticArchiveInput]. *)
Record synthetic_archive_input : Set := SyntheticArchiveInput {
  si_selected : parser_id;
  si_conversations_json : string;
  si_projects_json : option string;
  si_canvas_json : option string;
  si_assets_json : option string;
  si_extracted_artifacts : list extracted_artifact;
  si_blob_store : blob_store;
}.

Definition parse_asset_kind (kind : string) : asset_kind :=
  if String.eqb kind "uploaded" then Uploaded
  else if String.eqb kind "generated" then Generated
  else UnknownAsset.

Section parser.
  (** serde_json on the four documents. *)
  Context (conversations_from_slice : string → option (list conversation_input)).
  Context (projects_from_slice : string → option (list project_input)).
  Context (canvas_from_slice : string → option (list canvas_input)).
  Context (assets_from_slice : string → option (list asset_input)).
  (** The parameters of the blob store. *)
  Context (sha256_hex : string → string) (media_type_ok : string → bool).

Definition parse_projects (source : option string) (raw : records)
    : result synthetic_parser_error (list parsed_project * records) :=
  match source with
  | None => Ok ([], raw)
  | Some source =>
      let? inputs := ok_or InvalidDocument (projects_from_slice source) in
      Ok (map_records parse_project 0 inputs raw)
  end.

Definition parse_canvas (source : option string) (raw : records)
    : result synthetic_parser_error (list parsed_canvas_document * records) :=
  match source with
  | None => Ok ([], raw)
  | Some source =>
      let? inputs := ok_or InvalidDocument (canvas_from_slice source) in
      Ok (map_records parse_canvas_document 0 inputs raw)
  end.

(** [decode::parse_archive]. *)
Definition decode_archive (conversations_source : string)
    (projects_source canvas_source : option string) (parser : parser_id)
    : result synthetic_parser_error parsed_conversations :=
  let? inputs := ok_or InvalidDocument (conversations_from_slice conversations_source) in
  let (conversations, raw) := map_records parse_conversation 0 inputs [] in
  let? (projects, raw) := parse_projects projects_source raw in
  let? (canvas_documents, raw) := parse_canvas canvas_source raw in
  Ok (ParsedConversations SYNTHETIC_SCHEMA_ID parser conversations projects canvas_documents
        [] raw).

(** ** Assets ([assets.rs]) *)

#[local] Abbreviation verdict := (asset_availability * option blob_ref * option asset_anomaly)%type.

Definition quarantined (anomaly : asset_anomaly) : verdict := (Quarantined, None, Some anomaly).

Definition verify_asset (input : asset_input) (artifacts : list extracted_artifact)
    (blob_store : blob_store) : sm disk synthetic_parser_error verdict :=
  match as_archive_path input with
  | None => sret (AssetMissing, None, None)
  | Some archive_path =>
      let matching :=
        filter (λ a, ap_entry_path (ea_provenance a) = archive_path) artifacts in
      match matching with
      | [artifact] =>
          if ea_quarantined artifact then sret (quarantined ExtractedArtifactQuarantined)
          else
            let! verified := stry (BlobStore.verify sha256_hex blob_store (ea_blob artifact)) in
            match verified with
            | Err (Unavailable _) | Err StreamError => sfail StorageUnavailable
            | Err _ => sret (quarantined BlobVerificationFailed)
            | Ok _ =>
                sret
                  match as_sha256 input with
                  | None => quarantined InvalidDeclaration
                  | Some declared_digest =>
                      if decide (declared_digest ≠ cd_hex (br_digest (ea_blob artifact)))
                      then quarantined DigestMismatch
                      else match as_length_bytes input with
                      | None => quarantined InvalidDeclaration
                      | Some declared_length =>
                          if decide (declared_length ≠ br_length_bytes (ea_blob artifact))
                          then quarantined LengthMismatch
                          else match as_media_type input with
                          | None => quarantined InvalidDeclaration
                          | Some declared_media_type =>
                              if decide (declared_media_type ≠ br_media_type (ea_blob artifact))
                              then quarantined MediaTypeMismatch
                              else (Verified, Some (ea_blob artifact), None)
                          end
                      end
                  end
            end
      | _ =>
          sret (quarantined
            (if bool_decide (matching = []) then MissingArtifact else AmbiguousArtifact))
      end
  end.

Definition parse_one (input : asset_input) (index : nat) (artifacts : list extracted_artifact)
    (blob_store : blob_store) (raw : records)
    : sm disk synthetic_parser_error (parsed_asset * records) :=
  let path := "/assets/" +:+ show_nat index in
  let raw := record_extra path (as_extra input) raw in
  let! (availability, blob, anomaly) := verify_asset input artifacts blob_store in
  sret (ParsedAsset (as_id input) (parse_asset_kind (as_kind input)) (as_project_id input)
          (as_conversation_id input) (as_display_name input) (as_media_type input)
          availability blob anomaly (JObject (as_extra input)), raw).

Fixpoint parse_assets_from (inputs : list asset_input) (index : nat)
    (artifacts : list extracted_artifact) (blob_store : blob_store) (raw : records)
    : sm disk synthetic_parser_error (list parsed_asset * records) :=
  match inputs with
  | [] => sret ([], raw)
  | input :: inputs =>
      let! (asset, raw) := parse_one input index artifacts blob_store raw in
      let! (assets, raw) := parse_assets_from inputs (S index) artifacts blob_store raw in
      sret (asset :: assets, raw)
  end.

(** [assets::parse]. *)
Definition parse_assets (source : option string) (artifacts : list extracted_artifact)
    (blob_store : blob_store) (raw : records)
    : sm disk synthetic_parser_error (list parsed_asset * records) :=
  match source with
  | None => sret ([], raw)
  | Some source =>
      let! inputs := slift (ok_or InvalidDocument (assets_from_slice source)) in
      parse_assets_from inputs 0 artifacts blob_store raw
  end.

(** ** The executor ([mod.rs]) *)

Definition parse_archive (input : synthetic_archive_input)
    : sm disk synthetic_parser_error parsed_conversations :=
  if decide (si_selected input ≠ pr_id registration) then sfail UnexpectedSelection
  else
    let! parsed := slift (decode_archive (si_conversations_json input) (si_projects_json input)
                            (si_canvas_json input) (si_selected input)) in
    let! (assets, raw) := parse_assets (si_assets_json input) (si_extracted_artifacts input)
                            (si_blob_store input) (pcs_raw_records parsed) in
    sret (ParsedConversations (pcs_schema_id parsed) (pcs_parser parsed)
            (pcs_conversations parsed) (pcs_projects parsed) (pcs_canvas_documents parsed)
            assets raw).

(** Storing every entry by digest; [ids] names the store's staging files. *)
Fixpoint store_entries (input : parser_execution_input) (ids : list string)
    (artifacts : list parser_artifact_evidence)
    : sm disk parser_execution_error (list extracted_artifact) :=
  match artifacts with
  | [] => sret []
  | artifact :: artifacts =>
      let kind :=
        match list_find (λ e, ae_path e = pe_path artifact)
                (ai_entries (px_inventory input)) with
        | Some (_, e) => ae_kind e
        | None => UnknownKind
        end in
      let! blob := smap_err
          (λ e, match e with Unavailable _ | StreamError => Storage | _ => Failed end)
          (store sha256_hex media_type_ok (px_blobs input) (default "" (head ids))
             (media_type kind) [Some (pe_bytes artifact)]) in
      let! extracted := store_entries input (tail ids) artifacts in
      sret (ExtractedArtifact blob
              (ArtifactProvenance (cd_hex (br_digest (px_raw_archive input))) (pe_path artifact))
              (pe_quarantined artifact) :: extracted)
  end.

(** The first entry of that name that is not quarantined. *)
Definition evidence_of (input : parser_execution_input) (name : string) : option string :=
  '(_, artifact) ← list_find (λ a, pe_path a = name ∧ pe_quarantined a = false)
                     (px_artifacts input);
  Some (pe_bytes artifact).

Definition execute_registered (input : parser_execution_input) (ids : list string)
    : sm disk parser_execution_error parsed_conversations :=
  let! conversations := slift (ok_or Failed (evidence_of input "conversations.json")) in
  let assets_json := evidence_of input "assets.json" in
  let! extracted := (match assets_json with
                     | Some _ => store_entries input ids (px_artifacts input)
                     | None => sret []
                     end) in
  smap_err (λ e, match e with StorageUnavailable => Storage | _ => Failed end)
    (parse_archive (SyntheticArchiveInput (pr_id registration) conversations
       (evidence_of input "projects.json") (evidence_of input "canvas.json")
       assets_json extracted (px_blobs input))).
End parser.

(** ** What serde's derived code guarantees

    A typed input was read from a JSON value: named fields come from the
    members of that name, the flattened rest from the members of its own
    keys. *)

Definition reads_extra (doc : json) (extra : members) : Prop :=
  ∀ k v, (k, v) ∈ extra → step k doc = Some v.

Definition reads_message (doc : json) (m : message_input) : Prop :=
  reads_extra doc (mi_extra m) ∧
  (∃ a, step "author" doc = Some a ∧ reads_extra a (au_extra (mi_author m)) ∧
     step "role" a = Some (JString (au_role (mi_author m)))) ∧
  (md_extra (mi_metadata m) = [] ∨
   ∃ a, step "metadata" doc = Some a ∧ reads_extra a (md_extra (mi_metadata m))) ∧
  (∃ a, step "content" doc = Some a ∧ reads_extra a (ct_extra (mi_content m)) ∧
     step "parts" a = Some (JArray (ct_parts (mi_content m)))).

Definition reads_mapping (doc : json) (n : mapping_input) : Prop :=
  reads_extra doc (mp_extra n) ∧
  (∀ id, mp_id n = Some id → step "id" doc = Some (JString id)) ∧
  (∀ m, mp_message n = Some m → ∃ d, step "message" doc = Some d ∧ reads_message d m).

Definition reads_conversation (doc : json) (c : conversation_input) : Prop :=
  reads_extra doc (ci_extra c) ∧
  ∃ m, step "mapping" doc = Some m ∧
    Forall (λ kn, ∃ d, step kn.1 m = Some d ∧ reads_mapping d kn.2) (ci_mapping c).

Definition reads_instruction (doc : json) (i : instruction_input) : Prop :=
  reads_extra doc (ii_extra i) ∧ step "kind" doc = Some (JString (ii_kind i)).

Definition reads_project (doc : json) (p : project_input) : Prop :=
  reads_extra doc (pj_extra p) ∧
  (pj_instructions p = [] ∨
   ∃ l, step "instructions" doc = Some (JArray l) ∧ Forall2 reads_instruction l (pj_instructions p)).

Definition reads_canvas (doc : json) (c : canvas_input) : Prop := reads_extra doc (cv_extra c).
Definition reads_asset (doc : json) (a : asset_input) : Prop := reads_extra doc (as_extra a).

(** ** Raw records point at what they hold *)

(** Reading the record's pointer in [doc] gives its payload. *)
Definition located (doc : json) (r : raw_record) : Prop :=
  pointer (rr_path r) doc = Some (rr_payload r).

Lemma map_records_inv {A B} (f : nat → A → records → B * records) (P : records → Prop) l :
  ∀ i raw, (∀ j x raw, l !! j = Some x → P raw → P (f (i + j) x raw).2) →
  P raw → P (map_records f i l raw).2.
Proof.
  induction l as [|x l IH]; intros i raw Hf Hraw; simpl; [done|].
  destruct (f i x raw) as [y raw1] eqn:E. destruct (map_records f (S i) l raw1) as [ys raw2] eqn:E2.
  simpl. change raw2 with (ys, raw2).2. rewrite <-E2. apply IH.
  - intros j z raw' Hj. specialize (Hf (S j) z raw' Hj). by rewrite Nat.add_succ_r in Hf.
  - change raw1 with (y, raw1).2. rewrite <-E. specialize (Hf 0 x raw eq_refl Hraw).
    by rewrite Nat.add_0_r in Hf.
Qed.

(** Decimal indices need no escaping. *)
Definition plain (s : string) : Prop := any_byte (λ c, is_char tilde c || is_char solidus c) s = false.

Lemma escape_plain s : plain s → escape s = s.
Proof.
  unfold plain. induction s as [|c s IH]; [done|].
  rewrite any_byte_cons, orb_false_iff, orb_false_iff. intros [[Ht Hs] H].
  rewrite escape_cons. unfold is_char in Ht, Hs. rewrite Ascii.eqb_sym, Ht, Ascii.eqb_sym, Hs.
  rewrite IH by done. done.
Qed.

Lemma show_nat_plain n : plain (show_nat n).
Proof. by apply show_nat_clear. Qed.

Lemma index_path i : "/" +:+ show_nat i = path_of [show_nat i].
Proof.
  change (path_of [show_nat i]) with ("/" +:+ escape (show_nat i)).
  by rewrite (escape_plain _ (show_nat_plain i)).
Qed.

Section located.
  (** The document the pointers are read in, and the predicate to establish
      for every record: being located there, or something weaker. *)
  Context (doc : json) (Q : raw_record → Prop) (HQ : ∀ r, located doc r → Q r).
  #[local] Abbreviation P := (Forall Q).

Lemma located_one ts v path :
  path = path_of ts → walk ts doc = Some v → Q (RawRecord path v).
Proof. intros -> Hw. apply HQ. unfold located. simpl. by rewrite pointer_path_of. Qed.

Lemma walk_one t v : step t doc = Some v → walk [t] doc = Some v.
Proof. intros H. cbn [walk]. by rewrite H. Qed.

Lemma walk_snoc ts t v w : walk ts doc = Some v → step t v = Some w → walk (ts ++ [t]) doc = Some w.
Proof. intros Hv Hw. rewrite walk_app, Hv. simpl. by rewrite Hw. Qed.

Lemma record_extra_located ts v extra raw :
  walk ts doc = Some v → reads_extra v extra → P raw →
  P (record_extra (path_of ts) extra raw).
Proof.
  intros Hv He Hraw. unfold record_extra. apply Forall_app. split; [done|].
  apply Forall_fmap, Forall_forall. intros [k w] Hin. simpl.
  apply (located_one (ts ++ [k])); [by rewrite path_of_snoc|]. by eapply walk_snoc; [|apply He].
Qed.

Lemma snoc_located ts v t w path raw :
  walk ts doc = Some v → step t v = Some w → path = child_path (path_of ts) t → P raw →
  P (raw ++ [RawRecord path w]).
Proof.
  intros Hv Hw -> Hraw. apply Forall_app. split; [done|]. constructor; [|done].
  apply (located_one (ts ++ [t])); [by rewrite path_of_snoc|]. by eapply walk_snoc.
Qed.

Lemma parse_parts_located ts v parts raw :
  walk ts doc = Some v → step "parts" v = Some (JArray parts) → P raw →
  P (parse_parts parts (path_of ts) raw).2.
Proof.
  intros Hv Hp Hraw. unfold parse_parts. apply map_records_inv; [|done].
  intros j x raw' Hj Hraw'. unfold parse_part. simpl. case_decide; [|done].
  rewrite <-!path_of_snoc. apply Forall_app. split; [done|]. constructor; [|done].
  eapply located_one; [done|]. eapply walk_snoc; [by eapply walk_snoc|]. by apply step_array.
Qed.

Lemma parse_message_located ts v m parent raw :
  walk ts doc = Some v →
  (∃ d, step "message" v = Some d ∧ reads_message d m) → P raw →
  P (parse_message m parent (path_of ts) raw).2.
Proof.
  intros Hv (d & Hd & He & (a & Ha & Hae & Hrole) & Hmd & (c & Hc & Hce & Hparts)) Hraw.
  unfold parse_message. rewrite <-!path_of_snoc.
  pose proof (walk_snoc _ _ _ _ Hv Hd) as Hm.
  pose proof (walk_snoc _ _ _ _ Hm Ha) as Hau. pose proof (walk_snoc _ _ _ _ Hm Hc) as Hct.
  assert (H1 : P (record_extra (path_of (ts ++ ["message"])) (mi_extra m) raw))
    by by eapply record_extra_located.
  eapply (record_extra_located _ _ _ _ Hau Hae) in H1.
  match type of H1 with P ?x => set (raw2 := x) in * end.
  assert (H3 : P (record_extra (path_of ((ts ++ ["message"]) ++ ["metadata"]))
                    (md_extra (mi_metadata m)) raw2)).
  { destruct Hmd as [->|(b & Hb & Hbe)]; [unfold record_extra; by rewrite app_nil_r|].
    eapply record_extra_located; [by eapply walk_snoc|done..]. }
  eapply (record_extra_located _ _ _ _ Hct Hce) in H3.
  match type of H3 with P ?x => set (raw4 := x) in * end.
  destruct (parse_parts _ _ _) as [parts raw5] eqn:E. simpl.
  change raw5 with (parts, raw5).2. rewrite <-E.
  eapply parse_parts_located; [done..|].
  case_decide; [|done]. rewrite path_of_snoc. by eapply snoc_located; [exact Hau|..].
Qed.

Lemma parse_mapping_located ts v n key raw :
  walk ts doc = Some v →
  (∃ d, step key v = Some d ∧ reads_mapping d n) → P raw →
  P (parse_mapping n (path_of ts) key raw).2.
Proof.
  intros Hv (d & Hd & He & Hid & Hm) Hraw. unfold parse_mapping. rewrite <-!path_of_snoc.
  pose proof (walk_snoc _ _ _ _ Hv Hd) as Hn.
  assert (H1 : P (record_extra (path_of (ts ++ [key])) (mp_extra n) raw))
    by by eapply record_extra_located.
  match type of H1 with P ?x => set (raw1 := x) in * end.
  match goal with |- context [parse_message _ _ _ ?x] => set (raw2 := x) end.
  assert (H2 : P raw2).
  { unfold raw2. destruct (mp_id n) as [id|]; [|done]. case_decide; [|done].
    rewrite path_of_snoc. eapply snoc_located; [exact Hn|by apply Hid|done|done]. }
  destruct (mp_message n) as [m|]; [|done].
  destruct (parse_message _ _ _ _) as [msg raw3] eqn:E. simpl.
  change raw3 with (msg, raw3).2. rewrite <-E. eapply parse_message_located; eauto.
Qed.

Lemma named_index_path name i :
  plain name → ("/" +:+ name +:+ "/") +:+ show_nat i = path_of [name; show_nat i].
Proof.
  intros Hn. unfold path_of. simpl foldl. unfold child_path.
  rewrite (escape_plain _ (show_nat_plain i)), (escape_plain _ Hn).
  apply (inj to_bytes). by rewrite !to_bytes_app, <-!app_assoc.
Qed.

Lemma parse_conversation_located docs j d c raw :
  doc = JArray docs → docs !! j = Some d → reads_conversation d c → P raw →
  P (parse_conversation j c raw).2.
Proof.
  intros Hdoc Hj (He & m & Hm & Hnodes) Hraw. unfold parse_conversation. rewrite index_path.
  assert (Hd : walk [show_nat j] doc = Some d).
  { rewrite Hdoc. cbn [walk]. by rewrite (step_array _ _ _ Hj). }
  rewrite <-path_of_snoc. pose proof (walk_snoc _ _ _ _ Hd Hm) as Hmap.
  destruct (map_records _ _ _ _) as [ms raw1] eqn:E. simpl.
  change raw1 with (ms, raw1).2. rewrite <-E. apply map_records_inv.
  - intros i [key n] raw' Hi Hraw'. rewrite Forall_lookup in Hnodes.
    eapply parse_mapping_located; [exact Hmap|by apply (Hnodes _ _ Hi)|done].
  - by eapply record_extra_located.
Qed.

Lemma conversations_located docs inputs raw :
  doc = JArray docs → Forall2 reads_conversation docs inputs → P raw →
  P (map_records parse_conversation 0 inputs raw).2.
Proof.
  intros Hdoc Hr Hraw. apply map_records_inv; [|done]. intros j c raw' Hj Hraw'.
  destruct (Forall2_lookup_r _ _ _ _ _ Hr Hj) as (d & Hd & Hdc).
  by eapply parse_conversation_located.
Qed.

Lemma parse_instruction_located ts v i d raw j :
  walk ts doc = Some v →
  (∃ l, step "instructions" v = Some (JArray l) ∧ l !! j = Some d) → reads_instruction d i →
  P raw → P (parse_instruction (path_of ts) j i raw).2.
Proof.
  intros Hv (l & Hl & Hj) [He Hk] Hraw. unfold parse_instruction. rewrite <-!path_of_snoc.
  assert (Hd : walk ((ts ++ ["instructions"]) ++ [show_nat j]) doc = Some d).
  { eapply walk_snoc; [by eapply walk_snoc|]. by apply step_array. }
  pose proof (record_extra_located _ _ _ _ Hd He Hraw) as H1.
  match type of H1 with P ?x => set (raw1 := x) in * end.
  destruct (String.eqb _ "instruction"); [done|].
  destruct (String.eqb _ "system_prompt"); [done|]. simpl.
  rewrite path_of_snoc. by eapply snoc_located; [exact Hd|..].
Qed.

(** Element [j] of the side document [name]. *)
Lemma walk_indexed name ds j d :
  step name doc = Some (JArray ds) → ds !! j = Some d → walk [name; show_nat j] doc = Some d.
Proof.
  intros Hp Hj. change [name; show_nat j] with ([name] ++ [show_nat j]).
  eapply walk_snoc; [by apply walk_one|]. by apply step_array.
Qed.

Lemma projects_located ds inputs raw :
  step "projects" doc = Some (JArray ds) → Forall2 reads_project ds inputs → P raw →
  P (map_records parse_project 0 inputs raw).2.
Proof.
  intros Hp Hr Hraw. apply map_records_inv; [|done]. clear Hraw raw. intros j p raw Hj Hraw.
  destruct (Forall2_lookup_r _ _ _ _ _ Hr Hj) as (d & Hdj & [He Hi]).
  unfold parse_project.
  change "/projects/" with ("/" +:+ "projects" +:+ "/"). rewrite named_index_path by done.
  pose proof (walk_indexed _ _ _ _ Hp Hdj) as Hd.
  destruct (map_records _ _ _ _) as [ins raw1] eqn:E. simpl.
  change raw1 with (ins, raw1).2. rewrite <-E. apply map_records_inv.
  - intros i x raw' Hx Hraw'. destruct Hi as [Hnil|(l & Hl & Hri)]; [by rewrite Hnil in Hx|].
    destruct (Forall2_lookup_r _ _ _ _ _ Hri Hx) as (dx & Hdx & Hrx).
    eapply parse_instruction_located; [exact Hd|by exists l|done..].
  - by eapply record_extra_located.
Qed.

Lemma indexed_extra_located name ds j d extra raw :
  plain name → step name doc = Some (JArray ds) → ds !! j = Some d → reads_extra d extra →
  P raw → P (record_extra (("/" +:+ name +:+ "/") +:+ show_nat j) extra raw).
Proof.
  intros Hn Hp Hj He Hraw. rewrite named_index_path by done.
  eapply record_extra_located; [by eapply walk_indexed|done|done].
Qed.

Lemma canvas_located ds inputs raw :
  step "canvas" doc = Some (JArray ds) → Forall2 reads_canvas ds inputs → P raw →
  P (map_records parse_canvas_document 0 inputs raw).2.
Proof.
  intros Hp Hr Hraw. apply map_records_inv; [|done]. intros j p raw' Hj Hraw'.
  destruct (Forall2_lookup_r _ _ _ _ _ Hr Hj) as (d & Hdj & He).
  by eapply (indexed_extra_located "canvas").
Qed.

Lemma assets_located sha ds artifacts bs : ∀ inputs j raw d r d',
  step "assets" doc = Some (JArray ds) →
  (∀ i a, inputs !! i = Some a → ∃ da, ds !! (j + i) = Some da ∧ reads_asset da a) → P raw →
  parse_assets_from sha inputs j artifacts bs raw d = (Ok r, d') → P r.2.
Proof.
  intros inputs. induction inputs as [|a inputs IH]; intros j raw d r d' Hs Hr Hraw; simpl.
  { intros [= <- <-]. done. }
  intros ([asset raw1] & d1 & H1 & Hrun)%sbind_Ok_inv.
  apply sbind_Ok_inv in Hrun as ([assets raw2] & d2 & H2 & Hrun).
  unfold sret in Hrun. simplify_eq. simpl. change raw2 with (assets, raw2).2.
  destruct (Hr 0 a eq_refl) as (da & Hda & Hread). rewrite Nat.add_0_r in Hda.
  eapply IH; [exact Hs| | |exact H2].
  - intros i x Hx. destruct (Hr (S i) x Hx) as (dx & Hdx & ?). exists dx.
    by rewrite <-Nat.add_succ_comm in Hdx.
  - unfold parse_one in H1. apply sbind_Ok_inv in H1 as ([[av b] an] & d3 & _ & H1).
    unfold sret in H1. simplify_eq. by eapply (indexed_extra_located "assets").
Qed.
End located.

(** ** What an archive's documents are, for the pointers

    The conversations document is an array of its own; the other three are
    addressed under their names. *)
Section documents.
  Context (conversations_from_slice : string → option (list conversation_input)).
  Context (projects_from_slice : string → option (list project_input)).
  Context (canvas_from_slice : string → option (list canvas_input)).
  Context (assets_from_slice : string → option (list asset_input)).
  Context (sha256_hex : string → string).
  (** The array of values the bytes of a document spell. *)
  Context (array_of : string → list json).
  (** serde's derived readers. *)
  Context (conversations_read : ∀ s l, conversations_from_slice s = Some l →
             Forall2 reads_conversation (array_of s) l).
  Context (projects_read : ∀ s l, projects_from_slice s = Some l →
             Forall2 reads_project (array_of s) l).
  Context (canvas_read : ∀ s l, canvas_from_slice s = Some l →
             Forall2 reads_canvas (array_of s) l).
  Context (assets_read : ∀ s l, assets_from_slice s = Some l →
             Forall2 reads_asset (array_of s) l).

Definition side_documents (input : synthetic_archive_input) : json :=
  JObject [("projects", JArray (from_option array_of [] (si_projects_json input)));
           ("canvas", JArray (from_option array_of [] (si_canvas_json input)));
           ("assets", JArray (from_option array_of [] (si_assets_json input)))].

(** A record's pointer reads its payload in one of the documents. *)
Definition evidenced (input : synthetic_archive_input) (r : raw_record) : Prop :=
  located (JArray (array_of (si_conversations_json input))) r ∨ located (side_documents input) r.

#[local] Abbreviation parse_archive :=
  (Parser.parse_archive conversations_from_slice projects_from_slice canvas_from_slice
     assets_from_slice sha256_hex).

(** Raw preservation is honest: in a successful parse, every raw record's
    path is a JSON pointer which, read in the source documents, yields exactly
    the payload the record holds - for unknown fields at every level,
    disagreeing ids, unknown roles, instruction kinds and content parts,
    whatever characters the field names contain. *)
Theorem raw_records_evidenced (input : synthetic_archive_input) (d d' : disk)
    (parsed : parsed_conversations) :
  parse_archive input d = (Ok parsed, d') →
  Forall (evidenced input) (pcs_raw_records parsed).
Proof using conversations_read projects_read canvas_read assets_read.
  unfold Parser.parse_archive. case_decide; [done|].
  intros (p0 & d1 & Hdec & Hrun)%sbind_Ok_inv. injection Hdec as Hdec <-.
  apply sbind_Ok_inv in Hrun as ([assets raw] & d2 & Has & Hrun).
  unfold sret in Hrun. simplify_eq. simpl. change raw with (assets, raw).2.
  assert (HA : ∀ r, located (JArray (array_of (si_conversations_json input))) r →
    evidenced input r) by (intros; by left).
  assert (HB : ∀ r, located (side_documents input) r → evidenced input r) by (intros; by right).
  assert (Hraw : Forall (evidenced input) (pcs_raw_records p0)).
  { unfold decode_archive in Hdec.
    destruct (conversations_from_slice _) as [cs|] eqn:Ec; [|done]. simpl in Hdec.
    destruct (map_records parse_conversation 0 cs []) as [convs raw1] eqn:E1.
    assert (H1 : Forall (evidenced input) raw1).
    { change raw1 with (convs, raw1).2. rewrite <-E1.
      by eapply (conversations_located _ _ HA); [|by apply conversations_read|]. }
    destruct (parse_projects _ _ raw1) as [[ps raw2]|] eqn:E2; [|done].
    assert (H2 : Forall (evidenced input) raw2).
    { unfold parse_projects in E2. destruct (si_projects_json input) as [src|] eqn:Es; [|by simplify_eq].
      destruct (projects_from_slice src) as [ins|] eqn:Ei; [|done]. injection E2 as E2.
      change raw2 with (ps, raw2).2. rewrite <-E2.
      eapply (projects_located _ _ HB); [|by apply projects_read|done].
      unfold side_documents. by rewrite Es. }
    destruct (parse_canvas _ _ raw2) as [[cvs raw3]|] eqn:E3; [|done]. simplify_eq. simpl.
    unfold parse_canvas in E3. destruct (si_canvas_json input) as [src|] eqn:Es; [|by simplify_eq].
    destruct (canvas_from_slice src) as [ins|] eqn:Ei; [|done]. injection E3 as E3.
    change raw3 with (cvs, raw3).2. rewrite <-E3.
    eapply (canvas_located _ _ HB); [|by apply canvas_read|done].
    unfold side_documents. by rewrite Es. }
  unfold parse_assets in Has. destruct (si_assets_json input) as [src|] eqn:Es; cycle 1.
  { unfold sret in Has. by simplify_eq. }
  apply sbind_Ok_inv in Has as (ins & d3 & Hi & Has).
  destruct (assets_from_slice src) as [ins'|] eqn:Ei; [|done]. injection Hi as <- <-.
  eapply (assets_located _ _ HB); [|intros i a Ha|exact Hraw|exact Has].
  - unfold side_documents. by rewrite Es.
  - destruct (Forall2_lookup_r _ _ _ _ _ (assets_read _ _ Ei) Ha) as (da & ? & ?).
    by exists da.
Qed.
End documents.

(** ** Nothing is lost or reordered *)

(** [m] is the projection of [i], found in the mapping node [n]. *)
Definition projects_message (x : mapping_input * message_input) (m : parsed_message) : Prop :=
  let (n, i) := x in
  pm_external_id m = mi_id i ∧ pm_parent_external_id m = mp_parent n ∧
  pm_role m = normalize_role (au_role (mi_author i)) ∧
  pm_created m = mi_create_time i ∧ pm_updated m = mi_update_time i ∧
  pm_model_slug m = md_model_slug (mi_metadata i) ∧
  pm_provider_metadata m = JObject (mi_extra i) ∧
  pp_payload <$> pm_parts m = ct_parts (mi_content i) ∧
  pp_ordinal <$> pm_parts m = seq 0 (length (ct_parts (mi_content i))) ∧
  Forall (λ p, pp_kind p = part_kind (pp_payload p)) (pm_parts m).

(** The nodes of a mapping that hold a message, in key order. *)
Definition message_nodes (mapping : list (string * mapping_input))
    : list (mapping_input * message_input) :=
  omap (λ kn, pair kn.2 <$> mp_message kn.2) mapping.

Lemma map_records_fst {A B} (f : nat → A → records → B * records) (R : A → B → Prop) l :
  (∀ i x raw, R x (f i x raw).1) → ∀ i raw, Forall2 R l (map_records f i l raw).1.
Proof.
  intros Hf. induction l as [|x l IH]; intros i raw; simpl; [constructor|].
  specialize (Hf i x raw). destruct (f i x raw) as [y raw1].
  specialize (IH (S i) raw1). destruct (map_records f (S i) l raw1). by constructor.
Qed.

Lemma parse_parts_fst path parts : ∀ i raw,
  pp_payload <$> (map_records (parse_part path) i parts raw).1 = parts ∧
  pp_ordinal <$> (map_records (parse_part path) i parts raw).1 = seq i (length parts) ∧
  Forall (λ p, pp_kind p = part_kind (pp_payload p)) (map_records (parse_part path) i parts raw).1.
Proof.
  induction parts as [|v parts IH]; intros i raw; simpl; [done|].
  match goal with |- context [map_records _ _ _ ?x] => destruct (IH (S i) x) as (H1 & H2 & H3);
    destruct (map_records (parse_part path) (S i) parts x) end.
  cbn [fst] in *. rewrite !fmap_cons, H1, H2. split_and!; [done|done|by constructor].
Qed.

Lemma parse_message_fst n i path raw :
  projects_message (n, i) (parse_message i (mp_parent n) path raw).1.
Proof.
  unfold parse_message, parse_parts.
  match goal with |- context [map_records (parse_part ?p) 0 _ ?x] =>
    destruct (parse_parts_fst p (ct_parts (mi_content i)) 0 x) as (H1 & H2 & H3);
    destruct (map_records (parse_part p) 0 (ct_parts (mi_content i)) x) end.
  simpl in *. by split_and!.
Qed.

Lemma omap_Forall2 {A B C D} (f : A → option C) (g : B → option D) (R : C → D → Prop) l k :
  Forall2 (λ a b, match f a, g b with Some c, Some d => R c d | None, None => True | _, _ => False end)
    l k → Forall2 R (omap f l) (omap g k).
Proof.
  induction 1 as [|a b l k Hab _ IH]; simpl; [constructor|].
  destruct (f a), (g b); try done. by constructor.
Qed.

(** The projection keeps every message of a conversation, once, in
    mapping-key order, with its fields as they were, and every content part
    with its original payload under its position. *)
Theorem conversation_projection (index : nat) (c : conversation_input) (raw : list raw_record) :
  let p := (parse_conversation index c raw).1 in
  pc_external_id p = ci_id c ∧ pc_title p = ci_title c ∧
  pc_created p = ci_create_time c ∧ pc_updated p = ci_update_time c ∧
  pc_provider_metadata p = JObject (ci_extra c) ∧
  Forall2 projects_message (message_nodes (ci_mapping c)) (pc_messages p).
Proof.
  unfold parse_conversation. destruct (map_records _ _ _ _) as [ms raw1] eqn:E. simpl.
  split_and!; try done. change ms with (ms, raw1).1. rewrite <-E.
  unfold message_nodes. apply omap_Forall2, map_records_fst.
  intros i [key n] raw'. simpl. unfold parse_mapping.
  destruct (mp_message n) as [m|]; simpl; [|done].
  match goal with |- context [parse_message m ?a ?b ?c] =>
    pose proof (parse_message_fst n m b c); destruct (parse_message m a b c) end.
  done.
Qed.

(** *** Completeness of the raw records *)

Lemma map_records_elem {A B} (f : nat → A → records → B * records) (r : raw_record) l :
  (∀ i x raw, r ∈ raw → r ∈ (f i x raw).2) → ∀ i raw,
  (r ∈ raw ∨ ∃ j x, l !! j = Some x ∧ ∀ raw', r ∈ (f (i + j) x raw').2) →
  r ∈ (map_records f i l raw).2.
Proof.
  intros Hmono. induction l as [|x l IH]; intros i raw H; simpl.
  { destruct H as [?|(j & x & Hj & _)]; [done|by rewrite lookup_nil in Hj]. }
  destruct (f i x raw) as [y raw1] eqn:E. destruct (map_records f (S i) l raw1) as [ys raw2] eqn:E2.
  simpl. change raw2 with (ys, raw2).2. rewrite <-E2. apply IH.
  destruct H as [H|([|j] & z & Hj & H)].
  - left. change raw1 with (y, raw1).2. rewrite <-E. auto.
  - left. simplify_eq/=. change raw1 with (y, raw1).2. rewrite <-E.
    specialize (H raw). by rewrite Nat.add_0_r in H.
  - right. exists j, z. split; [done|]. intros raw'. by rewrite Nat.add_succ_l, <-Nat.add_succ_r.
Qed.

Lemma record_extra_elem path extra raw r :
  r ∈ record_extra path extra raw ↔
  r ∈ raw ∨ ∃ k v, (k, v) ∈ extra ∧ r = RawRecord (child_path path k) v.
Proof.
  unfold record_extra. rewrite elem_of_app, list_elem_of_fmap.
  split; (intros [?|H]; [by left|right]).
  - destruct H as ([k v] & -> & ?). eauto.
  - destruct H as (k & v & ? & ->). by exists (k, v).
Qed.

Lemma parse_part_mono path i v raw r : r ∈ raw → r ∈ (parse_part path i v raw).2.
Proof. intros. unfold parse_part. simpl. case_decide; rewrite ?elem_of_app; auto. Qed.

Lemma parse_part_unknown path i v raw :
  part_kind v = UnknownPart →
  RawRecord (child_path (child_path path "parts") (show_nat i)) v ∈ (parse_part path i v raw).2.
Proof.
  intros Hk. unfold parse_part. simpl. rewrite decide_True by done.
  rewrite elem_of_app, list_elem_of_singleton. by right.
Qed.

(** What a message leaves in the raw records, at its own path. *)
Definition message_evidence (path : string) (m : message_input) (r : raw_record) : Prop :=
  (∃ k v, (k, v) ∈ mi_extra m ∧ r = RawRecord (child_path path k) v) ∨
  (∃ k v, (k, v) ∈ au_extra (mi_author m) ∧ r = RawRecord (child_path (child_path path "author") k) v) ∨
  (∃ k v, (k, v) ∈ md_extra (mi_metadata m) ∧
     r = RawRecord (child_path (child_path path "metadata") k) v) ∨
  (∃ k v, (k, v) ∈ ct_extra (mi_content m) ∧
     r = RawRecord (child_path (child_path path "content") k) v) ∨
  (normalize_role (au_role (mi_author m)) = UnknownRole ∧
     r = RawRecord (child_path (child_path path "author") "role") (JString (au_role (mi_author m)))) ∨
  (∃ i v, ct_parts (mi_content m) !! i = Some v ∧ part_kind v = UnknownPart ∧
     r = RawRecord (child_path (child_path (child_path path "content") "parts") (show_nat i)) v).

Lemma parse_message_elem m parent path raw r :
  r ∈ raw ∨ message_evidence (child_path path "message") m r →
  r ∈ (parse_message m parent path raw).2.
Proof.
  intros H. unfold parse_message, parse_parts.
  destruct (map_records _ _ _ _) as [parts raw1] eqn:E. simpl.
  change raw1 with (parts, raw1).2. rewrite <-E. apply map_records_elem.
  { intros. by apply parse_part_mono. }
  destruct H as [H|[H|[H|[H|[H|[[Hk ->]|(i & v & Hi & Hk & ->)]]]]]].
  7: { right. exists i, v. split; [done|]. intros raw'. by apply parse_part_unknown. }
  6: { left. rewrite decide_True by done. rewrite elem_of_app, list_elem_of_singleton. by right. }
  all: left; case_decide; rewrite ?elem_of_app, !record_extra_elem; tauto.
Qed.

Definition mapping_evidence (path key : string) (n : mapping_input) (r : raw_record) : Prop :=
  (∃ k v, (k, v) ∈ mp_extra n ∧ r = RawRecord (child_path (child_path path key) k) v) ∨
  (∃ id, mp_id n = Some id ∧ id ≠ key ∧
     r = RawRecord (child_path (child_path path key) "id") (JString id)) ∨
  (∃ m, mp_message n = Some m ∧
     message_evidence (child_path (child_path path key) "message") m r).

Lemma parse_mapping_elem n path key raw r :
  r ∈ raw ∨ mapping_evidence path key n r → r ∈ (parse_mapping n path key raw).2.
Proof.
  intros H. unfold parse_mapping.
  match goal with |- context [parse_message _ _ _ ?x] => set (raw2 := x) end.
  assert (H2 : r ∈ raw2 ∨ ∃ m, mp_message n = Some m ∧
            message_evidence (child_path (child_path path key) "message") m r).
  { destruct H as [H|[H|[(id & Hid & Hne & ->)|H]]]; [left..|by right]; unfold raw2.
    - destruct (mp_id n); [case_decide|]; rewrite ?elem_of_app, record_extra_elem; auto.
    - destruct (mp_id n); [case_decide|]; rewrite ?elem_of_app, record_extra_elem; auto.
    - rewrite Hid, decide_True by done. rewrite elem_of_app, list_elem_of_singleton. by right. }
  destruct (mp_message n) as [m|].
  - destruct (parse_message m _ _ raw2) as [msg raw3] eqn:E. simpl.
    change raw3 with (msg, raw3).2. rewrite <-E. apply parse_message_elem.
    destruct H2 as [?|(m' & [= <-] & ?)]; auto.
  - destruct H2 as [?|(m' & [=] & ?)]. done.
Qed.

(** C40. Nothing the typed model does not hold disappears: every unknown field
    of a conversation, of a mapping node, of a message, of its author,
    metadata and content, every node id that disagrees with its key, every
    unknown role and every unknown content part has a raw record, wherever it
    stands in the document. *)
Theorem raw_records_complete (inputs : list conversation_input) (j : nat)
    (c : conversation_input) (r : raw_record) :
  inputs !! j = Some c →
  let path := "/" +:+ show_nat j in
  (∃ k v, (k, v) ∈ ci_extra c ∧ r = RawRecord (child_path path k) v) ∨
  (∃ key n, (key, n) ∈ ci_mapping c ∧ mapping_evidence (child_path path "mapping") key n r) →
  r ∈ (map_records parse_conversation 0 inputs []).2.
Proof.
  intros Hj path H.
  assert (Hconv : ∀ i x raw, r ∈ raw ∨
      (∃ k v, (k, v) ∈ ci_extra x ∧ r = RawRecord (child_path ("/" +:+ show_nat i) k) v) ∨
      (∃ key n, (key, n) ∈ ci_mapping x ∧
         mapping_evidence (child_path ("/" +:+ show_nat i) "mapping") key n r) →
      r ∈ (parse_conversation i x raw).2).
  { intros i x raw Hx. unfold parse_conversation.
    destruct (map_records _ _ _ _) as [ms raw1] eqn:E. simpl.
    change raw1 with (ms, raw1).2. rewrite <-E. apply map_records_elem.
    { intros. apply parse_mapping_elem. by left. }
    rewrite record_extra_elem. destruct Hx as [?|[?|(key & n & Hn & ?)]]; [tauto..|].
    right. apply list_elem_of_lookup in Hn as [i' Hi']. exists i', (key, n).
    split; [done|]. intros raw'. apply parse_mapping_elem. by right. }
  apply map_records_elem; [intros; apply Hconv; by left|].
  right. exists j, c. split; [done|]. intros raw'. apply Hconv. by right.
Qed.

(** ** Declared assets *)

(** An asset is verified only on evidence: a verified asset names exactly
    one extracted artifact of its declared path, not quarantined, whose stored
    bytes have the declared digest, length and media type; a missing asset
    declares no path; a quarantined asset exposes no reference and says why;
    and a fault of the store is an error, never a finding. *)
Theorem asset_verdict_sound (sha256_hex : string → string) (input : asset_input)
    (artifacts : list extracted_artifact) (bs : blob_store) (d d' : disk)
    (r : result synthetic_parser_error
           (asset_availability * option blob_ref * option asset_anomaly)) :
  verify_asset sha256_hex input artifacts bs d = (r, d') →
  match r with
  | Err e =>
      e = StorageUnavailable ∧ ∃ a x, a ∈ artifacts ∧
        BlobStore.verify sha256_hex bs (ea_blob a) d = (Err x, d') ∧
        x ≠ Missing ∧ x ≠ InvalidMediaType
  | Ok (AssetMissing, b, an) => as_archive_path input = None ∧ b = None ∧ an = None
  | Ok (Quarantined, b, an) => is_Some (as_archive_path input) ∧ b = None ∧ is_Some an
  | Ok (Verified, b, an) =>
      an = None ∧ ∃ path a object bytes,
        as_archive_path input = Some path ∧
        filter (λ a, ap_entry_path (ea_provenance a) = path) artifacts = [a] ∧
        ea_quarantined a = false ∧ b = Some (ea_blob a) ∧
        d_nodes d !! object = Some (NFile bytes) ∧
        as_sha256 input = Some (sha256_hex bytes) ∧
        as_length_bytes input = Some (N.of_nat (String.length bytes)) ∧
        as_media_type input = Some (br_media_type (ea_blob a))
  end.
Proof.
  unfold verify_asset. destruct (as_archive_path input) as [path|] eqn:Hp;
    [|by intros [= <- <-]].
  destruct (filter _ artifacts) as [|a [|a2 rest]] eqn:Hf.
  { intros [= <- <-]. split_and!; eauto. }
  2: { intros [= <- <-]. split_and!; eauto. }
  destruct (ea_quarantined a) eqn:Hq; [intros [= <- <-]; split_and!; eauto|].
  intros [(v & d1 & Hv & Hrun)|(e & Hv & _)]%sbind_inv; unfold stry in Hv;
    destruct (BlobStore.verify _ _ _ d) as [y d2] eqn:Hver; simplify_eq.
  assert (Ha : a ∈ artifacts).
  { assert (a ∈ filter (λ a, ap_entry_path (ea_provenance a) = path) artifacts) as Hin
      by (rewrite Hf; by apply list_elem_of_singleton).
    by apply list_elem_of_filter in Hin as [_ ?]. }
  unfold sret, sfail in Hrun. destruct v as [object|x].
  - apply verify_Ok in Hver as (_ & _ & _ & dir & rem & bytes & _ & _ & _ & Hobj & Hsha & Hlen).
    destruct (as_sha256 input) as [digest|] eqn:Hd; [|simplify_eq; split_and!; eauto].
    case_decide as Hd'; [simplify_eq; split_and!; eauto|].
    destruct (as_length_bytes input) as [len|] eqn:Hl; [|simplify_eq; split_and!; eauto].
    case_decide as Hl'; [simplify_eq; split_and!; eauto|].
    destruct (as_media_type input) as [mt|] eqn:Hm; [|simplify_eq; split_and!; eauto].
    case_decide as Hm'; [simplify_eq; split_and!; eauto|].
    simplify_eq. split; [done|]. exists path, a, object, bytes.
    split_and!; try done; congruence.
  - destruct x; simplify_eq; try (split_and!; by eauto).
    all: split; [done|]; exists a; eexists; split_and!; by eauto.
Qed.

(** ** Witnesses

    One conversation with an unknown field whose name needs escaping, and one
    node holding a message with an unknown role and an unknown part. *)

Module ParserWitness.
Definition part : json := JNumber (PosInt 7).
Definition message_doc : json := JObject
  [("author", JObject [("role", JString "oracle")]);
   ("content", JObject [("parts", JArray [JString "hi"; part])]); ("id", JString "m")].
Definition conversation_doc : json := JObject
  [("a/b~c", JNull); ("id", JString "c");
   ("mapping", JObject [("k", JObject [("id", JString "m"); ("message", message_doc)])])].

Definition message : message_input :=
  MessageInput "m" (AuthorInput "oracle" []) None None (MetadataInput None [])
    (ContentInput [JString "hi"; part] []) [].
Definition conversation : conversation_input :=
  ConversationInput "c" None None None [("k", MappingInput (Some "m") None (Some message) [])]
    [("a/b~c", JNull)].

Definition from_slice {A} (l : list A) (s : string) : option (list A) := Some l.
Definition array_of (s : string) : list json := if String.eqb s "c" then [conversation_doc] else [].

Lemma conversation_reads : reads_conversation conversation_doc conversation.
Proof.
  split; [by intros k v [= -> ->]%list_elem_of_singleton|].
  eexists. split; [reflexivity|]. constructor; [|done].
  eexists. split; [reflexivity|]. split; [by intros k v ?%elem_of_nil|].
  split; [by intros id [= <-]|]. intros m [= <-]. eexists. split; [reflexivity|].
  split_and!; [by intros k v ?%elem_of_nil| |by left|];
    eexists; (split_and!; [reflexivity|by intros k v ?%elem_of_nil|reflexivity]).
Qed.

Definition toy_sha (s : string) : string := "ab" +:+ s.
Definition input : synthetic_archive_input :=
  SyntheticArchiveInput (pr_id registration) "c" None None None [] (BlobStore "/b").
Definition parsed : parsed_conversations :=
  match (parse_archive (λ s, if String.eqb s "c" then Some [conversation] else None)
           (λ _, None) (λ _, None) (λ _, None) toy_sha input (Disk ∅ [])).1 with
  | Ok p => p
  | Err _ => ParsedConversations "" (pr_id registration) [] [] [] [] []
  end.

Example raw_records_example : rr_path <$> pcs_raw_records parsed =
  ["/0/a~1b~0c"; "/0/mapping/k/id"; "/0/mapping/k/message/author/role";
   "/0/mapping/k/message/content/parts/1"].
Proof. vm_compute. reflexivity. Qed.

Lemma raw_records_evidenced_witness :
  Forall (evidenced array_of input) (pcs_raw_records parsed).
Proof.
  apply (raw_records_evidenced (λ s, if String.eqb s "c" then Some [conversation] else None)
    (λ _, None) (λ _, None) (λ _, None) toy_sha array_of) with (d := Disk ∅ []) (d' := Disk ∅ []).
  - intros s l. unfold array_of. destruct (String.eqb s "c"); [|done]. intros [= <-].
    constructor; [exact conversation_reads|constructor].
  - done.
  - done.
  - done.
  - vm_compute. reflexivity.
Defined.

Lemma raw_records_complete_witness :
  RawRecord "/0/mapping/k/message/content/parts/1" part
    ∈ (map_records parse_conversation 0 [conversation] []).2.
Proof.
  apply (raw_records_complete [conversation] 0 conversation); [reflexivity|].
  right. eexists "k", _. split; [by apply list_elem_of_singleton|].
  right; right. eexists. split; [reflexivity|]. do 5 right.
  exists 1, part. split_and!; reflexivity.
Defined.

Definition blob : blob_ref := BlobRef OWNER (ContentDigest Sha256 "abxyz") "text/plain" 3.
Definition artifact : extracted_artifact :=
  ExtractedArtifact blob (ArtifactProvenance "raw" "f.txt") false.
Definition asset : asset_input :=
  AssetInput "a" "novel" None None None (Some "f.txt") (Some "text/plain") (Some 3%N)
    (Some "abxyz") [].
Definition disk1 : disk := Disk {["/b/sha256/ab/xyz" := NFile "xyz"]} [].

Lemma asset_verdict_sound_witness :
  ∃ object bytes, d_nodes disk1 !! object = Some (NFile bytes) ∧
    Some "abxyz" = Some (toy_sha bytes).
Proof.
  destruct (asset_verdict_sound toy_sha asset [artifact] (BlobStore "/b") disk1 disk1
    (Ok (Verified, Some blob, None))) as (_ & path & a & object & bytes & _ & _ & _ & _ & H & H' & _);
    [vm_compute; reflexivity|].
  exists object, bytes. split; [exact H|exact H'].
Defined.
End ParserWitness.
