(* ===== verification/Digest.v ===== *)
(** * Deterministic digests of normalized evidence ([reconciliation/digest.rs])

    A record's digest is the hash of the text of the canonical form of a JSON
    value built from it.  Serializing a value, hashing, and the JSON form of a
    blob reference are code of other packages: parameters. *)

From S2P Require Import Prelude BTree BlobStore Registry Json Parser.

Definition role_name (role : message_role) : string :=
  match role with
  | System => "system" | User => "user" | Assistant => "assistant"
  | Tool => "tool" | Internal => "internal" | UnknownRole => "unknown"
  end.

Definition part_kind_name (kind : content_part_kind) : string :=
  match kind with
  | PText => "text" | ToolCall => "tool_call" | ToolResult => "tool_result"
  | Image => "image" | File => "file" | UnknownPart => "unknown"
  end.

Definition instruction_kind_name (kind : instruction_kind) : string :=
  match kind with
  | Instruction => "instruction" | SystemPrompt => "system_prompt"
  | UnknownInstruction => "unknown"
  end.

Definition asset_kind_name (kind : asset_kind) : string :=
  match kind with
  | Uploaded => "uploaded" | Generated => "generated" | UnknownAsset => "unknown"
  end.

Definition availability_name (availability : asset_availability) : string :=
  match availability with
  | AssetMissing => "missing" | Quarantined => "quarantined" | Verified => "verified"
  end.

Definition anomaly_name (anomaly : asset_anomaly) : string :=
  match anomaly with
  | MissingArtifact => "missing_artifact"
  | ExtractedArtifactQuarantined => "extracted_artifact_quarantined"
  | BlobVerificationFailed => "blob_verification_failed"
  | DigestMismatch => "digest_mismatch"
  | LengthMismatch => "length_mismatch"
  | MediaTypeMismatch => "media_type_mismatch"
  | InvalidDeclaration => "invalid_declaration"
  | AmbiguousArtifact => "ambiguous_artifact"
  end.

Definition json_string_option : option string → json := json_option JString.
(** An [f64] from a JSON document is finite, so it is written as a number. *)
Definition json_float_option : option N → json := json_option (λ b, JNumber (Float b)).

Definition part_value (part : parsed_content_part) : json :=
  JObject
    [("ordinal", JNumber (PosInt (N.of_nat (pp_ordinal part))));
     ("kind", JString (part_kind_name (pp_kind part)));
     ("payload", canonicalize (pp_payload part))].

Definition message_value (message : parsed_message) : json :=
  JObject
    [("external_id", JString (pm_external_id message));
     ("parent_external_id", json_string_option (pm_parent_external_id message));
     ("role", JString (role_name (pm_role message)));
     ("created_at_epoch_seconds", json_float_option (pm_created message));
     ("updated_at_epoch_seconds", json_float_option (pm_updated message));
     ("model_slug", json_string_option (pm_model_slug message));
     ("provider_metadata", canonicalize (pm_provider_metadata message));
     ("parts", JArray (part_value <$> pm_parts message))].

(** The value [conversation_digest] hashes: the messages sorted by their id. *)
Definition conversation_value (conversation : parsed_conversation) : json :=
  let messages := sort_by (cmp_on pm_external_id) (pc_messages conversation) in
  JObject
    [("external_id", JString (pc_external_id conversation));
     ("title", json_string_option (pc_title conversation));
     ("created_at_epoch_seconds", json_float_option (pc_created conversation));
     ("updated_at_epoch_seconds", json_float_option (pc_updated conversation));
     ("provider_metadata", canonicalize (pc_provider_metadata conversation));
     ("messages", JArray (message_value <$> messages))].

Section digest.
  (** [Value::to_string], SHA-256 in hexadecimal, and a blob reference as JSON. *)
  Context (to_string : json → string) (sha256_hex : string → string).
  Context (blob_json : blob_ref → json).

Definition digest (value : json) : string := sha256_hex (to_string (canonicalize value)).

Definition message_digest (message : parsed_message) : string := digest (message_value message).

Definition conversation_digest (conversation : parsed_conversation) : string :=
  digest (conversation_value conversation).

Definition project_digest (project : parsed_project) : string :=
  digest (JObject
    [("external_id", JString (pp_external_id project));
     ("title", json_string_option (pp_title project));
     ("description", json_string_option (pp_description project));
     ("conversation_external_ids", JArray (JString <$> pp_conversation_external_ids project));
     ("asset_external_ids", JArray (JString <$> pp_asset_external_ids project));
     ("provider_metadata", canonicalize (pp_provider_metadata project))]).

Definition instruction_digest (instruction : parsed_instruction) : string :=
  digest (JObject
    [("external_id", json_string_option (pin_external_id instruction));
     ("ordinal", JNumber (PosInt (N.of_nat (pin_ordinal instruction))));
     ("kind", JString (instruction_kind_name (pin_kind instruction)));
     ("content", canonicalize (pin_content instruction));
     ("provider_metadata", canonicalize (pin_provider_metadata instruction))]).

Definition canvas_digest (document : parsed_canvas_document) : string :=
  digest (JObject
    [("external_id", JString (pcv_external_id document));
     ("project_external_id", json_string_option (pcv_project_external_id document));
     ("conversation_external_id", json_string_option (pcv_conversation_external_id document));
     ("content", JArray (canonicalize <$> pcv_content document));
     ("provider_metadata", canonicalize (pcv_provider_metadata document))]).

Definition asset_digest (asset : parsed_asset) : string :=
  digest (JObject
    [("external_id", JString (pa_external_id asset));
     ("kind", JString (asset_kind_name (pa_kind asset)));
     ("project_external_id", json_string_option (pa_project_external_id asset));
     ("conversation_external_id", json_string_option (pa_conversation_external_id asset));
     ("display_name", json_string_option (pa_display_name asset));
     ("media_type", json_string_option (pa_media_type asset));
     ("availability", JString (availability_name (pa_availability asset)));
     ("blob", json_option blob_json (pa_blob asset));
     ("anomaly", json_option (JString ∘ anomaly_name) (pa_anomaly asset));
     ("provider_metadata", canonicalize (pa_provider_metadata asset))]).
End digest.

(** ** What a digest depends on *)

(** The evidence of a part and of a message, with JSON values in canonical
    form. *)
Definition normal_part (p : parsed_content_part) : nat * content_part_kind * json :=
  (pp_ordinal p, pp_kind p, canonicalize (pp_payload p)).

Definition normal_message (m : parsed_message)
    : string * option string * message_role * option N * option N * option string * json *
      list (nat * content_part_kind * json) :=
  (pm_external_id m, pm_parent_external_id m, pm_role m, pm_created m, pm_updated m,
   pm_model_slug m, canonicalize (pm_provider_metadata m), normal_part <$> pm_parts m).

Definition message_wf (m : parsed_message) : Prop :=
  json_wf (pm_provider_metadata m) ∧ Forall (λ p, json_wf (pp_payload p)) (pm_parts m).

#[global] Instance role_name_inj : Inj (=) (=) role_name.
Proof. by intros [] []. Qed.
#[global] Instance part_kind_name_inj : Inj (=) (=) part_kind_name.
Proof. by intros [] []. Qed.

#[global] Instance json_string_option_inj : Inj (=) (=) json_string_option.
Proof. intros [a|] [b|]; simpl; congruence. Qed.
#[global] Instance json_float_option_inj : Inj (=) (=) json_float_option.
Proof. intros [a|] [b|]; simpl; congruence. Qed.

Lemma canonicalize_string_option o : canonicalize (json_string_option o) = json_string_option o.
Proof. by destruct o. Qed.
Lemma canonicalize_float_option o : canonicalize (json_float_option o) = json_float_option o.
Proof. by destruct o. Qed.

Lemma canonical_part p :
  json_wf (pp_payload p) →
  canonicalize (part_value p) = JObject
    [("kind", JString (part_kind_name (pp_kind p)));
     ("ordinal", JNumber (PosInt (N.of_nat (pp_ordinal p))));
     ("payload", canonicalize (pp_payload p))].
Proof.
  intros Hwf. unfold part_value. cbn [canonicalize fmap list_fmap fst snd].
  rewrite (canonicalize_idem _ Hwf). reflexivity.
Qed.

Lemma canonical_message m :
  message_wf m →
  canonicalize (message_value m) = JObject
    [("created_at_epoch_seconds", json_float_option (pm_created m));
     ("external_id", JString (pm_external_id m));
     ("model_slug", json_string_option (pm_model_slug m));
     ("parent_external_id", json_string_option (pm_parent_external_id m));
     ("parts", JArray (canonicalize ∘ part_value <$> pm_parts m));
     ("provider_metadata", canonicalize (pm_provider_metadata m));
     ("role", JString (role_name (pm_role m)));
     ("updated_at_epoch_seconds", json_float_option (pm_updated m))].
Proof.
  intros [Hwf _]. unfold message_value. cbn [canonicalize fmap list_fmap fst snd].
  rewrite (canonicalize_idem _ Hwf), !canonicalize_string_option, !canonicalize_float_option.
  change (list_fmap json json canonicalize) with (fmap (M := list) canonicalize).
  change (list_fmap _ _ part_value) with (fmap (M := list) part_value).
  rewrite <-list_fmap_compose. reflexivity.
Qed.

(** ** Properties *)

(** The canonical form forgets the order of object members, at every
    depth, and nothing else happens on a second application: values that
    differ in member order only have the same digest. *)
Theorem canonicalize_order_free (to_string : json → string) (sha256_hex : string → string)
    (v w : json) :
  json_equiv v w →
  canonicalize v = canonicalize w ∧
  digest to_string sha256_hex v = digest to_string sha256_hex w ∧
  (json_wf v → canonicalize (canonicalize v) = canonicalize v ∧ json_equiv v (canonicalize v)).
Proof.
  intros H. pose proof (canonicalize_equiv_eq _ _ H) as E. split_and!; [done| |].
  - unfold digest. by rewrite E.
  - intros Hwf. split; [by apply canonicalize_idem|by apply json_equiv_canonicalize].
Qed.

(** A conversation's digest does not depend on the order its messages are
    listed in, as long as their ids are distinct. *)
Theorem conversation_digest_message_order (to_string : json → string)
    (sha256_hex : string → string) (c c' : parsed_conversation) :
  pc_external_id c = pc_external_id c' → pc_title c = pc_title c' →
  pc_created c = pc_created c' → pc_updated c = pc_updated c' →
  json_equiv (pc_provider_metadata c) (pc_provider_metadata c') →
  pc_messages c ≡ₚ pc_messages c' → NoDup (pm_external_id <$> pc_messages c) →
  conversation_digest to_string sha256_hex c = conversation_digest to_string sha256_hex c'.
Proof.
  intros H1 H2 H3 H4 H5 H6 H7. unfold conversation_digest. f_equal. unfold conversation_value.
  rewrite H1, H2, H3, H4, (canonicalize_equiv_eq _ _ H5).
  by rewrite (sort_by_unique pm_external_id _ _ H6 H7).
Qed.

Lemma parts_determined l k :
  Forall (λ p, json_wf (pp_payload p)) l → Forall (λ p, json_wf (pp_payload p)) k →
  canonicalize ∘ part_value <$> l = canonicalize ∘ part_value <$> k ↔
  normal_part <$> l = normal_part <$> k.
Proof.
  intros Hl. revert k. induction Hl as [|p l Hp _ IH]; intros [|q k] Hk; try done.
  inversion_clear Hk as [|?? Hq Hk']. rewrite !fmap_cons. unfold compose at 1 3.
  rewrite !canonical_part by done. unfold normal_part at 1 3. split; intros E; injection E.
  - intros E' Hpay Hord Hkind. apply IH in E'; [|done].
    apply (inj part_kind_name) in Hkind. f_equal; [|done].
    rewrite Hpay, Hkind. f_equal. f_equal. lia.
  - intros E' Hpay Hkind Hord. apply IH in E'; [|done]. by rewrite Hpay, Hkind, Hord, E'.
Qed.

(** A message's digest is taken from a faithful text: the canonical value
    it hashes is the same for two messages exactly when every field, every
    part and, up to member order, all of their JSON are the same. *)
Theorem message_value_faithful (m m' : parsed_message) :
  message_wf m → message_wf m' →
  canonicalize (message_value m) = canonicalize (message_value m') ↔
  normal_message m = normal_message m'.
Proof.
  intros Hm Hm'. rewrite !canonical_message by done.
  pose proof (parts_determined _ _ (proj2 Hm) (proj2 Hm')) as Hparts.
  unfold normal_message. split.
  - intros E. injection E. intros Hu Hr Hmeta Hp Hpar Hslug Hid Hc.
    apply (inj json_float_option) in Hu, Hc. apply (inj json_string_option) in Hpar, Hslug.
    apply (inj role_name) in Hr. apply Hparts in Hp. congruence.
  - intros E. injection E. intros Hp Hmeta Hslug Hu Hc Hr Hpar Hid.
    apply Hparts in Hp. congruence.
Qed.

(** ** Witnesses *)

Module DigestWitness.
Definition v : json := JObject [("b", JNull); ("a", JObject [("y", JNull); ("x", JBool true)])].
Definition w : json := JObject [("a", JObject [("x", JBool true); ("y", JNull)]); ("b", JNull)].

Lemma v_equiv_w : json_equiv v w.
Proof.
  eapply (equiv_object _ [("a", _); ("b", _)]).
  - vm_compute. repeat constructor; set_solver.
  - apply Permutation_swap.
  - constructor; [split; [done|]|constructor; [split; [done|constructor]|constructor]].
    eapply (equiv_object _ [("x", _); ("y", _)]).
    + vm_compute. repeat constructor; set_solver.
    + apply Permutation_swap.
    + repeat constructor.
Qed.

Lemma canonicalize_order_free_witness : canonicalize v = canonicalize w.
Proof. exact (proj1 (canonicalize_order_free (λ _, "") (λ s, s) v w v_equiv_w)). Defined.

Definition msg (id : string) (meta : json) : parsed_message :=
  ParsedMessage id None User None None None meta [ParsedContentPart 0 PText (JString "hi")].
Definition conv (l : list parsed_message) : parsed_conversation :=
  ParsedConversation "c" None None None JNull l.

Lemma conversation_digest_message_order_witness :
  conversation_digest (λ _, "") (λ s, s) (conv [msg "b" v; msg "a" v])
  = conversation_digest (λ _, "") (λ s, s) (conv [msg "a" v; msg "b" v]).
Proof.
  apply (conversation_digest_message_order (λ _, "") (λ s, s)
    (conv [msg "b" v; msg "a" v]) (conv [msg "a" v; msg "b" v])); try reflexivity.
  - constructor.
  - apply Permutation_swap.
  - vm_compute. repeat constructor; set_solver.
Defined.

Lemma message_value_faithful_witness :
  canonicalize (message_value (msg "a" v)) = canonicalize (message_value (msg "a" w)).
Proof.
  apply (message_value_faithful (msg "a" v) (msg "a" w)).
  - split; repeat constructor; set_solver.
  - split; repeat constructor; set_solver.
  - vm_compute. reflexivity.
Defined.
End DigestWitness.
