(* ===== verification/Reconciliation.v ===== *)
(** * Append-only reconciliation of archive snapshots ([reconciliation/])

    The histories ([model.rs]), the reports ([report.rs]) and the loop that
    folds ordered snapshots into them ([core.rs]).  Message, instruction,
    Canvas and asset histories have the same three fields in the source and
    share the record [history] here. *)

From S2P Require Import Prelude BTree BlobStore Registry Json Parser Digest.

(** ** Data *)

Inductive observation_state : Set := Present | MissingFromLatestSnapshot.

#[global] Instance observation_state_eq_dec : EqDecision observation_state.
Proof. solve_decision. Defined.

Record observation : Set := Observation {
  ob_archive_id : string;
  ob_state : observation_state;
  ob_revision_digest : option string;
  ob_orphaned : bool;
}.

(** A [Revision] is its digest. *)
Abbreviation revision := string.

Record history : Set := History {
  h_external_id : string;
  h_revisions : list revision;
  h_observations : list observation;
}.

Record conversation_history : Set := ConversationHistory {
  ch_external_id : string;
  ch_revisions : list revision;
  ch_observations : list observation;
  ch_messages : list history;
}.

Record project_history : Set := ProjectHistory {
  ph_external_id : string;
  ph_revisions : list revision;
  ph_observations : list observation;
  ph_instructions : list history;
}.

Inductive warning_code : Set := MissingParent | SelfParent | CrossConversationParent.

#[global] Instance warning_code_eq_dec : EqDecision warning_code.
Proof. solve_decision. Defined.

Record reconciliation_warning : Set := ReconciliationWarning {
  w_code : warning_code;
  w_conversation : string;
  w_message : option string;
}.

#[global] Instance reconciliation_warning_eq_dec : EqDecision reconciliation_warning.
Proof. solve_decision. Defined.

Inductive coverage_gap : Set :=
| ProjectRelationshipsUnobserved | AssetsUnobserved | CanvasDocumentsUnobserved
| AssetsMissing | AssetsQuarantined.

#[global] Instance coverage_gap_eq_dec : EqDecision coverage_gap.
Proof. solve_decision. Defined.

(** The derived orders, by declaration position and field order. *)
Definition warning_code_rank (c : warning_code) : nat :=
  match c with MissingParent => 0 | SelfParent => 1 | CrossConversationParent => 2 end.
Definition warning_key (w : reconciliation_warning) : nat * (string * option string) :=
  (warning_code_rank (w_code w), (w_conversation w, w_message w)).
Definition coverage_gap_rank (g : coverage_gap) : nat :=
  match g with
  | ProjectRelationshipsUnobserved => 0 | AssetsUnobserved => 1
  | CanvasDocumentsUnobserved => 2 | AssetsMissing => 3 | AssetsQuarantined => 4
  end.

#[global] Instance coverage_gap_ord : Ord coverage_gap := cmp_on coverage_gap_rank.

(** [usize] counters: a count never exceeds the length of a list in memory,
    so [nat] has no wrap-around to model. *)
Record revision_statistics : Set := RevisionStatistics {
  rs_new : nat;
  rs_reused : nat;
  rs_present : nat;
  rs_missing : nat;
}.

Definition no_statistics : revision_statistics := RevisionStatistics 0 0 0 0.

Inductive completeness : Set := CUnknown | StructurallyPartial.

Record archive_completeness_report : Set := ArchiveCompletenessReport {
  ar_archive_id : string;
  ar_schema_id : string;
  ar_parser_id : string;
  ar_conversations_discovered : nat;
  ar_messages_discovered : nat;
  ar_projects_discovered : nat;
  ar_instructions_discovered : nat;
  ar_canvas_documents_discovered : nat;
  ar_asset_references_discovered : nat;
  ar_verified_assets : nat;
  ar_missing_assets : nat;
  ar_quarantined_assets : nat;
  ar_orphan_messages : nat;
  ar_parse_warning_count : nat;
  ar_warnings : list reconciliation_warning;
  ar_gaps : list coverage_gap;
  ar_revision_statistics : revision_statistics;
  ar_completeness : completeness;
}.

Record cumulative_completeness_report : Set := CumulativeCompletenessReport {
  cr_unique_conversations : nat;
  cr_unique_messages : nat;
  cr_unique_projects : nat;
  cr_unique_canvas_documents : nat;
  cr_unique_assets : nat;
  cr_conversation_revisions : nat;
  cr_message_revisions : nat;
  cr_project_revisions : nat;
  cr_canvas_document_revisions : nat;
  cr_asset_revisions : nat;
  cr_warnings : list reconciliation_warning;
  cr_parse_warning_count : nat;
  cr_gaps : list coverage_gap;
  cr_revision_statistics : revision_statistics;
  cr_completeness : completeness;
}.

Record archive_snapshot : Set := ArchiveSnapshot {
  sn_archive_id : string;
  sn_sequence : N;
  sn_parsed : parsed_conversations;
}.

Record reconciliation_result : Set := ReconciliationResult {
  rr_conversations : list conversation_history;
  rr_projects : list project_history;
  rr_canvas_documents : list history;
  rr_assets : list history;
  rr_archive_reports : list archive_completeness_report;
  rr_cumulative_report : cumulative_completeness_report;
}.

(** ** Observations *)

Definition missing_observation (archive_id : string) : observation :=
  Observation archive_id MissingFromLatestSnapshot None false.

(** [record_present]: the digest becomes a revision unless it is one already;
    the observation is always added. *)
Definition record_present (revisions : list revision) (observations : list observation)
    (archive_id digest : string) (orphaned : bool)
    : list revision * list observation * bool :=
  let created := negb (existsb (String.eqb digest) revisions) in
  (if created then revisions ++ [digest] else revisions,
   observations ++ [Observation archive_id Present (Some digest) orphaned],
   created).

Definition history_present (h : history) (archive_id digest : string) (orphaned : bool)
    : history * bool :=
  let '(revisions, observations, created) :=
    record_present (h_revisions h) (h_observations h) archive_id digest orphaned in
  (History (h_external_id h) revisions observations, created).

Definition history_missing (archive_id : string) (h : history) : history :=
  History (h_external_id h) (h_revisions h) (h_observations h ++ [missing_observation archive_id]).

#[local] Abbreviation histories := (list (string * history)).

(** The loop of [observe_canvas], [observe_assets] and the instruction part of
    [observe_projects]: entry-or-insert, then [record_present]. *)
Definition observe_one (archive_id : string) (orphaned : bool) (id digest : string)
    (m : histories) : histories :=
  bt_upd id (λ h, (history_present (default (History id [] []) h) archive_id digest orphaned).1) m.

Definition observe_each {A} (id_of digest_of : A → string) (archive_id : string)
    (items : list A) (m : histories) : histories :=
  foldl (λ m x, observe_one archive_id false (id_of x) (digest_of x) m) m items.

(** The loop of [record_missing_canvas] and [record_missing_assets]. *)
Definition record_missing (present_ids : list string) (archive_id : string) (m : histories)
    : histories :=
  bt_map (λ external_id h,
    if bool_decide (external_id ∈ present_ids) then h else history_missing archive_id h) m.

(** [histories.drain(..).map(key).collect::<BTreeMap>()]. *)
Definition by_external_id (l : list history) : histories :=
  bt_of_list ((λ h, (h_external_id h, h)) <$> l).

Definition add_statistics (total addition : revision_statistics) : revision_statistics :=
  RevisionStatistics (rs_new total + rs_new addition) (rs_reused total + rs_reused addition)
    (rs_present total + rs_present addition) (rs_missing total + rs_missing addition).

(** ** Graph evidence *)

Record graph_evidence : Set := GraphEvidence {
  ge_warnings : list reconciliation_warning;
  ge_orphaned_messages : list ((string * string) * unit);
}.

Definition message_ids (c : parsed_conversation) : list string :=
  pm_external_id <$> pc_messages c.

(** The warning of one message, if its parent is not a message of its own
    conversation. *)
Definition parent_code (all_messages : list string) (local_messages : list string)
    (message : parsed_message) : option warning_code :=
  match pm_parent_external_id message with
  | None => None
  | Some parent =>
      if decide (parent = pm_external_id message) then Some SelfParent
      else if decide (parent ∈ local_messages) then None
      else if decide (parent ∈ all_messages) then Some CrossConversationParent
      else Some MissingParent
  end.

Definition graph_message (all_messages : list string) (conversation : parsed_conversation)
    (evidence : graph_evidence) (message : parsed_message) : graph_evidence :=
  match parent_code all_messages (message_ids conversation) message with
  | Some code =>
      GraphEvidence
        (ge_warnings evidence ++
          [ReconciliationWarning code (pc_external_id conversation) (Some (pm_external_id message))])
        (bset_insert (pc_external_id conversation, pm_external_id message)
          (ge_orphaned_messages evidence))
  | None => evidence
  end.

(** [graph_evidence]; the id maps are used for membership only. *)
Definition graph_evidence_of (snapshot : archive_snapshot) : graph_evidence :=
  let conversations := pcs_conversations (sn_parsed snapshot) in
  let all_messages := conversations ≫= message_ids in
  let evidence :=
    foldl (λ evidence conversation,
      foldl (graph_message all_messages conversation) evidence (pc_messages conversation))
      (GraphEvidence [] []) conversations in
  GraphEvidence (sort_by (cmp_on warning_key) (ge_warnings evidence))
    (ge_orphaned_messages evidence).

Section reconciliation.
  (** The parameters of the digests. *)
  Context (to_string : json → string) (sha256_hex : string → string).
  Context (blob_json : blob_ref → json).

(** ** Conversations *)

(** One message of [observe_conversation]. *)
Definition observe_message (conversation : parsed_conversation) (archive_id : string)
    (orphaned_messages : list ((string * string) * unit))
    (st : histories * revision_statistics) (message : parsed_message)
    : histories * revision_statistics :=
  let '(messages, statistics) := st in
  let id := pm_external_id message in
  let h := default (History id [] []) (bt_get id messages) in
  let '(h, created) :=
    history_present h archive_id (message_digest to_string sha256_hex message)
      (bt_mem (pc_external_id conversation, id) orphaned_messages) in
  (bt_upd id (λ _, h) messages,
   if created
   then RevisionStatistics (rs_new statistics + 1) (rs_reused statistics)
          (rs_present statistics) (rs_missing statistics)
   else RevisionStatistics (rs_new statistics) (rs_reused statistics + 1)
          (rs_present statistics) (rs_missing statistics)).

Definition observe_conversation (h : conversation_history) (conversation : parsed_conversation)
    (archive_id : string) (orphaned_messages : list ((string * string) * unit))
    : conversation_history * revision_statistics :=
  let '(revisions, observations, created) :=
    record_present (ch_revisions h) (ch_observations h) archive_id
      (conversation_digest to_string sha256_hex conversation) false in
  let statistics := RevisionStatistics (if created then 1 else 0) 0 0 0 in
  let '(messages, statistics) :=
    foldl (observe_message conversation archive_id orphaned_messages)
      (by_external_id (ch_messages h), statistics) (pc_messages conversation) in
  (ConversationHistory (ch_external_id h) revisions observations (bt_values messages), statistics).

(** ** Projects *)

(** [instruction_external_id]. *)
Definition instruction_external_id (project : parsed_project) (instruction : parsed_instruction)
    : string :=
  default (pp_external_id project +:+ ":" +:+ show_nat (pin_ordinal instruction))
    (pin_external_id instruction).

Definition observe_project (archive_id : string) (project : parsed_project) (h : project_history)
    : project_history :=
  let '(revisions, observations, _) :=
    record_present (ph_revisions h) (ph_observations h) archive_id
      (project_digest to_string sha256_hex project) false in
  let instructions := by_external_id (ph_instructions h) in
  let present_instruction_ids := instruction_external_id project <$> pp_instructions project in
  let instructions :=
    observe_each (instruction_external_id project) (instruction_digest to_string sha256_hex)
      archive_id (pp_instructions project) instructions in
  let instructions := record_missing present_instruction_ids archive_id instructions in
  ProjectHistory (ph_external_id h) revisions observations (bt_values instructions).

Definition observe_projects (archive_id : string) (projects : list parsed_project)
    (m : list (string * project_history)) : list (string * project_history) :=
  foldl (λ m project,
    bt_upd (pp_external_id project)
      (λ h, observe_project archive_id project
              (default (ProjectHistory (pp_external_id project) [] [] []) h)) m)
    m projects.

Definition project_missing (archive_id : string) (h : project_history) : project_history :=
  ProjectHistory (ph_external_id h) (ph_revisions h)
    (ph_observations h ++ [missing_observation archive_id])
    (history_missing archive_id <$> ph_instructions h).

Definition record_missing_projects (present_ids : list string) (archive_id : string)
    (m : list (string * project_history)) : list (string * project_history) :=
  bt_map (λ external_id h,
    if bool_decide (external_id ∈ present_ids) then h else project_missing archive_id h) m.

(** ** Reports *)

Definition count_available (a : asset_availability) (assets : list parsed_asset) : nat :=
  length (filter (λ x, pa_availability x = a) assets).

Definition archive_gaps (parsed : parsed_conversations) : list coverage_gap :=
  (if decide (pcs_projects parsed = []) then [ProjectRelationshipsUnobserved] else []) ++
  (if decide (pcs_canvas_documents parsed = []) then [CanvasDocumentsUnobserved] else []) ++
  (if decide (pcs_assets parsed = []) then [AssetsUnobserved] else []) ++
  (if decide (0 < count_available AssetMissing (pcs_assets parsed)) then [AssetsMissing] else []) ++
  (if decide (0 < count_available Quarantined (pcs_assets parsed)) then [AssetsQuarantined] else []).

Definition archive_report (snapshot : archive_snapshot) (warnings : list reconciliation_warning)
    (statistics : revision_statistics) : archive_completeness_report :=
  let parsed := sn_parsed snapshot in
  ArchiveCompletenessReport
    (sn_archive_id snapshot) (pcs_schema_id parsed)
    (pi_name (pcs_parser parsed) +:+ "@" +:+ pi_version (pcs_parser parsed))
    (length (pcs_conversations parsed))
    (sum_nat (length ∘ pc_messages <$> pcs_conversations parsed))
    (length (pcs_projects parsed))
    (sum_nat (length ∘ pp_instructions <$> pcs_projects parsed))
    (length (pcs_canvas_documents parsed))
    (length (pcs_assets parsed))
    (count_available Verified (pcs_assets parsed))
    (count_available AssetMissing (pcs_assets parsed))
    (count_available Quarantined (pcs_assets parsed))
    (length warnings) 0 warnings (archive_gaps parsed) statistics StructurallyPartial.

Definition cumulative_report (conversations : list conversation_history)
    (projects : list project_history) (canvas_documents assets : list history)
    (archive_reports : list archive_completeness_report) : cumulative_completeness_report :=
  CumulativeCompletenessReport
    (length conversations)
    (sum_nat (length ∘ ch_messages <$> conversations))
    (length projects) (length canvas_documents) (length assets)
    (sum_nat (length ∘ ch_revisions <$> conversations))
    (sum_nat (length ∘ h_revisions <$> (conversations ≫= ch_messages)))
    (sum_nat (length ∘ ph_revisions <$> projects))
    (sum_nat (length ∘ h_revisions <$> canvas_documents))
    (sum_nat (length ∘ h_revisions <$> assets))
    (archive_reports ≫= ar_warnings)
    (sum_nat (ar_parse_warning_count <$> archive_reports))
    (bt_keys (bset_of_list (archive_reports ≫= ar_gaps)))
    (foldl (λ s r, add_statistics s (ar_revision_statistics r)) no_statistics archive_reports)
    StructurallyPartial.

(** ** The loop *)

Record reconcile_state : Set := ReconcileState {
  st_histories : list (string * conversation_history);
  st_projects : list (string * project_history);
  st_canvas : histories;
  st_assets : histories;
  st_reports : list archive_completeness_report;
}.

(** One conversation of a snapshot. *)
Definition reconcile_conversation (archive_id : string)
    (orphaned_messages : list ((string * string) * unit))
    (st : list (string * conversation_history) * revision_statistics)
    (conversation : parsed_conversation)
    : list (string * conversation_history) * revision_statistics :=
  let '(m, statistics) := st in
  let id := pc_external_id conversation in
  let h := default (ConversationHistory id [] [] []) (bt_get id m) in
  let '(h, added) := observe_conversation h conversation archive_id orphaned_messages in
  (bt_upd id (λ _, h) m, add_statistics statistics added).

Definition conversation_missing (archive_id : string) (h : conversation_history)
    : conversation_history :=
  ConversationHistory (ch_external_id h) (ch_revisions h)
    (ch_observations h ++ [missing_observation archive_id]) (ch_messages h).

(** The second inner loop: a missing observation, counted, for every known
    identity the snapshot omits. *)
Definition record_missing_conversations (present_ids : list string) (archive_id : string)
    (m : list (string * conversation_history)) : list (string * conversation_history) * nat :=
  (bt_map (λ external_id h,
     if bool_decide (external_id ∈ present_ids) then h else conversation_missing archive_id h) m,
   length (filter (λ kv, kv.1 ∉ present_ids) m)).

(** Projects, canvas documents and assets: what is present is observed, what
    is known and absent is recorded missing. *)
Definition reconcile_additional_evidence (snapshot : archive_snapshot)
    (projects : list (string * project_history)) (canvas_documents assets : histories)
    : list (string * project_history) * histories * histories :=
  let parsed := sn_parsed snapshot in
  let archive_id := sn_archive_id snapshot in
  (record_missing_projects (pp_external_id <$> pcs_projects parsed) archive_id
     (observe_projects archive_id (pcs_projects parsed) projects),
   record_missing (pcv_external_id <$> pcs_canvas_documents parsed) archive_id
     (observe_each pcv_external_id (canvas_digest to_string sha256_hex) archive_id
       (pcs_canvas_documents parsed) canvas_documents),
   record_missing (pa_external_id <$> pcs_assets parsed) archive_id
     (observe_each pa_external_id (asset_digest to_string sha256_hex blob_json) archive_id
       (pcs_assets parsed) assets)).

Definition reconcile_snapshot (st : reconcile_state) (snapshot : archive_snapshot)
    : reconcile_state :=
  let parsed := sn_parsed snapshot in
  let archive_id := sn_archive_id snapshot in
  let graph := graph_evidence_of snapshot in
  let statistics := RevisionStatistics 0 0 (length (pcs_conversations parsed)) 0 in
  let present_ids := pc_external_id <$> pcs_conversations parsed in
  let '(m, statistics) :=
    foldl (reconcile_conversation archive_id (ge_orphaned_messages graph))
      (st_histories st, statistics) (pcs_conversations parsed) in
  let '(m, missing) := record_missing_conversations present_ids archive_id m in
  let statistics := RevisionStatistics (rs_new statistics) (rs_reused statistics)
                      (rs_present statistics) (rs_missing statistics + missing) in
  let '(projects, canvas, assets) :=
    reconcile_additional_evidence snapshot (st_projects st) (st_canvas st) (st_assets st) in
  ReconcileState m projects canvas assets
    (st_reports st ++ [archive_report snapshot (ge_warnings graph) statistics]).

Definition reconcile (snapshots : list archive_snapshot) : reconciliation_result :=
  let st := foldl reconcile_snapshot (ReconcileState [] [] [] [] []) snapshots in
  let conversations := bt_values (st_histories st) in
  let projects := bt_values (st_projects st) in
  let canvas_documents := bt_values (st_canvas st) in
  let assets := bt_values (st_assets st) in
  ReconciliationResult conversations projects canvas_documents assets (st_reports st)
    (cumulative_report conversations projects canvas_documents assets (st_reports st)).
End reconciliation.

(** ** Specification: the evidence of one identity

    What the source's comments promise of a history, with no map in sight: the
    observations of an identity are one [Present] per occurrence and, once it
    has been seen, one [MissingFromLatestSnapshot] per snapshot that omits it;
    its revisions are the distinct digests in first-seen order. *)

Definition distinct_first (l : list revision) : list revision :=
  foldl (λ revisions d, if existsb (String.eqb d) revisions then revisions else revisions ++ [d]) [] l.

(** [record_present] on a history, with the observation given. *)
Definition add_present (h : history) (digest : string) (o : observation) : history :=
  History (h_external_id h)
    (if existsb (String.eqb digest) (h_revisions h) then h_revisions h
     else h_revisions h ++ [digest])
    (h_observations h ++ [o]).

Definition present_observation (orphaned : bool) (archive_id digest : string) : observation :=
  Observation archive_id Present (Some digest) orphaned.

Lemma history_present_add h a d o :
  (history_present h a d o).1 = add_present h d (present_observation o a d).
Proof. unfold history_present, record_present, add_present. by destruct (existsb _ _). Qed.

Section chain.
  (** The evidence items of a snapshot with the observation each one makes,
      and a history type with a view. *)
  Context {A H : Type} (id_of digest_of : A → string) (present_of : string → A → observation).
  Context (fresh : string → H) (observe : string → A → H → H) (missing : string → H → H).
  Context (view : H → history).

Definition here (id : string) (items : list A) : list A := filter (λ x, id_of x = id) items.

Fixpoint spec_observations (id : string) (seen : bool) (snaps : list (string * list A))
    : list observation :=
  match snaps with
  | [] => []
  | (a, items) :: rest =>
      match here id items with
      | [] => (if seen then [missing_observation a] else []) ++ spec_observations id seen rest
      | xs => (present_of a <$> xs) ++ spec_observations id true rest
      end
  end.

Definition occurrences (id : string) (snaps : list (string * list A)) : list A :=
  snaps ≫= λ s, here id s.2.

Definition spec_history (id : string) (snaps : list (string * list A)) : option history :=
  match occurrences id snaps with
  | [] => None
  | xs => Some (History id (distinct_first (digest_of <$> xs)) (spec_observations id false snaps))
  end.

(** The loop the reconciler runs for one kind of evidence. *)
Definition chain_items (a : string) (m : list (string * H)) (items : list A) : list (string * H) :=
  foldl (λ m x, bt_upd (id_of x) (λ h, observe a x (default (fresh (id_of x)) h)) m) m items.

Definition chain_step (m : list (string * H)) (s : string * list A) : list (string * H) :=
  bt_map (λ id h, if bool_decide (id ∈ id_of <$> s.2) then h else missing s.1 h)
    (chain_items s.1 m s.2).

Definition chain (snaps : list (string * list A)) : list (string * H) := foldl chain_step [] snaps.

(** What the three operations do to the view. *)
Context (view_fresh : ∀ id, view (fresh id) = History id [] []).
Context (view_observe : ∀ a x h,
  view (observe a x h) = add_present (view h) (digest_of x) (present_of a x)).
Context (view_missing : ∀ a h, view (missing a h) = history_missing a (view h)).

Lemma spec_observations_snoc id a items : ∀ seen snaps,
  spec_observations id seen (snaps ++ [(a, items)]) =
  spec_observations id seen snaps ++
    match here id items with
    | [] => if seen || negb (bool_decide (occurrences id snaps = [])) then [missing_observation a] else []
    | xs => present_of a <$> xs
    end.
Proof.
  intros seen snaps. revert seen. induction snaps as [|[b its] snaps IH]; intros seen; simpl.
  { destruct (here id items); [|by rewrite app_nil_r].
    by destruct seen. }
  unfold occurrences. simpl. fold (occurrences id snaps).
  destruct (here id its) as [|y ys] eqn:E; simpl; rewrite IH; simpl; rewrite <-?app_assoc; [done|].
  by destruct seen.
Qed.

Lemma occurrences_snoc id snaps a items :
  occurrences id (snaps ++ [(a, items)]) = occurrences id snaps ++ here id items.
Proof. unfold occurrences. rewrite bind_app. simpl. by rewrite app_nil_r. Qed.

Lemma distinct_first_snoc l d :
  distinct_first (l ++ [d]) =
    if existsb (String.eqb d) (distinct_first l) then distinct_first l else distinct_first l ++ [d].
Proof. unfold distinct_first. by rewrite foldl_app. Qed.

(** The view after observing the occurrences of one snapshot. *)
Definition observed (a : string) (h : history) (xs : list A) : history :=
  foldl (λ h x, add_present h (digest_of x) (present_of a x)) h xs.

Lemma observed_spec a xs : ∀ id ds obs,
  observed a (History id (distinct_first ds) obs) xs =
  History id (distinct_first (ds ++ (digest_of <$> xs))) (obs ++ (present_of a <$> xs)).
Proof.
  induction xs as [|x xs IH]; intros id ds obs; simpl; [by rewrite !app_nil_r|].
  unfold add_present. simpl. rewrite <-distinct_first_snoc.
  fold (observed a). rewrite IH, <-!app_assoc. done.
Qed.

Lemma observed_id a xs : ∀ h, h_external_id (observed a h xs) = h_external_id h.
Proof. induction xs as [|x xs IH]; intros h; [done|]. exact (IH _). Qed.

Lemma chain_items_wf a items : ∀ m, bt_wf m → bt_wf (chain_items a m items).
Proof. unfold chain_items. induction items as [|x items IH]; intros m Hm; simpl; [done|].
  apply IH. by apply bt_upd_wf. Qed.

Lemma chain_wf snaps : bt_wf (chain snaps).
Proof.
  unfold chain. induction snaps as [|[a items] snaps IH] using rev_ind; [constructor|].
  rewrite foldl_app. simpl. by apply bt_map_wf, chain_items_wf.
Qed.

Lemma chain_items_view id a items : ∀ m, bt_wf m →
  view <$> bt_get id (chain_items a m items) =
  match here id items with
  | [] => view <$> bt_get id m
  | xs => Some (observed a (default (History id [] []) (view <$> bt_get id m)) xs)
  end.
Proof.
  unfold chain_items, here. induction items as [|x items IH]; intros m Hm; simpl; [done|].
  rewrite IH by by apply bt_upd_wf. rewrite filter_cons. case_decide as Hx.
  - subst id. rewrite bt_get_upd_eq by done. simpl.
    assert (E : view (observe a x (default (fresh (id_of x)) (bt_get (id_of x) m))) =
      add_present (default (History (id_of x) [] []) (view <$> bt_get (id_of x) m))
         (digest_of x) (present_of a x)).
    { rewrite view_observe. destruct (bt_get (id_of x) m); simpl; [done|]. by rewrite view_fresh. }
    rewrite E. by destruct (filter _ items).
  - rewrite bt_get_upd_ne by done. done.
Qed.

Lemma here_ids id items : here id items = [] ↔ id ∉ id_of <$> items.
Proof.
  unfold here. split.
  - intros E (x & -> & Hx)%list_elem_of_fmap.
    assert (x ∈ filter (λ y, id_of y = id_of x) items) as Hin
      by by apply list_elem_of_filter.
    rewrite E in Hin. by apply elem_of_nil in Hin.
  - intros Hn. apply filter_none, Forall_forall. intros x Hx <-. apply Hn.
    apply list_elem_of_fmap. eauto.
Qed.

#[local] Arguments observed : simpl never.

(** The loop computes the specified history of every identity. *)
Lemma chain_refines id snaps : view <$> bt_get id (chain snaps) = spec_history id snaps.
Proof.
  unfold chain. induction snaps as [|[a items] snaps IH] using rev_ind; [done|].
  rewrite foldl_app. fold (chain snaps) in IH |- *. simpl. unfold chain_step. simpl.
  rewrite bt_get_map.
  pose proof (chain_items_view id a items (chain snaps) (chain_wf snaps)) as Hi.
  rewrite IH in Hi. unfold spec_history in *.
  rewrite occurrences_snoc, spec_observations_snoc. simpl.
  destruct (here id items) as [|x xs] eqn:Eh.
  - apply here_ids in Eh. rewrite (bool_decide_eq_false_2 _ Eh), app_nil_r.
    destruct (bt_get id (chain_items a (chain snaps) items)) as [h|]; simpl in *;
      destruct (occurrences id snaps) as [|y ys] eqn:Eo; try done.
    injection Hi as Hi. rewrite view_missing, Hi. done.
  - rewrite bool_decide_eq_true_2; cycle 1.
    { apply dec_stable. rewrite <-here_ids, Eh. done. }
    destruct (bt_get id (chain_items a (chain snaps) items)) as [h|]; simpl in *; [|done].
    injection Hi as Hi. rewrite Hi.
    destruct (occurrences id snaps) as [|y ys] eqn:Eo; simpl.
    + rewrite (observed_spec a (x :: xs) id [] [] : observed a (History id [] []) (x :: xs) = _). simpl.
      destruct snaps as [|s snaps]; [done|].
      assert (spec_observations id false (s :: snaps) = []) as ->; [|done].
      clear -Eo. revert Eo. generalize (s :: snaps) as l. induction l as [|[b its] l IHl]; simpl; [done|].
      unfold occurrences. simpl. intros [E1 E2]%app_eq_nil. rewrite E1. by apply IHl.
    + pose proof (observed_spec a (x :: xs) id (digest_of <$> y :: ys)
        (spec_observations id false snaps)) as Ho.
      simpl in Ho. rewrite Ho. simpl. by rewrite fmap_app.
Qed.

(** The same loop for one identity, without the map. *)
Definition run_step (id : string) (o : option H) (s : string * list A) : option H :=
  match here id s.2 with
  | [] => missing s.1 <$> o
  | xs => Some (foldl (λ h x, observe s.1 x h) (default (fresh id) o) xs)
  end.

Lemma chain_items_run id a items : ∀ m, bt_wf m →
  bt_get id (chain_items a m items) =
  match here id items with
  | [] => bt_get id m
  | xs => Some (foldl (λ h x, observe a x h) (default (fresh id) (bt_get id m)) xs)
  end.
Proof.
  unfold chain_items, here. induction items as [|x items IH]; intros m Hm; simpl; [done|].
  rewrite IH by by apply bt_upd_wf. rewrite filter_cons. case_decide as Hx.
  - subst id. rewrite bt_get_upd_eq by done. by destruct (filter _ items).
  - by rewrite bt_get_upd_ne by done.
Qed.

Lemma chain_run id snaps : bt_get id (chain snaps) = foldl (run_step id) None snaps.
Proof.
  unfold chain. induction snaps as [|[a items] snaps IH] using rev_ind; [done|].
  rewrite !foldl_app. simpl. rewrite <-IH. fold (chain snaps). unfold chain_step, run_step. simpl.
  rewrite bt_get_map, chain_items_run by apply chain_wf.
  destruct (here id items) as [|x xs] eqn:Eh.
  - apply here_ids in Eh. by rewrite (bool_decide_eq_false_2 _ Eh).
  - rewrite bool_decide_eq_true_2; [done|]. apply dec_stable. by rewrite <-here_ids, Eh.
Qed.

(** *** The whole list of histories *)

Definition known_ids (snaps : list (string * list A)) : list string :=
  bt_keys (bset_of_list (snaps ≫= λ s, id_of <$> s.2)).

(** One history per identity ever present, in the order of the identities. *)
Definition spec_histories (snaps : list (string * list A)) : list history :=
  omap (λ id, spec_history id snaps) (known_ids snaps).

Lemma spec_history_known id snaps :
  is_Some (spec_history id snaps) ↔ id ∈ snaps ≫= λ s, id_of <$> s.2.
Proof.
  assert (E : occurrences id snaps = [] ↔ id ∉ snaps ≫= λ s, id_of <$> s.2).
  { unfold occurrences. induction snaps as [|s snaps IH]; simpl.
    - split; [by intros _ ?%elem_of_nil|done].
    - rewrite app_nil, here_ids, IH, elem_of_app. tauto. }
  unfold spec_history. destruct (occurrences id snaps) as [|x xs] eqn:Eo.
  - split; [by intros [? [=]]|]. intros Hin. by apply E in Hin.
  - split; [|eauto]. intros _. apply dec_stable. intros Hn%E. done.
Qed.

Lemma spec_histories_elem h snaps :
  h ∈ spec_histories snaps ↔ spec_history (h_external_id h) snaps = Some h.
Proof.
  unfold spec_histories. rewrite list_elem_of_omap. split.
  - intros (k & _ & Hk). pose proof Hk as Hk'. unfold spec_history in Hk'.
    destruct (occurrences k snaps); [done|]. injection Hk' as <-. done.
  - intros Hh. exists (h_external_id h). split; [|done].
    unfold known_ids. rewrite bt_keys_get by apply bt_of_list_wf.
    unfold bset_of_list. rewrite bt_of_list_keys, <-list_fmap_compose.
    change (fst ∘ (., tt)) with (@Datatypes.id string).
    rewrite list_fmap_id, <-spec_history_known. eauto.
Qed.

(** *** Appending snapshots *)

(** [h'] has everything [h] has, in the same order, and possibly more. *)
Definition extends (h h' : history) : Prop :=
  h_external_id h' = h_external_id h ∧
  h_revisions h `prefix_of` h_revisions h' ∧ h_observations h `prefix_of` h_observations h'.

Lemma distinct_first_prefix l k : distinct_first l `prefix_of` distinct_first (l ++ k).
Proof.
  induction k as [|d k IH] using rev_ind; [by rewrite app_nil_r|].
  rewrite app_assoc, distinct_first_snoc. case_match; [done|]. by apply prefix_app_r.
Qed.

Lemma spec_observations_prefix id snaps snaps' :
  spec_observations id false snaps `prefix_of` spec_observations id false (snaps ++ snaps').
Proof.
  induction snaps' as [|[a items] snaps' IH] using rev_ind; [by rewrite app_nil_r|].
  rewrite app_assoc, spec_observations_snoc. by apply prefix_app_r.
Qed.

Lemma spec_history_extends id snaps snaps' h :
  spec_history id snaps = Some h →
  ∃ h', spec_history id (snaps ++ snaps') = Some h' ∧ extends h h'.
Proof.
  unfold spec_history. unfold occurrences at 2. rewrite bind_app.
  fold (occurrences id snaps) (occurrences id snaps').
  destruct (occurrences id snaps) as [|x xs] eqn:E; [done|]. intros [= <-].
  eexists. split; [reflexivity|]. split_and!; [done| |apply spec_observations_prefix].
  pose proof (distinct_first_prefix (digest_of <$> x :: xs)
    (digest_of <$> occurrences id snaps')) as Hp.
  rewrite <-fmap_app in Hp. exact Hp.
Qed.

Lemma spec_histories_extends snaps snaps' h :
  h ∈ spec_histories snaps → ∃ h', h' ∈ spec_histories (snaps ++ snaps') ∧ extends h h'.
Proof.
  rewrite spec_histories_elem. intros (h' & Hh' & He)%(spec_history_extends _ _ snaps').
  exists h'. split; [|done]. apply spec_histories_elem. by rewrite (proj1 He).
Qed.

(** *** What holds of every specified history *)

Lemma distinct_first_spec l : NoDup (distinct_first l) ∧ ∀ d, d ∈ distinct_first l ↔ d ∈ l.
Proof.
  induction l as [|d l [IHn IHe]] using rev_ind.
  { split; [constructor|]. done. }
  rewrite distinct_first_snoc.
  assert (Hin : existsb (String.eqb d) (distinct_first l) = true ↔ d ∈ distinct_first l).
  { rewrite existsb_exists. setoid_rewrite list_elem_of_In. setoid_rewrite String.eqb_eq.
    naive_solver. }
  destruct (existsb _ _) eqn:E.
  - split; [done|]. intros x. rewrite elem_of_app, list_elem_of_singleton, IHe.
    split; [by left|]. intros [?| ->]; [done|]. apply IHe. by apply Hin.
  - split.
    + rewrite NoDup_app. split_and!; [done| |apply NoDup_singleton].
      intros x Hx ->%list_elem_of_singleton. by apply Hin in Hx.
    + intros x. by rewrite !elem_of_app, IHe.
Qed.

(** Present observations reference revisions, each once kept, and every
    revision was observed. *)
Definition well_evidenced (h : history) : Prop :=
  NoDup (h_revisions h) ∧
  (∀ o, o ∈ h_observations h →
     match ob_state o with
     | Present => ∃ d, ob_revision_digest o = Some d ∧ d ∈ h_revisions h
     | MissingFromLatestSnapshot => ob_revision_digest o = None
     end) ∧
  (∀ d, d ∈ h_revisions h →
     ∃ o, o ∈ h_observations h ∧ ob_state o = Present ∧ ob_revision_digest o = Some d).

Context (present_present : ∀ a x,
  ob_state (present_of a x) = Present ∧ ob_revision_digest (present_of a x) = Some (digest_of x)).

Lemma spec_observations_elem id snaps : ∀ seen o,
  o ∈ spec_observations id seen snaps →
  (∃ a, o = missing_observation a) ∨
  (∃ a x, x ∈ occurrences id snaps ∧ o = present_of a x).
Proof.
  induction snaps as [|[a items] snaps IH]; intros seen o; simpl; [by intros ?%elem_of_nil|].
  unfold occurrences in *. simpl. intros Ho.
  assert (K : o ∈ spec_observations id false snaps ∨ o ∈ spec_observations id true snaps ∨
    o = missing_observation a ∨ ∃ x, x ∈ here id items ∧ o = present_of a x).
  { destruct (here id items) as [|x xs].
    { destruct seen; [|by left]. apply elem_of_cons in Ho as [->|Ho]; auto. }
    change (o ∈ (present_of a <$> x :: xs) ++ spec_observations id true snaps) in Ho.
    apply elem_of_app in Ho as [Ho|Ho].
    - apply list_elem_of_fmap in Ho as (y & -> & Hy). eauto 6.
    - auto. }
  destruct K as [K%IH|[K%IH|[->|(x & Hx & ->)]]].
  - destruct K as [?|(b & x & Hx & ->)]; [by left|right]. exists b, x. by rewrite elem_of_app; auto.
  - destruct K as [?|(b & x & Hx & ->)]; [by left|right]. exists b, x. by rewrite elem_of_app; auto.
  - left. by exists a.
  - right. exists a, x. by rewrite elem_of_app; auto.
Qed.

Lemma spec_observations_occurrence id snaps x : ∀ seen,
  x ∈ occurrences id snaps → ∃ a, present_of a x ∈ spec_observations id seen snaps.
Proof.
  unfold occurrences. induction snaps as [|[a items] snaps IH]; intros seen; simpl;
    [by intros ?%elem_of_nil|].
  rewrite elem_of_app. intros [Hx|Hx].
  - exists a. destruct (here id items) as [|y ys]; [by apply elem_of_nil in Hx|].
    change (present_of a x ∈ (present_of a <$> y :: ys) ++ spec_observations id true snaps).
    apply elem_of_app. left. apply list_elem_of_fmap. eauto.
  - destruct (here id items) as [|y ys].
    + destruct (IH seen Hx) as [b Hb]. exists b. apply elem_of_app. by right.
    + destruct (IH true Hx) as [b Hb]. exists b.
      change (present_of b x ∈ (present_of a <$> y :: ys) ++ spec_observations id true snaps).
      apply elem_of_app. by right.
Qed.

Lemma spec_history_evidenced id snaps h : spec_history id snaps = Some h → well_evidenced h.
Proof using present_present.
  unfold spec_history. destruct (occurrences id snaps) as [|x xs] eqn:E; [done|]. intros [= <-].
  rewrite <-fmap_cons, <-E. destruct (distinct_first_spec (digest_of <$> occurrences id snaps))
    as [Hnd Hin].
  split_and!; simpl; [done| |].
  - intros o [[a ->]|(a & y & Hy & ->)]%spec_observations_elem; simpl; [done|].
    destruct (present_present a y) as [-> ->]. eexists. split; [done|].
    apply Hin, list_elem_of_fmap. eauto.
  - intros d Hd%Hin. apply list_elem_of_fmap in Hd as (y & -> & Hy).
    destruct (spec_observations_occurrence id snaps y false Hy) as [a Ha].
    exists (present_of a y). destruct (present_present a y). done.
Qed.

Lemma chain_keys snaps : bt_keys (chain snaps) = known_ids snaps.
Proof.
  apply strictly_sorted_ext; [apply bt_keys_sorted, chain_wf|apply bt_keys_sorted, bt_of_list_wf|].
  intros id. unfold known_ids. rewrite !bt_keys_get by (apply chain_wf || apply bt_of_list_wf).
  unfold bset_of_list. rewrite bt_of_list_keys, <-list_fmap_compose.
  change (fst ∘ (., tt)) with (@Datatypes.id string). rewrite list_fmap_id, <-spec_history_known.
  rewrite <-chain_refines. by rewrite fmap_is_Some.
Qed.

Lemma chain_values snaps : view <$> bt_values (chain snaps) = spec_histories snaps.
Proof.
  rewrite bt_values_keys by apply chain_wf. unfold spec_histories. rewrite <-chain_keys.
  generalize (bt_keys (chain snaps)) as l. induction l as [|k l IH]; [done|]. csimpl.
  rewrite <-chain_refines. destruct (bt_get k (chain snaps)); csimpl; by rewrite IH.
Qed.
End chain.

(** ** The reconciler runs the chain for every kind of evidence *)

Section reconcile_laws.
  Context (to_string : json → string) (sha256_hex : string → string).
  Context (blob_json : blob_ref → json).
  #[local] Abbreviation reconcile := (Reconciliation.reconcile to_string sha256_hex blob_json).
  #[local] Abbreviation reconcile_snapshot :=
    (Reconciliation.reconcile_snapshot to_string sha256_hex blob_json).
  #[local] Abbreviation conv_digest := (conversation_digest to_string sha256_hex).
  #[local] Abbreviation msg_digest := (message_digest to_string sha256_hex).

Definition start : reconcile_state := ReconcileState [] [] [] [] [].

Definition conversation_view (h : conversation_history) : history :=
  History (ch_external_id h) (ch_revisions h) (ch_observations h).
Definition project_view (h : project_history) : history :=
  History (ph_external_id h) (ph_revisions h) (ph_observations h).

(** The evidence items of each kind in a snapshot; a conversation comes with
    the orphaned messages of its snapshot. *)
Definition conversation_items (s : archive_snapshot)
    : string * list (parsed_conversation * list ((string * string) * unit)) :=
  (sn_archive_id s,
   (., ge_orphaned_messages (graph_evidence_of s)) <$> pcs_conversations (sn_parsed s)).
Definition project_items (s : archive_snapshot) : string * list parsed_project :=
  (sn_archive_id s, pcs_projects (sn_parsed s)).
Definition canvas_items (s : archive_snapshot) : string * list parsed_canvas_document :=
  (sn_archive_id s, pcs_canvas_documents (sn_parsed s)).
Definition asset_items (s : archive_snapshot) : string * list parsed_asset :=
  (sn_archive_id s, pcs_assets (sn_parsed s)).

(** The observation an item of a kind without orphans makes. *)
Definition simple_present {A} (digest_of : A → string) (archive_id : string) (x : A) : observation :=
  present_observation false archive_id (digest_of x).

(** The specification of a kind of evidence. *)
Definition kind_spec {A} (id_of digest_of : A → string) (snaps : list (string * list A))
    : list history :=
  spec_histories id_of digest_of (simple_present digest_of) snaps.

#[local] Abbreviation fresh_history := (λ id, History id [] []).
#[local] Abbreviation simple_observe digest_of :=
  (λ a x h, (history_present h a (digest_of x) false).1).

#[local] Abbreviation conversation_chain :=
  (chain (pc_external_id ∘ fst) (λ id, ConversationHistory id [] [] [])
     (λ a x h, (observe_conversation to_string sha256_hex h x.1 a x.2).1) conversation_missing).
#[local] Abbreviation project_chain :=
  (chain pp_external_id (λ id, ProjectHistory id [] [] [])
     (λ a x h, observe_project to_string sha256_hex a x h) project_missing).
#[local] Abbreviation simple_chain id_of digest_of :=
  (chain id_of fresh_history (simple_observe digest_of) history_missing).

Lemma reconcile_conversations_fst a orph cs : ∀ m st, bt_wf m →
  (foldl (reconcile_conversation to_string sha256_hex a orph) (m, st) cs).1 =
  chain_items (pc_external_id ∘ fst) (λ id, ConversationHistory id [] [] [])
    (λ a x h, (observe_conversation to_string sha256_hex h x.1 a x.2).1) a m ((., orph) <$> cs).
Proof.
  induction cs as [|c cs IH]; intros m st Hm; [done|]. csimpl.
  destruct (observe_conversation _ _ _ c a orph) as [h added] eqn:E.
  rewrite IH by by apply bt_upd_wf. unfold chain_items. csimpl. f_equal.
  rewrite <-(bt_upd_const (pc_external_id c) (λ h, (observe_conversation to_string sha256_hex
    (default (ConversationHistory (pc_external_id c) [] [] []) h) c a orph).1) m Hm).
  by rewrite E.
Qed.

Lemma reconcile_state_chains snaps :
  let st := foldl reconcile_snapshot start snaps in
  st_histories st = conversation_chain (conversation_items <$> snaps) ∧
  st_projects st = project_chain (project_items <$> snaps) ∧
  st_canvas st = simple_chain pcv_external_id (canvas_digest to_string sha256_hex)
                   (canvas_items <$> snaps) ∧
  st_assets st = simple_chain pa_external_id (asset_digest to_string sha256_hex blob_json)
                   (asset_items <$> snaps).
Proof.
  unfold chain. induction snaps as [|s snaps (Hh & Hp & Hc & Ha)] using rev_ind; [done|].
  rewrite !foldl_app, !fmap_app, !foldl_app. cbn [foldl fmap list_fmap].
  set (st := foldl reconcile_snapshot start snaps) in *.
  assert (Hwf : bt_wf (st_histories st)) by (rewrite Hh; apply chain_wf).
  rewrite <-Hp, <-Hc, <-Ha, <-Hh. unfold Reconciliation.reconcile_snapshot, reconcile_additional_evidence.
  destruct (foldl (reconcile_conversation _ _ _ _) _ _) as [m st1] eqn:E.
  cbn [record_missing_conversations st_histories st_projects st_canvas st_assets].
  split_and!; [|reflexivity..]. unfold chain_step. cbn [fst snd conversation_items].
  rewrite <-(reconcile_conversations_fst _ _ _ _ (RevisionStatistics 0 0
    (length (pcs_conversations (sn_parsed s))) 0)) by done.
  rewrite E. unfold bt_map. apply list_fmap_ext. intros i [id h] _. simpl.
  by rewrite <-list_fmap_compose.
Qed.

Lemma conversation_view_observe a x h :
  conversation_view (observe_conversation to_string sha256_hex h x.1 a x.2).1 =
  add_present (conversation_view h) ((conv_digest ∘ fst) x) (simple_present (conv_digest ∘ fst) a x).
Proof.
  unfold simple_present. rewrite <-history_present_add. unfold observe_conversation. simpl.
  by destruct (foldl _ _ _) as [ms st].
Qed.

Lemma project_view_observe a x h :
  project_view (observe_project to_string sha256_hex a x h) =
  add_present (project_view h) (project_digest to_string sha256_hex x)
    (simple_present (project_digest to_string sha256_hex) a x).
Proof. unfold simple_present. by rewrite <-history_present_add. Qed.

(** *** Message histories *)

(** One occurrence of a message: its archive, the message, and whether its
    snapshot found it orphaned. *)
#[local] Abbreviation message_event := (string * parsed_message * bool)%type.

Definition event_id (e : message_event) : string := pm_external_id e.1.2.
Definition event_digest (e : message_event) : string := msg_digest e.1.2.
Definition event_present (a : string) (e : message_event) : observation :=
  present_observation e.2 e.1.1 (event_digest e).

Definition events_of (a : string) (x : parsed_conversation * list ((string * string) * unit))
    : list message_event :=
  (λ m, (a, m, bt_mem (pc_external_id x.1, pm_external_id m) x.2)) <$> pc_messages x.1.

Definition conversation_events (id : string)
    (snaps : list (string * list (parsed_conversation * list ((string * string) * unit))))
    : list message_event :=
  snaps ≫= λ s, here (pc_external_id ∘ fst) id s.2 ≫= events_of s.1.

(** The histories of a conversation's messages: one per message id, with an
    observation per occurrence and no missing ones. *)
Definition spec_messages (events : list message_event) : list history :=
  spec_histories event_id event_digest event_present [("", events)].

Definition message_chain (events : list message_event) : list (string * history) :=
  chain_items event_id fresh_history
    (λ a e h, add_present h (event_digest e) (event_present a e)) "" [] events.

Lemma message_chain_wf events : bt_wf (message_chain events).
Proof. apply chain_items_wf. constructor. Qed.

Lemma message_chain_snoc events e :
  message_chain (events ++ [e]) =
  bt_upd (event_id e) (λ _, add_present
    (default (History (event_id e) [] []) (bt_get (event_id e) (message_chain events)))
    (event_digest e) (event_present "" e)) (message_chain events).
Proof.
  unfold message_chain at 1, chain_items. rewrite foldl_app. cbn [foldl]. symmetry.
  apply (bt_upd_const (event_id e) (λ h, add_present (default (History (event_id e) [] []) h) _ _)).
  apply message_chain_wf.
Qed.

Lemma message_chain_values events : bt_values (message_chain events) = spec_messages events.
Proof.
  unfold spec_messages. rewrite <-(chain_values event_id event_digest event_present fresh_history
    (λ a e h, add_present h (event_digest e) (event_present a e)) history_missing (λ h, h)
    (λ _, eq_refl) (λ _ _ _, eq_refl) (λ _ _, eq_refl)), list_fmap_id.
  f_equal. apply bt_ext; [apply message_chain_wf|apply chain_wf|]. intros k.
  unfold chain. simpl. unfold chain_step. simpl. fold (message_chain events).
  rewrite bt_get_map. case_bool_decide as Hk; [by destruct (bt_get k _)|].
  unfold message_chain. rewrite chain_items_run by constructor.
  by rewrite (proj2 (here_ids _ _ _) Hk).
Qed.

Lemma message_chain_keys events k h :
  (k, h) ∈ message_chain events → h_external_id h = k.
Proof.
  intros Hin%bt_get_elem; [|apply message_chain_wf].
  pose proof (chain_items_view event_id event_digest event_present fresh_history
    (λ a e h, add_present h (event_digest e) (event_present a e)) (λ h, h)
    (λ _, eq_refl) (λ _ _ _, eq_refl) k "" events [] ltac:(constructor)) as Hv.
  unfold message_chain in Hin. rewrite Hin in Hv. simpl in Hv.
  destruct (here event_id k events) as [|e es]; [done|]. injection Hv as ->.
  by rewrite observed_id.
Qed.

Lemma by_external_id_chain events :
  by_external_id (bt_values (message_chain events)) = message_chain events.
Proof.
  unfold by_external_id, bt_values. rewrite <-list_fmap_compose.
  rewrite <-(bt_of_list_id (message_chain events)) at 2 by apply message_chain_wf.
  f_equal. rewrite <-(list_fmap_id (message_chain events)) at 2.
  apply list_fmap_ext. intros i [k h] Hi. simpl. f_equal.
  apply (message_chain_keys events). by apply list_elem_of_lookup_2 in Hi.
Qed.

Lemma observe_messages_fst c a orph ms : ∀ events st,
  (foldl (observe_message to_string sha256_hex c a orph) (message_chain events, st) ms).1 =
  message_chain (events ++
    ((λ m, (a, m, bt_mem (pc_external_id c, pm_external_id m) orph)) <$> ms)).
Proof.
  induction ms as [|m ms IH]; intros events st; [by rewrite app_nil_r|].
  rewrite fmap_cons, cons_middle, app_assoc. cbn [foldl].
  destruct (observe_message _ _ c a orph (message_chain events, st) m) as [m' st'] eqn:E.
  assert (m' = message_chain (events ++
    [(a, m, bt_mem (pc_external_id c, pm_external_id m) orph)])) as ->; [|apply IH].
  rewrite message_chain_snoc. unfold event_present, event_digest, event_id. cbn [fst snd].
  rewrite <-history_present_add. unfold observe_message in E.
  match type of E with context [history_present ?x ?y ?z ?w] =>
    destruct (history_present x y z w) as [h created] eqn:E' end.
  by injection E as <- _.
Qed.

Lemma observe_conversation_messages h a x events :
  ch_messages h = bt_values (message_chain events) →
  ch_messages (observe_conversation to_string sha256_hex h x.1 a x.2).1 =
  bt_values (message_chain (events ++ events_of a x)).
Proof.
  intros Hm. unfold observe_conversation, events_of. simpl.
  rewrite Hm, by_external_id_chain.
  pose proof (observe_messages_fst x.1 a x.2 (pc_messages x.1) events
    (RevisionStatistics (if negb (existsb (String.eqb (conv_digest x.1)) (ch_revisions h))
                         then 1 else 0) 0 0 0)) as Hf.
  destruct (foldl _ _ _) as [ms st]. simpl in *. by rewrite Hf.
Qed.

Lemma run_messages id snaps :
  ch_messages (default (ConversationHistory id [] [] [])
    (foldl (run_step (pc_external_id ∘ fst) (λ id, ConversationHistory id [] [] [])
       (λ a x h, (observe_conversation to_string sha256_hex h x.1 a x.2).1)
       conversation_missing id) None snaps)) =
  bt_values (message_chain (conversation_events id snaps)).
Proof.
  induction snaps as [|[a items] snaps IH] using rev_ind; [done|].
  rewrite foldl_app. unfold conversation_events in *. rewrite bind_app. simpl. rewrite app_nil_r.
  set (o := foldl _ _ _) in *. unfold run_step. simpl.
  destruct (here _ id items) as [|x xs] eqn:Eh; simpl.
  { rewrite app_nil_r. by destruct o. }
  clear Eh. set (h := default _ o) in *. clearbody h.
  set (events := snaps ≫= _) in *. clearbody events.
  set (obs := observe_conversation _ _ _ _ _ _).
  pose proof (observe_conversation_messages h a x events IH) as Hx. fold obs in Hx.
  rewrite app_assoc. revert Hx. generalize obs.1 (events ++ events_of a x). clear.
  intros h events. revert h events. induction xs as [|y ys IHl]; intros h events Hh; simpl.
  { by rewrite app_nil_r. }
  rewrite app_assoc. apply IHl. by apply observe_conversation_messages.
Qed.

Lemma conversation_chain_view id snaps :
  conversation_view <$> bt_get id (conversation_chain snaps) =
  spec_history (pc_external_id ∘ fst) (conv_digest ∘ fst) (simple_present (conv_digest ∘ fst))
    id snaps.
Proof. apply chain_refines; [done|exact conversation_view_observe|done]. Qed.

(** The result lists, through the specification. *)
Lemma conversations_spec snaps :
  conversation_view <$> rr_conversations (reconcile snaps) =
  kind_spec (pc_external_id ∘ fst) (conv_digest ∘ fst) (conversation_items <$> snaps).
Proof.
  destruct (reconcile_state_chains snaps) as (Hh & _). unfold Reconciliation.reconcile. fold start.
  simpl. rewrite Hh. apply chain_values; [done|exact conversation_view_observe|done].
Qed.

Lemma projects_spec snaps :
  project_view <$> rr_projects (reconcile snaps) =
  kind_spec pp_external_id (project_digest to_string sha256_hex) (project_items <$> snaps).
Proof.
  destruct (reconcile_state_chains snaps) as (_ & Hp & _). unfold Reconciliation.reconcile. fold start.
  simpl. rewrite Hp. apply chain_values; [done|exact project_view_observe|done].
Qed.

Lemma simple_chain_values {A} (id_of digest_of : A → string) snaps :
  bt_values (simple_chain id_of digest_of snaps) = kind_spec id_of digest_of snaps.
Proof.
  rewrite <-(list_fmap_id (bt_values _)) at 1. apply chain_values; [done| |done].
  intros a x h. apply history_present_add.
Qed.

Lemma canvas_spec snaps :
  rr_canvas_documents (reconcile snaps) =
  kind_spec pcv_external_id (canvas_digest to_string sha256_hex) (canvas_items <$> snaps).
Proof.
  destruct (reconcile_state_chains snaps) as (_ & _ & Hc & _). unfold Reconciliation.reconcile.
  fold start. simpl. rewrite Hc. apply simple_chain_values.
Qed.

Lemma assets_spec snaps :
  rr_assets (reconcile snaps) =
  kind_spec pa_external_id (asset_digest to_string sha256_hex blob_json) (asset_items <$> snaps).
Proof.
  destruct (reconcile_state_chains snaps) as (_ & _ & _ & Ha). unfold Reconciliation.reconcile.
  fold start. simpl. rewrite Ha. apply simple_chain_values.
Qed.

Lemma conversation_messages_spec snaps h :
  h ∈ rr_conversations (reconcile snaps) →
  ch_messages h =
    spec_messages (conversation_events (ch_external_id h) (conversation_items <$> snaps)).
Proof.
  destruct (reconcile_state_chains snaps) as (Hh & _ & _ & _).
  unfold Reconciliation.reconcile. fold start. simpl. rewrite Hh.
  intros [id Hid]%bt_values_get; [|apply chain_wf].
  pose proof (conversation_chain_view id (conversation_items <$> snaps)) as Hv.
  rewrite Hid in Hv. simpl in Hv. unfold spec_history in Hv.
  destruct (occurrences _ _ _) as [|x xs]; [done|]. injection Hv as -> _ _.
  rewrite <-message_chain_values, <-run_messages.
  by rewrite <-chain_run, Hid.
Qed.

(** ** Properties *)

(** C38. Refinement: for every sequence of snapshots the reconciler's four
    families of histories are exactly the specified ones, in the order of the
    identities - one history per identity ever present, its revisions the
    distinct digests in first-seen order, its observations one [Present] per
    occurrence and one [MissingFromLatestSnapshot] per later snapshot that
    omits it. *)
Theorem reconcile_refines_spec (snaps : list archive_snapshot) :
  let r := reconcile snaps in
  conversation_view <$> rr_conversations r =
    kind_spec (pc_external_id ∘ fst) (conv_digest ∘ fst) (conversation_items <$> snaps) ∧
  project_view <$> rr_projects r =
    kind_spec pp_external_id (project_digest to_string sha256_hex) (project_items <$> snaps) ∧
  rr_canvas_documents r =
    kind_spec pcv_external_id (canvas_digest to_string sha256_hex) (canvas_items <$> snaps) ∧
  rr_assets r =
    kind_spec pa_external_id (asset_digest to_string sha256_hex blob_json) (asset_items <$> snaps).
Proof.
  split_and!; [apply conversations_spec|apply projects_spec|apply canvas_spec|apply assets_spec].
Qed.

(** C39. Message histories: inside every conversation history, the messages
    are exactly one history per message id that ever occurred in that
    conversation, in the order of the ids, with one [Present] observation per
    occurrence carrying the orphan flag its snapshot computed, the distinct
    message digests as revisions, and no missing observations. *)
Theorem message_histories_refine_spec (snaps : list archive_snapshot) (h : conversation_history) :
  h ∈ rr_conversations (reconcile snaps) →
  ch_messages h =
    spec_messages (conversation_events (ch_external_id h) (conversation_items <$> snaps)).
Proof. apply conversation_messages_spec. Qed.

Lemma spec_messages_extends events events' h :
  h ∈ spec_messages events → ∃ h', h' ∈ spec_messages (events ++ events') ∧ extends h h'.
Proof.
  unfold spec_messages. rewrite spec_histories_elem. remember (h_external_id h) as k eqn:Hk.
  unfold spec_history, occurrences. simpl. rewrite app_nil_r. intros H.
  destruct (here event_id k events) as [|e es] eqn:E; [done|]. injection H as <-. clear Hk.
  assert (E' : here event_id k (events ++ events') = (e :: es) ++ here event_id k events').
  { unfold here in *. by rewrite filter_app, E. }
  exists (History k (distinct_first (event_digest <$> (e :: es) ++ here event_id k events'))
    (spec_observations event_id event_present k false [("", events ++ events')])). split.
  - apply spec_histories_elem. simpl. unfold spec_history, occurrences. simpl.
    by rewrite app_nil_r, E'.
  - split_and!; [done| |]; cbn [h_revisions h_observations].
    + pose proof (distinct_first_prefix (event_digest <$> e :: es)
        (event_digest <$> here event_id k events')) as Hp.
      rewrite <-fmap_app in Hp. exact Hp.
    + simpl. rewrite E'. simpl. rewrite fmap_app, !app_nil_r.
      apply prefix_cons, prefix_app_r. done.
Qed.

(** Reconciliation is append-only: adding snapshots at the end keeps every
    history - conversations with their messages, projects, Canvas documents,
    assets - and every archive report, and extends revisions and observations
    only at their end. *)
Theorem reconcile_append_only (l l' : list archive_snapshot) :
  let r := reconcile l in let r' := reconcile (l ++ l') in
  (∀ h, h ∈ rr_conversations r → ∃ h', h' ∈ rr_conversations r' ∧
     extends (conversation_view h) (conversation_view h') ∧
     ∀ m, m ∈ ch_messages h → ∃ m', m' ∈ ch_messages h' ∧ extends m m') ∧
  (∀ h, h ∈ rr_projects r → ∃ h', h' ∈ rr_projects r' ∧
     extends (project_view h) (project_view h')) ∧
  (∀ h, h ∈ rr_canvas_documents r → ∃ h', h' ∈ rr_canvas_documents r' ∧ extends h h') ∧
  (∀ h, h ∈ rr_assets r → ∃ h', h' ∈ rr_assets r' ∧ extends h h') ∧
  rr_archive_reports r `prefix_of` rr_archive_reports r'.
Proof.
  cbv zeta. split_and!.
  - intros h Hh. assert (Hv : conversation_view h ∈ conversation_view <$> rr_conversations (reconcile l))
      by (apply list_elem_of_fmap; eauto).
    rewrite conversations_spec in Hv. unfold kind_spec in Hv.
    apply (spec_histories_extends _ _ _ _ (conversation_items <$> l')) in Hv as (v' & Hv' & He).
    rewrite <-fmap_app in Hv'. pose proof (conversations_spec (l ++ l')) as Hs.
    unfold kind_spec in Hs. rewrite <-Hs in Hv'.
    apply list_elem_of_fmap in Hv' as (h' & -> & Hh').
    exists h'. split_and!; [done..|]. intros m Hm.
    rewrite (conversation_messages_spec _ _ Hh) in Hm.
    rewrite (conversation_messages_spec _ _ Hh'), fmap_app.
    unfold conversation_events. rewrite bind_app. simpl in He.
    destruct He as (Hid & _). simpl in Hid. rewrite Hid. by apply spec_messages_extends.
  - intros h Hh. assert (Hv : project_view h ∈ project_view <$> rr_projects (reconcile l))
      by (apply list_elem_of_fmap; eauto).
    rewrite projects_spec in Hv. unfold kind_spec in Hv.
    apply (spec_histories_extends _ _ _ _ (project_items <$> l')) in Hv as (v' & Hv' & He).
    rewrite <-fmap_app in Hv'. pose proof (projects_spec (l ++ l')) as Hs.
    unfold kind_spec in Hs. rewrite <-Hs in Hv'.
    apply list_elem_of_fmap in Hv' as (h' & -> & Hh'). eauto.
  - intros h. rewrite !canvas_spec, fmap_app. apply spec_histories_extends.
  - intros h. rewrite !assets_spec, fmap_app. apply spec_histories_extends.
  - unfold Reconciliation.reconcile. cbn [rr_archive_reports].
    induction l' as [|s l' IH] using rev_ind; [by rewrite app_nil_r|].
    rewrite app_assoc, foldl_app. cbn [foldl].
    etrans; [exact IH|]. unfold Reconciliation.reconcile_snapshot at 2.
    destruct (foldl (reconcile_conversation _ _ _ _) _ _). simpl. by apply prefix_app_r.
Qed.

(** Revisions are content-addressed evidence: in every history, those of
    messages included, revisions are pairwise distinct, every present
    observation references one of them, a missing observation references
    none, and every revision was observed. *)
Theorem revisions_evidenced (snaps : list archive_snapshot) :
  let r := reconcile snaps in
  Forall (λ h, well_evidenced (conversation_view h) ∧ Forall well_evidenced (ch_messages h))
    (rr_conversations r) ∧
  Forall (well_evidenced ∘ project_view) (rr_projects r) ∧
  Forall well_evidenced (rr_canvas_documents r) ∧
  Forall well_evidenced (rr_assets r).
Proof.
  assert (K : ∀ A (id_of digest_of : A → string) present_of snaps',
    (∀ a x, ob_state (present_of a x) = Present ∧
       ob_revision_digest (present_of a x) = Some (digest_of x)) →
    Forall well_evidenced (spec_histories id_of digest_of present_of snaps')).
  { intros A id_of digest_of present_of snaps' Hp. apply Forall_forall.
    intros h Hh%spec_histories_elem. by eapply spec_history_evidenced. }
  cbv zeta. split_and!.
  - apply Forall_forall. intros h Hh. split.
    + assert (Forall well_evidenced (conversation_view <$> rr_conversations (reconcile snaps))) as Ha
        by (rewrite conversations_spec; by apply K).
      rewrite Forall_fmap, Forall_forall in Ha. by apply Ha.
    + rewrite (conversation_messages_spec _ _ Hh). by apply K.
  - rewrite <-Forall_fmap, projects_spec. by apply K.
  - rewrite canvas_spec. by apply K.
  - rewrite assets_spec. by apply K.
Qed.
End reconcile_laws.

(** ** The parent graph *)

(** The warnings a snapshot calls for: one per message occurrence whose parent
    is not another message of its own conversation. *)
Definition spec_warnings (conversations : list parsed_conversation)
    : list reconciliation_warning :=
  let all_messages := conversations ≫= message_ids in
  conversations ≫= λ c,
    omap (λ m, (λ code, ReconciliationWarning code (pc_external_id c) (Some (pm_external_id m)))
            <$> parent_code all_messages (message_ids c) m) (pc_messages c).

Definition evidence_wf (e : graph_evidence) : Prop :=
  bt_wf (ge_orphaned_messages e) ∧
  ∀ c m, is_Some (bt_get (c, m) (ge_orphaned_messages e)) ↔
    ∃ code, ReconciliationWarning code c (Some m) ∈ ge_warnings e.

Lemma graph_messages_spec all c ms : ∀ e,
  evidence_wf e →
  let e' := foldl (graph_message all c) e ms in
  evidence_wf e' ∧
  ge_warnings e' = ge_warnings e ++
    omap (λ m, (λ code, ReconciliationWarning code (pc_external_id c) (Some (pm_external_id m)))
            <$> parent_code all (message_ids c) m) ms.
Proof.
  induction ms as [|m ms IH]; intros e Hwf; [by rewrite app_nil_r|]. csimpl.
  assert (Hone : evidence_wf (graph_message all c e m) ∧
    ge_warnings (graph_message all c e m) = ge_warnings e ++
      match (λ code, ReconciliationWarning code (pc_external_id c) (Some (pm_external_id m)))
              <$> parent_code all (message_ids c) m with Some w => [w] | None => [] end).
  { unfold graph_message. destruct (parent_code all _ m) as [code|] eqn:Ec; simpl;
      [|by rewrite app_nil_r]. split; [|done].
    destruct Hwf as [Hb Hm]. split; simpl; [by apply bt_insert_wf|].
    intros c' m'. unfold bset_insert. rewrite (bt_get_insert _ (c', m') tt _ Hb).
    setoid_rewrite elem_of_app. setoid_rewrite list_elem_of_singleton.
    case_decide as E; [simplify_eq; naive_solver|]. rewrite Hm. naive_solver. }
  destruct Hone as [Hwf' Hw]. destruct (IH _ Hwf') as [Hwf'' Hw'']. split; [done|].
  rewrite Hw'', Hw, <-app_assoc. by destruct (parent_code all (message_ids c) m).
Qed.

Lemma graph_conversations_spec all cs : ∀ e,
  evidence_wf e →
  let e' := foldl (λ e c, foldl (graph_message all c) e (pc_messages c)) e cs in
  evidence_wf e' ∧
  ge_warnings e' = ge_warnings e ++ (cs ≫= λ c,
    omap (λ m, (λ code, ReconciliationWarning code (pc_external_id c) (Some (pm_external_id m)))
            <$> parent_code all (message_ids c) m) (pc_messages c)).
Proof.
  induction cs as [|c cs IH]; intros e Hwf; [by rewrite app_nil_r|].
  destruct (graph_messages_spec all c (pc_messages c) e Hwf) as [Hwf' Hw].
  destruct (IH _ Hwf') as [Hwf'' Hw'']. split; [done|].
  simpl in *. by rewrite Hw'', Hw, <-app_assoc.
Qed.

#[global] Instance warning_key_inj : Inj (=) (=) warning_key.
Proof. intros [[] c m] [[] c' m']; unfold warning_key; simpl; congruence. Qed.

(** Parent validation: the warnings of a snapshot are exactly one per
    message occurrence whose parent is itself, is known from another
    conversation only, or is unknown, classified so, and sorted; a message is
    marked orphaned exactly when it has a warning; and the report counts
    them. *)
Theorem graph_evidence_spec (s : archive_snapshot) (stats : revision_statistics) :
  let e := graph_evidence_of s in
  let conversations := pcs_conversations (sn_parsed s) in
  ge_warnings e ≡ₚ spec_warnings conversations ∧
  StronglySorted (λ a b, cmp (warning_key a) (warning_key b) ≠ Gt) (ge_warnings e) ∧
  (∀ c m, bt_mem (c, m) (ge_orphaned_messages e) = true ↔
     ∃ code, ReconciliationWarning code c (Some m) ∈ spec_warnings conversations) ∧
  ar_orphan_messages (archive_report s (ge_warnings e) stats) = length (spec_warnings conversations).
Proof.
  unfold graph_evidence_of. cbv zeta. cbn [ge_warnings ge_orphaned_messages].
  set (all := pcs_conversations (sn_parsed s) ≫= message_ids).
  destruct (graph_conversations_spec all (pcs_conversations (sn_parsed s)) (GraphEvidence [] []))
    as [[_ Hm] Hw].
  { split; [constructor|]. intros c m. simpl. split; [by intros []|].
    by intros (code & ?%elem_of_nil). }
  cbv zeta in Hm, Hw. simpl in Hw. fold (spec_warnings (pcs_conversations (sn_parsed s))) in Hw.
  change (ge_warnings (foldl (λ e c, foldl (graph_message all c) e (pc_messages c))
    (GraphEvidence [] []) (pcs_conversations (sn_parsed s)))
    = spec_warnings (pcs_conversations (sn_parsed s))) in Hw.
  split_and!.
  - by rewrite sort_by_perm, Hw.
  - exact (sort_by_sorted warning_key _).
  - intros c m. rewrite bt_mem_spec, Hm, Hw. done.
  - simpl. by rewrite sort_by_length, Hw.
Qed.

(** ** The statistics account for the histories *)

Section accounting.
  Context (to_string : json → string) (sha256_hex : string → string).
  Context (blob_json : blob_ref → json).
  #[local] Abbreviation reconcile := (Reconciliation.reconcile to_string sha256_hex blob_json).
  #[local] Abbreviation reconcile_snapshot :=
    (Reconciliation.reconcile_snapshot to_string sha256_hex blob_json).
  #[local] Abbreviation observe_message :=
    (Reconciliation.observe_message to_string sha256_hex).
  #[local] Abbreviation observe_conversation :=
    (Reconciliation.observe_conversation to_string sha256_hex).

Definition with_state (st : observation_state) (obs : list observation) : nat :=
  length (filter (λ o, ob_state o = st) obs).

(** The measures of one conversation history. *)
Definition message_revisions (h : conversation_history) : nat :=
  sum_nat (length ∘ h_revisions <$> ch_messages h).
Definition all_revisions (h : conversation_history) : nat :=
  length (ch_revisions h) + message_revisions h.
Definition observations_in (st : observation_state) (h : conversation_history) : nat :=
  with_state st (ch_observations h).

Definition total {V} (w : V → nat) (m : list (string * V)) : nat := sum_nat (w <$> bt_values m).

(** The message histories come from a chain, so they survive the round
    through [by_external_id]. *)
Definition messages_ok (h : conversation_history) : Prop :=
  ∃ events, ch_messages h = bt_values (message_chain to_string sha256_hex events).

Lemma messages_ok_round h :
  messages_ok h → bt_values (by_external_id (ch_messages h)) = ch_messages h.
Proof. intros [events ->]. by rewrite by_external_id_chain. Qed.

Lemma messages_ok_observe h c a orph :
  messages_ok h → messages_ok (observe_conversation h c a orph).1.
Proof.
  intros [events Hh]. eexists.
  by apply (observe_conversation_messages to_string sha256_hex h a (c, orph) events).
Qed.

Lemma history_present_counts h a d o :
  let '(h', created) := history_present h a d o in
  length (h_revisions h') = length (h_revisions h) + (if created then 1 else 0).
Proof.
  unfold history_present, record_present. simpl.
  destruct (existsb _ _); simpl; rewrite ?length_app; simpl; lia.
Qed.

Lemma observe_messages_counts c a orph ms : ∀ m st,
  let '(m', st') := foldl (observe_message c a orph) (m, st) ms in
  total (length ∘ h_revisions) m' + rs_new st = total (length ∘ h_revisions) m + rs_new st' ∧
  rs_reused st' + rs_new st' = rs_reused st + rs_new st + length ms ∧
  rs_present st' = rs_present st ∧ rs_missing st' = rs_missing st.
Proof.
  induction ms as [|x ms IH]; intros m st; cbn [foldl]; [simpl; lia|].
  destruct (observe_message c a orph (m, st) x) as [m1 st1] eqn:E1.
  specialize (IH m1 st1). destruct (foldl _ (m1, st1) ms) as [m' st'].
  unfold Reconciliation.observe_message in E1.
  set (h0 := default _ _) in E1.
  match type of E1 with context [history_present h0 ?y ?z ?w] =>
    pose proof (history_present_counts h0 y z w) as Hc;
    destruct (history_present h0 y z w) as [h created] end.
  injection E1 as <- <-.
  pose proof (bt_upd_sum (length ∘ h_revisions) (pm_external_id x) (λ _, h) m) as Hs.
  assert (H0 : from_option (length ∘ h_revisions) 0 (bt_get (pm_external_id x) m)
    = length (h_revisions h0)) by (unfold h0; by destruct (bt_get _ _)).
  rewrite H0 in Hs. unfold total in *. simpl in *.
  destruct created; simpl in *; lia.
Qed.

Lemma observe_conversation_counts h c a orph :
  messages_ok h →
  let '(h', st) := observe_conversation h c a orph in
  all_revisions h' = all_revisions h + rs_new st ∧
  message_revisions h' + rs_reused st = message_revisions h + length (pc_messages c) ∧
  observations_in Present h' = observations_in Present h + 1 ∧
  observations_in MissingFromLatestSnapshot h' = observations_in MissingFromLatestSnapshot h ∧
  rs_present st = 0 ∧ rs_missing st = 0.
Proof.
  intros Hok. unfold Reconciliation.observe_conversation, record_present.
  set (created := negb _).
  pose proof (observe_messages_counts c a orph (pc_messages c) (by_external_id (ch_messages h))
    (RevisionStatistics (if created then 1 else 0) 0 0 0)) as Hc.
  destruct (foldl _ _ _) as [ms st]. unfold total in Hc.
  rewrite (messages_ok_round _ Hok) in Hc. simpl in Hc.
  unfold all_revisions, message_revisions, observations_in, with_state. simpl.
  rewrite !filter_app, !length_app. simpl.
  destruct created; rewrite ?length_app; simpl; lia.
Qed.

Lemma from_option_default {V} (w : V → nat) (d : V) o :
  w d = 0 → from_option w 0 o = w (default d o).
Proof. by destruct o. Qed.

(** The totals after the conversations of one snapshot. *)
Definition sum_messages (cs : list parsed_conversation) : nat :=
  sum_nat (length ∘ pc_messages <$> cs).

Lemma reconcile_conversations_counts a orph cs : ∀ m st,
  (∀ id, messages_ok (default (ConversationHistory id [] [] []) (bt_get id m))) →
  bt_wf m →
  let '(m', st') := foldl (reconcile_conversation to_string sha256_hex a orph) (m, st) cs in
  total all_revisions m' + rs_new st = total all_revisions m + rs_new st' ∧
  total message_revisions m' + rs_reused st' =
    total message_revisions m + rs_reused st + sum_messages cs ∧
  total (observations_in Present) m' = total (observations_in Present) m + length cs ∧
  total (observations_in MissingFromLatestSnapshot) m' =
    total (observations_in MissingFromLatestSnapshot) m ∧
  rs_present st' = rs_present st ∧ rs_missing st' = rs_missing st.
Proof.
  induction cs as [|c cs IH]; intros m st Hok Hwf; cbn [foldl].
  { unfold sum_messages, sum_nat. simpl. lia. }
  destruct (reconcile_conversation _ _ a orph (m, st) c) as [m1 st1] eqn:E1.
  unfold reconcile_conversation in E1.
  set (h0 := default _ _) in E1.
  pose proof (observe_conversation_counts h0 c a orph (Hok _)) as Hc.
  pose proof (messages_ok_observe h0 c a orph (Hok _)) as Hok'.
  destruct (observe_conversation h0 c a orph) as [h added]. injection E1 as <- <-.
  assert (Hok1 : ∀ id, messages_ok (default (ConversationHistory id [] [] [])
                   (bt_get id (bt_upd (pc_external_id c) (λ _, h) m)))).
  { intros id. destruct (decide (pc_external_id c = id)) as [<-|Hne].
    - by rewrite bt_get_upd_eq.
    - rewrite bt_get_upd_ne by done. apply Hok. }
  specialize (IH _ (add_statistics st added) Hok1 (bt_upd_wf _ _ _ Hwf)).
  destruct (foldl _ _ cs) as [m' st'].
  assert (Hs : ∀ w : conversation_history → nat, (∀ id, w (ConversationHistory id [] [] []) = 0) →
    total w (bt_upd (pc_external_id c) (λ _, h) m) + w h0 = total w m + w h).
  { intros w Hw. unfold total, h0. rewrite <-(from_option_default w _ _ (Hw _)).
    apply (bt_upd_sum w (pc_external_id c) (λ _, h)). }
  pose proof (Hs all_revisions (λ _, eq_refl)) as H1.
  pose proof (Hs message_revisions (λ _, eq_refl)) as H2.
  pose proof (Hs (observations_in Present) (λ _, eq_refl)) as H3.
  pose proof (Hs (observations_in MissingFromLatestSnapshot) (λ _, eq_refl)) as H4.
  unfold add_statistics in IH. simpl in IH. 
  change (sum_messages (c :: cs)) with (length (pc_messages c) + sum_messages cs).
  cbn [length]. lia.
Qed.

Lemma conversation_missing_counts a h :
  all_revisions (conversation_missing a h) = all_revisions h ∧
  message_revisions (conversation_missing a h) = message_revisions h ∧
  observations_in Present (conversation_missing a h) = observations_in Present h ∧
  observations_in MissingFromLatestSnapshot (conversation_missing a h) =
    observations_in MissingFromLatestSnapshot h + 1.
Proof.
  split_and!; [done..| |]; unfold observations_in, with_state; simpl;
    rewrite filter_app, length_app; simpl; lia.
Qed.

Lemma missing_counts present_ids a m :
  let '(m', n) := record_missing_conversations present_ids a m in
  total all_revisions m' = total all_revisions m ∧
  total message_revisions m' = total message_revisions m ∧
  total (observations_in Present) m' = total (observations_in Present) m ∧
  total (observations_in MissingFromLatestSnapshot) m' =
    total (observations_in MissingFromLatestSnapshot) m + n.
Proof.
  unfold record_missing_conversations, total, bt_values, bt_map.
  induction m as [|[k h] m IH]; [done|]. rewrite filter_cons. csimpl. simpl.
  case_bool_decide as Hk.
  - rewrite decide_False by tauto. csimpl in *. lia.
  - rewrite decide_True by done. csimpl in *.
    destruct (conversation_missing_counts a h) as (-> & -> & -> & ->). lia.
Qed.

(** The sum of the reports' statistics, and of what they discovered. *)
Definition reported (reports : list archive_completeness_report) : revision_statistics :=
  foldl (λ s r, add_statistics s (ar_revision_statistics r)) no_statistics reports.

Lemma state_messages_ok snaps id :
  messages_ok (default (ConversationHistory id [] [] [])
    (bt_get id (st_histories (foldl reconcile_snapshot start snaps)))).
Proof.
  destruct (reconcile_state_chains to_string sha256_hex blob_json snaps) as (-> & _).
  rewrite chain_run. eexists. apply run_messages.
Qed.

Lemma state_accounting snaps :
  let st := foldl reconcile_snapshot start snaps in
  let s := reported (st_reports st) in
  rs_new s = total all_revisions (st_histories st) ∧
  rs_reused s + total message_revisions (st_histories st) =
    sum_nat (ar_messages_discovered <$> st_reports st) ∧
  rs_present s = total (observations_in Present) (st_histories st) ∧
  rs_present s = sum_nat (ar_conversations_discovered <$> st_reports st) ∧
  rs_missing s = total (observations_in MissingFromLatestSnapshot) (st_histories st).
Proof.
  induction snaps as [|x snaps IH] using rev_ind; [done|].
  pose proof (state_messages_ok snaps) as Hok.
  destruct (reconcile_state_chains to_string sha256_hex blob_json snaps) as (Hh & _).
  assert (Hwf : bt_wf (st_histories (foldl reconcile_snapshot start snaps)))
    by (rewrite Hh; apply chain_wf). clear Hh.
  rewrite foldl_app. cbn [foldl]. set (st := foldl reconcile_snapshot start snaps) in *.
  clearbody st. unfold Reconciliation.reconcile_snapshot, reconcile_additional_evidence.
  match goal with |- context [foldl (reconcile_conversation _ _ ?a ?o) (?m, ?s) ?cs] =>
    pose proof (reconcile_conversations_counts a o cs m s Hok Hwf) as Hc;
    destruct (foldl (reconcile_conversation to_string sha256_hex a o) (m, s) cs) as [m1 s1] end.
  match goal with |- context [record_missing_conversations ?p ?a m1] =>
    pose proof (missing_counts p a m1) as Hm;
    destruct (record_missing_conversations p a m1) as [m2 n] end.
  cbv zeta in IH |- *. cbn [st_histories st_reports].
  unfold reported in *. rewrite foldl_app, !fmap_app, !sum_nat_app. cbn [foldl fmap list_fmap].
  simpl in Hc. simpl.
  fold (sum_messages (pcs_conversations (sn_parsed x))).
  unfold sum_nat in *. simpl. fold (sum_messages (pcs_conversations (sn_parsed x))).
  lia.
Qed.

(** The statistics are the histories' own numbers: over any sequence of
    snapshots, new revisions are exactly the conversation and message
    revisions held; every message occurrence either made or reused a
    revision; present conversation observations are the conversations
    discovered and the [Present] observations recorded; and missing
    observations are the ones recorded. *)
Theorem statistics_account (snaps : list archive_snapshot) :
  let r := reconcile snaps in
  let c := rr_cumulative_report r in
  let s := cr_revision_statistics c in
  rs_new s = cr_conversation_revisions c + cr_message_revisions c ∧
  rs_reused s + cr_message_revisions c =
    sum_nat (ar_messages_discovered <$> rr_archive_reports r) ∧
  rs_present s = sum_nat (ar_conversations_discovered <$> rr_archive_reports r) ∧
  rs_present s = sum_nat (observations_in Present <$> rr_conversations r) ∧
  rs_missing s = sum_nat (observations_in MissingFromLatestSnapshot <$> rr_conversations r).
Proof.
  pose proof (state_accounting snaps) as (H1 & H2 & H3 & H4 & H5).
  unfold Reconciliation.reconcile, cumulative_report. fold start. cbv zeta.
  cbn [rr_cumulative_report rr_archive_reports rr_conversations cr_revision_statistics
    cr_conversation_revisions cr_message_revisions].
  fold (reported (st_reports (foldl reconcile_snapshot start snaps))).
  assert (E : ∀ l, sum_nat (length ∘ h_revisions <$> (l ≫= ch_messages)) =
    sum_nat (message_revisions <$> l)).
  { induction l as [|h l IH]; [done|]. csimpl. rewrite fmap_app, sum_nat_app, IH. done. }
  assert (E' : ∀ l, sum_nat (all_revisions <$> l) =
    sum_nat (length ∘ ch_revisions <$> l) + sum_nat (message_revisions <$> l)).
  { induction l as [|h l IH]; [done|]. csimpl. unfold sum_nat in *. simpl. rewrite IH.
    unfold all_revisions. lia. }
  rewrite E. unfold total in *. rewrite E' in H1. split_and!; lia.
Qed.
End accounting.

(** ** Witnesses

    A conversation present in the first of two snapshots and absent from the
    second. *)

Module ReconciliationWitness.
Definition msg (id : string) (parent : option string) : parsed_message :=
  ParsedMessage id parent User None None None JNull [].
Definition conv : parsed_conversation :=
  ParsedConversation "c" None None None JNull [msg "m1" None; msg "m2" (Some "gone")].
Definition snapshot (a : string) (cs : list parsed_conversation) : archive_snapshot :=
  ArchiveSnapshot a 0 (ParsedConversations SYNTHETIC_SCHEMA_ID (pr_id registration) cs [] [] [] []).
Definition snaps : list archive_snapshot := [snapshot "a1" [conv]; snapshot "a2" []].

(** A serializer that keeps the message id apart is enough here. *)
Fixpoint text (v : json) : string :=
  match v with
  | JString s => s
  | JObject l => String.concat "," ((λ kv, text kv.2) <$> l)
  | JArray l => String.concat ";" (text <$> l)
  | _ => "-"
  end.

Definition result : reconciliation_result := reconcile text (λ s, s) (λ _, JNull) snaps.

Example result_observations :
  (λ h, (ch_external_id h, ob_state <$> ch_observations h,
         (λ m, (h_external_id m, ob_orphaned <$> h_observations m)) <$> ch_messages h))
    <$> rr_conversations result =
  [("c", [Present; MissingFromLatestSnapshot], [("m1", [false]); ("m2", [true])])].
Proof. vm_compute. reflexivity. Qed.

Lemma message_histories_refine_spec_witness :
  ∃ h, h ∈ rr_conversations result ∧
    ch_messages h = spec_messages text (λ s, s)
      (conversation_events (ch_external_id h) (conversation_items <$> snaps)).
Proof.
  eexists. split; [apply list_elem_of_singleton; vm_compute; reflexivity|].
  apply (message_histories_refine_spec text (λ s, s) (λ _, JNull) snaps).
  apply list_elem_of_singleton. vm_compute. reflexivity.
Defined.
End ReconciliationWitness.
