(* ===== verification/Std.v ===== *)
(** * Standard-library text and address types the program parses with

    Unicode white space on UTF-8 text ([str::trim], [char::is_whitespace]) and
    [core::net::SocketAddr]'s grammar, as [str::parse] reads it. *)

From S2P Require Import Prelude.

(** ** Characters

    A character is a byte that continues no other, with those that continue
    it. *)

Definition is_continuation (c : ascii) : bool := (128 <=? byte c)%N && (byte c <? 192)%N.

Definition is_ascii_alphanumeric (c : ascii) : bool :=
  let b := byte c in
  ((48 <=? b) && (b <=? 57) || (65 <=? b) && (b <=? 90) || (97 <=? b) && (b <=? 122))%N%bool.

(** Mapping the [char]s of a text to bytes: ASCII by a function, the others
    to one byte. *)
Fixpoint map_chars (ascii_char : ascii → ascii) (other : ascii) (s : string) : string :=
  match s with
  | EmptyString => EmptyString
  | String c rest =>
      if is_continuation c then map_chars ascii_char other rest
      else String (if (byte c <? 128)%N then ascii_char c else other) (map_chars ascii_char other rest)
  end.

(** ** Unicode white space *)

Definition utf8 (bytes : list N) : string := of_bytes (Ascii.ascii_of_N <$> bytes).

(** The [White_Space] characters, each as its UTF-8 bytes. *)
Definition white_space : list string :=
  utf8 <$>
  ((λ b, [b]) <$> [9; 10; 11; 12; 13; 32]%N) ++
  [[194; 133]; [194; 160]; [225; 154; 128]]%N ++
  ((λ b, [226; 128; b]%N) <$> [128; 129; 130; 131; 132; 133; 134; 135; 136; 137; 138; 168; 169; 175]%N) ++
  [[226; 129; 159]; [227; 128; 128]]%N.

Definition strip_prefix (p s : string) : option string :=
  if String.prefix p s
  then Some (String.substring (String.length p) (String.length s - String.length p) s)
  else None.

(** The rest after one leading white-space character. *)
Definition strip_space (s : string) : option string :=
  head (omap (λ w, strip_prefix w s) white_space).

(** [str::rsplit_once]: around the last byte [d]. *)
Fixpoint rsplit_once (d : ascii) (s : string) : option (string * string) :=
  match s with
  | EmptyString => None
  | String c rest =>
      match rsplit_once d rest with
      | Some (a, b) => Some (String c a, b)
      | None => if Ascii.eqb c d then Some ("", rest) else None
      end
  end.

Fixpoint trim_start_fuel (fuel : nat) (s : string) : string :=
  match fuel with
  | O => s
  | S n => match strip_space s with Some rest => trim_start_fuel n rest | None => s end
  end.

Definition trim_start (s : string) : string := trim_start_fuel (String.length s) s.

(** The text before one trailing white-space character.  In UTF-8 no
    character's bytes end another's, so matching a suffix matches a character. *)
Definition strip_space_end (s : string) : option string :=
  let n := String.length s in
  head (omap (λ w,
    let k := String.length w in
    if bool_decide (k <= n) && String.eqb (String.substring (n - k) k s) w
    then Some (String.substring 0 (n - k) s) else None) white_space).

Fixpoint trim_end_fuel (fuel : nat) (s : string) : string :=
  match fuel with
  | O => s
  | S n => match strip_space_end s with Some rest => trim_end_fuel n rest | None => s end
  end.

Definition trim_end (s : string) : string := trim_end_fuel (String.length s) s.

(** [str::trim]. *)
Definition trim (s : string) : string := trim_end (trim_start s).

(** [str::contains(char::is_whitespace)]. *)
Fixpoint contains_whitespace (s : string) : bool :=
  match strip_space s with
  | Some _ => true
  | None => match s with EmptyString => false | String _ s' => contains_whitespace s' end
  end.

(** [str::contains] of a byte, for an ASCII character. *)
Definition contains_char (c : ascii) (s : string) : bool := any_byte (is_char c) s.

(** ** Socket addresses *)

Inductive socket_addr : Set :=
| SocketV4 (octets : list N) (port : N)
| SocketV6 (segments : list N) (scope_id : N) (port : N).

#[global] Instance socket_addr_eq_dec : EqDecision socket_addr.
Proof. solve_decision. Defined.

Definition port (a : socket_addr) : N :=
  match a with SocketV4 _ p | SocketV6 _ _ p => p end.

(** [IpAddr::is_loopback]: 127.0.0.0/8, or exactly [::1]. *)
Definition is_loopback (a : socket_addr) : bool :=
  match a with
  | SocketV4 octets _ => match octets with o :: _ => (o =? 127)%N | [] => false end
  | SocketV6 segments _ _ => bool_decide (segments = [0; 0; 0; 0; 0; 0; 0; 1]%N)
  end.

(** A reader consumes a prefix; a failed reader consumes nothing
    ([Parser::read_atomically]). *)
Definition reader (A : Type) : Type := string → option (A * string).

Definition read_char (c : ascii) : reader unit := λ s,
  match s with
  | String d rest => if Ascii.eqb c d then Some (tt, rest) else None
  | EmptyString => None
  end.

(** [char::to_digit]. *)
Definition to_digit (radix : N) (c : ascii) : option N :=
  let n := byte c in
  let d := if decide (48 <= n <= 57)%N then Some (n - 48)%N
           else if decide (97 <= n <= 122)%N then Some (n - 87)%N
           else if decide (65 <= n <= 90)%N then Some (n - 55)%N
           else None in
  match d with
  | Some d => if decide (d < radix)%N then Some d else None
  | None => None
  end.

Fixpoint read_digits (radix : N) (s : string) : list N * string :=
  match s with
  | EmptyString => ([], s)
  | String c rest =>
      match to_digit radix c with
      | Some d => let '(ds, after) := read_digits radix rest in (d :: ds, after)
      | None => ([], s)
      end
  end.

(** [Parser::read_number] at a type whose largest value is [max]. *)
Definition read_number (radix max : N) (max_digits : option nat) (allow_zero_prefix : bool)
    : reader N := λ s,
  let '(ds, rest) := read_digits radix s in
  let value := foldl (λ acc d, acc * radix + d)%N 0%N ds in
  let too_long := match max_digits with Some m => bool_decide (m < length ds) | None => false end in
  let zero_prefix := bool_decide (head ds = Some 0%N) && bool_decide (1 < length ds) in
  if bool_decide (ds = []) || too_long || (negb allow_zero_prefix && zero_prefix)
     || (max <? value)%N
  then None else Some (value, rest).

Definition read_separator {A} (sep : ascii) (index : nat) (inner : reader A) : reader A := λ s,
  match index with
  | O => inner s
  | S _ => '(_, s) ← read_char sep s; inner s
  end.

Definition dot : ascii := "."%char.
Definition colon : ascii := ":"%char.

Definition read_ipv4 : reader (list N) := λ s,
  let octet i := read_separator dot i (read_number 10 255 (Some 3) false) in
  '(a, s) ← octet 0 s; '(b, s) ← octet 1 s; '(c, s) ← octet 2 s; '(d, s) ← octet 3 s;
  Some ([a; b; c; d], s).

(** [read_groups]: at most [n] groups from index [i]; the flag says that the
    last two came from an IPv4 suffix. *)
Fixpoint read_groups (n i : nat) (s : string) : list N * bool * string :=
  match n with
  | O => ([], false, s)
  | S n' =>
      match (if bool_decide (0 < n') then read_separator colon i read_ipv4 s else None) with
      | Some ([a; b; c; d], s) => ([a * 256 + b; c * 256 + d]%N, true, s)
      | _ =>
          match read_separator colon i (read_number 16 65535 (Some 4) true) s with
          | Some (g, s) => let '(gs, v4, s) := read_groups n' (S i) s in (g :: gs, v4, s)
          | None => ([], false, s)
          end
      end
  end.

Definition read_ipv6 : reader (list N) := λ s,
  let '(hd, v4, s) := read_groups 8 0 s in
  if bool_decide (length hd = 8) then Some (hd, s)
  else if v4 : bool then None
  else
    '(_, s) ← read_char colon s; '(_, s) ← read_char colon s;
    let '(tl, _, s) := read_groups (8 - (length hd + 1)) 0 s in
    Some (hd ++ repeat 0%N (8 - length hd - length tl) ++ tl, s).

Definition read_port : reader N := λ s,
  '(_, s) ← read_char colon s; read_number 10 65535 None true s.

Definition read_socket_v4 : reader socket_addr := λ s,
  '(ip, s) ← read_ipv4 s; '(p, s) ← read_port s; Some (SocketV4 ip p, s).

Definition read_scope_id : reader N := λ s,
  '(_, s) ← read_char "%"%char s; read_number 10 u32_max None true s.

Definition read_socket_v6 : reader socket_addr := λ s,
  '(_, s) ← read_char "["%char s;
  '(ip, s) ← read_ipv6 s;
  let '(scope_id, s) := default (0%N, s) (read_scope_id s) in
  '(_, s) ← read_char "]"%char s;
  '(p, s) ← read_port s;
  Some (SocketV6 ip scope_id p, s).

(** [str::parse::<SocketAddr>]: nothing may be left over. *)
Definition parse_socket_addr (s : string) : option socket_addr :=
  match (match read_socket_v4 s with Some r => Some r | None => read_socket_v6 s end) with
  | Some (a, rest) => if String.eqb rest "" then Some a else None
  | None => None
  end.

Definition localhost (p : N) : socket_addr := SocketV4 [127; 0; 0; 1]%N p.

Example parse_v4 : parse_socket_addr "127.0.0.1:9085" = Some (localhost 9085).
Proof. vm_compute. reflexivity. Qed.
Example parse_v6 : parse_socket_addr "[::1]:80" = Some (SocketV6 [0; 0; 0; 0; 0; 0; 0; 1]%N 0 80).
Proof. vm_compute. reflexivity. Qed.
Example parse_v6_mapped : is_loopback <$> parse_socket_addr "[::ffff:127.0.0.1]:80" = Some false.
Proof. vm_compute. reflexivity. Qed.
Example parse_refuses : parse_socket_addr <$> ["localhost:80"; "127.0.0.01:80"; "127.0.0.1"; "127.0.0.1:65536"]
  = [None; None; None; None].
Proof. vm_compute. reflexivity. Qed.
Example trims : trim (utf8 [194; 160; 32; 47; 32; 98; 226; 128; 168; 9]%N) = "/ b".
Proof. vm_compute. reflexivity. Qed.
