(* ===== verification/Config.v ===== *)
(** * Process configuration ([config.rs])

    The closed key set under [RATATOSKR__], every entry's validation, and the
    cross-field rules checked once the entries are read.  The PostgreSQL URL
    and UUID grammars belong to crates and are parameters; a UUID stands for
    its canonical text, a [Duration] for its whole seconds. *)

From S2P Require Import Prelude Std Archive.

#[local] Open Scope result_scope.

Definition ENV_PREFIX : string := "RATATOSKR__".
Definition DEFAULT_MAX_EVENT_BYTES : N := 8000000.
(** [MAX_EVENT_BYTES_RANGE]. *)
Definition max_event_bytes_in_range (n : N) : bool := (65536 <=? n)%N && (n <=? 8388608)%N.

(** ** The configuration *)

Record tenant_token : Set := TenantToken { tt_token : string; tt_account_external_ref : string }.

Record receipt_config : Set := ReceiptConfig {
  rc_listen_address : socket_addr;
  rc_max_event_bytes : N;
  rc_tenant_tokens : list tenant_token;
  rc_platform_accounts : list (string * string);
  rc_event_bus_url : option string;
  rc_event_bus_nkey_seed_path : option string;
}.

(** [AdminConfig] holds one field, the listen address. *)
Record admin_config : Set := AdminConfig { ac_listen_address : socket_addr }.

Record storage_config : Set := StorageConfig {
  sc_blob_root : option string;
  sc_database_url : option string;
  sc_receipt_staging_root : option string;
}.

Record telemetry_config : Set := TelemetryConfig { tc_log_filter : string }.

(** [deletion_ack.rs] [TombstoneResend]. *)
Record tombstone_resend : Set := TombstoneResend { tr_after : N; tr_cap : N }.
Definition DEFAULT_RESEND_AFTER_SECONDS : N := 600.
Definition DEFAULT_RESEND_CAP_SECONDS : N := 21600.

Record limits : Set := Limits {
  li_database_connections : N;
  li_database_acquire_timeout_ms : N;
  li_shutdown_timeout_ms : N;
  li_max_archive_bytes : N;
  li_max_archive_entries : N;
  li_max_archive_entry_bytes : N;
  li_max_archive_decompressed_bytes : N;
  li_max_archive_compression_ratio : N;
}.

Record config : Set := Config {
  cf_admin : admin_config;
  cf_storage : storage_config;
  cf_telemetry : telemetry_config;
  cf_receipt : receipt_config;
  cf_tombstone : tombstone_resend;
  cf_limits : limits;
}.

Record violation : Set := Violation { v_key : string; v_rule : string }.

#[global] Instance violation_eq_dec : EqDecision violation.
Proof. solve_decision. Defined.

(** [Config::default]. *)
Definition default_config : config :=
  Config (AdminConfig (localhost 9085))
    (StorageConfig None None None)
    (TelemetryConfig "info")
    (ReceiptConfig (localhost 8096) DEFAULT_MAX_EVENT_BYTES [] [] None None)
    (TombstoneResend DEFAULT_RESEND_AFTER_SECONDS DEFAULT_RESEND_CAP_SECONDS)
    (Limits 8 5000 10000 17179869184 10000 2147483648 34359738368 100).

(** [archive.rs] [From<&Limits> for ArchiveLimits]. *)
Definition archive_limits_of (l : limits) : archive_limits :=
  ArchiveLimits (li_max_archive_entries l) (li_max_archive_bytes l)
    (li_max_archive_entry_bytes l) (li_max_archive_decompressed_bytes l)
    (li_max_archive_compression_ratio l).

(** ** Keys *)

Definition KEY_LISTEN_ADDRESS : string := "RATATOSKR__ADMIN__LISTEN_ADDRESS".
Definition KEY_RECEIPT_LISTEN_ADDRESS : string := "RATATOSKR__RECEIPT__LISTEN_ADDRESS".
Definition KEY_MAX_EVENT_BYTES : string := "RATATOSKR__RECEIPT__MAX_EVENT_BYTES".
Definition KEY_RESEND_AFTER_SECONDS : string := "RATATOSKR__TOMBSTONE__RESEND_AFTER_SECONDS".
Definition KEY_RESEND_CAP_SECONDS : string := "RATATOSKR__TOMBSTONE__RESEND_CAP_SECONDS".
Definition resend_after_in_range (n : N) : bool := (30 <=? n)%N && (n <=? 86400)%N.
Definition RESEND_CAP_MAX_SECONDS : N := 604800.
Definition KEY_BLOB_ROOT : string := "RATATOSKR__STORAGE__BLOB_ROOT".
Definition KEY_DATABASE_URL : string := "RATATOSKR__STORAGE__DATABASE_URL".
Definition KEY_LOG_FILTER : string := "RATATOSKR__TELEMETRY__LOG_FILTER".
Definition KEY_DATABASE_CONNECTIONS : string := "RATATOSKR__LIMITS__DATABASE_CONNECTIONS".
Definition KEY_DATABASE_ACQUIRE_TIMEOUT_MS : string :=
  "RATATOSKR__LIMITS__DATABASE_ACQUIRE_TIMEOUT_MS".
Definition KEY_SHUTDOWN_TIMEOUT_MS : string := "RATATOSKR__LIMITS__SHUTDOWN_TIMEOUT_MS".
Definition KEY_MAX_ARCHIVE_BYTES : string := "RATATOSKR__LIMITS__MAX_ARCHIVE_BYTES".
Definition KEY_MAX_ARCHIVE_ENTRIES : string := "RATATOSKR__LIMITS__MAX_ARCHIVE_ENTRIES".
Definition KEY_MAX_ARCHIVE_ENTRY_BYTES : string := "RATATOSKR__LIMITS__MAX_ARCHIVE_ENTRY_BYTES".
Definition KEY_MAX_ARCHIVE_DECOMPRESSED_BYTES : string :=
  "RATATOSKR__LIMITS__MAX_ARCHIVE_DECOMPRESSED_BYTES".
Definition KEY_MAX_ARCHIVE_COMPRESSION_RATIO : string :=
  "RATATOSKR__LIMITS__MAX_ARCHIVE_COMPRESSION_RATIO".
Definition KEY_RECEIPT_STAGING_ROOT : string := "RATATOSKR__STORAGE__RECEIPT_STAGING_ROOT".
Definition KEY_TENANT_TOKENS : string := "RATATOSKR__RECEIPT__TENANT_TOKENS".
Definition KEY_PLATFORM_ACCOUNTS : string := "RATATOSKR__RECEIPT__PLATFORM_ACCOUNTS".
Definition KEY_EVENT_BUS_URL : string := "RATATOSKR__RECEIPT__EVENT_BUS_URL".
Definition KEY_EVENT_BUS_NKEY_SEED_PATH : string := "RATATOSKR__RECEIPT__EVENT_BUS_NKEY_SEED_PATH".

(** ** Value parsing *)

(** [parse_absolute_path]; a Unix path is absolute when it starts at the root. *)
Definition parse_absolute_path (value : string) : result unit string :=
  let trimmed := trim value in
  if String.eqb trimmed "" then Err tt
  else if starts_with "/" trimmed then Ok trimmed else Err tt.

Definition must_be_positive : string := "must be a positive integer".

(** [parse_positive::<T>] with [T] the unsigned width whose maximum is [max]. *)
Definition parse_positive (max : N) (value : string) : result string N :=
  match parse_unsigned max value with
  | None => Err must_be_positive
  | Some parsed => if (parsed <=? 0)%N then Err must_be_positive else Ok parsed
  end.

(** ** Field assignments *)

Definition with_receipt (f : receipt_config → receipt_config) (c : config) : config :=
  Config (cf_admin c) (cf_storage c) (cf_telemetry c) (f (cf_receipt c)) (cf_tombstone c)
    (cf_limits c).
Definition with_storage (f : storage_config → storage_config) (c : config) : config :=
  Config (cf_admin c) (f (cf_storage c)) (cf_telemetry c) (cf_receipt c) (cf_tombstone c)
    (cf_limits c).
Definition with_tombstone (f : tombstone_resend → tombstone_resend) (c : config) : config :=
  Config (cf_admin c) (cf_storage c) (cf_telemetry c) (cf_receipt c) (f (cf_tombstone c))
    (cf_limits c).
Definition with_limits (f : limits → limits) (c : config) : config :=
  Config (cf_admin c) (cf_storage c) (cf_telemetry c) (cf_receipt c) (cf_tombstone c)
    (f (cf_limits c)).
Definition set_admin_address (a : socket_addr) (c : config) : config :=
  Config (AdminConfig a) (cf_storage c) (cf_telemetry c) (cf_receipt c) (cf_tombstone c)
    (cf_limits c).
Definition set_log_filter (f : string) (c : config) : config :=
  Config (cf_admin c) (cf_storage c) (TelemetryConfig f) (cf_receipt c) (cf_tombstone c)
    (cf_limits c).

Definition set_receipt_address (a : socket_addr) (r : receipt_config) : receipt_config :=
  ReceiptConfig a (rc_max_event_bytes r) (rc_tenant_tokens r) (rc_platform_accounts r)
    (rc_event_bus_url r) (rc_event_bus_nkey_seed_path r).
Definition set_max_event_bytes (n : N) (r : receipt_config) : receipt_config :=
  ReceiptConfig (rc_listen_address r) n (rc_tenant_tokens r) (rc_platform_accounts r)
    (rc_event_bus_url r) (rc_event_bus_nkey_seed_path r).
Definition push_token (t : tenant_token) (r : receipt_config) : receipt_config :=
  ReceiptConfig (rc_listen_address r) (rc_max_event_bytes r) (rc_tenant_tokens r ++ [t])
    (rc_platform_accounts r) (rc_event_bus_url r) (rc_event_bus_nkey_seed_path r).
Definition push_account (a : string * string) (r : receipt_config) : receipt_config :=
  ReceiptConfig (rc_listen_address r) (rc_max_event_bytes r) (rc_tenant_tokens r)
    (rc_platform_accounts r ++ [a]) (rc_event_bus_url r) (rc_event_bus_nkey_seed_path r).
Definition set_event_bus_url (u : string) (r : receipt_config) : receipt_config :=
  ReceiptConfig (rc_listen_address r) (rc_max_event_bytes r) (rc_tenant_tokens r)
    (rc_platform_accounts r) (Some u) (rc_event_bus_nkey_seed_path r).
Definition set_nkey_path (p : string) (r : receipt_config) : receipt_config :=
  ReceiptConfig (rc_listen_address r) (rc_max_event_bytes r) (rc_tenant_tokens r)
    (rc_platform_accounts r) (rc_event_bus_url r) (Some p).

Definition set_blob_root (p : string) (s : storage_config) : storage_config :=
  StorageConfig (Some p) (sc_database_url s) (sc_receipt_staging_root s).
Definition set_database_url (u : string) (s : storage_config) : storage_config :=
  StorageConfig (sc_blob_root s) (Some u) (sc_receipt_staging_root s).
Definition set_staging_root (p : string) (s : storage_config) : storage_config :=
  StorageConfig (sc_blob_root s) (sc_database_url s) (Some p).

(** The eight limits, by position. *)
Definition set_limit (i : nat) (n : N) (l : limits) : limits :=
  let at' j old := if Nat.eqb i j then n else old in
  Limits (at' 0 (li_database_connections l)) (at' 1 (li_database_acquire_timeout_ms l))
    (at' 2 (li_shutdown_timeout_ms l)) (at' 3 (li_max_archive_bytes l))
    (at' 4 (li_max_archive_entries l)) (at' 5 (li_max_archive_entry_bytes l))
    (at' 6 (li_max_archive_decompressed_bytes l)) (at' 7 (li_max_archive_compression_ratio l)).

(** ** One entry *)

(** The configuration being filled and the violations found so far. *)
Definition entry_state : Type := config * list violation.

Definition assign (f : config → config) (st : entry_state) : entry_state := (f st.1, st.2).
Definition refuse (key rule : string) (st : entry_state) : entry_state :=
  (st.1, st.2 ++ [Violation key rule]).

Definition comma : ascii := ","%char.
Definition equals : ascii := "="%char.

Definition must_be_loopback : string := "must be a loopback address with a port".
Definition must_be_directory : string := "must be an absolute directory path".
Definition must_be_tokens : string :=
  "must be a comma-separated list of <token>=<account-ref> pairs".
Definition must_be_accounts : string :=
  "must be a comma-separated list of <platform-user-uuid>=<account-ref> pairs".

(** A value parsed to a loopback address is stored, any other refused. *)
Definition apply_address (key value : string) (set : socket_addr → config → config)
    (st : entry_state) : entry_state :=
  match parse_socket_addr value with
  | Some address =>
      if is_loopback address && negb (port address =? 0)%N then assign (set address) st
      else refuse key must_be_loopback st
  | None => refuse key "must be a socket address" st
  end.

Definition apply_positive (key value : string) (max : N) (i : nat) (st : entry_state)
    : entry_state :=
  match parse_positive max value with
  | Ok parsed => assign (with_limits (set_limit i parsed)) st
  | Err rule => refuse key rule st
  end.

Definition apply_path (key value rule : string) (set : string → config → config)
    (st : entry_state) : entry_state :=
  match parse_absolute_path value with
  | Ok path => assign (set path) st
  | Err _ => refuse key rule st
  end.

(** One [<token>=<account-ref>] pair. *)
Definition apply_token (key entry : string) (st : entry_state) : entry_state :=
  match split_once equals entry with
  | None => refuse key must_be_tokens st
  | Some (token, reference) =>
      if String.eqb token "" || String.eqb reference "" then
        refuse key "every pair needs a non-empty token and a non-empty account reference" st
      else assign (with_receipt (push_token (TenantToken token reference))) st
  end.

Section config.
(** [sqlx]'s and [uuid]'s [FromStr]. *)
Context (pg_options_ok : string → bool) (parse_uuid : string → option string).

(** One [<platform-user-uuid>=<account-ref>] pair. *)
Definition apply_account (key entry : string) (st : entry_state) : entry_state :=
  match split_once equals entry with
  | None => refuse key must_be_accounts st
  | Some (user_id, account) =>
      match parse_uuid user_id with
      | None => refuse key "every mapping needs a canonical platform user UUID" st
      | Some user_id =>
          if String.eqb account "" then
            refuse key "every mapping needs a non-empty account reference" st
          else assign (with_receipt (push_account (user_id, account))) st
      end
  end.

Definition apply_entry (key value : string) (st : entry_state) : entry_state :=
  if String.eqb key KEY_LISTEN_ADDRESS then
    apply_address key value set_admin_address st
  else if String.eqb key KEY_RECEIPT_LISTEN_ADDRESS then
    apply_address key value (λ a, with_receipt (set_receipt_address a)) st
  else if String.eqb key KEY_MAX_EVENT_BYTES then
    match parse_u64 value with
    | Some parsed =>
        if max_event_bytes_in_range parsed
        then assign (with_receipt (set_max_event_bytes parsed)) st
        else refuse key "must be an integer from 65536 through 8388608" st
    | None => refuse key "must be an integer from 65536 through 8388608" st
    end
  else if String.eqb key KEY_RESEND_AFTER_SECONDS then
    match parse_u64 value with
    | Some parsed =>
        if resend_after_in_range parsed
        then assign (with_tombstone (λ t, TombstoneResend parsed (tr_cap t))) st
        else refuse key "must be an integer from 30 through 86400" st
    | None => refuse key "must be an integer from 30 through 86400" st
    end
  else if String.eqb key KEY_RESEND_CAP_SECONDS then
    match parse_u64 value with
    | Some parsed =>
        if (parsed <=? RESEND_CAP_MAX_SECONDS)%N
        then assign (with_tombstone (λ t, TombstoneResend (tr_after t) parsed)) st
        else refuse key "must be an integer of at most 604800" st
    | None => refuse key "must be an integer of at most 604800" st
    end
  else if String.eqb key KEY_BLOB_ROOT then
    apply_path key value must_be_directory (λ p, with_storage (set_blob_root p)) st
  else if String.eqb key KEY_DATABASE_URL then
    if pg_options_ok value then assign (with_storage (set_database_url value)) st
    else refuse key
      "must be a PostgreSQL connection URL naming user, password, host, and database" st
  else if String.eqb key KEY_LOG_FILTER then
    if String.eqb (trim value) "" then
      refuse key "must be a non-empty tracing filter expression" st
    else assign (set_log_filter value) st
  else if String.eqb key KEY_DATABASE_CONNECTIONS then apply_positive key value u32_max 0 st
  else if String.eqb key KEY_DATABASE_ACQUIRE_TIMEOUT_MS then
    apply_positive key value u64_max 1 st
  else if String.eqb key KEY_SHUTDOWN_TIMEOUT_MS then apply_positive key value u64_max 2 st
  else if String.eqb key KEY_MAX_ARCHIVE_BYTES then apply_positive key value u64_max 3 st
  else if String.eqb key KEY_MAX_ARCHIVE_ENTRIES then apply_positive key value u32_max 4 st
  else if String.eqb key KEY_MAX_ARCHIVE_ENTRY_BYTES then apply_positive key value u64_max 5 st
  else if String.eqb key KEY_MAX_ARCHIVE_DECOMPRESSED_BYTES then
    apply_positive key value u64_max 6 st
  else if String.eqb key KEY_MAX_ARCHIVE_COMPRESSION_RATIO then
    apply_positive key value u64_max 7 st
  else if String.eqb key KEY_RECEIPT_STAGING_ROOT then
    apply_path key value must_be_directory (λ p, with_storage (set_staging_root p)) st
  else if String.eqb key KEY_TENANT_TOKENS then
    if String.eqb value "" then refuse key must_be_tokens st
    else foldl (λ st entry, apply_token key entry st) st (split_on (is_char comma) value)
  else if String.eqb key KEY_PLATFORM_ACCOUNTS then
    if String.eqb value "" then refuse key must_be_accounts st
    else foldl (λ st entry, apply_account key entry st) st (split_on (is_char comma) value)
  else if String.eqb key KEY_EVENT_BUS_URL then
    if starts_with "nats://" value || starts_with "tls://" value
    then assign (with_receipt (set_event_bus_url value)) st
    else refuse key "must be a nats:// or tls:// endpoint" st
  else if String.eqb key KEY_EVENT_BUS_NKEY_SEED_PATH then
    apply_path key value "must be an absolute file path" (λ p, with_receipt (set_nkey_path p)) st
  else refuse key "is not recognized" st.

(** ** The whole environment *)

Definition apply_entries (entries : list (string * string)) (st : entry_state) : entry_state :=
  foldl (λ st e, if starts_with ENV_PREFIX e.1 then apply_entry e.1 e.2 st else st) st entries.

Definition names (keys : string → bool) (st : entry_state) : bool :=
  existsb (λ v, keys (v_key v)) st.2.

(** Pushes the violation unless the condition does not hold or one of the
    [keys] was refused already. *)
Definition require (broken : bool) (keys : string → bool) (key rule : string)
    (st : entry_state) : entry_state :=
  if broken && negb (names keys st) then refuse key rule st else st.

Definition is_none {A} (o : option A) : bool := match o with None => true | Some _ => false end.
Definition no_accounts (c : config) : bool :=
  bool_decide (rc_platform_accounts (cf_receipt c) = []).

Definition ends_with (suffix s : string) : bool :=
  bool_decide (String.length suffix <= String.length s) &&
  String.eqb (String.substring (String.length s - String.length suffix) (String.length suffix) s)
    suffix.

(** The checks after the entries, in their order: when the rule is broken,
    the keys whose refusal already explains it, and what to report. *)
Definition requirements (c : config) : list (bool * (string → bool) * string * string) :=
  let r := cf_receipt c in
  [ (is_none (sc_blob_root (cf_storage c)),
     String.eqb KEY_BLOB_ROOT, KEY_BLOB_ROOT, "is required");
    ((tr_cap (cf_tombstone c) <? tr_after (cf_tombstone c))%N,
     (λ k, String.eqb k KEY_RESEND_CAP_SECONDS || String.eqb k KEY_RESEND_AFTER_SECONDS),
     KEY_RESEND_CAP_SECONDS,
     "must be at least RATATOSKR__TOMBSTONE__RESEND_AFTER_SECONDS");
    (negb (no_accounts c) && is_none (rc_event_bus_url r),
     String.eqb KEY_EVENT_BUS_URL, KEY_EVENT_BUS_URL,
     "is required when Platform account mappings are configured");
    ((negb (is_none (rc_event_bus_url r)) || negb (no_accounts c))
       && is_none (rc_event_bus_nkey_seed_path r),
     String.eqb KEY_EVENT_BUS_NKEY_SEED_PATH, KEY_EVENT_BUS_NKEY_SEED_PATH,
     "is required when the event bus URL is configured");
    (bool_decide (rc_listen_address r = ac_listen_address (cf_admin c)),
     ends_with "__LISTEN_ADDRESS", KEY_RECEIPT_LISTEN_ADDRESS,
     "must differ from RATATOSKR__ADMIN__LISTEN_ADDRESS: the operator plane is never served on the receipt port") ].

Definition require_all (st : entry_state) : entry_state :=
  foldl (λ st '(broken, keys, key, rule), require broken keys key rule st) st
    (requirements st.1).

Definition from_environment (entries : list (string * string))
    : result (list violation) config :=
  let '(c, violations) := require_all (apply_entries entries (default_config, [])) in
  if bool_decide (violations = []) then Ok c else Err violations.

(** [Config::load]; the process environment is a list of byte strings. *)
Fixpoint unicode_entries (vars : list (string * string))
    : result (list violation) (list (string * string)) :=
  match vars with
  | [] => Ok []
  | (key, value) :: rest =>
      if negb (utf8_valid key) then unicode_entries rest
      else if negb (starts_with ENV_PREFIX key) then unicode_entries rest
      else if negb (utf8_valid value) then Err [Violation key "must contain Unicode text"]
      else let? entries := unicode_entries rest in Ok ((key, value) :: entries)
  end.

Definition load (vars : list (string * string)) : result (list violation) config :=
  let? entries := unicode_entries vars in from_environment entries.
End config.

(** ** What the fields may hold *)

Definition loopback_ok (a : socket_addr) : Prop := is_loopback a = true ∧ port a ≠ 0%N.
Definition absolute (p : string) : Prop := starts_with "/" p = true.
Definition positive (max n : N) : Prop := (0 < n <= max)%N.

Section config_laws.
Context (pg_options_ok : string → bool) (parse_uuid : string → option string).
#[local] Abbreviation apply_entry := (apply_entry pg_options_ok parse_uuid).
#[local] Abbreviation apply_account := (apply_account parse_uuid).
#[local] Abbreviation apply_entries := (apply_entries pg_options_ok parse_uuid).
#[local] Abbreviation from_environment := (from_environment pg_options_ok parse_uuid).

Record receipt_ok (r : receipt_config) : Prop := {
  ro_address : loopback_ok (rc_listen_address r);
  ro_event : (65536 <= rc_max_event_bytes r <= 8388608)%N;
  ro_tokens : Forall (λ t, tt_token t ≠ "" ∧ tt_account_external_ref t ≠ "")
                (rc_tenant_tokens r);
  ro_accounts : Forall (λ a, a.2 ≠ "" ∧ ∃ s, parse_uuid s = Some a.1) (rc_platform_accounts r);
  ro_url : ∀ u, rc_event_bus_url r = Some u →
             starts_with "nats://" u = true ∨ starts_with "tls://" u = true;
  ro_nkey : ∀ p, rc_event_bus_nkey_seed_path r = Some p → absolute p;
}.

Record storage_ok (s : storage_config) : Prop := {
  so_blob : ∀ p, sc_blob_root s = Some p → absolute p;
  so_url : ∀ u, sc_database_url s = Some u → pg_options_ok u = true;
  so_staging : ∀ p, sc_receipt_staging_root s = Some p → absolute p;
}.

Record limits_ok (l : limits) : Prop := {
  lo_connections : positive u32_max (li_database_connections l);
  lo_acquire : positive u64_max (li_database_acquire_timeout_ms l);
  lo_shutdown : positive u64_max (li_shutdown_timeout_ms l);
  lo_archive : positive u64_max (li_max_archive_bytes l);
  lo_entries : positive u32_max (li_max_archive_entries l);
  lo_entry : positive u64_max (li_max_archive_entry_bytes l);
  lo_decompressed : positive u64_max (li_max_archive_decompressed_bytes l);
  lo_ratio : positive u64_max (li_max_archive_compression_ratio l);
}.

Record fields_ok (c : config) : Prop := {
  fo_admin : loopback_ok (ac_listen_address (cf_admin c));
  fo_storage : storage_ok (cf_storage c);
  fo_filter : trim (tc_log_filter (cf_telemetry c)) ≠ "";
  fo_receipt : receipt_ok (cf_receipt c);
  fo_after : (30 <= tr_after (cf_tombstone c) <= 86400)%N;
  fo_cap : (tr_cap (cf_tombstone c) <= 604800)%N;
  fo_limits : limits_ok (cf_limits c);
}.

(** The cross-field rules. *)
Record config_ok (c : config) : Prop := {
  co_fields : fields_ok c;
  co_blob : sc_blob_root (cf_storage c) ≠ None;
  co_resend : (tr_after (cf_tombstone c) <= tr_cap (cf_tombstone c))%N;
  co_url : rc_platform_accounts (cf_receipt c) ≠ [] → rc_event_bus_url (cf_receipt c) ≠ None;
  co_nkey : rc_event_bus_url (cf_receipt c) ≠ None →
              rc_event_bus_nkey_seed_path (cf_receipt c) ≠ None;
  co_ports : rc_listen_address (cf_receipt c) ≠ ac_listen_address (cf_admin c);
}.

(** Every rule a violation may name. *)
Definition rules : list string := [
  must_be_loopback; "must be a socket address";
  "must be an integer from 65536 through 8388608"; "must be an integer from 30 through 86400";
  "must be an integer of at most 604800"; must_be_directory;
  "must be a PostgreSQL connection URL naming user, password, host, and database";
  "must be a non-empty tracing filter expression"; must_be_positive; must_be_tokens;
  "every pair needs a non-empty token and a non-empty account reference"; must_be_accounts;
  "every mapping needs a canonical platform user UUID";
  "every mapping needs a non-empty account reference"; "must be a nats:// or tls:// endpoint";
  "must be an absolute file path"; "is not recognized"; "is required";
  "must be at least RATATOSKR__TOMBSTONE__RESEND_AFTER_SECONDS";
  "is required when Platform account mappings are configured";
  "is required when the event bus URL is configured";
  "must differ from RATATOSKR__ADMIN__LISTEN_ADDRESS: the operator plane is never served on the receipt port"].

Definition known_keys : list string := [
  KEY_LISTEN_ADDRESS; KEY_RECEIPT_LISTEN_ADDRESS; KEY_MAX_EVENT_BYTES;
  KEY_RESEND_AFTER_SECONDS; KEY_RESEND_CAP_SECONDS; KEY_BLOB_ROOT; KEY_DATABASE_URL;
  KEY_LOG_FILTER; KEY_DATABASE_CONNECTIONS; KEY_DATABASE_ACQUIRE_TIMEOUT_MS;
  KEY_SHUTDOWN_TIMEOUT_MS; KEY_MAX_ARCHIVE_BYTES; KEY_MAX_ARCHIVE_ENTRIES;
  KEY_MAX_ARCHIVE_ENTRY_BYTES; KEY_MAX_ARCHIVE_DECOMPRESSED_BYTES;
  KEY_MAX_ARCHIVE_COMPRESSION_RATIO; KEY_RECEIPT_STAGING_ROOT; KEY_TENANT_TOKENS;
  KEY_PLATFORM_ACCOUNTS; KEY_EVENT_BUS_URL; KEY_EVENT_BUS_NKEY_SEED_PATH].

(** The keys a cross-field rule may name. *)
Definition required_keys : list string := [
  KEY_BLOB_ROOT; KEY_RESEND_CAP_SECONDS; KEY_EVENT_BUS_URL; KEY_EVENT_BUS_NKEY_SEED_PATH;
  KEY_RECEIPT_LISTEN_ADDRESS].

(** An action of the entry [key]: it rewrites the configuration within
    [fields_ok] and appends violations that name the key and a rule, the
    same whatever was read before. *)
Definition lawful (key : string) (act : entry_state → entry_state) : Prop :=
  ∃ (f : config → config) (new : list violation),
    (∀ st, act st = (f st.1, st.2 ++ new)) ∧
    (∀ c, fields_ok c → fields_ok (f c)) ∧
    Forall (λ v, v_key v = key ∧ v_rule v ∈ rules) new.

Lemma lawful_assign key f :
  (∀ c, fields_ok c → fields_ok (f c)) → lawful key (assign f).
Proof. intros Hf. exists f, []. split_and!; [intros []; cbn; by rewrite app_nil_r|done|done]. Qed.

Lemma lawful_refuse key rule : bool_decide (rule ∈ rules) = true → lawful key (refuse key rule).
Proof.
  intros H%bool_decide_eq_true_1. exists id, [Violation key rule].
  split_and!; [done|done|]. constructor; [done|constructor].
Qed.

Lemma lawful_foldl {A} key (act : A → entry_state → entry_state) l :
  (∀ x, lawful key (act x)) → lawful key (λ st, foldl (λ st x, act x st) st l).
Proof.
  intros Hact. induction l as [|x l (f & new & Hf & Hok & Hnew)]; cbn.
  - exists id, []. split_and!; [intros []; cbn; by rewrite app_nil_r|done|done].
  - destruct (Hact x) as (f1 & new1 & Hf1 & Hok1 & Hnew1).
    exists (f ∘ f1), (new1 ++ new). split_and!.
    + intros st. by rewrite Hf1, Hf, app_assoc.
    + intros c Hc. by apply Hok, Hok1.
    + by apply Forall_app.
Qed.

Lemma with_receipt_ok f :
  (∀ r, receipt_ok r → receipt_ok (f r)) → ∀ c, fields_ok c → fields_ok (with_receipt f c).
Proof. intros Hf c []. constructor; cbn; auto. Qed.
Lemma with_storage_ok f :
  (∀ s, storage_ok s → storage_ok (f s)) → ∀ c, fields_ok c → fields_ok (with_storage f c).
Proof. intros Hf c []. constructor; cbn; auto. Qed.
Lemma with_limits_ok f :
  (∀ l, limits_ok l → limits_ok (f l)) → ∀ c, fields_ok c → fields_ok (with_limits f c).
Proof. intros Hf c []. constructor; cbn; auto. Qed.

(** A setter keeps the fields valid when the value it writes is. *)
#[local] Ltac fields :=
  first [ apply with_receipt_ok; intros ? [] | apply with_storage_ok; intros ? [] | intros ? [] ];
  constructor; cbn [cf_admin cf_storage cf_telemetry cf_receipt cf_tombstone cf_limits
    with_tombstone set_log_filter set_admin_address ac_listen_address tc_log_filter tr_after tr_cap
    set_receipt_address set_max_event_bytes set_event_bus_url set_nkey_path rc_listen_address
    rc_max_event_bytes rc_tenant_tokens rc_platform_accounts rc_event_bus_url
    rc_event_bus_nkey_seed_path set_blob_root set_database_url set_staging_root sc_blob_root
    sc_database_url sc_receipt_staging_root]; intros; simplify_eq; auto.

Lemma lawful_address key value set :
  (∀ a, loopback_ok a → ∀ c, fields_ok c → fields_ok (set a c)) →
  lawful key (apply_address key value set).
Proof.
  intros Hset. unfold apply_address. destruct (parse_socket_addr value) as [a|].
  - destruct (is_loopback a && negb (port a =? 0)%N) eqn:E;
      [apply lawful_assign, Hset|by apply lawful_refuse].
    apply andb_prop in E as [? E]. split; [done|]. intros Hp. by rewrite Hp in E.
  - by apply lawful_refuse.
Qed.

Lemma parse_positive_ok max value n : parse_positive max value = Ok n → positive max n.
Proof.
  unfold parse_positive. destruct (parse_unsigned max value) as [m|] eqn:E; [|done].
  destruct (m <=? 0)%N eqn:Hm; [done|]. intros [= <-]. apply N.leb_gt in Hm.
  split; [lia|]. by eapply parse_unsigned_bound.
Qed.

Lemma lawful_positive key value i max :
  (∀ n, positive max n → ∀ l, limits_ok l → limits_ok (set_limit i n l)) →
  lawful key (apply_positive key value max i).
Proof.
  intros Hset. unfold apply_positive. destruct (parse_positive max value) as [n|rule] eqn:E.
  - apply lawful_assign, with_limits_ok, Hset. by eapply parse_positive_ok.
  - apply lawful_refuse. unfold parse_positive in E.
    repeat case_match; simplify_eq; reflexivity.
Qed.

Lemma lawful_path key value rule set :
  bool_decide (rule ∈ rules) = true →
  (∀ p, absolute p → ∀ c, fields_ok c → fields_ok (set p c)) →
  lawful key (apply_path key value rule set).
Proof.
  intros Hrule Hset. unfold apply_path, parse_absolute_path.
  destruct (String.eqb _ _); [by apply lawful_refuse|].
  destruct (starts_with "/" (trim value)) eqn:E; [|by apply lawful_refuse].
  by apply lawful_assign, Hset.
Qed.

Lemma lawful_token key entry : lawful key (apply_token key entry).
Proof.
  unfold apply_token. destruct (split_once equals entry) as [[t r]|]; [|by apply lawful_refuse].
  destruct (_ || _) eqn:E; [by apply lawful_refuse|].
  apply orb_false_iff in E as [?%String.eqb_neq ?%String.eqb_neq].
  apply lawful_assign, with_receipt_ok. intros ? []. constructor; cbn; auto.
  apply Forall_app; auto.
Qed.

Lemma lawful_account key entry : lawful key (apply_account key entry).
Proof.
  unfold Config.apply_account.
  destruct (split_once equals entry) as [[u a]|]; [|by apply lawful_refuse].
  destruct (parse_uuid u) eqn:Hu; [|by apply lawful_refuse].
  destruct (String.eqb a "") eqn:E; [by apply lawful_refuse|]. apply String.eqb_neq in E.
  apply lawful_assign, with_receipt_ok. intros ? []. constructor; cbn; auto.
  apply Forall_app; eauto 6.
Qed.

Lemma lawful_apply_entry key value : lawful key (apply_entry key value).
Proof.
  unfold Config.apply_entry, parse_u64.
  repeat match goal with
  | |- lawful _ (λ st, if ?b then _ else _) => destruct b eqn:?E
  | |- lawful _ (λ st, match ?o with Some _ => _ | None => _ end) => destruct o eqn:?E
  end;
  try first
    [ apply (lawful_refuse key); reflexivity
    | apply (lawful_foldl key); intros; first [apply lawful_token|apply lawful_account]
    | apply lawful_positive; intros ? ? ? []; constructor; assumption ].
  all: first
    [ apply (lawful_address key); intros ? ?
    | apply (lawful_path key); [reflexivity|intros ? ?]
    | apply (lawful_assign key) ].
  all: fields.
  all: unfold max_event_bytes_in_range, resend_after_in_range, RESEND_CAP_MAX_SECONDS in *;
    reflect_bools; try lia; auto.
Qed.

(** What an entry has to say about itself. *)
Definition refusals (e : string * string) : list violation :=
  if starts_with ENV_PREFIX e.1 then (apply_entry e.1 e.2 (default_config, [])).2 else [].

Definition from_entry (e : string * string) (v : violation) : Prop :=
  v_key v = e.1 ∧ v_rule v ∈ rules.

Lemma refusals_named e : Forall (from_entry e) (refusals e).
Proof.
  unfold refusals. destruct (starts_with _ _); [|constructor].
  destruct (lawful_apply_entry e.1 e.2) as (f & new & -> & _ & Hnew). done.
Qed.

Lemma apply_entries_spec es st :
  fields_ok st.1 →
  fields_ok (apply_entries es st).1 ∧ (apply_entries es st).2 = st.2 ++ (es ≫= refusals).
Proof.
  revert st. unfold Config.apply_entries.
  induction es as [|e es IH]; intros st Hst; [by rewrite app_nil_r|].
  cbn [foldl mbind list_bind]. unfold refusals at 1.
  destruct (starts_with ENV_PREFIX e.1); [|by apply IH].
  destruct (lawful_apply_entry e.1 e.2) as (f & new & Hact & Hok & Hnew).
  rewrite !Hact. destruct (IH (f st.1, st.2 ++ new)) as [H1 H2]; [by apply Hok|].
  split; [done|]. cbn in *. rewrite H2. by rewrite app_assoc.
Qed.

Lemma default_fields_ok : fields_ok default_config.
Proof. repeat constructor; try done. Qed.

Lemma require_cases broken keys key rule st :
  (require broken keys key rule st).1 = st.1 ∧
  ∃ new, (require broken keys key rule st).2 = st.2 ++ new ∧
    Forall (λ v, v = Violation key rule) new ∧ (st.2 ++ new = [] → broken = false).
Proof.
  unfold require. destruct broken; cbn.
  - destruct (names keys st) eqn:E; cbn.
    + split; [done|]. exists []. rewrite app_nil_r. split_and!; [done|done|].
      intros Hst. unfold names in E. by rewrite Hst in E.
    + split; [done|]. exists [Violation key rule]. split_and!; [done|by repeat constructor|].
      by intros [_ ?]%app_nil.
  - split; [done|]. exists []. rewrite app_nil_r. by split_and!.
Qed.

Definition from_cross_rule (v : violation) : Prop :=
  v_key v ∈ required_keys ∧ v_rule v ∈ rules.

Lemma require_list (l : list (bool * (string → bool) * string * string)) st :
  let st' := foldl (λ st '(broken, keys, key, rule), require broken keys key rule st) st l in
  forallb (λ x, bool_decide (x.1.2 ∈ required_keys ∧ x.2 ∈ rules)) l = true →
  st'.1 = st.1 ∧
  ∃ new, st'.2 = st.2 ++ new ∧ Forall from_cross_rule new ∧
    (st'.2 = [] → Forall (λ x, x.1.1.1 = false) l).
Proof.
  revert st. induction l as [|[[[b ks] k] r] l IH]; cbn [foldl forallb]; intros st Hl.
  { split; [done|]. exists []. by rewrite app_nil_r. }
  apply andb_prop in Hl as [Hr%bool_decide_eq_true_1 Hl].
  destruct (require_cases b ks k r st) as (Hc & n & Hn & Hall & Hb).
  destruct (IH (require b ks k r st) Hl) as (Hc' & new & Hn' & Hnew & Hf).
  rewrite Hc', Hn', Hn, <-app_assoc. split; [done|]. exists (n ++ new). split_and!; [done| |].
  - apply Forall_app. split; [|done]. eapply Forall_impl; [exact Hall|]. by intros v ->.
  - intros H. constructor; [|apply Hf; by rewrite Hn', Hn, <-app_assoc].
    apply Hb. rewrite app_assoc in H. by apply app_nil in H as [].
Qed.

Lemma require_all_spec st :
  (require_all st).1 = st.1 ∧
  ∃ new, (require_all st).2 = st.2 ++ new ∧ Forall from_cross_rule new ∧
    ((require_all st).2 = [] → Forall (λ x, x.1.1.1 = false) (requirements st.1)).
Proof. apply require_list. reflexivity. Qed.

Lemma from_environment_cases es :
  fields_ok (apply_entries es (default_config, [])).1 ∧
  ∃ new, Forall from_cross_rule new ∧
    match from_environment es with
    | Ok c => c = (apply_entries es (default_config, [])).1 ∧ es ≫= refusals = [] ∧
              Forall (λ x, x.1.1.1 = false) (requirements c)
    | Err vs => vs = (es ≫= refusals) ++ new
    end.
Proof.
  destruct (apply_entries_spec es (default_config, []) default_fields_ok) as [Hok Hvs].
  split; [done|]. cbn [snd app] in Hvs.
  destruct (require_all_spec (apply_entries es (default_config, []))) as (Hc & new & Hn & Hnew & Hf).
  exists new. split; [done|]. unfold Config.from_environment.
  destruct (require_all _) as [c vs]. cbn in *. subst c. rewrite Hvs in Hn.
  destruct (bool_decide (vs = [])) eqn:E; [|done].
  apply bool_decide_eq_true_1 in E as ->. symmetry in Hn. apply app_nil in Hn as [Hn ->].
  split_and!; auto.
Qed.

Lemma unknown_key_refused k v :
  k ∉ known_keys → (apply_entry k v (default_config, [])).2 = [Violation k "is not recognized"].
Proof.
  intros Hk. unfold Config.apply_entry.
  repeat match goal with |- context [if String.eqb k ?c then _ else _] =>
    destruct (String.eqb_spec k c) as [->|_]; [exfalso; apply Hk; unfold known_keys; set_solver|]
  end.
  reflexivity.
Qed.

(** A configuration the loader returns is within every declared range: both
    listeners are loopback addresses with a port and differ, the event bound
    and the resend interval lie in their ranges with the cap no smaller than
    the interval, every limit is positive and fits its width, every path is
    absolute, every credential pair is complete, and the required keys are
    present (the blob root; with account mappings the event bus URL; with an
    event bus the NKey path). *)
Theorem config_sound (es : list (string * string)) (c : config) :
  from_environment es = Ok c → config_ok c.
Proof.
  destruct (from_environment_cases es) as (Hok & new & _ & H). intros E. rewrite E in H.
  destruct H as (-> & _ & Hr). set (c := (apply_entries es (default_config, [])).1) in *.
  unfold requirements in Hr. rewrite !Forall_cons in Hr. cbn [fst] in Hr.
  destruct Hr as (H1 & H2 & H3 & H4 & H5 & _). unfold no_accounts in *.
  constructor.
  - done.
  - by destruct (sc_blob_root _).
  - by apply N.ltb_ge in H2.
  - intros Ha. rewrite bool_decide_eq_false_2 in H3 by done. by destruct (rc_event_bus_url _).
  - intros Hu. destruct (rc_event_bus_url _); [|done].
    by destruct (rc_event_bus_nkey_seed_path _).
  - by apply bool_decide_eq_false in H5.
Qed.

(** The key set is closed and the report complete: whatever the order of the
    entries, a refusal lists every violation of every prefixed entry, in
    entry order, then at most the cross-field rules; a violation names the
    entry's key (or a required key) and one of the fixed rules, so never a
    supplied value; and an accepted environment has no unknown key under
    the prefix and no entry with a violation. *)
Theorem config_reports_everything (es : list (string * string)) :
  match from_environment es with
  | Ok _ => Forall (λ e, refusals e = [] ∧
              (starts_with ENV_PREFIX e.1 = true → e.1 ∈ known_keys)) es
  | Err vs => ∃ cross, vs = (es ≫= refusals) ++ cross ∧ Forall from_cross_rule cross ∧
                Forall (λ v, Exists (λ e, from_entry e v) es ∨ from_cross_rule v) vs
  end.
Proof.
  destruct (from_environment_cases es) as (_ & new & Hnew & H).
  destruct (from_environment es) as [c|vs].
  - destruct H as (_ & H & _). apply Forall_forall. intros e He.
    assert (refusals e = []) as Hr.
    { apply list_elem_of_split in He as (l1 & l2 & ->). rewrite bind_app, bind_cons in H.
      apply app_nil in H as [_ H]. by apply app_nil in H as []. }
    split; [done|]. intros Hp. destruct (decide (e.1 ∈ known_keys)) as [|Hn]; [done|].
    unfold refusals in Hr. by rewrite Hp, unknown_key_refused in Hr.
  - exists new. split_and!; [done|done|]. rewrite H. apply Forall_app. split.
    + apply Forall_forall. intros v (e & Hv & He)%list_elem_of_bind. left.
      apply Exists_exists. exists e. split; [done|].
      by eapply Forall_forall in Hv; [|apply refusals_named].
    + eapply Forall_impl; [exact Hnew|]. by right.
Qed.
End config_laws.

(** ** Witness *)

Module ConfigWitness.
Definition entries : list (string * string) :=
  [("PATH", "/bin"); (KEY_BLOB_ROOT, " /var/blobs "); (KEY_RESEND_AFTER_SECONDS, "60");
   (KEY_TENANT_TOKENS, "t1=acct,t2=other")].
Definition loaded : result (list violation) config :=
  from_environment (λ _, true) (λ _, None) entries.

Example refused_entries :
  from_environment (λ _, true) (λ _, None)
    [("RATATOSKR__NOPE", "1"); (KEY_MAX_EVENT_BYTES, "10"); (KEY_TENANT_TOKENS, "t1=,x")]
  = Err [Violation "RATATOSKR__NOPE" "is not recognized";
         Violation KEY_MAX_EVENT_BYTES "must be an integer from 65536 through 8388608";
         Violation KEY_TENANT_TOKENS "every pair needs a non-empty token and a non-empty account reference";
         Violation KEY_TENANT_TOKENS must_be_tokens;
         Violation KEY_BLOB_ROOT "is required"].
Proof. vm_compute. reflexivity. Qed.

Lemma config_sound_witness :
  match loaded with Ok c => config_ok (λ _, true) (λ _, None) c | Err _ => False end.
Proof. apply (config_sound (λ _, true) (λ _, None) entries). vm_compute. reflexivity. Defined.
End ConfigWitness.
