(* ===== verification/Principals.v ===== *)
(** * Tenants and owners ([receipt/auth.rs], [owner.rs])

    A bearer token authenticates to one archive account; an account's facts
    belong to the Platform user the configuration binds it to.  Both tables are
    [HashMap]s collected from a configured list, so the last pair of a key
    wins. *)

From S2P Require Import Prelude Std Config.

(** [pairs.into_iter().collect::<HashMap>()]. *)
Definition collect {A} (pairs : list (string * A)) : gmap string A :=
  foldl (λ m kv, <[kv.1 := kv.2]> m) ∅ pairs.

(** ** Authentication *)

Record tenant_principal : Set := TenantPrincipal { account_external_ref : string }.

(** Every refusal is this one value. *)
Inductive unauthenticated : Set := Unauthenticated.

Record config_tenant_authenticator : Set := ConfigTenantAuthenticator {
  ca_entries : gmap string string;
}.

(** [ConfigTenantAuthenticator::new]. *)
Definition authenticator_new (pairs : list (string * string)) : config_tenant_authenticator :=
  ConfigTenantAuthenticator (collect pairs).

Definition from_config (r : receipt_config) : config_tenant_authenticator :=
  ConfigTenantAuthenticator
    (collect ((λ t, (tt_token t, tt_account_external_ref t)) <$> rc_tenant_tokens r)).

Definition space : ascii := " "%char.

Definition authenticate (a : config_tenant_authenticator) (credential : option string)
    : result unauthenticated tenant_principal :=
  match credential with
  | None => Err Unauthenticated
  | Some header =>
      match split_once space header with
      | None => Err Unauthenticated
      | Some (scheme, token) =>
          if negb (eq_ignore_ascii_case scheme "bearer") then Err Unauthenticated
          else if String.eqb token "" || contains_whitespace token then Err Unauthenticated
          else match ca_entries a !! token with
               | None => Err Unauthenticated
               | Some reference => Ok (TenantPrincipal reference)
               end
      end
  end.

(** ** Owners *)

Section owner.
Context {tenant_ref : Type} (of_user : string → tenant_ref).

Record owner_resolver : Type := OwnerResolver { by_external_ref : gmap string tenant_ref }.

Definition owner_resolver_new (platform_accounts : list (string * string)) : owner_resolver :=
  OwnerResolver (collect ((λ a, (a.2, of_user a.1)) <$> platform_accounts)).

Definition owner_of (r : owner_resolver) (account_external_ref : string) : option tenant_ref :=
  by_external_ref r !! account_external_ref.

(** [owner_of_account]; [external_ref] is the row's column: [None] for a
    missing row, [Some None] for a row without a reference. *)
Definition owner_of_account (r : owner_resolver) (external_ref : option (option string))
    : option tenant_ref :=
  mjoin external_ref ≫= owner_of r.
End owner.

(** ** Laws *)

Lemma collect_lookup {A} (l : list (string * A)) (k : string) :
  collect l !! k = snd <$> last (filter (λ kv, kv.1 = k) l).
Proof.
  induction l as [|[k' v] l IH] using rev_ind; [done|].
  unfold collect in *. rewrite foldl_app, filter_app. cbn [foldl]. destruct (decide (k' = k)) as [->|Hk].
  - rewrite lookup_insert_eq, filter_cons_True, filter_nil by done. by rewrite last_snoc.
  - rewrite lookup_insert_ne by done. rewrite filter_cons_False, filter_nil by done. by rewrite app_nil_r.
Qed.

Lemma split_once_spec (d : ascii) (s a b : string) :
  split_once d s = Some (a, b) ↔ s = a +:+ String d b ∧ contains_char d a = false.
Proof.
  revert a. induction s as [|c s IH]; intros a; cbn.
  { split; [done|]. intros [H _]. by destruct a. }
  destruct (Ascii.eqb_spec d c) as [<-|Hc].
  - split; [intros [= <- <-]; by split|]. destruct a as [|c' a]; cbn; [by intros [[= ->] _]|].
    intros [[= -> H] Ha]. exfalso. revert Ha. unfold contains_char, any_byte, is_char. cbn. by rewrite Ascii.eqb_refl.
  - destruct (split_once d s) as [[a' b']|] eqn:E.
    + split.
      * intros [= <- <-]. destruct (proj1 (IH a') eq_refl) as [-> Ha].
        split; [done|]. unfold contains_char, any_byte, is_char in *. cbn.
        by rewrite (proj2 (Ascii.eqb_neq d c)).
      * intros [Hs Ha]. destruct a as [|c' a2]; [by injection Hs as ->|]. injection Hs as <- ->.
        enough (Some (a', b') = Some (a2, b)) by congruence.
        apply IH. split; [done|]. unfold contains_char, any_byte, is_char in *. cbn in Ha.
        by rewrite (proj2 (Ascii.eqb_neq d c)) in Ha.
    + split; [done|]. intros [Hs Ha]. destruct a as [|c' a2]; [by injection Hs as ->|].
      injection Hs as <- ->.
      enough (None = Some (a2, b)) by done. apply IH. split; [done|].
      unfold contains_char, any_byte, is_char in *. cbn in Ha.
      by rewrite (proj2 (Ascii.eqb_neq d c)) in Ha.
Qed.

Lemma filter_fmap {A B} (P : B → Prop) `{∀ x, Decision (P x)} (f : A → B) (l : list A) :
  filter P (f <$> l) = f <$> filter (λ x, P (f x)) l.
Proof.
  induction l as [|x l IH]; [done|]. rewrite fmap_cons. destruct (decide (P (f x))).
  - rewrite !filter_cons_True by done. by rewrite fmap_cons, IH.
  - by rewrite !filter_cons_False by done.
Qed.

(** A credential authenticates exactly when it is [Bearer <token>] (the scheme
    in any case, one separating space, a token without white space) and the
    token is configured; the account is the one the last pair of that token
    names.  Every other credential gets the same refusal. *)
Theorem authenticate_exact (r : receipt_config) (credential : option string) (account : string) :
  authenticate (from_config r) credential = Ok (TenantPrincipal account) ↔
  ∃ scheme token pair,
    credential = Some (scheme +:+ " " +:+ token) ∧ contains_char space scheme = false ∧
    eq_ignore_ascii_case scheme "bearer" = true ∧ token ≠ "" ∧ contains_whitespace token = false ∧
    last (filter (λ t, tt_token t = token) (rc_tenant_tokens r)) = Some pair ∧
    tt_account_external_ref pair = account.
Proof.
  assert (∀ token, ca_entries (from_config r) !! token =
    tt_account_external_ref <$> last (filter (λ t, tt_token t = token) (rc_tenant_tokens r))) as Hl.
  { intros token. unfold from_config. cbn [ca_entries]. rewrite collect_lookup.
    rewrite filter_fmap, fmap_last, <-option_fmap_compose. done. }
  destruct credential as [header|]; cbn; [|split; [done|naive_solver]].
  destruct (split_once space header) as [[scheme token]|] eqn:E.
  - apply split_once_spec in E as [-> Hs].
    assert (∀ s t : string, scheme +:+ String space token = s +:+ " " +:+ t →
      contains_char space s = false → scheme = s ∧ token = t) as Hinj.
    { intros s t Heq Hc. assert (split_once space (scheme +:+ String space token) = Some (s, t)) as H1
        by (by apply split_once_spec).
      assert (split_once space (scheme +:+ String space token) = Some (scheme, token)) as H2
        by (by apply split_once_spec). by simplify_eq. }
    split.
    + destruct (eq_ignore_ascii_case scheme "bearer") eqn:Eb; cbn; [|done].
      destruct (String.eqb_spec token ""); cbn; [done|].
      destruct (contains_whitespace token) eqn:Ew; cbn; [done|]. rewrite Hl.
      destruct (last _) as [pair|] eqn:El; cbn; [|done]. intros [= <-].
      by exists scheme, token, pair.
    + intros (s & t & pair & [= Heq] & Hc & Hb & Ht & Hw & El & Hr).
      destruct (Hinj s t Heq Hc) as [-> ->]. rewrite Hb, Hw, Hl, El. cbn. rewrite Hr.
      by destruct (String.eqb_spec t "").
  - split; [done|]. intros (s & t & pair & [= ->] & Hc & _).
    assert (split_once space (s +:+ " " +:+ t) = Some (s, t)) by (by apply split_once_spec). congruence.
Qed.
