(* ===== verification/Postgres.v ===== *)
(** * The service's durable state: a disk and a PostgreSQL database

    Statements, transactions and the other writers.  A database statement
    takes effect and answers, is refused, or takes effect while the answer is
    lost; which one is decided by a schedule in the state, so a theorem about
    every state covers every failure - a crash is a schedule that refuses
    everything from some point on.  Before every autocommit statement and
    every transaction another process may act on the disk and the tables: the
    state holds a schedule of such actions too, and theorems constrain what
    they may do. *)

From S2P Require Import Prelude Disk.

#[local] Open Scope result_scope.

Inductive fault : Set :=
| Fine      (* the statement runs and answers *)
| Refused   (* it does not run *)
| Unheard.  (* it runs, the answer is lost *)

Inductive sql_error : Set := SqlError.

(** What other processes share with this one. *)
Definition snap (T : Type) : Type := gmap string node * T.

(** What one transaction, or one statement on its own, did: the advisory locks
    it held when it ended, and the shared state before and after. *)
Record step (T : Type) : Type := Step {
  st_locks : list string;
  st_before : snap T;
  st_after : snap T;
}.
Arguments Step {T} _ _ _.
Arguments st_locks {T} _.
Arguments st_before {T} _.
Arguments st_after {T} _.

Record database (T : Type) : Type := Database {
  db_tables : T;
  db_locks : list string;              (* advisory locks of the open transaction *)
  db_faults : list fault;
  db_others : list (snap T → snap T);  (* what other processes do next *)
  db_steps : list (step T);            (* the history: no code reads it *)
}.
Arguments Database {T} _ _ _ _ _.
Arguments db_tables {T} _.
Arguments db_locks {T} _.
Arguments db_faults {T} _.
Arguments db_others {T} _.
Arguments db_steps {T} _.

Record world (T : Type) : Type := World {
  w_disk : disk;
  w_db : database T;
  w_mint : N;  (* the next UUID *)
}.
Arguments World {T} _ _ _.
Arguments w_disk {T} _.
Arguments w_db {T} _.
Arguments w_mint {T} _.

Section world.
Context {T : Type}.

Definition w_tables (w : world T) : T := db_tables (w_db w).
Definition w_locks (w : world T) : list string := db_locks (w_db w).
Definition w_others (w : world T) : list (snap T → snap T) := db_others (w_db w).
Definition w_steps (w : world T) : list (step T) := db_steps (w_db w).
Definition w_snap (w : world T) : snap T := (d_nodes (w_disk w), w_tables w).

Definition set_disk (d : disk) (w : world T) : world T := World d (w_db w) (w_mint w).
Definition set_db (db : database T) (w : world T) : world T := World (w_disk w) db (w_mint w).
Definition set_tables (t : T) (w : world T) : world T :=
  set_db (Database t (w_locks w) (db_faults (w_db w)) (w_others w) (w_steps w)) w.
Definition set_locks (l : list string) (w : world T) : world T :=
  set_db (Database (w_tables w) l (db_faults (w_db w)) (w_others w) (w_steps w)) w.

(** A step that began at [before] and ends here. *)
Definition log_step (locks : list string) (before : snap T) (w : world T) : world T :=
  set_db (Database (w_tables w) (w_locks w) (db_faults (w_db w)) (w_others w)
            (w_steps w ++ [Step locks before (w_snap w)])) w.

(** The end of a transaction releases its locks. *)
Definition end_step (before : snap T) (w : world T) : world T :=
  set_locks [] (log_step (w_locks w) before w).

(** A computation on the disk alone. *)
Definition with_disk {E A} (c : sm disk E A) : sm (world T) E A := λ w,
  let '(r, d) := c (w_disk w) in (r, set_disk d w).

(** [Uuid::now_v7]. *)
Definition mint {E} : sm (world T) E N := λ w,
  (Ok (w_mint w), World (w_disk w) (w_db w) (w_mint w + 1)).

Definition next_fault (w : world T) : fault := default Fine (head (db_faults (w_db w))).
Definition drop_fault (w : world T) : world T :=
  set_db (Database (w_tables w) (w_locks w) (tail (db_faults (w_db w))) (w_others w) (w_steps w)) w.

(** The next scheduled action of the other processes. *)
Definition interfere (w : world T) : world T :=
  match w_others w with
  | [] => w
  | f :: rest =>
      let '(ns, t) := f (w_snap w) in
      World (Disk ns (d_faults (w_disk w)))
        (Database t (w_locks w) (db_faults (w_db w)) rest (w_steps w)) (w_mint w)
  end.

(** A statement inside an open transaction: without an answer the
    transaction is lost, whatever the server did. *)
Definition statement {A} (op : T → result sql_error (A * T)) : sm (world T) sql_error A := λ w,
  match next_fault w, op (w_tables w) with
  | Fine, Ok (a, t) => (Ok a, set_tables t (drop_fault w))
  | Fine, Err e => (Err e, drop_fault w)
  | _, _ => (Err SqlError, drop_fault w)
  end.

(** [pg_advisory_xact_lock]. *)
Definition take_lock (l : string) : sm (world T) sql_error unit := λ w,
  match next_fault w with
  | Fine => (Ok tt, set_locks (w_locks w ++ [l]) (drop_fault w))
  | _ => (Err SqlError, drop_fault w)
  end.

(** A statement on its own: it commits by itself. *)
Definition auto {A} (op : T → result sql_error (A * T)) : sm (world T) sql_error A := λ w,
  let w := interfere w in
  let '(r, u) :=
    match next_fault w, op (w_tables w) with
    | Fine, Ok (a, t) => (Ok a, set_tables t (drop_fault w))
    | Fine, Err e => (Err e, drop_fault w)
    | Refused, _ => (Err SqlError, drop_fault w)
    | Unheard, Ok (_, t) => (Err SqlError, set_tables t (drop_fault w))
    | Unheard, Err _ => (Err SqlError, drop_fault w)
    end in
  (r, log_step [] (w_snap w) u).

(** [begin], the body, [commit].  An error return drops the transaction:
    the tables are as at the beginning.  The disk is not rolled back. *)
Definition transaction {E A} (backend : sql_error → E) (body : sm (world T) E A)
    : sm (world T) E A := λ w,
  let w := interfere w in
  let before := w_snap w in
  match next_fault w with
  | Fine =>
      let saved := w_tables w in
      match body (drop_fault w) with
      | (Err e, w) => (Err e, end_step before (set_tables saved w))
      | (Ok a, w) =>
          match next_fault w with
          | Fine => (Ok a, end_step before (drop_fault w))
          | Refused => (Err (backend SqlError), end_step before (set_tables saved (drop_fault w)))
          | Unheard => (Err (backend SqlError), end_step before (drop_fault w))
          end
      end
  | _ => (Err (backend SqlError), drop_fault w)
  end.

(** The same by hand, for code that ends its transaction on several paths:
    [begin_tx] returns the tables to go back to.  Such code leaves the disk
    alone. *)
Definition begin_tx : sm (world T) sql_error T := λ w,
  let w := interfere w in
  match next_fault w with
  | Fine => (Ok (w_tables w), drop_fault w)
  | _ => (Err SqlError, drop_fault w)
  end.

Definition commit_tx (saved : T) : sm (world T) sql_error unit := λ w,
  match next_fault w with
  | Fine => (Ok tt, end_step (d_nodes (w_disk w), saved) (drop_fault w))
  | Refused => (Err SqlError, end_step (d_nodes (w_disk w), saved) (set_tables saved (drop_fault w)))
  | Unheard => (Err SqlError, end_step (d_nodes (w_disk w), saved) (drop_fault w))
  end.

Definition rollback_tx {E} (saved : T) : sm (world T) E unit := λ w,
  (Ok tt, set_locks [] (set_tables saved w)).
End world.

Lemma alone {T} (w : world T) : w_others w = [] → interfere w = w.
Proof. unfold interfere. by intros ->. Qed.

Lemma auto_Ok_inv {T A} (op : T → result sql_error (A * T)) w a w' :
  auto op w = (Ok a, w') → op (w_tables (interfere w)) = Ok (a, w_tables w').
Proof.
  unfold auto. set (v := interfere w).
  destruct (next_fault v), (op (w_tables v)) as [[b t]|e] eqn:E; intros [= <- <-]; done.
Qed.

Lemma transaction_Ok_inv {T E A} (backend : sql_error → E) (body : sm (world T) E A) w a w' :
  transaction backend body w = (Ok a, w') →
  ∃ u, body (drop_fault (interfere w)) = (Ok a, u) ∧
    w_tables w' = w_tables u ∧ w_disk w' = w_disk u ∧ w_others w' = w_others u.
Proof.
  unfold transaction. destruct (next_fault _); [|done..].
  destruct (body _) as [[b|e] u]; [|done]. destruct (next_fault u); intros [= -> <-]; by exists u.
Qed.

Lemma transaction_inv {T E A} (backend : sql_error → E) (body : sm (world T) E A) w r w' :
  transaction backend body w = (r, w') →
  let v := interfere w in
  (r = Err (backend SqlError) ∧ w_tables w' = w_tables v) ∨
  ∃ x u, body (drop_fault v) = (x, u) ∧ (r = x ∨ r = Err (backend SqlError)) ∧
    (w_tables w' = w_tables v ∨ (is_ok x = true ∧ w_tables w' = w_tables u)).
Proof.
  unfold transaction. set (v := interfere w). destruct (next_fault v); [|intros [= <- <-]; by left..].
  destruct (body _) as [[a|e] u]; [destruct (next_fault u)|]; intros [= <- <-]; right; eexists _, u;
    (split; [done|]); split; auto.
Qed.

(** A computation of a transaction's body on a part of the tables: inside a
    transaction no other process acts. *)
Definition zoom {T U E A} (get : T → U) (put : U → T → T) (c : sm (world U) E A)
    : sm (world T) E A := λ w,
  let db := w_db w in
  let '(r, v) := c (World (w_disk w) (Database (get (w_tables w)) (w_locks w) (db_faults db) [] []) (w_mint w)) in
  (r, World (w_disk v)
        (Database (put (w_tables v) (w_tables w)) (w_locks v) (db_faults (w_db v)) (w_others w) (w_steps w))
        (w_mint v)).

(** ** Rely and guarantee

    [respects Q]: a computation moves the shared state only along the
    preorder [Q], as long as the other processes do. *)

Section respects.
Context {T : Type} (Q : snap T → snap T → Prop) `{!PreOrder Q}.

Definition others_ok (w : world T) : Prop := Forall (λ f, ∀ x, Q x (f x)) (w_others w).

Definition respects (w w' : world T) : Prop :=
  others_ok w → others_ok w' ∧ Q (w_snap w) (w_snap w').

#[export] Instance respects_preorder : PreOrder respects.
Proof.
  split; unfold respects; [intros w Hw; by split|].
  intros a b c H1 H2 [Hb ?]%H1. destruct (H2 Hb). split; [done|]. by etrans.
Qed.

Lemma interfere_respects (w : world T) : respects w (interfere w).
Proof.
  unfold respects, interfere, others_ok. destruct (w_others w) as [|f fs] eqn:E.
  - intros _. rewrite E. split; [constructor|reflexivity].
  - intros [Hf Hfs]%Forall_cons. pose proof (Hf (w_snap w)) as HQ.
    destruct (f (w_snap w)) as [ns t]. by split.
Qed.

Lemma stable_mint {E} : stable respects (mint (E := E)).
Proof. intros w r w' [= <- <-] Hw. by split. Qed.

Lemma stable_with_disk {E A} (c : sm disk E A) :
  (∀ d r d' t, c d = (r, d') → Q (d_nodes d, t) (d_nodes d', t)) →
  stable respects (with_disk c).
Proof.
  intros Hc w r w'. unfold with_disk. destruct (c (w_disk w)) as [x d] eqn:E'.
  intros [= <- <-] Hw. split; [done|]. by eapply Hc.
Qed.

Lemma stable_auto {A} (op : T → result sql_error (A * T)) :
  (∀ ns t a t', op t = Ok (a, t') → Q (ns, t) (ns, t')) → stable respects (auto op).
Proof.
  intros Hop w r w' H. etrans; [apply interfere_respects|]. unfold auto in H.
  set (v := interfere w) in *. intros Hv.
  destruct (next_fault v), (op (w_tables v)) as [[a t]|e] eqn:Eop; simplify_eq;
    split; try done; by eapply Hop.
Qed.

(** What the body of a transaction has to show: it does not call in other
    processes, its disk effects are fine beside the tables of the
    beginning, and its whole effect is fine if it returns. *)
Definition body_ok {E A} (body : sm (world T) E A) : Prop :=
  ∀ w r w', body w = (r, w') →
    w_others w' = w_others w ∧
    Q (w_snap w) (d_nodes (w_disk w'), w_tables w) ∧
    (is_ok r = true → Q (w_snap w) (w_snap w')).

Lemma stable_transaction {E A} (backend : sql_error → E) (body : sm (world T) E A) :
  body_ok body → stable respects (transaction backend body).
Proof.
  intros Hbody w r w' H. etrans; [apply interfere_respects|]. unfold transaction in H.
  set (v := interfere w) in *. intros Hv.
  destruct (next_fault v); [|by simplify_eq..].
  destruct (body (drop_fault v)) as [x u] eqn:Eb.
  apply Hbody in Eb as (Ho & Hroll & Hdone).
  assert (Hu : others_ok u) by (unfold others_ok; rewrite Ho; exact Hv).
  destruct x as [a|e]; [destruct (next_fault u)|]; simplify_eq; (split; [exact Hu|]); auto.
Qed.
End respects.

#[export] Hint Resolve stable_mint stable_with_disk stable_auto stable_transaction : stable.

(** ** Inside a transaction

    [inside Q]: the disk and the other processes are left alone, the tables
    move along [Q]. *)

Lemma statement_inv {T A} (op : T → result sql_error (A * T)) w r w' :
  statement op w = (r, w') →
  w_disk w' = w_disk w ∧ w_others w' = w_others w ∧
  match r with
  | Ok a => op (w_tables w) = Ok (a, w_tables w')
  | Err _ => w_tables w' = w_tables w
  end.
Proof.
  unfold statement. destruct (next_fault w), (op (w_tables w)) as [[a t]|e] eqn:E;
    intros [= <- <-]; done.
Qed.

Section inside.
Context {T : Type} (Q : T → T → Prop) `{!PreOrder Q}.

Definition inside (w w' : world T) : Prop :=
  w_disk w' = w_disk w ∧ w_others w' = w_others w ∧ Q (w_tables w) (w_tables w').

#[export] Instance inside_preorder : PreOrder inside.
Proof.
  split; [intros w; by split_and!|]. intros a b c (? & ? & ?) (? & ? & ?).
  split_and!; [congruence..|by etrans].
Qed.

Lemma inside_mint {E} : stable inside (mint (E := E)).
Proof. intros w r w' [= <- <-]. by split_and!. Qed.

Lemma inside_statement {A} (op : T → result sql_error (A * T)) :
  (∀ t a t', op t = Ok (a, t') → Q t t') → stable inside (statement op).
Proof.
  intros Hop w r w' (Hd & Ho & H)%statement_inv. split_and!; [done..|].
  destruct r; [by eapply Hop|by rewrite H].
Qed.

Lemma inside_body_ok {E A} (body : sm (world T) E A) :
  stable inside body → body_ok (λ x y, Q x.2 y.2) body.
Proof.
  intros Hb w r w' (Hd & Ho & Hq)%Hb. split_and!; [done| |done]. cbn. reflexivity.
Qed.

(** A transaction leaves the tables as they were, or as its body left them. *)
Lemma transaction_cases {E A} (backend : sql_error → E) (body : sm (world T) E A) w r w' :
  stable inside body → transaction backend body w = (r, w') →
  let v := interfere w in
  w_disk w' = w_disk v ∧ w_others w' = w_others v ∧
  ((is_ok r = false ∧ w_tables w' = w_tables v) ∨
   (∃ a u, body (drop_fault v) = (Ok a, u) ∧ w_tables w' = w_tables u ∧
      (r = Ok a ∨ is_ok r = false))).
Proof.
  intros Hb. unfold transaction. set (v := interfere w). cbv zeta.
  destruct (next_fault v); [|intros [= <- <-]; split_and!; by auto..].
  destruct (body (drop_fault v)) as [x u] eqn:Eb.
  pose proof (Hb _ _ _ Eb) as (Hd & Ho & _). cbn in Hd, Ho.
  destruct x as [a|e]; [destruct (next_fault u)|]; intros [= <- <-];
    split_and!; try done; eauto 10.
Qed.
End inside.

#[export] Hint Resolve inside_mint inside_statement : stable.

(** ** Histories

    [logs G]: every step a computation adds to the history satisfies [G]. *)

Section logs.
Context {T : Type} (G : step T → Prop).

Definition logs (w w' : world T) : Prop := ∃ l, w_steps w' = w_steps w ++ l ∧ Forall G l.

#[export] Instance logs_preorder : PreOrder logs.
Proof.
  split; [intros w; exists []; by rewrite app_nil_r|]. intros a b c (l & Hl & Fl) (k & Hk & Fk).
  exists (l ++ k). rewrite Hk, Hl, app_assoc, Forall_app. done.
Qed.

Lemma logs_none w w' : w_steps w' = w_steps w → logs w w'.
Proof. intros H. exists []. by rewrite app_nil_r. Qed.

Lemma logs_one w w' st : w_steps w' = w_steps w ++ [st] → G st → logs w w'.
Proof. intros H Hst. exists [st]. split; [done|by constructor]. Qed.

Lemma interfere_steps (w : world T) : w_steps (interfere w) = w_steps w.
Proof. unfold interfere. destruct (w_others w) as [|f fs]; [done|]. by destruct (f (w_snap w)). Qed.

Lemma logs_mint {E} : stable logs (mint (E := E)).
Proof. intros w r w' [= <- <-]. by apply logs_none. Qed.

Lemma logs_with_disk {E A} (c : sm disk E A) : stable logs (with_disk c).
Proof. intros w r w'. unfold with_disk. destruct (c _). intros [= <- <-]. by apply logs_none. Qed.

(** A statement on its own: what it does if it runs, and nothing. *)
Lemma logs_auto {A} (op : T → result sql_error (A * T)) :
  (∀ ns t, G (Step [] (ns, t) (ns, t))) →
  (∀ ns t a t', op t = Ok (a, t') → G (Step [] (ns, t) (ns, t'))) → stable logs (auto op).
Proof.
  intros Hidle Hop w r w'. unfold auto. set (v := interfere w).
  destruct (next_fault v), (op (w_tables v)) as [[a t]|e] eqn:E; intros [= <- <-];
    (eapply logs_one; [exact (f_equal (.++ _) (interfere_steps w))|]);
    first [by apply Hidle|by eapply Hop].
Qed.

(** Inside a transaction: no step ends, locks are only added. *)
Definition within_step (w w' : world T) : Prop :=
  w_steps w' = w_steps w ∧ ∃ l, w_locks w' = w_locks w ++ l.

#[export] Instance within_step_preorder : PreOrder within_step.
Proof.
  split; [intros w; split; [done|exists []; by rewrite app_nil_r]|].
  intros a b c [Hs (l & Hl)] [Hs' (k & Hk)]. split; [congruence|]. exists (l ++ k). by rewrite Hk, Hl, app_assoc.
Qed.

Lemma within_same w w' : w_steps w' = w_steps w → w_locks w' = w_locks w → within_step w w'.
Proof. intros H1 H2. split; [done|]. exists []. by rewrite app_nil_r. Qed.

Lemma within_locks w w' l : within_step w w' → l ∈ w_locks w → l ∈ w_locks w'.
Proof. intros [_ (k & ->)] Hl. apply elem_of_app. by left. Qed.

Lemma within_mint {E} : stable within_step (mint (E := E)).
Proof. intros w r w' [= <- <-]. by apply within_same. Qed.

Lemma within_with_disk {E A} (c : sm disk E A) : stable within_step (with_disk c).
Proof. intros w r w'. unfold with_disk. destruct (c _). intros [= <- <-]. by apply within_same. Qed.

Lemma within_statement {A} (op : T → result sql_error (A * T)) : stable within_step (statement op).
Proof.
  intros w r w'. unfold statement. destruct (next_fault w), (op (w_tables w)) as [[a t]|e]; intros [= <- <-]; by apply within_same.
Qed.

Lemma within_take_lock l : stable within_step (take_lock l).
Proof.
  intros w r w'. unfold take_lock. destruct (next_fault w); intros [= <- <-]; try by apply within_same.
  split; [done|by exists [l]].
Qed.

(** What the body of a transaction has to show: what it did is fine, and so
    is what is left when it is rolled back. *)
Definition body_logs {E A} (body : sm (world T) E A) : Prop :=
  ∀ w r w', body w = (r, w') → w_steps w' = w_steps w ∧
    G (Step (w_locks w') (w_snap w) (d_nodes (w_disk w'), w_tables w)) ∧
    (is_ok r = true → G (Step (w_locks w') (w_snap w) (w_snap w'))).

Lemma logs_transaction {E A} (backend : sql_error → E) (body : sm (world T) E A) :
  body_logs body → stable logs (transaction backend body).
Proof.
  intros Hb w r w'. unfold transaction. set (v := interfere w).
  destruct (next_fault v); [|intros [= <- <-]; apply logs_none; apply interfere_steps..].
  destruct (body (drop_fault v)) as [x u] eqn:Eb. apply Hb in Eb as (Hs & Hroll & Hdone).
  assert (Hsteps : w_steps u = w_steps w) by (rewrite Hs; apply interfere_steps).
  destruct x as [a|e]; [destruct (next_fault u)|]; intros [= <- <-];
    (eapply logs_one; [exact (f_equal (.++ _) Hsteps)|]); first [exact Hroll|by apply Hdone].
Qed.
End logs.

Lemma logs_mono {T} (G G' : step T → Prop) w w' : (∀ st, G st → G' st) → logs G w w' → logs G' w w'.
Proof. intros HG (l & Hl & Fl). exists l. split; [done|]. eapply Forall_impl; eauto. Qed.

#[export] Hint Resolve logs_mint logs_with_disk : stable.
