(* ===== verification/BlobProtocol.v ===== *)
(** * The lock protocol for blob registration ([blob_protocol.rs])

    A transaction that is about to reference blobs takes every digest lock in
    ascending order, proves each object present, and restores a missing one
    from the bytes it still holds.  The locks are held to the end of the
    transaction, so an eraser cannot act on the digest in between. *)

From S2P Require Import Prelude Disk BlobStore Postgres.

#[local] Open Scope result_scope.

Inductive held_bytes : Set := Staged (path : string) | Memory (bytes : string).

Record registration : Set := Registration { rg_reference : blob_ref; rg_held : held_bytes }.

Inductive registration_error : Set := RegDatabase (e : sql_error) | RegUnavailable.

(** [64 * 1024]. *)
Definition RESTORE_CHUNK_BYTES : N := 65536.

(** At most [n] bytes, and the rest. *)
Fixpoint split_bytes (n : nat) (s : string) : string * string :=
  match n, s with
  | S n, String c s => let '(a, b) := split_bytes n s in (String c a, b)
  | _, _ => ("", s)
  end.

Fixpoint chunks_fuel (fuel size : nat) (s : string) : list string :=
  match fuel, s with
  | S fuel, String _ _ =>
      let '(chunk, rest) := split_bytes size s in chunk :: chunks_fuel fuel size rest
  | _, _ => []
  end.

(** The reads of an open file until it ends. *)
Definition chunks_of (size : N) (s : string) : list string :=
  chunks_fuel (String.length s) (N.to_nat size) s.

(** Open a file and stream it in chunks; a failed read is a stream error. *)
Definition file_stream (path : string) : io (list (option string)) :=
  let! content := read_file path in
  let! read := stry touch in
  match read with
  | Ok _ => sret (Some <$> chunks_of RESTORE_CHUNK_BYTES content)
  | Err _ => sret [None]
  end.

(** The advisory lock key of a digest, before the database hashes it. *)
Definition lock_key (digest_hex : string) : string := "blob:" +:+ digest_hex.

Section blob_protocol.
Context (sha256_hex : string → string) (media_type_ok : string → bool).
Context {T : Type}.

#[local] Abbreviation tx := (sm (world T)).
#[local] Abbreviation store := (store sha256_hex media_type_ok).
#[local] Abbreviation verify := (verify sha256_hex).

Definition blob_lock (digest_hex : string) : tx sql_error unit :=
  take_lock (lock_key digest_hex).

(** The part file [store] mints. *)
Definition store_minted (s : blob_store) (media_type : string) (stream : list (option string))
    : tx blob_store_error blob_ref :=
  let! id := mint in with_disk (store s (pretty id) media_type stream).

Definition restore (s : blob_store) (r : registration) : tx registration_error unit :=
  let reference := rg_reference r in
  let media_type := br_media_type reference in
  let! stored :=
    match rg_held r with
    | Memory bytes => smap_err (λ _, RegUnavailable) (store_minted s media_type [Some bytes])
    | Staged path =>
        let! chunks := smap_err (λ _, RegUnavailable) (with_disk (file_stream path)) in
        smap_err (λ _, RegUnavailable) (store_minted s media_type chunks)
    end in
  if decide (br_digest stored = br_digest reference ∧
             br_length_bytes stored = br_length_bytes reference)
  then sret tt else sfail RegUnavailable.

Fixpoint lock_all (digests : list string) : tx registration_error unit :=
  match digests with
  | [] => sret tt
  | digest :: digests =>
      let! _ := smap_err RegDatabase (blob_lock digest) in lock_all digests
  end.

Fixpoint prove_all (s : blob_store) (registrations : list registration)
    : tx registration_error unit :=
  match registrations with
  | [] => sret tt
  | r :: rest =>
      let! present := stry (with_disk (verify s (rg_reference r))) in
      let! _ := if is_ok present : bool then sret tt else restore s r in
      prove_all s rest
  end.

Definition lock_order (registrations : list registration) : list string :=
  dedup (sort_by (cmp_on (λ d, d)) ((λ r, cd_hex (br_digest (rg_reference r))) <$> registrations)).

Definition register_blobs (s : blob_store) (registrations : list registration)
    : tx registration_error unit :=
  let! _ := lock_all (lock_order registrations) in prove_all s registrations.
End blob_protocol.

(** ** Laws *)

Lemma split_bytes_app n s a b :
  split_bytes n s = (a, b) → a +:+ b = s ∧ (n ≠ 0 → s ≠ "" → String.length b < String.length s).
Proof.
  revert s a b. induction n as [|n IH]; intros [|c s] a b; cbn.
  1-3: by intros [= <- <-].
  destruct (split_bytes n s) as [a' b'] eqn:E. intros [= <- <-]. apply IH in E as [E Hlen].
  split; [by rewrite <-E|]. intros _ _. destruct n as [|n], s as [|c' s].
  1-3: rewrite <-E, string_length_app; cbn; lia.
  specialize (Hlen ltac:(done) ltac:(done)). cbn in *. lia.
Qed.

(** The chunks of a file are its bytes. *)
Lemma chunks_of_concat size s : size ≠ 0%N → concat_bytes (chunks_of size s) = s.
Proof.
  intros Hsize. unfold chunks_of. set (n := N.to_nat size). assert (n ≠ 0) as Hn by lia.
  clearbody n. clear size Hsize.
  assert (∀ fuel s, String.length s <= fuel → concat_bytes (chunks_fuel fuel n s) = s) as H; [|by apply H].
  intros fuel. induction fuel as [|fuel IH]; intros t Ht; [by destruct t; [|cbn in Ht; lia]|].
  destruct t as [|c t]; [done|]. cbn [chunks_fuel].
  destruct (split_bytes n (String c t)) as [a b] eqn:E.
  apply split_bytes_app in E as [E Hlen]. specialize (Hlen Hn ltac:(done)).
  rewrite concat_bytes_cons, IH by lia. done.
Qed.

Section blob_protocol_laws.
Context (sha256_hex : string → string) (media_type_ok : string → bool).
Context {T : Type}.

#[local] Abbreviation store := (store sha256_hex media_type_ok).
#[local] Abbreviation store_wf := (store_wf sha256_hex).
#[local] Abbreviation store_minted := (store_minted sha256_hex media_type_ok (T := T)).
#[local] Abbreviation restore := (restore sha256_hex media_type_ok (T := T)).
#[local] Abbreviation prove_all := (prove_all sha256_hex media_type_ok (T := T)).
#[local] Abbreviation register_blobs := (register_blobs sha256_hex media_type_ok (T := T)).

(** The object a reference addresses is there and hashes to the digest. *)
Definition present (s : blob_store) (r : blob_ref) (ns : gmap string node) : Prop :=
  ∃ p c, content_path s r = Ok p ∧ ns !! p = Some (NFile c) ∧
    sha256_hex c = cd_hex (br_digest r).

Lemma present_kept s r ns ns' : objects_kept s ns ns' → present s r ns → present s r ns'.
Proof.
  intros Hk (p & c & Hp & Hc & Hsha). exists p, c. split_and!; [done| |done].
  apply content_path_spec in Hp as (dir & rem & Hs & -> & _).
  apply split_at_2_spec in Hs as [_ Hdir]. by apply Hk.
Qed.

Lemma split_at_2_app dir rem :
  String.length dir = 2 → split_at_2 (dir +:+ rem) = Some (dir, rem).
Proof. destruct dir as [|a [|b [|c dir]]]; try done. Qed.

(** What [store] does to the objects, and what a reference it returns says. *)
Lemma store_effect s id mt stream d r d' :
  store s id mt stream d = (r, d') →
  objects_kept s (d_nodes d) (d_nodes d') ∧
  (store_wf s (d_nodes d) → store_wf s (d_nodes d') ∧
    ∀ ref, r = Ok ref → present s ref (d_nodes d')) ∧
  ∀ ref, r = Ok ref → ∃ chunks, stream = Some <$> chunks ∧
    ref = BlobRef OWNER (ContentDigest Sha256 (sha256_hex (concat_bytes chunks))) mt
            (N.min (N.of_nat (String.length (concat_bytes chunks))) u64_max).
Proof.
  unfold BlobStore.store. destruct (media_type_ok mt); [|intros [= <- <-]; by split_and!].
  intros Hrun. destruct r as [ref|e].
  - apply receive_Ok in Hrun as (cs & dir & rem & -> & -> & Hs & Hsame).
    pose proof (split_at_2_spec _ _ _ Hs) as [Hhex Hdir].
    split_and!; [| |naive_solver].
    + intros dir' rem' n Hdir' Hn. rewrite (Hsame _ _ Hdir'), lookup_insert.
      case_decide as E; [|done]. by rewrite E, Hn.
    + intros Hwf.
      assert (Hobj : ∃ c, default (NFile (concat_bytes cs)) (d_nodes d !! object_path s dir rem)
        = NFile c ∧ sha256_hex c = dir +:+ rem).
      { destruct (d_nodes d !! object_path s dir rem) as [n|] eqn:Hn; simpl; eauto. }
      destruct Hobj as (c & Hc & Hsha). rewrite Hc in Hsame. split.
      * intros dir' rem' n Hdir'. rewrite (Hsame _ _ Hdir'), lookup_insert.
        case_decide as E; [|by apply Hwf]. apply object_path_inj in E as [<- <-]; [|done..].
        intros [= <-]. eauto.
      * intros ref [= <-]. exists (object_path s dir rem), c. unfold content_path. cbn.
        rewrite Hs, (Hsame _ _ Hdir), lookup_insert_eq. split_and!; [done..|congruence].
  - apply receive_Err in Hrun. split_and!; [by apply objects_same_kept| |done].
    intros Hwf. split; [|done]. intros dir rem n Hdir. rewrite (Hrun _ _ Hdir). by apply Hwf.
Qed.

(** What a transaction of this protocol may do before its statements: add
    objects, keep the tables. *)
Record grows (s : blob_store) (w w' : world T) : Prop := Grows {
  gr_tables : w_tables w' = w_tables w;
  gr_others : w_others w' = w_others w;
  gr_kept : objects_kept s (d_nodes (w_disk w)) (d_nodes (w_disk w'));
  gr_wf : store_wf s (d_nodes (w_disk w)) → store_wf s (d_nodes (w_disk w'));
}.

#[export] Instance grows_preorder s : PreOrder (grows s).
Proof.
  split; [by intros w|]. intros a b c [] []. split; [congruence|congruence|by etrans|auto].
Qed.

Lemma grows_disk s {E A} (c : sm disk E A) :
  (∀ d r d', c d = (r, d') → objects_kept s (d_nodes d) (d_nodes d') ∧
     (store_wf s (d_nodes d) → store_wf s (d_nodes d'))) →
  stable (grows s) (with_disk c).
Proof.
  intros Hc w r w'. unfold with_disk. destruct (c (w_disk w)) as [x d] eqn:E'.
  intros [= <- <-]. apply Hc in E' as []. by split.
Qed.

Lemma grows_reading s {E A} (c : sm disk E A) :
  stable (on_nodes eq) c → stable (grows s) (with_disk c).
Proof. intros Hc. apply grows_disk. intros d r d' H%Hc. unfold on_nodes in H. by rewrite H. Qed.

Lemma file_stream_reading path : stable (on_nodes eq) (file_stream path).
Proof.
  unfold file_stream.
  repeat first [progress intros | solve [eauto with stable typeclass_instances]
    | apply stable_bind; [apply _| |] | apply stable_try
    | case_match | apply touch_stable; apply _ | apply read_file_stable; apply _].
Qed.

Lemma mint_grows s {E} : stable (grows s) (mint (E := E)).
Proof. intros w r w' [= <- <-]. by split. Qed.

Lemma store_minted_grows s mt stream : stable (grows s) (store_minted s mt stream).
Proof.
  apply stable_bind; [apply _|apply mint_grows|]. intros id. apply grows_disk.
  intros d r d' (Hk & Hwf & _)%store_effect. naive_solver.
Qed.

Lemma take_lock_grows s l : stable (grows s) (take_lock l).
Proof. intros w r w'. unfold take_lock. destruct (next_fault w); intros [= <- <-]; by split. Qed.

Lemma lock_all_grows s ds : stable (grows s) (lock_all ds).
Proof.
  induction ds as [|d ds IH]; [apply stable_ret, _|].
  apply stable_bind; [apply _| |done]. apply stable_map_err, take_lock_grows.
Qed.

Lemma restore_grows s r : stable (grows s) (restore s r).
Proof.
  unfold BlobProtocol.restore. apply stable_bind; [apply _| |].
  - case_match; [|apply stable_map_err, store_minted_grows].
    apply stable_bind; [apply _|apply stable_map_err, grows_reading, file_stream_reading|].
    intros. apply stable_map_err, store_minted_grows.
  - intros. case_decide; [apply stable_ret|apply stable_fail]; apply _.
Qed.

Lemma prove_all_grows s rs : stable (grows s) (prove_all s rs).
Proof.
  induction rs as [|r rs IH]; [apply stable_ret, _|]. cbn.
  apply stable_bind; [apply _|apply stable_try, grows_reading, verify_reading|].
  intros p. apply stable_bind; [apply _| |done].
  destruct (is_ok p); [apply stable_ret, _|apply restore_grows].
Qed.

Lemma register_blobs_grows s rs : stable (grows s) (register_blobs s rs).
Proof. apply stable_bind; [apply _|apply lock_all_grows|intros; apply prove_all_grows]. Qed.

Lemma store_minted_Ok s mt stream w ref w' :
  store_minted s mt stream w = (Ok ref, w') → store_wf s (d_nodes (w_disk w)) →
  present s ref (d_nodes (w_disk w')).
Proof.
  intros (id & w1 & [= <- <-] & Hrun)%sbind_Ok_inv Hwf. unfold with_disk in Hrun.
  cbn [w_disk] in Hrun. destruct (store s _ mt stream (w_disk w)) as [x d] eqn:E. simplify_eq.
  apply store_effect in E as (_ & Hw & _). by eapply Hw.
Qed.

Lemma restore_Ok s r w w' :
  restore s r w = (Ok tt, w') → store_wf s (d_nodes (w_disk w)) →
  present s (rg_reference r) (d_nodes (w_disk w')).
Proof.
  unfold BlobProtocol.restore. intros (stored & w1 & Hs & Hrun)%sbind_Ok_inv Hwf.
  case_decide as Heq; [|done]. injection Hrun as <-. destruct Heq as [Hd _].
  assert (Hp : present s stored (d_nodes (w_disk w1))).
  { destruct (rg_held r) as [path|bytes].
    - apply sbind_Ok_inv in Hs as (chunks & w0 & Hf & Hs).
      apply smap_err_Ok_inv in Hf, Hs.
      apply (grows_reading s _ (file_stream_reading path)) in Hf as [_ _ _ Hwf0].
      eapply store_minted_Ok; eauto.
    - apply smap_err_Ok_inv in Hs. by eapply store_minted_Ok. }
  destruct Hp as (p & c & Hp & Hc & Hsha). exists p, c. unfold content_path in *.
  by rewrite <-Hd.
Qed.

Lemma prove_all_Ok s rs w w' :
  prove_all s rs w = (Ok tt, w') → store_wf s (d_nodes (w_disk w)) →
  Forall (λ r, present s (rg_reference r) (d_nodes (w_disk w'))) rs.
Proof.
  revert w. induction rs as [|r rs IH]; intros w Hrun Hwf; [constructor|]. cbn in Hrun.
  apply sbind_Ok_inv in Hrun as (p & w1 & Hv & Hrun).
  unfold stry in Hv. destruct (with_disk _ w) as [x w1'] eqn:Ev. simplify_eq.
  pose proof (grows_reading s _ (verify_reading sha256_hex s (rg_reference r)) _ _ _ Ev) as G1.
  apply sbind_Ok_inv in Hrun as ([] & w2 & Hr & Hrun).
  assert (G2 : grows s w1 w2).
  { destruct (is_ok p); [by injection Hr as <-|by eapply restore_grows]. }
  pose proof (prove_all_grows s rs _ _ _ Hrun) as G3.
  destruct G1 as [_ _ _ Hwf1], G2 as [_ _ _ Hwf2], G3 as [_ _ Hk3 _].
  constructor; [|by eapply IH; eauto]. eapply present_kept; [exact Hk3|].
  destruct p as [path|e]; cbn in Hr; [|eapply restore_Ok; eauto].
  injection Hr as <-. unfold with_disk in Ev.
  destruct (verify sha256_hex s (rg_reference r) (w_disk w)) as [x d] eqn:E. simplify_eq.
  apply verify_Ok in E as (Hd & _ & Halg & dir & rem & c & Hhex & Hdir & -> & Hc & Hsha & _).
  exists (object_path s dir rem), c. cbn [w_disk set_disk]. rewrite Hd. split_and!; [|done..].
  unfold content_path. rewrite decide_True by done. rewrite Hhex.
  by rewrite split_at_2_app.
Qed.

Lemma register_blobs_Ok s rs w w' :
  register_blobs s rs w = (Ok tt, w') → store_wf s (d_nodes (w_disk w)) →
  Forall (λ r, present s (rg_reference r) (d_nodes (w_disk w'))) rs.
Proof.
  intros ([] & w1 & Hl & Hrun)%sbind_Ok_inv Hwf.
  pose proof (lock_all_grows s _ _ _ _ Hl) as [_ _ _ Hw1]. eapply prove_all_Ok; eauto.
Qed.

Lemma lock_all_Ok ds (w w' : world T) :
  lock_all ds w = (Ok tt, w') → w_locks w' = w_locks w ++ (lock_key <$> ds).
Proof.
  revert w. induction ds as [|d ds IH]; intros w Hrun; cbn in *.
  { injection Hrun as <-. by rewrite app_nil_r. }
  apply sbind_Ok_inv in Hrun as ([] & w1 & Hl & Hrun). apply smap_err_Ok_inv in Hl.
  apply IH in Hrun. rewrite Hrun. unfold blob_lock, take_lock in Hl.
  destruct (next_fault w); simplify_eq. cbn. by rewrite <-app_assoc.
Qed.

Lemma prove_all_locks s rs (w : world T) r w' :
  prove_all s rs w = (r, w') → w_locks w' = w_locks w.
Proof.
  intros Hrun. assert (stable (λ w w', w_locks w' = w_locks w) (prove_all s rs)) as H; [|by eapply H].
  assert (PreOrder (λ w w' : world T, w_locks w' = w_locks w)) by (split; [done|intros ???; congruence]).
  assert (∀ E A (c : sm disk E A), stable (λ w w' : world T, w_locks w' = w_locks w) (with_disk c)) as Hd.
  { intros E A c v x v'. unfold with_disk. destruct (c (w_disk v)). by intros [= <- <-]. }
  assert (∀ mt st, stable (λ w w' : world T, w_locks w' = w_locks w) (store_minted s mt st)) as Hs.
  { intros. apply stable_bind; [done| |auto]. by intros v x v' [= <- <-]. }
  clear Hrun. induction rs as [|r' rs IH]; [by apply stable_ret|]. cbn.
  apply stable_bind; [done|by apply stable_try|]. intros p. apply stable_bind; [done| |done].
  destruct (is_ok p); [by apply stable_ret|]. apply stable_bind; [done| |].
  - case_match; [|by apply stable_map_err]. apply stable_bind; [done|by apply stable_map_err|].
    intros. by apply stable_map_err.
  - intros. case_decide; [by apply stable_ret|by apply stable_fail].
Qed.

(** The locks of a registration are taken, and kept. *)
Lemma lock_all_within ds : stable within_step (lock_all (T := T) ds).
Proof.
  induction ds as [|d ds IH]; [apply stable_ret, _|].
  apply stable_bind; [apply _| |done]. apply stable_map_err, within_take_lock.
Qed.

Lemma store_minted_within s mt stream : stable within_step (store_minted s mt stream).
Proof. apply stable_bind; [apply _|apply within_mint|]. intros id. apply within_with_disk. Qed.

Lemma restore_within s r : stable within_step (restore s r).
Proof.
  unfold BlobProtocol.restore. apply stable_bind; [apply _| |].
  - case_match; [|apply stable_map_err, store_minted_within].
    apply stable_bind; [apply _|apply stable_map_err, within_with_disk|].
    intros. apply stable_map_err, store_minted_within.
  - intros. case_decide; [apply stable_ret|apply stable_fail]; apply _.
Qed.

Lemma prove_all_within s rs : stable within_step (prove_all s rs).
Proof.
  induction rs as [|r rs IH]; [apply stable_ret, _|]. cbn.
  apply stable_bind; [apply _|apply stable_try, within_with_disk|].
  intros p. apply stable_bind; [apply _| |done].
  destruct (is_ok p); [apply stable_ret, _|apply restore_within].
Qed.

Lemma register_blobs_within s rs : stable within_step (register_blobs s rs).
Proof. apply stable_bind; [apply _|apply lock_all_within|intros; apply prove_all_within]. Qed.

Lemma lock_order_elem rs d :
  d ∈ lock_order rs ↔ ∃ x, x ∈ rs ∧ cd_hex (br_digest (rg_reference x)) = d.
Proof.
  unfold lock_order. rewrite (proj1 (dedup_spec _)), elem_of_sort_by, list_elem_of_fmap. naive_solver.
Qed.

Lemma register_blobs_locks s rs (w w' : world T) :
  register_blobs s rs w = (Ok tt, w') → w_locks w' = w_locks w ++ (lock_key <$> lock_order rs).
Proof.
  intros ([] & w1 & Hl & Hrun)%sbind_Ok_inv. by rewrite (prove_all_locks _ _ _ _ _ Hrun), (lock_all_Ok _ _ _ Hl).
Qed.

Lemma register_blobs_held s rs (w w' : world T) x :
  register_blobs s rs w = (Ok tt, w') → x ∈ rs → lock_key (cd_hex (br_digest (rg_reference x))) ∈ w_locks w'.
Proof.
  intros Hl%register_blobs_locks Hx. rewrite Hl. apply elem_of_app. right. apply list_elem_of_fmap_2, lock_order_elem. eauto.
Qed.

Lemma lock_all_taken ds (w w' : world T) r :
  lock_all ds w = (r, w') →
  ∃ taken, taken `prefix_of` ds ∧ w_locks w' = w_locks w ++ (lock_key <$> taken) ∧ w_disk w' = w_disk w ∧
    (is_ok r = true → taken = ds).
Proof.
  revert w. induction ds as [|d ds IH]; intros w Hrun; cbn in *.
  { injection Hrun as <- <-. exists []. by rewrite app_nil_r. }
  unfold sbind, smap_err, blob_lock, take_lock in Hrun.
  destruct (next_fault w); cbn in Hrun;
    [|injection Hrun as <- <-; exists []; rewrite app_nil_r; split_and!; try done; apply prefix_nil..].
  apply IH in Hrun as (taken & Hp & Hl & Hd & Hall). exists (d :: taken). split_and!; [by apply prefix_cons| |done|].
  - rewrite Hl. cbn. by rewrite <-app_assoc.
  - intros Hr. by rewrite Hall.
Qed.

(** C35. The registration protocol. Whatever locks the transaction holds
    already and whatever fails, [register_blobs] takes the locks of the
    referenced digests, each once and in strictly ascending digest order, and
    leaves the disk alone until it holds them all; no object it found is gone or
    changed and no table is touched.  When it succeeds on a store whose objects
    hash to their addresses, it holds the lock of every referenced digest, every
    referenced object is present and hashes to its digest, and the addresses
    still hold. *)
Theorem register_blobs_protocol (s : blob_store) (rs : list registration)
    (w w' : world T) (r : result registration_error unit) :
  register_blobs s rs w = (r, w') →
  ∃ digests taken,
    StronglySorted (λ a b, cmp a b = Lt) digests ∧
    (∀ d, d ∈ digests ↔ ∃ x, x ∈ rs ∧ cd_hex (br_digest (rg_reference x)) = d) ∧
    taken `prefix_of` digests ∧ w_locks w' = w_locks w ++ (lock_key <$> taken) ∧
    (taken = digests ∨ w_disk w' = w_disk w ∧ r ≠ Ok tt) ∧
    w_tables w' = w_tables w ∧ objects_kept s (d_nodes (w_disk w)) (d_nodes (w_disk w')) ∧
    (store_wf s (d_nodes (w_disk w)) → store_wf s (d_nodes (w_disk w')) ∧
       (r = Ok tt → taken = digests ∧ Forall (λ x, present s (rg_reference x) (d_nodes (w_disk w'))) rs)).
Proof.
  intros Hrun. pose proof (register_blobs_grows s rs _ _ _ Hrun) as [Ht _ Hk Hw]. pose proof Hrun as Hfull.
  exists (lock_order rs). unfold BlobProtocol.register_blobs in Hrun.
  assert (H : ∃ taken, taken `prefix_of` lock_order rs ∧ w_locks w' = w_locks w ++ (lock_key <$> taken) ∧
    (taken = lock_order rs ∨ w_disk w' = w_disk w ∧ r ≠ Ok tt)).
  { apply sbind_inv in Hrun as [([] & w1 & Hl & Hp)|(e & Hl & ->)];
      apply lock_all_taken in Hl as (taken & Hpre & Hlocks & Hd & Hall); exists taken; (split; [done|]).
    - rewrite (prove_all_locks _ _ _ _ _ Hp). split; [done|left; by apply Hall].
    - split; [done|by right]. }
  destruct H as (taken & Hpre & Hlocks & Hcase). exists taken. split_and!; try done.
  - apply dedup_sorted, (sort_by_sorted (λ d : string, d)).
  - apply lock_order_elem.
  - intros Hwf. split; [auto|]. intros ->. split; [by destruct Hcase as [?|[_ ?]]|]. by eapply register_blobs_Ok.
Qed.
End blob_protocol_laws.

(** ** Witness *)

Module BlobProtocolWitness.
Definition toy_sha (s : string) : string := "ab" +:+ s.
Definition st : blob_store := BlobStore "/b".
Definition ref (c : string) : blob_ref :=
  BlobRef OWNER (ContentDigest Sha256 (toy_sha c)) "text/plain" (N.of_nat (String.length c)).
Definition regs : list registration :=
  [Registration (ref "y") (Memory "y"); Registration (ref "x") (Staged "/s/1.part");
   Registration (ref "y") (Memory "y")].
Definition start : world unit :=
  World (Disk {["/s/1.part" := NFile "x"]} []) (Database tt [] [] [] []) 0.
Definition after : result registration_error unit * world unit :=
  register_blobs toy_sha (λ _, true) st regs start.

Example restored : is_ok after.1 = true ∧ w_locks after.2 = ["blob:abx"; "blob:aby"] ∧
  d_nodes (w_disk after.2) !! "/b/sha256/ab/x" = Some (NFile "x").
Proof. vm_compute. done. Qed.

Lemma register_blobs_protocol_witness :
  Forall (λ x, present toy_sha st (rg_reference x) (d_nodes (w_disk after.2))) regs.
Proof.
  assert (Hr : after.1 = Ok tt) by (vm_compute; reflexivity).
  destruct (register_blobs_protocol toy_sha (λ _, true) st regs start after.2 after.1) as (ds & taken & _ & _ & _ & _ & _ & _ & _ & H).
  - symmetry. apply surjective_pairing.
  - destruct H as [_ H]; [|exact (proj2 (H Hr))].
    intros dir rem n Hdir. cbn. rewrite lookup_singleton_Some. intros [E _]. exfalso.
    rewrite object_path_flat in E. by repeat (injection E as E || discriminate E).
Defined.
End BlobProtocolWitness.
