(* ===== verification/Receipt.v ===== *)
(** * Archive receipt ([receipt/mod.rs], [receipt/repository.rs])

    The streaming receiver and its persistence seam.  The seam is a type
    class: the receiver is defined against it, and its theorems follow from
    what the class's laws promise; [ReceiptPg.v] is the PostgreSQL instance. *)

From S2P Require Import Prelude Disk BlobStore ImportState Registry Postgres BlobProtocol Principals.

#[local] Open Scope result_scope.

(** ** The seam ([repository.rs]) *)

Inductive repository_error : Set :=
| Backend | Conflict | BlobUnavailable | DuplicateExisting (existing_export_id : N).

(** [PlatformOperation] holds the operation's identity. *)
Record platform_operation : Set := PlatformOperation { po_operation_id : N }.

Record published_export : Set := PublishedExport { pe_export_id : N; pe_ai_archive_id : N }.

Record publish_request (json : Type) : Type := PublishRequest {
  pq_run_id : N;
  pq_account_external_ref : string;
  pq_mode : acquisition_mode;
  pq_blob_ref_json : json;
  pq_sha256_hex : string;
  pq_byte_length : N;
  pq_platform_operation : option platform_operation;
  pq_staged_path : string;
}.
Arguments PublishRequest {json} _ _ _ _ _ _ _ _.
Arguments pq_run_id {json} _.
Arguments pq_account_external_ref {json} _.
Arguments pq_mode {json} _.
Arguments pq_blob_ref_json {json} _.
Arguments pq_sha256_hex {json} _.
Arguments pq_byte_length {json} _.
Arguments pq_platform_operation {json} _.
Arguments pq_staged_path {json} _.

Record run_record : Set := RunRecord {
  rr_id : N;
  rr_account_external_ref : string;
  rr_acquisition_mode : string;
  rr_media_type : string;
  rr_state : import_state;
  rr_sha256_hex : option string;
  rr_byte_length : option Z;
  rr_export_id : option N;
}.

(** [trait ReceiptRepository], over tables of type [T]. *)
Class ReceiptRepository (T json : Type) := {
  create_run : string → acquisition_mode → string → sm (world T) repository_error N;
  record_hash : N → string → N → sm (world T) repository_error unit;
  mark_run : N → import_state → import_state → sm (world T) repository_error unit;
  load_run : N → sm (world T) repository_error (option run_record);
  list_resumable : sm (world T) repository_error (list run_record);
  find_export_by_digest : string → string → sm (world T) repository_error (option N);
  bind_platform_operation : N → platform_operation → sm (world T) repository_error unit;
  publish_export : publish_request json → sm (world T) repository_error published_export;
}.

(** ** The receiver ([mod.rs]) *)

Inductive receipt_outcome : Set :=
| RStored (export_id ai_archive_id : N) (sha256_hex : string) (byte_length : N)
| RDuplicate (existing_export_id : N) (sha256_hex : string) (byte_length : N).

(** [StreamFailed]'s source and [Storage]'s error are opaque. *)
Inductive receipt_error : Set :=
| DeclaredSizeExceeded | StreamOvergrown | StreamFailed | RStorage
| RRepository (e : repository_error) | StagingEvidenceLost | RInvalidMediaType | RDigestMismatch.

Record receipt_expectations : Set := ReceiptExpectations {
  re_expected_sha256_hex : option string;
  re_platform_operation : option platform_operation;
}.

Record hashed_context : Set := HashedContext {
  hc_run_id : N;
  hc_tenant : string;
  hc_mode_spelling : string;
  hc_media_type : string;
  hc_sha256_hex : string;
  hc_byte_length : N;
}.

Inductive staging_failure : Set := Overgrown | SStream | SIo (e : io_error).

(** [ArchiveReceiver]; the repository is the class instance. *)
Record archive_receiver : Set := ArchiveReceiver {
  av_blob : blob_store;
  av_staging_root : string;
  av_max_archive_bytes : N;
}.

Section staging.
Context (sha256_hex : string → string).

(** The loop of [stream_to_staging]: the total is checked before a chunk is
    hashed or written. *)
Fixpoint staging_loop (path : string) (stream : list (option string)) (max : N)
    (hashed : string) (total : N) : sm disk staging_failure (string * N) :=
  match stream with
  | [] => sret (hashed, total)
  | None :: _ => sfail SStream
  | Some chunk :: rest =>
      let total := saturating_add_u64 total (N.of_nat (String.length chunk)) in
      if (max <? total)%N then sfail Overgrown
      else
        let! _ := smap_err SIo (append path chunk) in
        staging_loop path rest max (hashed +:+ chunk) total
  end.

Definition stream_to_staging (staging_path : string) (stream : list (option string))
    (max_archive_bytes : N) : sm disk staging_failure (string * N) :=
  let! _ := smap_err SIo (create_file staging_path) in
  let! _ := smap_err SIo touch in
  let! (hashed, total) := staging_loop staging_path stream max_archive_bytes "" 0 in
  let! _ := smap_err SIo touch in
  let! _ := smap_err SIo touch in
  sret (sha256_hex hashed, total).

Definition hash_file (path : string) : io (string * N) :=
  let! content := read_file path in
  sret (sha256_hex content, N.of_nat (String.length content)).
End staging.

(** [receive_inner]'s map of a staging failure. *)
Definition staging_error (f : staging_failure) : receipt_error :=
  match f with Overgrown => StreamOvergrown | SStream => StreamFailed | SIo _ => RStorage end.

(** A failed read of staging evidence. *)
Definition evidence_error (e : io_error) : receipt_error :=
  match e with NotFound => StagingEvidenceLost | _ => RStorage end.

(** [u64::try_from(i64).unwrap_or(u64::MAX)]. *)
Definition from_i64 (value : Z) : N := if (value <? 0)%Z then u64_max else Z.to_N value.

Section receiver.
Context (sha256_hex : string → string) (media_type_ok : string → bool).
(** [serde_json::to_value] on a reference. *)
Context {json : Type} (blob_ref_value : blob_ref → option json).
Context {T : Type} `{!ReceiptRepository T json}.
Context (self : archive_receiver).

#[local] Abbreviation receipt := (sm (world T) receipt_error).

Definition staging_path (run_id : N) : string :=
  path_join (av_staging_root self) (pretty run_id +:+ ".part").

(** [.map_err(ReceiptError::Repository)]. *)
Definition repo {A} (c : sm (world T) repository_error A) : receipt A := smap_err RRepository c.

Definition drop_staged (path : string) : receipt unit := signore (with_disk (remove_file path)).

Definition fail_run (run_id : N) (expected : import_state) : receipt unit :=
  signore (mark_run run_id expected Failed).

Definition publish_staged (media_type path : string) : receipt json :=
  let! stream := smap_err (λ _, RStorage) (with_disk (file_stream path)) in
  let! blob_ref :=
    smap_err (λ _, RStorage) (store_minted sha256_hex media_type_ok (av_blob self) media_type stream) in
  slift (ok_or RStorage (blob_ref_value blob_ref)).

(** The end of a run whose content the tenant already has. *)
Definition settle_duplicate (context : hashed_context) (operation : option platform_operation)
    (existing_export_id : N) : receipt receipt_outcome :=
  let! _ :=
    match operation with
    | Some operation => repo (bind_platform_operation existing_export_id operation)
    | None => sret tt
    end in
  let! _ := repo (mark_run (hc_run_id context) Hashed Duplicate) in
  sret (RDuplicate existing_export_id (hc_sha256_hex context) (hc_byte_length context)).

Definition settle_hashed (context : hashed_context) (operation : option platform_operation)
    (path : string) : receipt receipt_outcome :=
  let! existing := repo (find_export_by_digest (hc_tenant context) (hc_sha256_hex context)) in
  match existing with
  | Some existing_export_id => settle_duplicate context operation existing_export_id
  | None =>
      let! blob_ref_json := publish_staged (hc_media_type context) path in
      let! published := stry (publish_export
        (PublishRequest (hc_run_id context) (hc_tenant context)
           (default ConsumerExport (mode_parse (hc_mode_spelling context)))
           blob_ref_json (hc_sha256_hex context) (hc_byte_length context) operation path)) in
      match published with
      | Ok published =>
          sret (RStored (pe_export_id published) (pe_ai_archive_id published)
                  (hc_sha256_hex context) (hc_byte_length context))
      | Err (DuplicateExisting existing_export_id) =>
          settle_duplicate context operation existing_export_id
      | Err other => sfail (RRepository other)
      end
  end.

(** A receipt refused before it is hashed: the staged bytes go and the run
    fails. *)
Definition refuse_staged (run_id : N) (path : string) (e : receipt_error) : receipt receipt_outcome :=
  let! _ := drop_staged path in
  let! _ := fail_run run_id Received in
  sfail e.

Definition is_some_and {A} (o : option A) (f : A → bool) : bool :=
  match o with Some a => f a | None => false end.

Definition receive_inner (principal : tenant_principal) (mode : acquisition_mode)
    (media_type : string) (declared_length : option N) (expectations : receipt_expectations)
    (stream : list (option string)) : receipt receipt_outcome :=
  if negb (media_type_ok media_type) then sfail RInvalidMediaType
  else
    let! run_id := repo (create_run (account_external_ref principal) mode media_type) in
    if is_some_and declared_length (λ declared, av_max_archive_bytes self <? declared)%N then
      let! _ := fail_run run_id Received in
      sfail DeclaredSizeExceeded
    else
      let path := staging_path run_id in
      let! staged := stry (with_disk
        (stream_to_staging sha256_hex path stream (av_max_archive_bytes self))) in
      match staged with
      | Err failure => refuse_staged run_id path (staging_error failure)
      | Ok (sha, byte_length) =>
          if is_some_and declared_length (λ declared, negb (declared =? byte_length)%N) then
            refuse_staged run_id path StreamFailed
          else if is_some_and (re_expected_sha256_hex expectations) (λ e, negb (String.eqb e sha))
          then refuse_staged run_id path RDigestMismatch
          else
            let! _ := repo (record_hash run_id sha byte_length) in
            let context :=
              HashedContext run_id (account_external_ref principal) (mode_as_str mode)
                media_type sha byte_length in
            let! outcome :=
              stry (settle_hashed context (re_platform_operation expectations) path) in
            let! _ := drop_staged path in
            slift outcome
      end.

Definition receive (principal : tenant_principal) (mode : acquisition_mode)
    (media_type : string) (declared_length : option N) (stream : list (option string))
    : receipt receipt_outcome :=
  receive_inner principal mode media_type declared_length (ReceiptExpectations None None) stream.

Definition receive_with_expected_digest (principal : tenant_principal) (mode : acquisition_mode)
    (media_type : string) (declared_length : option N) (expected_sha256_hex : string)
    (stream : list (option string)) : receipt receipt_outcome :=
  receive_inner principal mode media_type declared_length
    (ReceiptExpectations (Some expected_sha256_hex) None) stream.

Definition receive_platform_archive (principal : tenant_principal) (media_type : string)
    (declared_length : N) (expected_sha256_hex : string) (operation : platform_operation)
    (stream : list (option string)) : receipt receipt_outcome :=
  receive_inner principal ConsumerExport media_type (Some declared_length)
    (ReceiptExpectations (Some expected_sha256_hex) (Some operation)) stream.

(** ** Resuming *)

Definition verify_staged (run_id : N) (path expected_hex : string) (expected_length : N)
    : receipt unit :=
  let! hashed := stry (with_disk (hash_file sha256_hex path)) in
  match hashed with
  | Ok (actual_hex, actual_length) =>
      if String.eqb actual_hex expected_hex && (actual_length =? expected_length)%N then sret tt
      else
        let! loaded := stry (load_run run_id) in
        let! _ :=
          match loaded with
          | Ok (Some record) => signore (mark_run run_id (rr_state record) Failed)
          | _ => sret tt
          end in
        sfail StagingEvidenceLost
  | Err e => sfail (evidence_error e)
  end.

(** The evidence of a resumable run; [None] at any other stage. *)
Definition resume_evidence (run_id : N) (record : run_record) (path : string)
    : receipt (option (string * N)) :=
  match rr_state record with
  | Received =>
      let! evidence := stry (smap_err evidence_error (with_disk (hash_file sha256_hex path))) in
      match evidence with
      | Err e => let! _ := fail_run run_id (rr_state record) in sfail e
      | Ok (sha, len) =>
          let! _ := repo (record_hash run_id sha len) in sret (Some (sha, len))
      end
  | Hashed =>
      match rr_sha256_hex record with
      | None => sfail (RRepository Backend)
      | Some expected_hex =>
          let expected_length := from_i64 (default 0%Z (rr_byte_length record)) in
          let! verified := stry (verify_staged run_id path expected_hex expected_length) in
          match verified with
          | Err e => let! _ := fail_run run_id (rr_state record) in sfail e
          | Ok _ => sret (Some (expected_hex, expected_length))
          end
      end
  | _ => sret None
  end.

Definition resume (run_id : N) : receipt (option receipt_outcome) :=
  let! loaded := repo (load_run run_id) in
  match loaded with
  | None => sfail StagingEvidenceLost
  | Some record =>
      if is_terminal (rr_state record)
         || negb (bool_decide (rr_state record = Received ∨ rr_state record = Hashed))
      then sret None
      else
        let path := staging_path run_id in
        let! evidence := resume_evidence run_id record path in
        match evidence with
        | None => sret None
        | Some (sha, byte_length) =>
            let context :=
              HashedContext run_id (rr_account_external_ref record) (rr_acquisition_mode record)
                (rr_media_type record) sha byte_length in
            let! outcome := stry (settle_hashed context None path) in
            let! _ := drop_staged path in
            let! outcome := slift outcome in
            sret (Some outcome)
        end
  end.

Fixpoint resume_each (records : list run_record) : sm (world T) Empty_set unit :=
  match records with
  | [] => sret tt
  | record :: rest => let! _ := signore (resume (rr_id record)) in resume_each rest
  end.

Definition sweep_interrupted : sm (world T) Empty_set nat :=
  let! listed := stry list_resumable in
  match listed with
  | Err _ => sret 0
  | Ok records => let! _ := resume_each records in sret (length records)
  end.
End receiver.

(** ** What staging leaves *)

Lemma staging_loop_Ok path stream max hashed total d h t d' c :
  staging_loop path stream max hashed (N.min total u64_max) d = (Ok (h, t), d') →
  d_nodes d !! path = Some (NFile c) → (N.min total u64_max <= max)%N →
  ∃ chunks, stream = Some <$> chunks ∧ h = hashed +:+ concat_bytes chunks ∧
    t = N.min (total + N.of_nat (String.length (concat_bytes chunks))) u64_max ∧ (t <= max)%N ∧
    d_nodes d' = <[path := NFile (c +:+ concat_bytes chunks)]> (d_nodes d).
Proof.
  revert hashed total d c. induction stream as [|[chunk|] rest IH];
    intros hashed total d c Hrun Hc Hmax; cbn [staging_loop] in Hrun; [| |done].
  - injection Hrun as <- <- <-. exists []. unfold concat_bytes. simpl.
    rewrite !string_app_nil_r, N.add_0_r, insert_id by done. done.
  - rewrite saturating_total in Hrun.
    destruct (max <? _)%N eqn:Hm; [done|]. apply N.ltb_ge in Hm.
    apply sbind_Ok_inv in Hrun as ([] & d1 & Ha%smap_err_Ok_inv & Hrun).
    apply append_Ok in Ha as (c' & Hc' & Hd1). simplify_eq.
    eapply IH in Hrun as (chunks & -> & -> & -> & Ht & Hd'); [|by rewrite Hd1, lookup_insert_eq|done].
    exists (chunk :: chunks). rewrite concat_bytes_cons, string_length_app in *.
    split_and!; [done|by rewrite string_app_assoc|f_equal; lia|lia|].
    by rewrite Hd', Hd1, insert_insert_eq, string_app_assoc.
Qed.

Lemma stream_to_staging_Ok sha256_hex path stream max d sha n d' :
  stream_to_staging sha256_hex path stream max d = (Ok (sha, n), d') →
  ∃ chunks, stream = Some <$> chunks ∧ sha = sha256_hex (concat_bytes chunks) ∧
    n = N.min (N.of_nat (String.length (concat_bytes chunks))) u64_max ∧ (n <= max)%N ∧
    d_nodes d' !! path = Some (NFile (concat_bytes chunks)).
Proof.
  intros ([] & d1 & H1%smap_err_Ok_inv%create_file_Ok & Hrun)%sbind_Ok_inv.
  apply sbind_Ok_inv in Hrun as ([] & d2 & H2%smap_err_Ok_inv%touch_nodes & Hrun).
  apply sbind_Ok_inv in Hrun as ([h t] & d3 & H3 & Hrun).
  apply sbind_Ok_inv in Hrun as ([] & d4 & H4%smap_err_Ok_inv%touch_nodes & Hrun).
  apply sbind_Ok_inv in Hrun as ([] & d5 & H5%smap_err_Ok_inv%touch_nodes & Hrun).
  injection Hrun as <- <- <-.
  apply (staging_loop_Ok _ _ _ _ 0 _ _ _ _ "") in H3 as (chunks & -> & -> & -> & Hmax & H3);
    [|by rewrite H2, H1, lookup_insert_eq|unfold u64_max; lia].
  exists chunks. split_and!; try done. by rewrite H5, H4, H3, lookup_insert_eq.
Qed.

Lemma file_stream_Ok path d stream d' :
  file_stream path d = (Ok stream, d') →
  d_nodes d' = d_nodes d ∧
  (stream = [None] ∨ ∃ c, d_nodes d !! path = Some (NFile c) ∧
     stream = Some <$> chunks_of RESTORE_CHUNK_BYTES c).
Proof.
  intros (c & d1 & [H1 Hc]%read_file_Ok & Hrun)%sbind_Ok_inv.
  apply sbind_Ok_inv in Hrun as (read & d2 & H2 & Hrun). unfold stry in H2.
  destruct (touch d1) as [x d2'] eqn:Ht. apply touch_nodes in Ht. simplify_eq.
  destruct read as [[]|]; injection Hrun as <- <-; (split; [congruence|]); eauto.
Qed.

(** ** Laws of the seam, and what every receipt does to the shared state

    Each operation of the repository moves the world along [Q], [mark_run] for
    the stage changes in [marks]. *)

Class SeamStable (T json : Type) `{ReceiptRepository T json}
    (Q : world T → world T → Prop) (marks : import_state → import_state → Prop) : Prop := {
  sr_create a m mt : stable Q (create_run a m mt);
  sr_hash id h n : stable Q (record_hash id h n);
  sr_mark id e t : marks e t → stable Q (mark_run id e t);
  sr_load id : stable Q (load_run id);
  sr_list : stable Q list_resumable;
  sr_find a h : stable Q (find_export_by_digest a h);
  sr_bind e o : stable Q (bind_platform_operation e o);
  sr_publish q : stable Q (publish_export q);
}.

(** What a receiver does by itself stays within [Q]: it mints names, reads the
    disk, writes its own staging files and stores objects. *)
Record disk_stable (sha256_hex : string → string) (media_type_ok : string → bool)
    (self : archive_receiver) {T} (Q : world T → world T → Prop) : Prop := {
  ds_mint E : stable Q (mint (E := E));
  ds_reading E A (c : sm disk E A) : stable (on_nodes eq) c → stable Q (with_disk c);
  ds_stage id stream max : stable Q (with_disk (stream_to_staging sha256_hex (staging_path self id) stream max));
  ds_drop id : stable Q (with_disk (remove_file (staging_path self id)));
  ds_store id mt stream : stable Q (with_disk (store sha256_hex media_type_ok (av_blob self) id mt stream));
}.

(** The same for a relation on the shared state. *)
Record disk_respects (sha256_hex : string → string) (media_type_ok : string → bool)
    (self : archive_receiver) {T} (Q : snap T → snap T → Prop) : Prop := {
  dr_stage id stream max d r d' t :
    stream_to_staging sha256_hex (staging_path self id) stream max d = (r, d') →
    Q (d_nodes d, t) (d_nodes d', t);
  dr_drop id d r d' t :
    remove_file (staging_path self id) d = (r, d') → Q (d_nodes d, t) (d_nodes d', t);
  dr_store id mt stream d r d' t :
    store sha256_hex media_type_ok (av_blob self) id mt stream d = (r, d') →
    Q (d_nodes d, t) (d_nodes d', t);
}.

Lemma disk_respects_stable sha256_hex media_type_ok self {T} (Q : snap T → snap T → Prop) `{!PreOrder Q} :
  disk_respects sha256_hex media_type_ok self Q → disk_stable sha256_hex media_type_ok self (respects Q).
Proof.
  intros [Hstage Hdrop Hstore]. split; intros.
  - apply stable_mint, _.
  - apply stable_with_disk. intros d r d' t H'%H. unfold on_nodes in H'. by rewrite H'.
  - apply stable_with_disk. by apply Hstage.
  - apply stable_with_disk. by apply Hdrop.
  - apply stable_with_disk. by apply Hstore.
Qed.

Lemma disk_logs sha256_hex media_type_ok self {T} (G : step T → Prop) :
  disk_stable sha256_hex media_type_ok self (logs G).
Proof. split; intros; first [apply logs_mint|apply logs_with_disk]. Qed.

Section receiver_laws.
Context (sha256_hex : string → string) (media_type_ok : string → bool).
Context {json : Type} (blob_ref_value : blob_ref → option json).
Context {T : Type} `{!ReceiptRepository T json}.
Context (self : archive_receiver).
Context (Q : world T → world T → Prop) `{!PreOrder Q} (marks : import_state → import_state → Prop).
Context `{!SeamStable T json Q marks} (Hdisk : disk_stable sha256_hex media_type_ok self Q).
Context (Hfail : marks Received Failed) (Hdup : marks Hashed Duplicate).

#[local] Abbreviation settle_hashed :=
  (settle_hashed sha256_hex media_type_ok blob_ref_value self).
#[local] Abbreviation receive_inner :=
  (receive_inner sha256_hex media_type_ok blob_ref_value self).
#[local] Abbreviation resume := (resume sha256_hex media_type_ok blob_ref_value self).
#[local] Abbreviation G := Q.

Lemma reading_respects {E A} (c : sm disk E A) :
  stable (on_nodes eq) c → stable G (with_disk c).
Proof. apply (ds_reading _ _ _ _ Hdisk). Qed.

Lemma hash_file_reading path : stable (on_nodes eq) (hash_file sha256_hex path).
Proof.
  apply stable_bind; [apply _|apply read_file_stable, _|]. intros. apply stable_ret, _.
Qed.

Lemma mark_respects id e t : marks e t → stable G (mark_run id e t).
Proof. apply sr_mark. Qed.

Lemma fail_respects id e : marks e Failed → stable G (fail_run id e).
Proof. intros. by apply stable_ignore, mark_respects. Qed.

Lemma drop_respects id : stable G (drop_staged (staging_path self id)).
Proof. apply stable_ignore, (ds_drop _ _ _ _ Hdisk). Qed.

#[local] Ltac step :=
  first
    [ assumption | progress intros
    | apply stable_ret; apply _ | apply stable_fail; apply _ | apply stable_lift; apply _
    | apply stable_bind; [apply _| |] | apply stable_map_err | apply stable_try
    | apply drop_respects | apply fail_respects; solve [auto]
    | apply sr_create | apply sr_hash | apply sr_load | apply sr_list | apply sr_find
    | apply sr_bind | apply sr_publish | apply mark_respects; solve [auto]
    | apply reading_respects; first [apply file_stream_reading | apply hash_file_reading]
    | apply (ds_mint _ _ _ _ Hdisk) | apply stable_ignore ].

Lemma publish_staged_respects mt path :
  stable G (publish_staged sha256_hex media_type_ok blob_ref_value self mt path).
Proof.
  unfold publish_staged, store_minted, repo.
  repeat first [step | apply (ds_store _ _ _ _ Hdisk)].
Qed.

Lemma settle_duplicate_respects c o e : stable G (settle_duplicate c o e).
Proof. unfold settle_duplicate, repo. destruct o; repeat step. Qed.

Lemma settle_hashed_respects c o path : stable G (settle_hashed c o path).
Proof.
  unfold Receipt.settle_hashed, repo.
  repeat first [apply publish_staged_respects | apply settle_duplicate_respects | step | case_match].
Qed.

Lemma receive_respects principal mode mt declared expectations stream :
  stable G (receive_inner principal mode mt declared expectations stream).
Proof.
  unfold Receipt.receive_inner, refuse_staged, repo.
  repeat first
    [ apply settle_hashed_respects | step
    | apply (ds_stage _ _ _ _ Hdisk) | case_match ].
Qed.

(** Resuming may fail a run from whatever stage it finds it at. *)
Context (Hany : ∀ s, marks s Failed).

Lemma resume_respects id : stable G (resume id).
Proof.
  unfold Receipt.resume, resume_evidence, verify_staged, repo.
  repeat first [apply settle_hashed_respects | step | case_match].
Qed.

Lemma sweep_respects :
  stable G (sweep_interrupted sha256_hex media_type_ok blob_ref_value self).
Proof.
  unfold sweep_interrupted. repeat first [step | case_match].
  generalize a0. intros l. induction l as [|r l IH]; cbn; repeat first [apply resume_respects|step].
Qed.
End receiver_laws.
