(* ===== verification/ReceiptPg.v ===== *)
(** * The PostgreSQL receipt repository ([receipt/pg.rs])

    The tables the receipt touches, with their keys and constraints
    ([schema.sql]), and the operations as guarded statements over them.
    [now()] is a logical clock. *)

From S2P Require Import Prelude Disk BlobStore ImportState Registry Postgres BlobProtocol.
From S2P Require Import Principals Receipt.

#[local] Open Scope result_scope.

(** ** Tables *)

Record run_row : Set := RunRow {
  ru_account_ref : option string;
  ru_acquisition_mode : option string;
  ru_media_type : option string;
  ru_state : string;
  ru_sha256_hex : option string;
  ru_byte_length : option Z;
  ru_export_id : option N;
  ru_started_at : N;
  ru_finished : bool;
}.

Record export_row (json : Type) : Type := ExportRow {
  ex_ai_archive_id : N;
  ex_account_id : N;
  ex_acquisition_mode : string;
  ex_blob_ref : json;
  ex_sha256_hex : string;
  ex_byte_length : Z;
}.
Arguments ExportRow {json} _ _ _ _ _ _.
Arguments ex_ai_archive_id {json} _.
Arguments ex_account_id {json} _.
Arguments ex_acquisition_mode {json} _.
Arguments ex_blob_ref {json} _.
Arguments ex_sha256_hex {json} _.
Arguments ex_byte_length {json} _.

(** [t_accounts] holds the personal accounts by external reference. *)
Record tables (json : Type) : Type := Tables {
  t_accounts : gmap string N;
  t_exports : gmap N (export_row json);
  t_runs : gmap N run_row;
  t_operations : gmap N (N * N);
  t_clock : N;
}.
Arguments Tables {json} _ _ _ _ _.
Arguments t_accounts {json} _.
Arguments t_exports {json} _.
Arguments t_runs {json} _.
Arguments t_operations {json} _.
Arguments t_clock {json} _.

(** ** Conversions *)

(** [i64::try_from(u64).unwrap_or(i64::MAX)]. *)
Definition to_i64 (value : N) : Z := Z.of_N (N.min value i64_max).

Definition parse_state (spelling : string) : result repository_error import_state :=
  ok_or Backend (state_parse spelling).

(** [RunRow::into_record]. *)
Definition into_record (id : N) (r : run_row) : result repository_error run_record :=
  let? state := parse_state (ru_state r) in
  Ok (RunRecord id (default "" (ru_account_ref r))
        (default (mode_as_str ConsumerExport) (ru_acquisition_mode r))
        (default "application/octet-stream" (ru_media_type r))
        state (ru_sha256_hex r) (ru_byte_length r) (ru_export_id r)).

Definition TERMINAL_STATES : list string :=
  ["completed"; "partial"; "failed"; "duplicate"; "quarantined"].

(** ** Statements *)

Section statements.
Context {json : Type}.

#[local] Abbreviation tables := (tables json).
#[local] Abbreviation sql A := (tables → result sql_error (A * tables)).

Definition set_runs (f : gmap N run_row → gmap N run_row) (t : tables) : tables :=
  Tables (t_accounts t) (t_exports t) (f (t_runs t)) (t_operations t) (t_clock t).

(** [INSERT INTO import_runs ... VALUES (..., 'received')]. *)
Definition insert_run (id : N) (account mode media_type : string) : sql unit := λ t,
  match t_runs t !! id with
  | Some _ => Err SqlError
  | None =>
      Ok (tt, Tables (t_accounts t) (t_exports t)
        (<[id := RunRow (Some account) (Some mode) (Some media_type) "received" None None None
                   (t_clock t) false]> (t_runs t))
        (t_operations t) (t_clock t + 1))
  end.

(** [UPDATE import_runs SET ... WHERE id = $1 AND state = $2]: the number of
    rows affected. *)
Definition update_run (id : N) (expected : string) (f : run_row → run_row) : sql nat := λ t,
  match t_runs t !! id with
  | Some row =>
      if String.eqb (ru_state row) expected then Ok (1, set_runs <[id := f row]> t) else Ok (0, t)
  | None => Ok (0, t)
  end.

Definition hash_row (sha256_hex : string) (byte_length : Z) (r : run_row) : run_row :=
  RunRow (ru_account_ref r) (ru_acquisition_mode r) (ru_media_type r) "hashed"
    (Some sha256_hex) (Some byte_length) (ru_export_id r) (ru_started_at r) (ru_finished r).

Definition mark_row (target : string) (terminal : bool) (r : run_row) : run_row :=
  RunRow (ru_account_ref r) (ru_acquisition_mode r) (ru_media_type r) target
    (ru_sha256_hex r) (ru_byte_length r) (ru_export_id r) (ru_started_at r)
    (ru_finished r || terminal).

Definition stored_row (export_id : N) (r : run_row) : run_row :=
  RunRow (ru_account_ref r) (ru_acquisition_mode r) (ru_media_type r) "stored"
    (ru_sha256_hex r) (ru_byte_length r) (Some export_id) (ru_started_at r) (ru_finished r).

Definition select_run (id : N) : sql (option run_row) := λ t, Ok (t_runs t !! id, t).

(** Rows by [started_at]; the order of equal instants is not specified. *)
Definition by_start (rows : list (N * run_row)) : list (N * run_row) :=
  sort_by (cmp_on (λ r : N * run_row, ru_started_at r.2)) rows.

Definition select_resumable : sql (list (N * run_row)) := λ t,
  Ok (by_start (filter (λ r, ru_state r.2 = "received" ∨ ru_state r.2 = "hashed")
                  (map_to_list (t_runs t))), t).

(** The exports of an account with a digest. *)
Definition exports_with (account_id : N) (sha256_hex : string) (t : tables) : list N :=
  (filter (λ e : N * export_row json,
     ex_account_id e.2 = account_id ∧ ex_sha256_hex e.2 = sha256_hex)
     (map_to_list (t_exports t))).*1.

(** [... JOIN accounts a ... WHERE a.external_ref = $1 AND ... LIMIT 1]. *)
Definition select_export (account sha256_hex : string) : sql (option N) := λ t,
  Ok (account_id ← t_accounts t !! account; head (exports_with account_id sha256_hex t), t).

Definition select_owning_run (export_id : N) : sql (option N) := λ t,
  Ok (fst <$> head (by_start (filter (λ r, ru_export_id r.2 = Some export_id)
                                (map_to_list (t_runs t)))), t).

(** [INSERT INTO platform_operation_imports ... ON CONFLICT DO NOTHING],
    with its foreign keys. *)
Definition insert_operation (operation_id run_id export_id : N) : sql unit := λ t,
  match t_operations t !! operation_id with
  | Some _ => Ok (tt, t)
  | None =>
      match t_runs t !! run_id, t_exports t !! export_id with
      | Some _, Some _ =>
          Ok (tt, Tables (t_accounts t) (t_exports t) (t_runs t)
                    (<[operation_id := (run_id, export_id)]> (t_operations t)) (t_clock t))
      | _, _ => Err SqlError
      end
  end.

(** [INSERT INTO accounts ... ON CONFLICT ... DO UPDATE ... RETURNING id]. *)
Definition upsert_account (id : N) (account : string) : sql N := λ t,
  match t_accounts t !! account with
  | Some existing => Ok (existing, t)
  | None =>
      if existsb (λ a, (a.2 =? id)%N) (map_to_list (t_accounts t)) then Err SqlError
      else Ok (id, Tables (<[account := id]> (t_accounts t)) (t_exports t) (t_runs t)
                     (t_operations t) (t_clock t))
  end.

Definition select_account_export (account_id : N) (sha256_hex : string) : sql (option N) := λ t,
  Ok (head (exports_with account_id sha256_hex t), t).

(** [INSERT INTO exports]: the primary key and the digest are unique. *)
Definition insert_export (id : N) (row : export_row json) : sql unit := λ t,
  match t_exports t !! id, exports_with (ex_account_id row) (ex_sha256_hex row) t with
  | None, [] =>
      Ok (tt, Tables (t_accounts t) (<[id := row]> (t_exports t)) (t_runs t) (t_operations t)
                (t_clock t))
  | _, _ => Err SqlError
  end.
End statements.

(** ** The repository *)

Section repository.
Context (sha256_hex : string → string) (media_type_ok : string → bool).
(** [serde_json::from_value] on a reference. *)
Context {json : Type} (blob_ref_of : json → option blob_ref).
Context (blobs : blob_store).

#[local] Abbreviation tables := (tables json).
#[local] Abbreviation db := (sm (world tables) repository_error).

(** [.map_err(backend)]. *)
Definition backend {A} (c : sm (world tables) sql_error A) : db A := smap_err (λ _, Backend) c.

(** [if outcome.rows_affected() == 0 { return Err(Conflict) }]. *)
Definition affected (rows : nat) : db unit :=
  match rows with O => sfail Conflict | _ => sret tt end.

Definition pg_create_run (account : string) (mode : acquisition_mode) (media_type : string)
    : db N :=
  let! id := mint in
  let! _ := backend (auto (insert_run id account (mode_as_str mode) media_type)) in
  sret id.

Definition pg_record_hash (run_id : N) (sha : string) (byte_length : N) : db unit :=
  let! rows := backend (auto (update_run run_id "received" (hash_row sha (to_i64 byte_length)))) in
  affected rows.

Definition pg_mark_run (run_id : N) (expected target : import_state) : db unit :=
  let terminal := existsb (String.eqb (state_as_str target)) TERMINAL_STATES in
  let! rows := backend (auto (update_run run_id (state_as_str expected)
                                (mark_row (state_as_str target) terminal))) in
  affected rows.

Definition pg_load_run (run_id : N) : db (option run_record) :=
  let! row := backend (auto (select_run run_id)) in
  match row with
  | Some row => let! record := slift (into_record run_id row) in sret (Some record)
  | None => sret None
  end.

Fixpoint into_records (rows : list (N * run_row)) : result repository_error (list run_record) :=
  match rows with
  | [] => Ok []
  | (id, row) :: rest =>
      let? record := into_record id row in
      let? records := into_records rest in
      Ok (record :: records)
  end.

Definition pg_list_resumable : db (list run_record) :=
  let! rows := backend (auto select_resumable) in slift (into_records rows).

Definition pg_find_export_by_digest (account sha : string) : db (option N) :=
  backend (auto (select_export account sha)).

Definition pg_bind_platform_operation (existing_export_id : N) (operation : platform_operation)
    : db unit :=
  let! run_id := backend (auto (select_owning_run existing_export_id)) in
  let! run_id := slift (ok_or Backend run_id) in
  backend (auto (insert_operation (po_operation_id operation) run_id existing_export_id)).

Definition registration_error_of (e : registration_error) : repository_error :=
  match e with RegDatabase _ => Backend | RegUnavailable => BlobUnavailable end.

(** The transaction of [publish_export], from the account upsert to the
    platform correlation. *)
Definition publish_body (request : publish_request json) : db published_export :=
  let account := pq_account_external_ref request in
  let! account_row := mint in
  let! owner := backend (statement (upsert_account account_row account)) in
  let! existing := backend (statement (select_account_export owner (pq_sha256_hex request))) in
  match existing with
  | Some existing => sfail (DuplicateExisting existing)
  | None =>
      let! reference := slift (ok_or Backend (blob_ref_of (pq_blob_ref_json request))) in
      let! _ := smap_err registration_error_of
        (register_blobs sha256_hex media_type_ok blobs
           [Registration reference (Staged (pq_staged_path request))]) in
      let! export_id := mint in
      let! ai_archive_id := mint in
      let! _ := backend (statement (insert_export export_id
        (ExportRow ai_archive_id owner (mode_as_str (pq_mode request)) (pq_blob_ref_json request)
           (pq_sha256_hex request) (to_i64 (pq_byte_length request))))) in
      let! rows := backend (statement
        (update_run (pq_run_id request) "hashed" (stored_row export_id))) in
      let! _ := affected rows in
      let! _ :=
        match pq_platform_operation request with
        | Some operation =>
            backend (statement
              (insert_operation (po_operation_id operation) (pq_run_id request) export_id))
        | None => sret tt
        end in
      sret (PublishedExport export_id ai_archive_id)
  end.

Definition pg_publish_export (request : publish_request json) : db published_export :=
  transaction (λ _, Backend) (publish_body request).

Definition PostgresReceiptRepository : ReceiptRepository tables json := {|
  create_run := pg_create_run;
  record_hash := pg_record_hash;
  mark_run := pg_mark_run;
  load_run := pg_load_run;
  list_resumable := pg_list_resumable;
  find_export_by_digest := pg_find_export_by_digest;
  bind_platform_operation := pg_bind_platform_operation;
  publish_export := pg_publish_export;
|}.
End repository.

(** ** What the statements do *)

(** Statements and transactions when no other process acts. *)
Lemma auto_alone {T A} (op : T → result sql_error (A * T)) w r w' :
  auto op w = (r, w') → w_others w = [] →
  w_disk w' = w_disk w ∧ w_others w' = [] ∧
  match r with
  | Ok a => op (w_tables w) = Ok (a, w_tables w')
  | Err _ => w_tables w' = w_tables w ∨ ∃ a, op (w_tables w) = Ok (a, w_tables w')
  end.
Proof.
  unfold auto, interfere. intros H Hw. rewrite Hw in H.
  destruct (next_fault w), (op (w_tables w)) as [[a t]|e] eqn:E; injection H as <- <-;
    split_and!; try done; eauto.
Qed.

Lemma transaction_alone {T E A} (f : sql_error → E) (body : sm (world T) E A) w r w' :
  transaction f body w = (r, w') → w_others w = [] →
  match r with
  | Ok a => ∃ w1, body (drop_fault w) = (Ok a, w1) ∧ w_disk w' = w_disk w1 ∧
              w_tables w' = w_tables w1
  | Err e => e = f SqlError ∨ ∃ w1, body (drop_fault w) = (Err e, w1) ∧ w_tables w' = w_tables w ∧
               w_others w' = w_others w1
  end.
Proof.
  unfold transaction, interfere. intros H Hw. rewrite Hw in H.
  destruct (next_fault w); [|injection H as <- <-; by left..].
  destruct (body (drop_fault w)) as [[a|e] u] eqn:Eb.
  - destruct (next_fault u); injection H as <- <-; eauto.
  - injection H as <- <-. eauto.
Qed.

(** The database answers every statement. *)
Definition calm {T} (w : world T) : Prop := Forall (eq Fine) (db_faults (w_db w)).

Lemma auto_calm {T A} (op : T → result sql_error (A * T)) w r w' a t :
  auto op w = (r, w') → w_others w = [] → calm w → op (w_tables w) = Ok (a, t) →
  r = Ok a ∧ w_tables w' = t ∧ calm w'.
Proof.
  unfold auto, interfere, calm, next_fault. intros H Hw Hc Hop. rewrite Hw, Hop in H.
  destruct (db_faults (w_db w)) as [|f fs] eqn:E; cbn in H.
  - injection H as <- <-. cbn. rewrite E. done.
  - apply Forall_cons in Hc as [<- Hc]. injection H as <- <-. cbn. by rewrite E.
Qed.

Lemma signore_not_Err {S E F A} (c : sm S E A) s (e : F) s' : signore c s ≠ (Err e, s').
Proof. unfold signore. by destruct (c s). Qed.

(** The errors a computation can return. *)
Definition raises {S E A} (P : E → Prop) (c : sm S E A) : Prop :=
  ∀ s e s', c s = (Err e, s') → P e.

Lemma raises_bind {S E A B} (P : E → Prop) (c : sm S E A) (k : A → sm S E B) :
  raises P c → (∀ a, raises P (k a)) → raises P (sbind c k).
Proof. intros Hc Hk s e s' [(a & t & _ & H)|(e' & H & [= <-])]%sbind_inv; eauto. by eapply Hk. Qed.

Lemma raises_map_err {S E F A} (P : F → Prop) (f : E → F) (c : sm S E A) :
  (∀ e, P (f e)) → raises P (smap_err f c).
Proof. intros Hf s e s'. unfold smap_err. destruct (c s) as [[a|e'] t]; by intros [= <- <-]. Qed.

Lemma raises_ret {S E A} (P : E → Prop) (a : A) : raises P (sret (S := S) a).
Proof. by intros s e s'. Qed.

Lemma raises_fail {S E A} (P : E → Prop) e : P e → raises P (sfail (S := S) (A := A) e).
Proof. by intros H s e' s' [= <- <-]. Qed.

Lemma raises_lift {S E A} (P : E → Prop) (r : result E A) :
  (∀ e, r = Err e → P e) → raises P (slift (S := S) r).
Proof. intros H s e s' [= -> <-]. by apply H. Qed.

Lemma raises_try {S E F A} (P : F → Prop) (c : sm S E A) : raises P (stry c).
Proof. intros s e s'. unfold stry. by destruct (c s). Qed.

Lemma insert_operation_inv {json} o r e (t t' : tables json) u :
  insert_operation o r e t = Ok (u, t') →
  t_accounts t' = t_accounts t ∧ t_exports t' = t_exports t ∧ t_runs t' = t_runs t.
Proof. unfold insert_operation. intros. repeat case_match; by simplify_eq. Qed.

Lemma update_run_inv {json} id e f (t t' : tables json) rows :
  update_run id e f t = Ok (rows, t') →
  t_accounts t' = t_accounts t ∧ t_exports t' = t_exports t ∧
  ((rows = 0 ∧ t' = t) ∨
   ∃ row, rows = 1 ∧ t_runs t !! id = Some row ∧ ru_state row = e ∧
     t_runs t' = <[id := f row]> (t_runs t)).
Proof.
  unfold update_run. destruct (t_runs t !! id) as [row|] eqn:E; [|intros [= <- <-]; auto].
  destruct (String.eqb_spec (ru_state row) e); intros [= <- <-]; naive_solver.
Qed.

Lemma exports_with_spec {json} a h (t : tables json) id :
  id ∈ exports_with a h t ↔
  ∃ row, t_exports t !! id = Some row ∧ ex_account_id row = a ∧ ex_sha256_hex row = h.
Proof.
  unfold exports_with. rewrite list_elem_of_fmap. split.
  - intros ([i row] & -> & [[Ha Hh] Hi%elem_of_map_to_list]%list_elem_of_filter). eauto.
  - intros (row & Hi & Ha & Hh). exists (id, row). split; [done|].
    apply list_elem_of_filter. split; [done|]. by apply elem_of_map_to_list.
Qed.

Lemma exports_with_ext {json} a h (t t' : tables json) :
  t_exports t' = t_exports t → exports_with a h t' = exports_with a h t.
Proof. unfold exports_with. by intros ->. Qed.

Lemma exports_with_head {json} a h (t : tables json) :
  head (exports_with a h t) = None → exports_with a h t = [].
Proof. by destruct (exports_with a h t). Qed.

Lemma upsert_account_inv {json} id a (t t' : tables json) o :
  upsert_account id a t = Ok (o, t') →
  t_accounts t' !! a = Some o ∧ t_accounts t ⊆ t_accounts t' ∧
  t_exports t' = t_exports t ∧ t_runs t' = t_runs t.
Proof.
  unfold upsert_account. destruct (t_accounts t !! a) as [o'|] eqn:E; [intros [= <- <-]; auto|].
  destruct (existsb _ _); [done|]. intros [= <- <-]. cbn.
  rewrite lookup_insert_eq. split_and!; [done|by apply insert_subseteq|done|done].
Qed.

Lemma insert_export_inv {json} id (row : export_row json) (t t' : tables json) u :
  insert_export id row t = Ok (u, t') →
  t_exports t !! id = None ∧ exports_with (ex_account_id row) (ex_sha256_hex row) t = [] ∧
  t_exports t' = <[id := row]> (t_exports t) ∧ t_accounts t' = t_accounts t ∧
  t_runs t' = t_runs t.
Proof. unfold insert_export. intros H. repeat case_match; by simplify_eq. Qed.

Section pg_laws.
Context (sha256_hex : string → string) (media_type_ok : string → bool).
Context {json : Type} (blob_ref_of : json → option blob_ref).
Context (blobs : blob_store).

#[local] Abbreviation tables := (tables json).
#[local] Abbreviation present := (present sha256_hex).
#[local] Abbreviation publish_body := (publish_body sha256_hex media_type_ok blob_ref_of blobs).
#[local] Abbreviation grows := (grows sha256_hex (T := tables) blobs).

(** What [publish_export] changed when its body returned: the account
    [owner], the run's [row], the reference [ref]. *)
Record published_as (q : publish_request json) (p : published_export)
    (owner : N) (row : run_row) (ref : blob_ref) (w w' : world tables) : Prop := {
  pa_account : t_accounts (w_tables w') !! pq_account_external_ref q = Some owner;
  pa_accounts : t_accounts (w_tables w) ⊆ t_accounts (w_tables w');
  pa_new : exports_with owner (pq_sha256_hex q) (w_tables w) = [];
  pa_fresh : t_exports (w_tables w) !! pe_export_id p = None;
  pa_exports : t_exports (w_tables w') =
    <[pe_export_id p :=
        ExportRow (pe_ai_archive_id p) owner (mode_as_str (pq_mode q)) (pq_blob_ref_json q)
          (pq_sha256_hex q) (to_i64 (pq_byte_length q))]> (t_exports (w_tables w));
  pa_hashed : t_runs (w_tables w) !! pq_run_id q = Some row;
  pa_state : ru_state row = "hashed";
  pa_runs : t_runs (w_tables w') =
    <[pq_run_id q := stored_row (pe_export_id p) row]> (t_runs (w_tables w));
  pa_blob : blob_ref_of (pq_blob_ref_json q) = Some ref;
  pa_present : store_wf sha256_hex blobs (d_nodes (w_disk w)) →
    present blobs ref (d_nodes (w_disk w'));
  pa_locked : lock_key (cd_hex (br_digest ref)) ∈ w_locks w';
}.

(** The disk side of a transaction: objects only grow. *)
Record objects_grow (w w' : world tables) : Prop := ObjectsGrow {
  og_others : w_others w' = w_others w;
  og_kept : objects_kept blobs (d_nodes (w_disk w)) (d_nodes (w_disk w'));
  og_wf : store_wf sha256_hex blobs (d_nodes (w_disk w)) →
          store_wf sha256_hex blobs (d_nodes (w_disk w'));
}.

#[export] Instance objects_grow_preorder : PreOrder objects_grow.
Proof. split; [by intros w|]. intros a b c [] []. split; [congruence|by etrans|auto]. Qed.

Lemma statement_grow {A} (op : tables → result sql_error (A * tables)) :
  stable objects_grow (statement op).
Proof. intros w r w' (Hd & Ho & _)%statement_inv. split; by rewrite ?Hd. Qed.

Lemma grows_grow {E A} (c : sm (world tables) E A) : stable grows c → stable objects_grow c.
Proof. intros Hc w r w' []%Hc. by split. Qed.

Lemma publish_body_grow q : stable objects_grow (publish_body q).
Proof.
  unfold ReceiptPg.publish_body, backend.
  repeat first
    [ progress intros | apply grows_grow; first [apply mint_grows | apply register_blobs_grows]
    | apply stable_bind; [apply _| |] | apply stable_map_err | apply statement_grow
    | apply stable_ret; apply _ | apply stable_fail; apply _ | apply stable_lift; apply _
    | case_match ].
  unfold affected. case_match; [apply stable_fail|apply stable_ret]; apply _.
Qed.

(** A publication ends no step of its own and gives up no lock. *)
Lemma publish_body_within q : stable within_step (publish_body q).
Proof.
  unfold ReceiptPg.publish_body, backend.
  repeat first
    [ progress intros | apply within_mint | apply register_blobs_within
    | apply stable_bind; [apply _| |] | apply stable_map_err | apply within_statement
    | apply stable_ret; apply _ | apply stable_fail; apply _ | apply stable_lift; apply _
    | case_match ].
  unfold affected. case_match; [apply stable_fail|apply stable_ret]; apply _.
Qed.

Lemma publish_body_Ok q w p w' :
  publish_body q w = (Ok p, w') → ∃ owner row ref, published_as q p owner row ref w w'.
Proof.
  unfold ReceiptPg.publish_body, backend.
  intros (i0 & w1 & [= <- <-] & Hrun)%sbind_Ok_inv.
  apply sbind_Ok_inv in Hrun as (owner & w2 & H%smap_err_Ok_inv & Hrun).
  apply statement_inv in H as (D2 & _ & Hup). cbn in D2, Hup.
  apply sbind_Ok_inv in Hrun as (ex & w3 & H%smap_err_Ok_inv & Hrun).
  apply statement_inv in H as (D3 & _ & [= Hex Ht3]).
  destruct ex as [e|]; [done|].
  apply sbind_Ok_inv in Hrun as (ref & w4 & Href & Hrun).
  destruct (blob_ref_of (pq_blob_ref_json q)) as [ref'|] eqn:Eref; [|done]. injection Href as -> <-.
  apply sbind_Ok_inv in Hrun as ([] & w5 & Hreg%smap_err_Ok_inv & Hrun).
  pose proof (register_blobs_grows _ _ blobs _ _ _ _ Hreg) as [Ht5 _ _ _].
  apply sbind_Ok_inv in Hrun as (eid & w6 & [= <- <-] & Hrun).
  apply sbind_Ok_inv in Hrun as (aid & w7 & [= <- <-] & Hrun).
  apply sbind_Ok_inv in Hrun as ([] & w8 & H%smap_err_Ok_inv & Hrun).
  pose proof (within_statement _ _ _ _ H) as L8. apply statement_inv in H as (D8 & _ & Hins). cbn in D8, Hins.
  apply sbind_Ok_inv in Hrun as (rows & w9 & H%smap_err_Ok_inv & Hrun).
  pose proof (within_statement _ _ _ _ H) as L9. apply statement_inv in H as (D9 & _ & Hupd).
  apply sbind_Ok_inv in Hrun as ([] & w10 & Haff & Hrun).
  destruct rows as [|rows]; [done|]. injection Haff as <-.
  apply sbind_Ok_inv in Hrun as ([] & w11 & Hop & Hrun). injection Hrun as <- <-.
  apply update_run_inv in Hupd as (Ha9 & He9 & [[? _]|(row & _ & Hrow & Hst & Hr9)]); [done|].
  assert (H11 : t_accounts (w_tables w11) = t_accounts (w_tables w9) ∧
    t_exports (w_tables w11) = t_exports (w_tables w9) ∧
    t_runs (w_tables w11) = t_runs (w_tables w9) ∧ w_disk w11 = w_disk w9 ∧ within_step w9 w11).
  { destruct (pq_platform_operation q); [|by injection Hop as <-].
    apply smap_err_Ok_inv in Hop. pose proof (within_statement _ _ _ _ Hop) as L11.
    apply statement_inv in Hop as (? & _ & Hop%insert_operation_inv). naive_solver. }
  destruct H11 as (Ha11 & He11 & Hr11 & D11 & L11).
  assert (Hlock : lock_key (cd_hex (br_digest ref)) ∈ w_locks w11).
  { eapply within_locks; [exact L11|]. eapply within_locks; [exact L9|]. eapply within_locks; [exact L8|].
    exact (register_blobs_held _ _ _ _ _ _ (Registration ref _) Hreg (list_elem_of_here _ _)). }
  apply upsert_account_inv in Hup as (Ha2 & Hsub & He2 & Hr2).
  apply insert_export_inv in Hins as (Hfresh & _ & He8 & Ha8 & Hr8).
  unfold w_tables in *. cbn in *. rewrite Ht5, <-Ht3 in *.
  exists owner, row, ref. split; cbn; unfold w_tables in *; try done.
  - by rewrite Ha11, Ha9, Ha8.
  - by rewrite Ha11, Ha9, Ha8.
  - rewrite <-(exports_with_ext _ _ _ _ He2). by apply exports_with_head.
  - by rewrite <-He2.
  - by rewrite He11, He9, He8, He2.
  - by rewrite <-Hr2, <-Hr8.
  - by rewrite Hr11, Hr9, Hr8, Hr2.
  - intros Hwf. rewrite D11, D9, D8. rewrite <-D2, <-D3 in Hwf.
    pose proof (register_blobs_Ok _ _ _ _ _ _ Hreg Hwf) as Hp.
    by apply Forall_cons in Hp as [Hp _].
Qed.

#[local] Abbreviation repository :=
  (PostgresReceiptRepository sha256_hex media_type_ok blob_ref_of blobs).

(** *** No committed row references a missing blob *)

(** Objects hash to their addresses, and every export references one. *)
Definition blob_inv (x : snap tables) : Prop :=
  store_wf sha256_hex blobs x.1 ∧
  ∀ id row, t_exports x.2 !! id = Some row →
    ∃ ref, blob_ref_of (ex_blob_ref row) = Some ref ∧ present blobs ref x.1.

Definition keeps (I : snap tables → Prop) (x y : snap tables) : Prop := I x → I y.

#[export] Instance keeps_preorder I : PreOrder (keeps I).
Proof. split; unfold keeps; [by intros x|auto]. Qed.

Lemma blob_inv_grow ns ns' (t t' : tables) :
  objects_kept blobs ns ns' → (store_wf sha256_hex blobs ns → store_wf sha256_hex blobs ns') →
  t_exports t' = t_exports t → keeps blob_inv (ns, t) (ns', t').
Proof.
  intros Hk Hw He [Hwf Hrows]. split; [by apply Hw|]. cbn in *. rewrite He.
  intros id row (ref & Href & Hp)%Hrows. exists ref. split; [done|]. by eapply present_kept.
Qed.

Lemma auto_keeps_blobs {A} (op : tables → result sql_error (A * tables)) :
  (∀ t a t', op t = Ok (a, t') → t_exports t' = t_exports t) →
  stable (respects (keeps blob_inv)) (auto op).
Proof.
  intros Hop. apply stable_auto; [apply _|]. intros ns t a t' H%Hop. by apply blob_inv_grow.
Qed.

Lemma publish_body_blobs q : body_ok (keeps blob_inv) (publish_body q).
Proof.
  intros w r w' Hrun. pose proof (publish_body_grow q _ _ _ Hrun) as [Ho Hk Hw].
  split_and!; [done|by apply blob_inv_grow|]. destruct r as [p|e]; [|done]. intros _.
  apply publish_body_Ok in Hrun as (owner & row & ref & []). intros [Hwf Hrows].
  cbn in *. split; [by apply Hw|]. cbn. rewrite pa_exports0. intros id row'.
  rewrite lookup_insert_Some. intros [[<- <-]|[_ (ref' & ? & Hp)%Hrows]].
  - exists ref. cbn. auto.
  - exists ref'. split; [done|]. by eapply present_kept.
Qed.

#[export] Instance pg_keeps_blobs :
  SeamStable (H := repository) tables json (respects (keeps blob_inv)) (λ _ _, True).
Proof.
  split; intros; cbn; unfold pg_create_run, pg_record_hash, pg_mark_run, pg_load_run,
    pg_list_resumable, pg_find_export_by_digest, pg_bind_platform_operation, backend, affected;
  try (apply stable_transaction; [apply _|apply publish_body_blobs]);
  repeat first
    [ progress intros | apply stable_bind; [apply _| |] | apply stable_map_err | apply stable_mint
    | apply stable_ret; apply _ | apply stable_fail; apply _ | apply stable_lift; apply _
    | apply auto_keeps_blobs | case_match | apply _ ];
  unfold insert_run, select_run, select_resumable, select_export, select_owning_run in *;
  repeat case_match; simplify_eq/=; try done.
  all: first [ by eapply update_run_inv | by eapply insert_operation_inv ].
Qed.

(** Every export row a step adds references an object that was registered in
    it: its digest's lock was held to the end, and the object is present. *)
Definition registers (st : step tables) : Prop :=
  ∀ id row, t_exports (st_after st).2 !! id = Some row →
    t_exports (st_before st).2 !! id = Some row ∨
    ∃ ref, blob_ref_of (ex_blob_ref row) = Some ref ∧ lock_key (cd_hex (br_digest ref)) ∈ st_locks st ∧
      (store_wf sha256_hex blobs (st_before st).1 → present blobs ref (st_after st).1).

Lemma registers_same l ns ns' (t t' : tables) : t_exports t' = t_exports t → registers (Step l (ns, t) (ns', t')).
Proof. intros He id row H. left. cbn in *. by rewrite <-He. Qed.

Lemma publish_body_registers q : body_logs registers (publish_body q).
Proof.
  intros w r w' Hrun. pose proof (publish_body_within q _ _ _ Hrun) as [Hs _].
  split_and!; [done|by apply registers_same|]. destruct r as [p|e]; [|done]. intros _.
  apply publish_body_Ok in Hrun as (owner & row & ref & []). intros id row'. cbn. rewrite pa_exports0.
  rewrite lookup_insert_Some. intros [[<- <-]|[_ ?]]; [right|by left]. by exists ref.
Qed.

(** The statements of the other operations, one by one. *)
#[local] Ltac each_statement auto_lemma :=
  cbn; unfold pg_create_run, pg_record_hash, pg_mark_run, pg_load_run,
    pg_list_resumable, pg_find_export_by_digest, pg_bind_platform_operation, backend, affected;
  repeat first
    [ progress intros | apply stable_bind; [apply _| |] | apply stable_map_err | apply logs_mint
    | apply stable_ret; apply _ | apply stable_fail; apply _ | apply stable_lift; apply _
    | auto_lemma tt | case_match | apply _ ].

#[export] Instance pg_registers :
  SeamStable (H := repository) tables json (logs registers) (λ _ _, True).
Proof.
  split; intros; try (apply logs_transaction, publish_body_registers);
    each_statement ltac:(fun _ => apply logs_auto; [by intros; apply registers_same|]);
    apply registers_same;
    unfold insert_run, select_run, select_resumable, select_export, select_owning_run in *;
    repeat case_match; simplify_eq/=; try done.
  all: first [ by eapply update_run_inv | by eapply insert_operation_inv ].
Qed.

(** *** Stages move along a relation *)

(** One step of the machine: no run disappears, a new one is at [received], and
    one that was there has its stage or a next one. *)
Definition stage_step (L : import_state → import_state → Prop) (st : step tables) : Prop :=
  (∀ id, is_Some (t_runs (st_before st).2 !! id) → is_Some (t_runs (st_after st).2 !! id)) ∧
  ∀ id row', t_runs (st_after st).2 !! id = Some row' →
    match t_runs (st_before st).2 !! id with
    | None => ru_state row' = state_as_str Received
    | Some row => ru_state row' = ru_state row ∨
        ∃ s s', state_parse (ru_state row) = Some s ∧ state_parse (ru_state row') = Some s' ∧ L s s'
    end.

Definition run_stage (t : tables) (id : N) : option import_state :=
  t_runs t !! id ≫= λ r, state_parse (ru_state r).

(** Every run keeps existing and moves by steps of [L]; a new one came from
    [received]. *)
Definition moves (L : import_state → import_state → Prop) (x y : snap tables) : Prop :=
  ∀ id, match run_stage x.2 id with
        | Some s => ∃ s', run_stage y.2 id = Some s' ∧ rtc L s s'
        | None => ∀ s', run_stage y.2 id = Some s' → rtc L Received s'
        end.

#[export] Instance moves_preorder L : PreOrder (moves L).
Proof.
  split.
  - intros x id. destruct (run_stage x.2 id); [eauto using rtc_refl|done].
  - intros x y z Hxy Hyz id. specialize (Hxy id). specialize (Hyz id).
    destruct (run_stage x.2 id) as [s|].
    + destruct Hxy as (s' & Hy & Hs). rewrite Hy in Hyz. destruct Hyz as (s'' & Hz & Hs').
      exists s''. split; [done|]. by etrans.
    + intros s'' Hz. destruct (run_stage y.2 id) as [s'|]; [|by apply Hyz].
      destruct Hyz as (s3 & Hz' & Hs'). rewrite Hz in Hz'. injection Hz' as <-.
      etrans; [by apply Hxy|done].
Qed.

Lemma moves_same L ns ns' (t t' : tables) : t_runs t' = t_runs t → moves L (ns, t) (ns', t').
Proof.
  intros H id. unfold run_stage. cbn. rewrite H.
  destruct (t_runs t !! id ≫= _); [eauto using rtc_refl|done].
Qed.

(** A compare-and-set along a step of [L]. *)
Lemma moves_update (L : import_state → import_state → Prop) ns ns' (t t' : tables) id row f s s' :
  t_runs t !! id = Some row → state_parse (ru_state row) = Some s →
  state_parse (ru_state (f row)) = Some s' → L s s' →
  t_runs t' = <[id := f row]> (t_runs t) → moves L (ns, t) (ns', t').
Proof.
  intros Hrow Hs Hs' HL Ht id'. unfold run_stage. cbn. rewrite Ht.
  destruct (decide (id = id')) as [<-|Hne].
  - rewrite Hrow, lookup_insert_eq. cbn. rewrite Hs, Hs'. eauto using rtc_once.
  - rewrite lookup_insert_ne by done. destruct (t_runs t !! id' ≫= _); [eauto using rtc_refl|done].
Qed.

Lemma state_parse_as_str s : state_parse (state_as_str s) = Some s.
Proof. by destruct s. Qed.

Lemma update_moves L e f s' :
  (∀ row, state_parse (ru_state (f row)) = Some s') → L e s' →
  ∀ id ns (t t' : tables) rows,
    update_run id (state_as_str e) f t = Ok (rows, t') → moves L (ns, t) (ns, t').
Proof.
  intros Hf HL id ns t t' rows (_ & _ & [[_ ->]|(row & _ & Hrow & Hst & Hr)])%update_run_inv.
  - by apply moves_same.
  - eapply moves_update; eauto. rewrite Hst. apply state_parse_as_str.
Qed.

Lemma insert_run_moves L id a m mt ns (t t' : tables) u :
  insert_run id a m mt t = Ok (u, t') → moves L (ns, t) (ns, t').
Proof.
  unfold insert_run. destruct (t_runs t !! id) as [row|] eqn:E; [done|]. intros [= <- <-] id'.
  unfold run_stage. cbn. destruct (decide (id = id')) as [<-|Hne].
  - rewrite E, lookup_insert_eq. cbn. intros s' [= <-]. apply rtc_refl.
  - rewrite lookup_insert_ne by done. destruct (t_runs t !! id' ≫= _); [eauto using rtc_refl|done].
Qed.

Context (L : import_state → import_state → Prop)
  (Lhash : L Received Hashed) (Lstore : L Hashed Stored).

Lemma publish_body_moves q : body_ok (moves L) (publish_body q).
Proof using Lstore.
  intros w r w' Hrun. pose proof (publish_body_grow q _ _ _ Hrun) as [Ho _ _].
  split_and!; [done|by apply moves_same|]. destruct r as [p|e]; [|done]. intros _.
  apply publish_body_Ok in Hrun as (owner & row & ref & []).
  eapply (moves_update L _ _ _ _ (pq_run_id q) row (stored_row (pe_export_id p)) Hashed Stored);
    eauto. by rewrite pa_state0.
Qed.

Lemma stage_step_same l ns ns' (t t' : tables) : t_runs t' = t_runs t → stage_step L (Step l (ns, t) (ns', t')).
Proof.
  intros H. split; cbn; rewrite H; [done|]. intros id row' ->. by left.
Qed.

Lemma stage_step_update l ns ns' (t t' : tables) id row f s s' :
  t_runs t !! id = Some row → state_parse (ru_state row) = Some s →
  state_parse (ru_state (f row)) = Some s' → L s s' →
  t_runs t' = <[id := f row]> (t_runs t) → stage_step L (Step l (ns, t) (ns', t')).
Proof.
  intros Hrow Hs Hs' HL Ht. split; cbn; rewrite Ht; intros i.
  - intros Hi. destruct (decide (id = i)) as [<-|]; [by rewrite lookup_insert_eq|by rewrite lookup_insert_ne].
  - intros row'. rewrite lookup_insert_Some. intros [[<- <-]|[_ Hi]].
    + rewrite Hrow. right. by exists s, s'.
    + rewrite Hi. by left.
Qed.

Lemma publish_body_stages q : body_logs (stage_step L) (publish_body q).
Proof using Lstore.
  intros w r w' Hrun. pose proof (publish_body_within q _ _ _ Hrun) as [Hs _].
  split_and!; [done|by apply stage_step_same|]. destruct r as [p|e]; [|done]. intros _.
  apply publish_body_Ok in Hrun as (owner & row & ref & []).
  eapply (stage_step_update _ _ _ _ _ (pq_run_id q) row (stored_row (pe_export_id p)) Hashed Stored); eauto.
  by rewrite pa_state0.
Qed.

Lemma stage_step_insert ns (t t' : tables) i a m mt u :
  insert_run i a m mt t = Ok (u, t') → stage_step L (Step [] (ns, t) (ns, t')).
Proof.
  unfold insert_run. destruct (t_runs t !! i) as [row|] eqn:E; [done|]. intros [= _ <-]. split; cbn; intros id.
  - intros Hi. destruct (decide (i = id)) as [<-|]; [by rewrite lookup_insert_eq|by rewrite lookup_insert_ne].
  - intros row'. rewrite lookup_insert_Some. intros [[<- <-]|[_ Hi]]; [by rewrite E|rewrite Hi; by left].
Qed.

Lemma stage_step_guarded ns (t t' : tables) id e s f s' rows :
  update_run id e f t = Ok (rows, t') → state_parse e = Some s →
  (∀ row, state_parse (ru_state (f row)) = Some s') → L s s' → stage_step L (Step [] (ns, t) (ns, t')).
Proof.
  intros (_ & _ & [[_ ->]|(row & _ & Hrow & He & Ht)])%update_run_inv Hs Hs' HL; [by apply stage_step_same|].
  eapply stage_step_update; [exact Hrow|by rewrite He|apply Hs'|exact HL|exact Ht].
Qed.

Lemma pg_stages : SeamStable (H := repository) tables json (logs (stage_step L)) L.
Proof using Lhash Lstore.
  split; intros; try (apply logs_transaction, publish_body_stages);
    each_statement ltac:(fun _ => apply logs_auto; [by intros; apply stage_step_same|]).
  - by eapply stage_step_insert.
  - by eapply (stage_step_guarded _ _ _ _ _ Received _ Hashed).
  - eapply (stage_step_guarded _ _ _ _ _ e _ t);
      [eassumption|apply state_parse_as_str|intros; apply state_parse_as_str|assumption].
  - by apply stage_step_same; unfold select_run in *; simplify_eq.
  - by apply stage_step_same; unfold select_resumable in *; simplify_eq.
  - by apply stage_step_same; unfold select_export in *; simplify_eq.
  - by apply stage_step_same; unfold select_owning_run in *; simplify_eq.
  - apply stage_step_same. by eapply insert_operation_inv.
Qed.

Lemma pg_moves : SeamStable (H := repository) tables json (respects (moves L)) L.
Proof using Lhash Lstore.
  split; intros; cbn; unfold pg_create_run, pg_record_hash, pg_mark_run, pg_load_run,
    pg_list_resumable, pg_find_export_by_digest, pg_bind_platform_operation, backend, affected;
  try (apply stable_transaction; [apply _|apply publish_body_moves]);
  repeat first
    [ progress intros | apply stable_bind; [apply _| |] | apply stable_map_err | apply stable_mint
    | apply stable_ret; apply _ | apply stable_fail; apply _ | apply stable_lift; apply _
    | apply stable_auto; [apply _|] | case_match | apply _ ].
  - by eapply insert_run_moves.
  - by eapply (update_moves L Received _ Hashed); [| |exact H].
  - eapply (update_moves L e _ t); [| |exact H0]; [|done]. intros. apply state_parse_as_str.
  - by apply moves_same; unfold select_run in *; simplify_eq.
  - by apply moves_same; unfold select_resumable in *; simplify_eq.
  - by apply moves_same; unfold select_export in *; simplify_eq.
  - by apply moves_same; unfold select_owning_run in *; simplify_eq.
  - apply moves_same. by eapply insert_operation_inv.
Qed.
End pg_laws.

(** ** The receiver over PostgreSQL *)

Section receiver_pg.
Context (sha256_hex : string → string) (media_type_ok : string → bool).
Context {json : Type} (blob_ref_value : blob_ref → option json) (blob_ref_of : json → option blob_ref).
Context (self : archive_receiver).
(** The staging directory is not inside the object directory. *)
Context (apart : ∀ id dir rem, String.length dir = 2 →
  staging_path self id ≠ object_path (av_blob self) dir rem).

#[local] Abbreviation tables := (tables json).
#[local] Abbreviation repository :=
  (PostgresReceiptRepository sha256_hex media_type_ok blob_ref_of (av_blob self)).
#[local] Abbreviation receive_inner :=
  (receive_inner (ReceiptRepository0 := repository) sha256_hex media_type_ok blob_ref_value self).
#[local] Abbreviation resume :=
  (resume (ReceiptRepository0 := repository) sha256_hex media_type_ok blob_ref_value self).
#[local] Abbreviation sweep_interrupted :=
  (sweep_interrupted (ReceiptRepository0 := repository) sha256_hex media_type_ok blob_ref_value self).
#[local] Abbreviation blob_inv := (blob_inv sha256_hex blob_ref_of (av_blob self) (json := json)).
#[local] Abbreviation registers := (registers sha256_hex blob_ref_of (av_blob self) (json := json)).
#[local] Abbreviation stream_to_staging := (stream_to_staging sha256_hex).

Lemma staging_loop_same id stream max h t :
  stable (on_nodes (objects_same (av_blob self)))
    (staging_loop (staging_path self id) stream max h t).
Proof using apart.
  revert h t. induction stream as [|[c|] rest IH]; intros h t; cbn;
    [apply stable_ret; apply _| |apply stable_fail; apply _].
  case_match; [apply stable_fail; apply _|].
  apply stable_bind; [apply _| |auto]. apply stable_map_err, append_same. auto.
Qed.

Lemma stream_to_staging_same id stream max :
  stable (on_nodes (objects_same (av_blob self)))
    (stream_to_staging (staging_path self id) stream max).
Proof using apart.
  unfold Receipt.stream_to_staging.
  repeat first
    [ progress intros | apply staging_loop_same | apply stable_bind; [apply _| |]
    | apply stable_map_err | apply create_file_same; auto | apply touch_stable; apply _
    | apply stable_ret; apply _ | case_match ].
Qed.

Lemma disk_keeps_blobs : disk_respects sha256_hex media_type_ok self (keeps blob_inv).
Proof using apart.
  split.
  - intros id stream max d r d' t H%stream_to_staging_same. apply blob_inv_grow; [|intros Hwf|done].
    + by apply objects_same_kept.
    + intros dir rem n Hdir. rewrite (H dir rem Hdir). by apply Hwf.
  - intros id d r d' t H. apply (remove_file_same (av_blob self)) in H; [|auto].
    apply blob_inv_grow; [by apply objects_same_kept|intros Hwf|done].
    intros dir rem n Hdir. rewrite (H dir rem Hdir). by apply Hwf.
  - intros id mt stream d r d' t (Hk & Hw & _)%store_effect.
    apply blob_inv_grow; [done|by intros [? _]%Hw|done].
Qed.

Lemma disk_moves L : disk_respects sha256_hex media_type_ok self (moves L (json := json)).
Proof. split; intros; by apply moves_same. Qed.

(** *** What a receipt that returns has done *)

(** *** What a receipt that returns has done, when it runs alone *)

(** Same exports, accounts and disk, alone before and after; the runs are
    changed by [f]. *)
Record runs_only (f : gmap N run_row → gmap N run_row) (w w' : world tables) : Prop := {
  ro_others : w_others w' = [];
  ro_disk : w_disk w' = w_disk w;
  ro_exports : t_exports (w_tables w') = t_exports (w_tables w);
  ro_accounts : t_accounts (w_tables w') = t_accounts (w_tables w);
  ro_runs : t_runs (w_tables w') = f (t_runs (w_tables w));
}.

Lemma create_run_Ok a m mt (w : world tables) id w' :
  pg_create_run a m mt w = (Ok id, w') → w_others w = [] →
  t_runs (w_tables w) !! id = None ∧
  runs_only <[id := RunRow (Some a) (Some (mode_as_str m)) (Some mt) "received" None None None
                      (t_clock (w_tables w)) false]> w w'.
Proof.
  intros (i & w1 & [= <- <-] & Hrun)%sbind_Ok_inv Hw.
  apply sbind_Ok_inv in Hrun as ([] & w2 & H%smap_err_Ok_inv & [= <- <-]).
  apply auto_alone in H as (Hd & Ho & H); [|done]. unfold insert_run in H.
  destruct (t_runs _ !! _) eqn:E; [done|]. injection H as H. split; [done|].
  split; try done; by rewrite <-H.
Qed.

Lemma cas_Ok id expected f (w w' : world tables) :
  (let! rows := backend (auto (update_run id expected f)) in affected rows) w = (Ok tt, w') →
  w_others w = [] →
  ∃ row, t_runs (w_tables w) !! id = Some row ∧ ru_state row = expected ∧
    runs_only <[id := f row]> w w'.
Proof.
  intros (rows & w1 & H%smap_err_Ok_inv & Hrun)%sbind_Ok_inv Hw.
  apply auto_alone in H as (Hd & Ho & H%update_run_inv); [|done].
  destruct rows as [|rows]; [done|]. injection Hrun as <-.
  destruct H as (Ha & He & [[? _]|(row & _ & Hrow & Hst & Hr)]); [done|].
  exists row. split_and!; [done..|]. by split.
Qed.

Lemma select_export_Ok a h (w : world tables) e w' :
  pg_find_export_by_digest a h w = (Ok e, w') → w_others w = [] →
  w_others w' = [] ∧ w_disk w' = w_disk w ∧ w_tables w' = w_tables w ∧
  e = (account_id ← t_accounts (w_tables w) !! a; head (exports_with account_id h (w_tables w))).
Proof.
  intros H%smap_err_Ok_inv Hw. apply auto_alone in H as (? & ? & [= He Ht]); [|done]. by split_and!.
Qed.

Lemma bind_Ok e o (w w' : world tables) :
  pg_bind_platform_operation e o w = (Ok tt, w') → w_others w = [] → runs_only id w w'.
Proof.
  intros (r & w1 & H1%smap_err_Ok_inv & Hrun)%sbind_Ok_inv Hw.
  apply auto_alone in H1 as (Hd1 & Ho1 & [= _ Ht1]); [|done].
  apply sbind_Ok_inv in Hrun as (i & w2 & Hl & H3%smap_err_Ok_inv).
  destruct r; [|done]. injection Hl as _ <-.
  apply auto_alone in H3 as (Hd3 & Ho3 & (? & ? & ?)%insert_operation_inv); [|done].
  split; unfold id; congruence.
Qed.

Lemma settle_duplicate_Ok c o e (w : world tables) out w' :
  settle_duplicate (ReceiptRepository0 := repository) c o e w = (Ok out, w') → w_others w = [] →
  out = RDuplicate e (hc_sha256_hex c) (hc_byte_length c) ∧
  ∃ row, t_runs (w_tables w) !! hc_run_id c = Some row ∧ ru_state row = "hashed" ∧
    runs_only <[hc_run_id c := mark_row "duplicate" true row]> w w'.
Proof.
  intros ([] & w1 & Hb & Hrun)%sbind_Ok_inv Hw.
  assert (H1 : runs_only id w w1).
  { destruct o; [by apply smap_err_Ok_inv, bind_Ok in Hb|by injection Hb as <-]. }
  destruct H1 as [Ho1 Hd1 He1 Ha1 Hr1].
  apply sbind_Ok_inv in Hrun as ([] & w2 & H2%smap_err_Ok_inv & [= <- <-]).
  apply cas_Ok in H2 as (row & Hrow & Hst & []); [|done]. unfold id in Hr1.
  split; [done|]. exists row. rewrite Hr1 in *. split_and!; [done..|].
  split; [congruence..|]. by rewrite ro_runs0.
Qed.

Lemma with_disk_inv {E A} (c : sm disk E A) (w w' : world tables) r :
  with_disk c w = (r, w') → ∃ d', c (w_disk w) = (r, d') ∧ w' = set_disk d' w.
Proof. unfold with_disk. destruct (c (w_disk w)) as [x d]. intros [= <- <-]. eauto. Qed.

(** Publishing stores the staged bytes: the reference is theirs. *)
Lemma publish_staged_Ok mt path (w w' : world tables) v bytes :
  publish_staged sha256_hex media_type_ok blob_ref_value self mt path w = (Ok v, w') →
  d_nodes (w_disk w) !! path = Some (NFile bytes) →
  store_wf sha256_hex (av_blob self) (d_nodes (w_disk w)) →
  w_tables w' = w_tables w ∧ w_others w' = w_others w ∧
  store_wf sha256_hex (av_blob self) (d_nodes (w_disk w')) ∧
  ∃ ref, blob_ref_value ref = Some v ∧ cd_hex (br_digest ref) = sha256_hex bytes ∧
    br_media_type ref = mt.
Proof.
  intros (stream & w1 & H1%smap_err_Ok_inv & Hrun)%sbind_Ok_inv Hbytes Hwf.
  apply with_disk_inv in H1 as (d1 & [Hn1 Hs]%file_stream_Ok & ->).
  apply sbind_Ok_inv in Hrun as (ref & w2 & H2%smap_err_Ok_inv & Hrun).
  apply sbind_Ok_inv in H2 as (i & w3 & [= <- <-] & H2).
  apply with_disk_inv in H2 as (d2 & H2 & ->). cbn [w_disk set_disk] in H2.
  apply store_effect in H2 as (_ & Hwf2 & Href).
  destruct (Href ref eq_refl) as (chunks & Hc & ->).
  destruct (blob_ref_value _) as [v'|] eqn:Ev; [|done]. injection Hrun as -> <-.
  rewrite Hn1 in Hwf2. split_and!; [done|done|by apply Hwf2|].
  destruct Hs as [->|(c & Hc' & ->)]; [by destruct chunks|].
  assert (c = bytes) as -> by congruence. eexists. split; [exact Ev|]. cbn. split; [|done].
  apply (inj (fmap Some)) in Hc as <-. by rewrite chunks_of_concat.
Qed.

(** The foreign key of [exports.account_id]. *)
Definition accounts_exist (t : tables) : Prop :=
  ∀ id ex, t_exports t !! id = Some ex → ∃ account, t_accounts t !! account = Some (ex_account_id ex).

(** The export [e] is the one of [account] with the digest [h]. *)
Definition export_of_account (account h : string) (e : N) (t : tables) : Prop :=
  ∃ ex, t_exports t !! e = Some ex ∧ ex_sha256_hex ex = h ∧
    (accounts_exist t → t_accounts t !! account = Some (ex_account_id ex)).

(** The facts a completed receipt leaves behind. *)
Definition settled (c : hashed_context) (w w' : world tables) (out : receipt_outcome) : Prop :=
  ∃ row, t_runs (w_tables w) !! hc_run_id c = Some row ∧ ru_state row = "hashed" ∧
  match out with
  | RStored e a h n =>
      h = hc_sha256_hex c ∧ n = hc_byte_length c ∧
      ∃ ex ref, t_exports (w_tables w) !! e = None ∧
        t_exports (w_tables w') = <[e := ex]> (t_exports (w_tables w)) ∧
        ex_ai_archive_id ex = a ∧ ex_sha256_hex ex = h ∧ ex_byte_length ex = to_i64 n ∧
        t_accounts (w_tables w') !! hc_tenant c = Some (ex_account_id ex) ∧
        exports_with (ex_account_id ex) h (w_tables w) = [] ∧
        blob_ref_of (ex_blob_ref ex) = Some ref ∧ cd_hex (br_digest ref) = h ∧
        br_media_type ref = hc_media_type c ∧
        present sha256_hex (av_blob self) ref (d_nodes (w_disk w')) ∧
        t_runs (w_tables w') = <[hc_run_id c := stored_row e row]> (t_runs (w_tables w))
  | RDuplicate e h n =>
      h = hc_sha256_hex c ∧ n = hc_byte_length c ∧
      t_exports (w_tables w') = t_exports (w_tables w) ∧
      t_accounts (w_tables w') = t_accounts (w_tables w) ∧
      export_of_account (hc_tenant c) h e (w_tables w) ∧
      t_runs (w_tables w') = <[hc_run_id c := mark_row "duplicate" true row]> (t_runs (w_tables w))
  end.

Context (roundtrip : ∀ r v, blob_ref_value r = Some v → blob_ref_of v = Some r).

Lemma exports_with_first a h (t : tables) e :
  head (exports_with a h t) = Some e →
  ∃ ex, t_exports t !! e = Some ex ∧ ex_sha256_hex ex = h ∧ ex_account_id ex = a.
Proof. intros H%head_Some_elem_of%exports_with_spec. naive_solver. Qed.

(** An account that is upserted is the one there was, or has no export yet. *)
Lemma upsert_account_exports i a (t t' : tables) owner e ex :
  upsert_account i a t = Ok (owner, t') → t_exports t !! e = Some ex → ex_account_id ex = owner →
  accounts_exist t → t_accounts t !! a = Some owner.
Proof.
  unfold upsert_account. destruct (t_accounts t !! a) as [o|]; [by intros [= -> _]|].
  destruct (existsb _ _) eqn:E; [done|]. intros [= <- _] He <- Hk. exfalso.
  destruct (Hk e ex He) as [b Hb]. apply not_true_iff_false in E. apply E, existsb_exists.
  exists (b, ex_account_id ex). split; [by apply list_elem_of_In, elem_of_map_to_list|apply N.eqb_refl].
Qed.

Lemma publish_body_duplicate q (w w' : world tables) e :
  publish_body sha256_hex media_type_ok blob_ref_of (av_blob self) q w
    = (Err (DuplicateExisting e), w') →
  export_of_account (pq_account_external_ref q) (pq_sha256_hex q) e (w_tables w).
Proof.
  assert (∀ A (c : sm (world tables) sql_error A) v v', backend c v ≠ (Err (DuplicateExisting e), v')) as Hb.
  { intros A c v v'. unfold backend, smap_err. by destruct (c v) as [[]]. }
  unfold publish_body.
  intros [(i & w1 & [= <- <-] & Hrun)|(? & ? & _)]%sbind_inv; [|done].
  apply sbind_inv in Hrun as [(owner & w2 & H%smap_err_Ok_inv & Hrun)|(? & H & [= <-])];
    [|by apply Hb in H].
  apply statement_inv in H as (_ & _ & Hup). pose proof (upsert_account_inv _ _ _ _ _ Hup) as (_ & _ & He2 & _).
  apply sbind_inv in Hrun as [(ex & w3 & H%smap_err_Ok_inv & Hrun)|(? & H & [= <-])];
    [|by apply Hb in H].
  apply statement_inv in H as (_ & _ & [= Hex _]). unfold w_tables at 2 in He2. cbn in He2.
  destruct ex as [e'|].
  { injection Hrun as <- <-. apply exports_with_first in Hex as (ex & He & Hs & Ho). rewrite He2 in He.
    exists ex. split_and!; [done..|]. rewrite Ho. by apply (upsert_account_exports _ _ _ _ _ _ _ Hup He). }
  exfalso. revert Hrun. unfold affected.
  repeat first
    [ intros [(? & ? & _ & Hrun)|(? & Hrun & [= <-])]%sbind_inv; [revert Hrun|]
    | by intros ? | case_match ]; try by apply Hb in Hrun.
  all: unfold sret, sfail, slift, ok_or, mint, smap_err, map_err, registration_error_of in Hrun;
    repeat case_match; simplify_eq.
Qed.

Lemma settle_duplicate_settled c o e (w1 w w' : world tables) out :
  settle_duplicate (ReceiptRepository0 := repository) c o e w = (Ok out, w') →
  w_others w = [] → w_tables w = w_tables w1 →
  export_of_account (hc_tenant c) (hc_sha256_hex c) e (w_tables w1) →
  settled c w1 w' out.
Proof.
  intros Hrun Hw Ht Hex.
  apply settle_duplicate_Ok in Hrun as (-> & row & Hrow & Hst & []); [|done]. rewrite Ht in *.
  exists row. by split_and!.
Qed.

Lemma settle_hashed_Ok c o path (w w' : world tables) out bytes :
  settle_hashed (ReceiptRepository0 := repository) sha256_hex media_type_ok blob_ref_value self
    c o path w = (Ok out, w') →
  w_others w = [] → d_nodes (w_disk w) !! path = Some (NFile bytes) →
  store_wf sha256_hex (av_blob self) (d_nodes (w_disk w)) →
  hc_sha256_hex c = sha256_hex bytes → settled c w w' out.
Proof using roundtrip.
  intros (existing & w1 & H1%smap_err_Ok_inv & Hrun)%sbind_Ok_inv Hw Hb Hwf Hsha.
  apply select_export_Ok in H1 as (Ho1 & Hd1 & Ht1 & Hex); [|done].
  destruct existing as [e|].
  { eapply settle_duplicate_settled; [exact Hrun|done|done|].
    destruct (t_accounts (w_tables w) !! hc_tenant c) eqn:Eacc; cbn in Hex; [|done]. symmetry in Hex.
    apply exports_with_first in Hex as (ex & ? & ? & <-). by exists ex. }
  apply sbind_Ok_inv in Hrun as (v & w2 & H2 & Hrun). rewrite <-Hd1 in Hb, Hwf.
  eapply publish_staged_Ok in H2 as (Ht2 & Ho2 & Hwf2 & ref & Hv & Hhex & Hmt); [|done|done].
  apply sbind_Ok_inv in Hrun as (published & w3 & H3 & Hrun). unfold stry in H3.
  destruct (publish_export _ w2) as [x w3'] eqn:Hp. injection H3 as -> ->.
  apply transaction_alone in Hp; [|by rewrite Ho2].
  destruct published as [p|err].
  - injection Hrun as <- <-. destruct Hp as (w4 & Hbody & Hd4 & Ht4).
    apply publish_body_Ok in Hbody as (owner & row & ref' & []). cbn in *.
    unfold w_tables in *. cbn in *. rewrite <-Ht4, Ht2, Ht1, ?Hd4 in *.
    exists row. cbn. split; [done|]. split; [done|]. split; [done|]. split; [done|].
    assert (ref' = ref) as -> by (apply roundtrip in Hv; congruence).
    eexists _, ref. unfold w_tables. cbn.
    split_and!; try done; [by rewrite Hhex|]. rewrite Hd4. by apply pa_present0.
  - destruct err as [| | |e]; try done.
    destruct Hp as [Hp|(w4 & Hbody & Ht4 & Ho4)]; [done|].
    eapply settle_duplicate_settled; [exact Hrun| |congruence|].
    + rewrite Ho4. apply publish_body_grow in Hbody as [-> _ _]. exact (eq_trans Ho2 Ho1).
    + apply publish_body_duplicate in Hbody.
      change (w_tables (drop_fault w2)) with (w_tables w2) in Hbody. by rewrite Ht2, Ht1 in Hbody.
Qed.

(** The staged file goes; nothing else of a settled receipt depends on it. *)
Lemma settled_drop c id (w w1 w2 : world tables) x out :
  settled c w w1 out →
  drop_staged (T := tables) (staging_path self id) w1 = (x, w2) → settled c w w2 out.
Proof using apart.
  intros (row & Hrow & Hst & Hout). unfold drop_staged, signore.
  destruct (with_disk _ w1) as [r w2'] eqn:E. intros [= <- <-].
  apply with_disk_inv in E as (d & Hd & ->).
  apply (remove_file_same (av_blob self)) in Hd; [|auto]. apply objects_same_kept in Hd.
  exists row. split; [done|]. split; [done|]. destruct out; [|done].
  destruct Hout as (? & ? & ex & ref & ? & ? & ? & ? & ? & ? & ? & ? & ? & ? & Hp & ?).
  split; [done|]. split; [done|]. exists ex, ref. split_and!; try done.
  by eapply present_kept.
Qed.

(** What a receipt records when it returns [out]: the stream ended without an
    error, its bytes are within the cap and agree with the declared length and
    digest, and the outcome names their digest and length.  A stored receipt
    made one new export, the tenant's first with this digest, whose blob is
    present and holds this digest; a duplicate made none and names the export
    the tenant's account has with this digest.  The run itself is a new row, now [stored] with that
    export, or [duplicate]. *)
Definition recorded (w w' : world tables) (principal : tenant_principal) (mode : acquisition_mode)
    (mt : string) (declared : option N) (expectations : receipt_expectations)
    (stream : list (option string)) (out : receipt_outcome) : Prop :=
  ∃ chunks run w1, let bytes := concat_bytes chunks in
    let n := N.min (N.of_nat (String.length bytes)) u64_max in
    let tenant := account_external_ref principal in
    let context := HashedContext run tenant (mode_as_str mode) mt (sha256_hex bytes) n in
    stream = Some <$> chunks ∧ (n <= av_max_archive_bytes self)%N ∧
    (∀ m, declared = Some m → m = n) ∧
    (∀ e, re_expected_sha256_hex expectations = Some e → e = sha256_hex bytes) ∧
    t_runs (w_tables w) !! run = None ∧
    t_exports (w_tables w1) = t_exports (w_tables w) ∧
    t_accounts (w_tables w1) = t_accounts (w_tables w) ∧
    t_runs (w_tables w1) = <[run := RunRow (Some tenant) (Some (mode_as_str mode)) (Some mt)
      "hashed" (Some (sha256_hex bytes)) (Some (to_i64 n)) None (t_clock (w_tables w)) false]>
      (t_runs (w_tables w)) ∧
    settled context w1 w' out.

(** A receipt that returns, running alone, whatever fails. *)
Lemma receive_inner_records (w w' : world tables) (principal : tenant_principal)
    (mode : acquisition_mode) (mt : string) (declared : option N)
    (expectations : receipt_expectations) (stream : list (option string))
    (out : receipt_outcome) :
  w_others w = [] → store_wf sha256_hex (av_blob self) (d_nodes (w_disk w)) →
  receive_inner principal mode mt declared expectations stream w = (Ok out, w') →
  recorded w w' principal mode mt declared expectations stream out.
Proof using apart roundtrip.
  unfold Receipt.receive_inner. intros Hw Hwf Hrun.
  destruct (negb (media_type_ok mt)); [done|].
  apply sbind_Ok_inv in Hrun as (run & w1 & H1%smap_err_Ok_inv & Hrun).
  apply create_run_Ok in H1 as [Hnew [Ho1 Hd1 He1 Ha1 Hr1]]; [|done].
  destruct (is_some_and declared _).
  { by apply sbind_Ok_inv in Hrun as (? & ? & _ & ?). }
  apply sbind_Ok_inv in Hrun as (staged & w2 & H2 & Hrun). unfold stry in H2.
  destruct (with_disk _ w1) as [x w2'] eqn:E2. injection H2 as -> ->.
  apply with_disk_inv in E2 as (d2 & E2 & ->).
  assert (∀ e, refuse_staged (ReceiptRepository0 := repository) run (staging_path self run) e
    (set_disk d2 w1) ≠ (Ok out, w')) as Hrefuse.
  { intros e H. apply sbind_Ok_inv in H as (? & ? & _ & H).
    by apply sbind_Ok_inv in H as (? & ? & _ & ?). }
  destruct staged as [[sha n]|f]; [|by apply Hrefuse in Hrun].
  destruct (is_some_and declared _) eqn:Hdecl; [by apply Hrefuse in Hrun|].
  destruct (is_some_and (re_expected_sha256_hex _) _) eqn:Hexp; [by apply Hrefuse in Hrun|].
  pose proof (stream_to_staging_same run stream _ _ _ _ E2) as Hsame.
  apply stream_to_staging_Ok in E2 as (chunks & -> & -> & -> & Hmax & Hfile).
  apply sbind_Ok_inv in Hrun as ([] & w3 & H3%smap_err_Ok_inv & Hrun).
  apply cas_Ok in H3 as (row & Hrow & Hst & [Ho3 Hd3 He3 Ha3 Hr3]); [|done].
  cbn [w_disk set_disk] in Hd3. change (w_tables (set_disk d2 w1)) with (w_tables w1) in *.
  rewrite Hr1, lookup_insert_eq in Hrow. injection Hrow as <-.
  apply sbind_Ok_inv in Hrun as (outcome & w4 & H4 & Hrun). unfold stry in H4.
  destruct (settle_hashed _ _ _ _ _ _ _ w3) as [o w4'] eqn:E4. injection H4 as -> ->.
  apply sbind_Ok_inv in Hrun as ([] & w5 & H5 & Hrun). injection Hrun as -> ->.
  eapply settle_hashed_Ok in E4; [|done|by rewrite Hd3| |done].
  2:{ rewrite Hd3. unfold on_nodes in Hsame. rewrite Hd1 in Hsame.
      intros dir rem m Hdir. rewrite (Hsame dir rem Hdir). by apply Hwf. }
  exists chunks, run, w3. cbv zeta. split_and!; try done.
  - intros m ->. cbn in Hdecl. apply negb_false_iff, N.eqb_eq in Hdecl. done.
  - intros e He. rewrite He in Hexp. cbn in Hexp. by apply negb_false_iff, String.eqb_eq in Hexp.
  - by rewrite He3, He1.
  - by rewrite Ha3, Ha1.
  - rewrite Hr3, Hr1, insert_insert_eq. done.
  - by eapply settled_drop.
Qed.

(** A settled run fails for storage or the repository only. *)
Definition late (e : receipt_error) : Prop := e = RStorage ∨ ∃ r, e = RRepository r.

Lemma settle_raises c o path :
  raises late (settle_hashed (ReceiptRepository0 := repository) sha256_hex media_type_ok
    blob_ref_value self c o path).
Proof.
  unfold Receipt.settle_hashed, settle_duplicate, publish_staged, repo.
  repeat first
    [ progress intros | apply raises_bind | apply raises_ret | apply raises_try
    | apply raises_map_err; intros; first [by left | by right; eauto]
    | apply raises_fail; right; by eauto
    | apply raises_lift; intros; unfold ok_or in *; repeat case_match; simplify_eq; by left
    | case_match ].
Qed.

(** What is left alone by a refused receipt. *)
Record untouched (w w' : world tables) : Prop := {
  un_others : w_others w' = [];
  un_exports : t_exports (w_tables w') = t_exports (w_tables w);
  un_accounts : t_accounts (w_tables w') = t_accounts (w_tables w);
  un_objects : objects_same (av_blob self) (d_nodes (w_disk w)) (d_nodes (w_disk w'));
}.

Lemma create_run_calm a m mt (w : world tables) id w' :
  pg_create_run a m mt w = (Ok id, w') → w_others w = [] → calm w → calm w'.
Proof.
  intros (i & w1 & [= <- <-] & Hrun)%sbind_Ok_inv Hw Hc.
  apply sbind_Ok_inv in Hrun as ([] & w2 & H%smap_err_Ok_inv & [= <- <-]).
  pose proof (auto_alone _ _ _ _ H Hw) as (_ & _ & Hop).
  by eapply auto_calm in H as (_ & _ & ?).
Qed.

(** [fail_run] on a run found at [received]. *)
Lemma fail_run_effect id (w w' : world tables) row x :
  fail_run (ReceiptRepository0 := repository) id Received w = (x, w') → w_others w = [] →
  t_runs (w_tables w) !! id = Some row → ru_state row = "received" →
  untouched w w' ∧ (calm w → run_stage (w_tables w') id = Some Failed).
Proof.
  unfold fail_run, signore. destruct (mark_run id Received Failed w) as [y w1] eqn:Hm.
  intros [= <- <-] Hw Hrow Hst. cbn in Hm. unfold pg_mark_run, backend, sbind, smap_err in Hm.
  destruct (auto _ w) as [z w2] eqn:Ha.
  pose proof (auto_alone _ _ _ _ Ha Hw) as (Hd & Ho & Heff).
  assert (w1 = w2) as ->.
  { destruct z as [n|e]; cbn in Hm; [|by injection Hm]. unfold affected in Hm.
    destruct n; by injection Hm. }
  assert (Hop : update_run id (state_as_str Received)
      (mark_row (state_as_str Failed) true) (w_tables w)
    = Ok (1, set_runs <[id := mark_row (state_as_str Failed) true row]> (w_tables w))).
  { unfold update_run. rewrite Hrow, Hst. done. }
  split.
  - split; [done|..]; [| |by rewrite Hd];
      destruct z as [n|e]; [|destruct Heff as [->|[n Heff]]; [done|]| |destruct Heff as [->|[n Heff]]; [done|]];
      apply update_run_inv in Heff as (? & ? & _); done.
  - intros Hc. destruct (auto_calm _ _ _ _ _ _ Ha Hw Hc Hop) as (_ & Ht & _). rewrite Ht.
    unfold run_stage, set_runs. cbn. by rewrite lookup_insert_eq.
Qed.

(** The errors of a receipt refused for what the caller sent. *)
Definition refused_input (e : receipt_error) : Prop :=
  e ∈ [RInvalidMediaType; DeclaredSizeExceeded; StreamOvergrown; StreamFailed; RDigestMismatch].

Lemma refuse_staged_effect id path e (w w' : world tables) x row :
  path = staging_path self id →
  refuse_staged (ReceiptRepository0 := repository) id path e w = (x, w') → w_others w = [] →
  t_runs (w_tables w) !! id = Some row → ru_state row = "received" →
  untouched w w' ∧ (calm w → run_stage (w_tables w') id = Some Failed).
Proof using apart.
  intros -> Hrun Hw Hrow Hst.
  apply sbind_inv in Hrun as [([] & w1 & H1 & Hrun)|(e' & H1 & _)]; unfold drop_staged, signore in H1;
    destruct (with_disk _ w) as [r wd] eqn:E; [|done]. injection H1 as <-.
  apply with_disk_inv in E as (d & Hd & ->).
  apply (remove_file_same (av_blob self)) in Hd; [|auto].
  apply sbind_inv in Hrun as [([] & w2 & H2 & Hrun)|(e' & H2 & _)].
  - injection Hrun as _ <-. eapply fail_run_effect in H2 as [[] Hf]; [|done..].
    split; [|done]. split; try done. cbn in *. by etrans.
  - unfold fail_run, signore in H2. by destruct (mark_run _ _ _ _).
Qed.

(** A receipt refused for its input publishes nothing and fails its run:
    running alone, an invalid media type, an oversized declaration, a stream
    that overgrows the cap, breaks or ends short, and a digest that does not
    match leave every export, every account and every object as they were;
    the invalid media type leaves no run either, and for the others, if the
    database answers, the run that was created is at [failed]. *)
Lemma receive_inner_refused (w w' : world tables) (principal : tenant_principal)
    (mode : acquisition_mode) (mt : string) (declared : option N)
    (expectations : receipt_expectations) (stream : list (option string)) (e : receipt_error) :
  w_others w = [] → refused_input e →
  receive_inner principal mode mt declared expectations stream w = (Err e, w') →
  t_exports (w_tables w') = t_exports (w_tables w) ∧
  t_accounts (w_tables w') = t_accounts (w_tables w) ∧
  objects_same (av_blob self) (d_nodes (w_disk w)) (d_nodes (w_disk w')) ∧
  (media_type_ok mt = false → w' = w) ∧
  (media_type_ok mt = true → calm w → ∃ run, t_runs (w_tables w) !! run = None ∧
     run_stage (w_tables w') run = Some Failed).
Proof using apart.
  unfold Receipt.receive_inner. intros Hw He Hrun.
  assert (Hlate : ¬ late e).
  { unfold refused_input in He. intros [->|[r ->]]; revert He; clear; set_solver. }
  destruct (media_type_ok mt); cbn [negb] in Hrun; [|injection Hrun as <- <-; by split_and!].
  apply sbind_inv in Hrun as [(run & w1 & H1%smap_err_Ok_inv & Hrun)|(e' & H1 & [= <-])];
    [|exfalso; apply Hlate; revert H1; apply (raises_map_err late); right; by eauto].
  assert (Hcalm : calm w → calm w1) by exact (create_run_calm _ _ _ _ _ _ H1 Hw).
  apply create_run_Ok in H1 as [Hnew [Ho1 Hd1 He1 Ha1 Hr1]]; [|done].
  assert (Hrow : t_runs (w_tables w1) !! run = Some (RunRow (Some (account_external_ref principal))
    (Some (mode_as_str mode)) (Some mt) "received" None None None (t_clock (w_tables w)) false))
    by (by rewrite Hr1, lookup_insert_eq).
  enough (untouched w1 w' ∧ (calm w1 → run_stage (w_tables w') run = Some Failed)) as [[] Hf].
  { rewrite He1 in un_exports0. rewrite Ha1 in un_accounts0. rewrite Hd1 in un_objects0.
    split_and!; [done..|eauto]. }
  destruct (is_some_and declared _).
  { apply sbind_inv in Hrun as [([] & w2 & H2 & [= _ <-])|(e' & H2 & _)].
    - by eapply fail_run_effect in H2.
    - by apply signore_not_Err in H2. }
  apply sbind_inv in Hrun as [(staged & w2 & H2 & Hrun)|(e' & H2 & _)]; unfold stry in H2;
    destruct (with_disk _ w1) as [x w2'] eqn:E2; [|done]. injection H2 as <- <-.
  apply with_disk_inv in E2 as (d2 & E2 & ->). apply stream_to_staging_same in E2.
  assert (Hrefuse : ∀ e0, refuse_staged (ReceiptRepository0 := repository) run
    (staging_path self run) e0 (set_disk d2 w1) = (Err e, w') →
    untouched w1 w' ∧ (calm w1 → run_stage (w_tables w') run = Some Failed)).
  { intros e0 H. eapply refuse_staged_effect in H as [[] Hf]; [|done..].
    split; [|done]. split; try done. cbn in *. by etrans. }
  destruct x as [[sha n]|f]; [|by apply Hrefuse in Hrun].
  destruct (is_some_and declared _); [by apply Hrefuse in Hrun|].
  destruct (is_some_and (re_expected_sha256_hex _) _); [by apply Hrefuse in Hrun|].
  exfalso. apply Hlate. revert Hrun. clear. generalize (set_disk d2 w1). intros w2.
  intros [(u & w3 & _ & Hrun)|(e' & H & [= <-])]%sbind_inv;
    [|revert H; apply (raises_map_err late); right; by eauto].
  apply sbind_inv in Hrun as [(o & w4 & H & Hrun)|(e' & H & [= <-])]; unfold stry in H;
    destruct (settle_hashed _ _ _ _ _ _ _ w3) as [o' w4'] eqn:E; [|done]. injection H as <- <-.
  apply sbind_inv in Hrun as [([] & w5 & H & Hrun)|(e' & H & [= <-])];
    [|by apply signore_not_Err in H].
  injection Hrun as -> _. by eapply settle_raises.
Qed.


(** C36. The persisted stage follows the state machine. Whatever other processes
    do and whatever fails, each transaction and each statement of a receipt
    takes one step of it: no run disappears, a new run is at [received], and a
    run that was there has the stage it had or one the machine allows next;
    resuming and sweeping add one liberty, a run failed from whatever stage it
    is found at.  So if the other processes follow the machine too, every run
    ends at a stage it may reach from where it began. *)
Theorem stages_follow_the_machine (w : world tables)
    (principal : tenant_principal) (mode : acquisition_mode) (mt : string)
    (declared : option N) (expectations : receipt_expectations)
    (stream : list (option string)) (id : N) :
  let or_failed s t := legal_step s t ∨ t = Failed in
  let received := receive_inner principal mode mt declared expectations stream w in
  (logs (stage_step legal_step) w received.2 ∧
   logs (stage_step or_failed) w (resume id w).2 ∧
   logs (stage_step or_failed) w (sweep_interrupted w).2) ∧
  (others_ok (moves legal_step) w →
   moves legal_step (w_snap w) (w_snap received.2) ∧
   moves or_failed (w_snap w) (w_snap (resume id w).2) ∧
   moves or_failed (w_snap w) (w_snap (sweep_interrupted w).2)).
Proof.
  intros or_failed received. split.
  { assert (∀ G E A (c : sm (world tables) E A), stable (logs G) c → logs G w (c w).2) as Hc.
    { intros G E A c Hc. destruct (c w) as [r w'] eqn:Hrun. by apply (Hc _ _ _ Hrun). }
    assert (Hseam : ∀ L, L Received Hashed → L Hashed Stored →
      SeamStable (H := repository) tables json (logs (stage_step L)) L) by (intros; by apply pg_stages).
    pose proof (Hseam legal_step ltac:(constructor) ltac:(constructor)).
    pose proof (Hseam or_failed ltac:(left; constructor) ltac:(left; constructor)).
    split_and!; apply Hc.
    - apply (receive_respects _ _ _ _ _ legal_step); [apply disk_logs|by constructor..].
    - apply (resume_respects _ _ _ _ _ or_failed); [apply disk_logs|..]; intros; first [by right|left; constructor].
    - apply (sweep_respects _ _ _ _ _ or_failed); [apply disk_logs|..]; intros; first [by right|left; constructor]. }
  intros Hw. unfold received. clear received.
  assert (Hw' : others_ok (moves or_failed) w).
  { eapply Forall_impl; [exact Hw|]. intros f Hf x i. specialize (Hf x i).
    assert (∀ s s', rtc legal_step s s' → rtc or_failed s s') as Hsub.
    { intros s s'. apply rtc_subrel. by left. }
    destruct (run_stage x.2 i); naive_solver. }
  assert (∀ L E A (c : sm (world tables) E A), others_ok (moves L) w →
    stable (respects (moves L)) c → moves L (w_snap w) (w_snap (c w).2)) as Hc.
  { intros L E A c HL Hc. destruct (c w) as [r w'] eqn:Hrun. by apply (Hc _ _ _ Hrun). }
  split_and!; apply Hc; try done.
  - pose proof (pg_moves sha256_hex media_type_ok blob_ref_of (av_blob self) legal_step
      step_hash step_store).
    apply (receive_respects _ _ _ _ _ legal_step); [apply disk_respects_stable, disk_moves; apply _|by constructor..].
  - assert (SeamStable (H := repository) tables json (respects (moves or_failed)) or_failed)
      by (apply pg_moves; left; constructor).
    apply (resume_respects _ _ _ _ _ or_failed); [apply disk_respects_stable, disk_moves; apply _|..]; intros; first [by right|left; constructor].
  - assert (SeamStable (H := repository) tables json (respects (moves or_failed)) or_failed)
      by (apply pg_moves; left; constructor).
    apply (sweep_respects _ _ _ _ _ or_failed); [apply disk_respects_stable, disk_moves; apply _|..]; intros; first [by right|left; constructor].
Qed.
End receiver_pg.

(** ** Witnesses *)

Module ReceiptPgWitness.
Definition toy_sha (s : string) : string := "ab" +:+ s.
Definition self : archive_receiver := ArchiveReceiver (BlobStore "/b") "/st" 100.
Definition value (r : blob_ref) : option blob_ref := Some r.
Definition of_value (r : blob_ref) : option blob_ref := Some r.
Definition who : tenant_principal := TenantPrincipal "tenant".

#[export] Instance pg : ReceiptRepository (tables blob_ref) blob_ref :=
  PostgresReceiptRepository toy_sha (λ _, true) of_value (av_blob self).

Definition no_tables : tables blob_ref := Tables ∅ ∅ ∅ ∅ 0.
Definition world_of (t : tables blob_ref) (faults : list fault)
    (others : list (snap (tables blob_ref) → snap (tables blob_ref))) : world (tables blob_ref) :=
  World (Disk ∅ []) (Database t [] faults others []) 1.

Definition upload (declared : option N) (expected : option string) (l : list (option string))
    (w : world (tables blob_ref)) : result receipt_error receipt_outcome * world (tables blob_ref) :=
  receive_inner toy_sha (λ _, true) value self who ConsumerExport "application/zip" declared
    (ReceiptExpectations expected None) l w.

Definition bytes : list (option string) := [Some "x"; Some "yz"].
Definition first := upload (Some 3%N) (Some "abxyz") bytes (world_of no_tables [] []).
Definition again := upload None None bytes first.2.

(** The same bytes twice: one export. *)
Example stored_then_duplicate :
  first.1 = Ok (RStored 4 5 "abxyz" 3) ∧ again.1 = Ok (RDuplicate 4 "abxyz" 3) ∧
  run_stage (w_tables again.2) 1 = Some Stored ∧ run_stage (w_tables again.2) 6 = Some Duplicate.
Proof. vm_compute. done. Qed.

(** Publication refused by the blob store (the sixth disk operation after the
    staged file is synced): the receipt fails, but its run stays at [hashed]
    and the staged bytes are gone, so a later resume finds its evidence lost. *)
Definition full_disk : world (tables blob_ref) :=
  World (Disk ∅ (repeat false 10 ++ [true])) (Database no_tables [] [] [] []) 1.
Definition failed_publication := upload None None bytes full_disk.
Example failed_publication_leaves_hashed :
  failed_publication.1 = Err RStorage ∧
  run_stage (w_tables failed_publication.2) 1 = Some Hashed ∧
  d_nodes (w_disk failed_publication.2) !! "/st/1.part" = None ∧
  (resume toy_sha (λ _, true) value self 1 failed_publication.2).1 = Err StagingEvidenceLost.
Proof. vm_compute. done. Qed.

(** Another process settles the run while a resume re-hashes drifted bytes:
    the resume reloads the stage and fails the run from the terminal stage. *)
Definition hashed_run : run_row :=
  RunRow (Some "tenant") (Some "consumer_export") (Some "application/zip") "hashed"
    (Some "abxyz") (Some 3%Z) None 0 false.
Definition settled_elsewhere (x : snap (tables blob_ref)) : snap (tables blob_ref) :=
  (x.1, set_runs (alter (mark_row "duplicate" true) 1%N) x.2).
Definition racing : world (tables blob_ref) :=
  World (Disk {["/st/1.part" := NFile "other"]} [])
    (Database (Tables ∅ ∅ {[1%N := hashed_run]} ∅ 1) [] [] [λ x, x; settled_elsewhere] []) 2.
Example resume_fails_a_terminal_run :
  run_stage (settled_elsewhere (w_snap racing)).2 1 = Some Duplicate ∧
  run_stage (w_tables (resume toy_sha (λ _, true) value self 1 racing).2) 1 = Some Failed.
Proof. vm_compute. done. Qed.

Lemma apart id dir rem : String.length dir = 2 →
  staging_path self id ≠ object_path (av_blob self) dir rem.
Proof. intros _ H. apply (f_equal (String.get 1)) in H. discriminate H. Qed.

Lemma empty_wf ns : ns = ∅ → store_wf toy_sha (av_blob self) ns.
Proof. intros -> dir rem n _ H. by rewrite lookup_empty in H. Qed.

(** An eraser that removes the object while no export exists. *)
Definition eraser (x : snap (tables blob_ref)) : snap (tables blob_ref) :=
  if bool_decide (t_exports x.2 = ∅) then (delete "/b/sha256/ab/xyz" x.1, x.2) else x.

Lemma eraser_keeps x : keeps (blob_inv toy_sha of_value (av_blob self)) x (eraser x).
Proof.
  unfold eraser. case_bool_decide as He; [|done]. intros [Hwf _]. split; cbn.
  - intros dir rem n Hdir [_ Hn]%lookup_delete_Some. by apply Hwf.
  - intros i row. by rewrite He, lookup_empty.
Qed.

(** The eraser acts between the store and the registration; the transaction
    restores the object. *)
Definition erased : world (tables blob_ref) := world_of no_tables [] [eraser; eraser; eraser; eraser].
Example erased_and_restored :
  (upload None None bytes erased).1 = Ok (RStored 5 6 "abxyz" 3) ∧
  d_nodes (w_disk (upload None None bytes erased).2) !! "/b/sha256/ab/xyz" = Some (NFile "xyz").
Proof. vm_compute. done. Qed.


Lemma stages_follow_the_machine_witness :
  moves legal_step (w_snap (world_of no_tables [] [λ x, x]))
    (w_snap (upload None None [None] (world_of no_tables [] [λ x, x])).2).
Proof.
  apply (stages_follow_the_machine toy_sha (λ _, true) value of_value self
    (world_of no_tables [] [λ x, x]) who ConsumerExport "application/zip" None
    (ReceiptExpectations None None) [None] 1).
  unfold others_ok, w_others. cbn. apply Forall_cons. split; [intros x; reflexivity|constructor].
Defined.

End ReceiptPgWitness.
