(* ===== verification/Fault.v ===== *)
(** * The error taxonomy and its public projection ([error.rs], [fault.rs])

    Everything that can fail behind an HTTP boundary, the closed table of what
    a client learns, the one site that renders it, and the one log line. *)

From S2P Require Import Prelude.

(** ** The taxonomy *)

(** [Subsystem]. *)
Inductive subsystem : Set := SConfig | STelemetry | SHttp | SPersistence | SReceipt.

Definition subsystem_name (s : subsystem) : string :=
  match s with
  | SConfig => "config"
  | STelemetry => "telemetry"
  | SHttp => "http"
  | SPersistence => "persistence"
  | SReceipt => "receipt"
  end.

Inductive failure_kind : Set :=
| RouteNotFound | MethodNotAllowed | Unauthenticated | NotFound | AccountUnmapped
| InvalidRequest | PayloadTooLarge.

#[global] Instance failure_kind_eq_dec : EqDecision failure_kind.
Proof. solve_decision. Defined.

(** [FailureKind::ALL]. *)
Definition ALL : list failure_kind :=
  [InvalidRequest; Unauthenticated; AccountUnmapped; NotFound; PayloadTooLarge; RouteNotFound; MethodNotAllowed].

(** An error value: what it displays, and its sources, innermost last. *)
Abbreviation error_chain := (string * list string)%type.

Inductive archive_error : Set :=
| Rejected (kind : failure_kind)
| Internal (s : subsystem) (source : error_chain).

(** ** What a client learns *)

Record public_fault : Set := PublicFault {
  pf_status : N;
  pf_code : string;
  pf_message : string;
  pf_retryable : bool;
}.

#[global] Instance public_fault_eq_dec : EqDecision public_fault.
Proof. solve_decision. Defined.

Definition INVALID_REQUEST : public_fault :=
  PublicFault 400 "chatgpt.request.invalid" "The request body is not what this endpoint accepts." false.
Definition PAYLOAD_TOO_LARGE : public_fault :=
  PublicFault 413 "chatgpt.request.too_large" "The archive exceeds the accepted maximum size." false.
Definition UNAUTHENTICATED : public_fault :=
  PublicFault 401 "chatgpt.auth.unauthenticated" "Authentication is required." false.
Definition ACCOUNT_UNMAPPED : public_fault :=
  PublicFault 403 "chatgpt.account.unmapped" "This user is not set up for archive import." false.
Definition NOT_FOUND : public_fault :=
  PublicFault 404 "chatgpt.archive.not_found" "The requested resource does not exist." false.
Definition ROUTE_NOT_FOUND : public_fault :=
  PublicFault 404 "chatgpt.route.not_found" "The requested endpoint does not exist." false.
Definition METHOD_NOT_ALLOWED : public_fault :=
  PublicFault 405 "chatgpt.request.method_not_allowed" "This endpoint does not accept that method." false.
Definition INTERNAL : public_fault :=
  PublicFault 500 "chatgpt.server.internal" "An internal failure prevented the request from completing." false.

(** [FailureKind::fault]. *)
Definition kind_fault (kind : failure_kind) : public_fault :=
  match kind with
  | RouteNotFound => ROUTE_NOT_FOUND
  | MethodNotAllowed => METHOD_NOT_ALLOWED
  | Unauthenticated => UNAUTHENTICATED
  | AccountUnmapped => ACCOUNT_UNMAPPED
  | NotFound => NOT_FOUND
  | PayloadTooLarge => PAYLOAD_TOO_LARGE
  | InvalidRequest => INVALID_REQUEST
  end.

(** [FailureKind::class]. *)
Definition class (kind : failure_kind) : string :=
  match kind with
  | RouteNotFound => "route_not_found"
  | MethodNotAllowed => "method_not_allowed"
  | Unauthenticated => "unauthenticated"
  | AccountUnmapped => "unmapped_account"
  | NotFound => "not_found"
  | InvalidRequest => "invalid_request"
  | PayloadTooLarge => "payload_too_large"
  end.

(** [ArchiveError::fault]. *)
Definition fault (e : archive_error) : public_fault :=
  match e with
  | Rejected kind => kind_fault kind
  | Internal _ _ => INTERNAL
  end.

(** ** The log *)

Definition source_chain (e : error_chain) : string :=
  foldl (λ chain cause, chain +:+ ": " +:+ cause) e.1 e.2.

(** The fields of a log record. *)
Inductive log_line : Set :=
| InternalFailure (subsystem code : string) (status : N) (chain : string)
| RequestRejected (class code : string) (status : N).

Definition log (e : archive_error) : log_line :=
  let f := fault e in
  match e with
  | Internal s source => InternalFailure (subsystem_name s) (pf_code f) (pf_status f) (source_chain source)
  | Rejected kind => RequestRejected (class kind) (pf_code f) (pf_status f)
  end.

(** ** Rendering ([fault.rs])

    [B] is what other responses carry. *)
Inductive body (B : Type) : Type :=
| Empty
| Plain (text : string)
| Envelope (code message : string) (retryable : bool)
| Carries (b : B).
Arguments Empty {B}.
Arguments Plain {B} _.
Arguments Envelope {B} _ _ _.
Arguments Carries {B} _.

(** A response, and what handling the request wrote to the log. *)
Record response (B : Type) : Type := Response {
  rs_status : N;
  rs_body : body B;
  rs_log : list log_line;
}.
Arguments Response {B} _ _ _.
Arguments rs_status {B} _.
Arguments rs_body {B} _.
Arguments rs_log {B} _.

Section rendering.
Context {B : Type}.

Definition render_error_envelope (e : archive_error) : response B :=
  let f := fault e in
  Response (pf_status f) (Envelope (pf_code f) (pf_message f) (pf_retryable f)) [].

Definition reject (kind : failure_kind) : response B := render_error_envelope (Rejected kind).

(** Log, then render. *)
Definition logged (e : archive_error) : response B :=
  let r := render_error_envelope e in
  Response (rs_status r) (rs_body r) [log e].

Definition refuse (kind : failure_kind) : response B := logged (Rejected kind).

Definition INTERNAL_PANIC_TEXT : string := "An internal failure prevented the request from completing.".

(** The payload of a panic, if it is a string; [CaughtPanic] is carried beside
    the response for the one log record. *)
Definition describe (payload : option string) : string :=
  default "the payload is not a string" payload.

Definition panic_responder (payload : option string) : response B * string :=
  (Response 500 (Plain INTERNAL_PANIC_TEXT) [], describe payload).
End rendering.

(** ** Laws *)

(** Everything a client can learn of a failure. *)
Definition public_faults : list public_fault := INTERNAL :: (kind_fault <$> ALL).

Lemma ALL_complete kind : kind ∈ ALL.
Proof. apply list_elem_of_In. destruct kind; cbn; tauto. Qed.

Lemma fault_public e : fault e ∈ public_faults.
Proof.
  destruct e as [kind|s c]; [right|left]. apply list_elem_of_fmap. exists kind. split; [done|apply ALL_complete].
Qed.

(** Codes and log classes identify a kind; only [INTERNAL] has a 5xx status. *)
Lemma kinds_apart k k' : pf_code (kind_fault k) = pf_code (kind_fault k') ∨ class k = class k' → k = k'.
Proof. by destruct k, k'; intros [|]. Qed.

Lemma fault_internal e : (500 <= pf_status (fault e))%N ↔ ∃ s c, e = Internal s c.
Proof. destruct e as [[]|s c]; cbn; split; try naive_solver lia. Qed.

(** The body of a rendered failure is one of the table's, the log line names
    the same code and status. *)
Definition from_table {B} (r : response B) : Prop :=
  ∃ f, f ∈ public_faults ∧ rs_status r = pf_status f ∧
    rs_body r = Envelope (pf_code f) (pf_message f) (pf_retryable f) ∧
    ∀ line, line ∈ rs_log r →
      (∃ s chain, line = InternalFailure (subsystem_name s) (pf_code f) (pf_status f) chain) ∨
      (∃ kind, line = RequestRejected (class kind) (pf_code f) (pf_status f) ∧ f = kind_fault kind).

Lemma logged_from_table {B} e : from_table (B := B) (logged e).
Proof.
  exists (fault e). split; [apply fault_public|]. split; [done|]. split; [done|].
  intros line [->|[]%elem_of_nil]%elem_of_cons. destruct e as [kind|s c]; [right|left]; eauto.
Qed.

Lemma refuse_from_table {B} kind : from_table (B := B) (refuse kind).
Proof. apply logged_from_table. Qed.
