(* ===== verification/ReceiptHttp.v ===== *)
(** * The receipt surface ([receipt/http.rs])

    The routes of the receipt listener: their guards, the claims Platform makes
    for a user, the streams they hand to the receiver, and the one place where
    a failure of the receiver becomes a response.  The names of the headers and
    paths and the media type come from the contracts crate and are parameters;
    so are the grammar of a header value and of a UUID. *)

From S2P Require Import Prelude ImportState Disk BlobStore Registry Std Config Principals Postgres BlobProtocol Receipt ReceiptPg Fault.

#[local] Open Scope result_scope.

(** ** Requests *)

Inductive frame : Set := Data (chunk : string) | Trailers | BrokenFrame.

(** The first value of each header, by its lower-case name, as bytes. *)
Record request : Type := Request {
  rq_method : string;
  rq_path : string;
  rq_headers : string → option string;
  rq_frames : list frame;
}.

(** [BodyStream::map_ok]: trailers become an empty chunk. *)
Definition body_stream (frames : list frame) : list (option string) :=
  (λ f, match f with Data chunk => Some chunk | Trailers => Some "" | BrokenFrame => None end) <$> frames.

Definition HEADER_ACQUISITION : string := "x-ratatoskr-acquisition".
Definition AUTHORIZATION : string := "authorization".
Definition CONTENT_TYPE : string := "content-type".
Definition CONTENT_LENGTH : string := "content-length".

Record receipt_answer : Set := ReceiptAnswer {
  rw_outcome : string;
  rw_export_id : string;
  rw_sha256_hex : string;
  rw_byte_length : N;
}.

(** The JSON bodies: an answer, or the capability document of a source. *)
Inductive carried : Set := Answer (a : receipt_answer) | CapabilityDocument (source : string).

Abbreviation reply := (response carried).

Record platform_claims : Set := PlatformClaims {
  pc_user_id : N;
  pc_operation_id : N;
  pc_sha256 : string;
  pc_byte_size : N;
}.

Section claims.
(** [HeaderValue::to_str], [str::parse::<Uuid>]. *)
Context (to_str : string → option string) (parse_uuid : string → option N).
Context (HEADER_USER_ID HEADER_DEVICE_ID HEADER_CORRELATION_ID HEADER_OPERATION_ID : string).
Context (HEADER_ARCHIVE_SHA256 HEADER_ARCHIVE_BYTE_SIZE : string).

Definition is_sha_digit (c : ascii) : bool :=
  let n := byte c in
  bool_decide (48 <= n <= 57)%N || bool_decide (97 <= n <= 102)%N.

Definition header_text (headers : string → option string) (name : string) : option string :=
  headers name ≫= to_str.

Definition parse_platform_claims (headers : string → option string) : option platform_claims :=
  let parse := header_text headers in
  user_id ← parse HEADER_USER_ID ≫= parse_uuid;
  _ ← parse HEADER_DEVICE_ID ≫= parse_uuid;
  correlation ← parse HEADER_CORRELATION_ID;
  operation_id ← parse HEADER_OPERATION_ID ≫= parse_uuid;
  sha256 ← parse HEADER_ARCHIVE_SHA256;
  byte_size ← parse HEADER_ARCHIVE_BYTE_SIZE ≫= parse_u64;
  if String.eqb correlation "" || (200 <? N.of_nat (String.length correlation))%N || (byte_size =? 0)%N
     || negb (N.of_nat (String.length sha256) =? 64)%N || any_byte (λ c, negb (is_sha_digit c)) sha256
  then None
  else Some (PlatformClaims user_id operation_id sha256 byte_size).
End claims.

(** ** Served state *)

(** [ReceiptApiState]: the receiver is the argument of the handlers' section. *)
Record receipt_api_state : Type := ReceiptApiState {
  ra_authenticator : config_tenant_authenticator;
  ra_platform_accounts : gmap N tenant_principal;
}.

(** [HashMap::from_iter]: the last pair of a key wins. *)
Definition collect_users (pairs : list (N * tenant_principal)) : gmap N tenant_principal :=
  foldl (λ m kv, <[kv.1 := kv.2]> m) ∅ pairs.

Definition state_new (a : config_tenant_authenticator) : receipt_api_state := ReceiptApiState a ∅.

Definition new_with_platform_accounts (parse_uuid : string → option N) (a : config_tenant_authenticator)
    (accounts : list (string * string)) : receipt_api_state :=
  ReceiptApiState a (collect_users (omap (λ p : string * string,
    (λ id, (id, TenantPrincipal p.2)) <$> parse_uuid p.1) accounts)).

Definition new_with_platform_account_ids (a : config_tenant_authenticator)
    (accounts : list (N * string)) : receipt_api_state :=
  ReceiptApiState a (collect_users ((λ p, (p.1, TenantPrincipal p.2)) <$> accounts)).

(** ** Handlers *)

Section handlers.
Context (sha256_hex : string → string) (media_type_ok : string → bool).
Context {json : Type} (blob_ref_value : blob_ref → option json).
Context {T : Type} `{!ReceiptRepository T json}.
Context (self : archive_receiver).
Context (to_str : string → option string) (parse_uuid : string → option N) (uuid_text : N → string).
Context (HEADER_USER_ID HEADER_DEVICE_ID HEADER_CORRELATION_ID HEADER_OPERATION_ID : string).
Context (HEADER_ARCHIVE_SHA256 HEADER_ARCHIVE_BYTE_SIZE : string).
Context (ARCHIVE_MEDIA_TYPE RECEIPT_PATH CAPABILITIES_PATH : string).
(** What an error of the receiver displays. *)
Context (displayed : receipt_error → error_chain).
Context (state : receipt_api_state).

#[local] Abbreviation handler := (sm (world T) Empty_set reply).

Definition internal_envelope (source : receipt_error) : reply := logged (Internal SReceipt (displayed source)).

Definition respond (e : receipt_error) : reply :=
  match e with
  | DeclaredSizeExceeded | StreamOvergrown => refuse PayloadTooLarge
  | RInvalidMediaType | RDigestMismatch => refuse InvalidRequest
  | RRepository _ | RStorage => internal_envelope e
  | StreamFailed | StagingEvidenceLost => internal_envelope e
  end.

Definition answer (o : receipt_outcome) : reply :=
  match o with
  | RStored export_id _ sha n =>
      Response 201 (Carries (Answer (ReceiptAnswer "stored" (uuid_text export_id) sha n))) []
  | RDuplicate existing sha n =>
      Response 200 (Carries (Answer (ReceiptAnswer "duplicate" (uuid_text existing) sha n))) []
  end.

(** [platform_claims]. *)
Definition claims_of (headers : string → option string)
    : result failure_kind (tenant_principal * string * N * platform_operation) :=
  let? claims := ok_or Unauthenticated
    (parse_platform_claims to_str parse_uuid HEADER_USER_ID HEADER_DEVICE_ID HEADER_CORRELATION_ID
       HEADER_OPERATION_ID HEADER_ARCHIVE_SHA256 HEADER_ARCHIVE_BYTE_SIZE headers) in
  let? principal := ok_or AccountUnmapped (ra_platform_accounts state !! pc_user_id claims) in
  Ok (principal, pc_sha256 claims, pc_byte_size claims, PlatformOperation (pc_operation_id claims)).

Definition receive_platform (rq : request) : handler :=
  if bool_decide (is_Some (rq_headers rq AUTHORIZATION)) then sret (refuse Unauthenticated)
  else
    match claims_of (rq_headers rq) with
    | Err kind => sret (refuse kind)
    | Ok (principal, expected_sha256, expected_size, operation) =>
        if negb (bool_decide (rq_headers rq CONTENT_TYPE = Some ARCHIVE_MEDIA_TYPE))
        then sret (refuse InvalidRequest)
        else
          let! outcome := stry (receive_platform_archive sha256_hex media_type_ok blob_ref_value self
            principal ARCHIVE_MEDIA_TYPE expected_size expected_sha256 operation (body_stream (rq_frames rq))) in
          sret (match outcome with
                | Ok _ => Response 202 Empty []
                | Err e => respond e
                end)
    end.

(** [Some None]: no declared length. *)
Definition declared_length (headers : string → option string) : option (option N) :=
  match header_text to_str headers CONTENT_LENGTH with
  | Some raw => Some <$> parse_u64 raw
  | None => Some None
  end.

Definition create_export (rq : request) : handler :=
  let text := header_text to_str (rq_headers rq) in
  match authenticate (ra_authenticator state) (text AUTHORIZATION) with
  | Err _ => sret (refuse Unauthenticated)
  | Ok principal =>
      match text HEADER_ACQUISITION ≫= mode_parse with
      | None => sret (refuse InvalidRequest)
      | Some mode =>
          match text CONTENT_TYPE with
          | None => sret (refuse InvalidRequest)
          | Some media_type =>
              match declared_length (rq_headers rq) with
              | None => sret (refuse InvalidRequest)
              | Some declared =>
                  let! outcome := stry (receive sha256_hex media_type_ok blob_ref_value self
                    principal mode media_type declared (body_stream (rq_frames rq))) in
                  sret (match outcome with
                        | Ok outcome => answer outcome
                        | Err e => respond e
                        end)
              end
          end
      end
  end.

Definition capabilities : handler := sret (Response 200 (Carries (CapabilityDocument "chatgpt")) []).

Definition method_not_allowed : handler := sret (refuse MethodNotAllowed).

(** The router: a [get] route answers [HEAD] too; a path it does not know is
    axum's own 404, which has no body. *)
Definition router (rq : request) : handler :=
  if String.eqb (rq_path rq) "/exports" then
    if String.eqb (rq_method rq) "POST" then create_export rq else method_not_allowed
  else if String.eqb (rq_path rq) RECEIPT_PATH then
    if String.eqb (rq_method rq) "POST" then receive_platform rq else method_not_allowed
  else if String.eqb (rq_path rq) CAPABILITIES_PATH then
    if String.eqb (rq_method rq) "GET" || String.eqb (rq_method rq) "HEAD" then capabilities
    else method_not_allowed
  else sret (Response 404 Empty []).
End handlers.

(** ** What a response says *)

Section http_laws.
Context (sha256_hex : string → string) (media_type_ok : string → bool).
Context {json : Type} (blob_ref_value : blob_ref → option json) (blob_ref_of : json → option blob_ref).
Context (self : archive_receiver).
Context (to_str : string → option string) (parse_uuid : string → option N) (uuid_text : N → string).
Context (HEADER_USER_ID HEADER_DEVICE_ID HEADER_CORRELATION_ID HEADER_OPERATION_ID : string).
Context (HEADER_ARCHIVE_SHA256 HEADER_ARCHIVE_BYTE_SIZE : string).
Context (ARCHIVE_MEDIA_TYPE RECEIPT_PATH CAPABILITIES_PATH : string).
Context (state : receipt_api_state).

#[local] Abbreviation tables := (tables json).
#[local] Abbreviation repository :=
  (PostgresReceiptRepository sha256_hex media_type_ok blob_ref_of (av_blob self)).
#[local] Abbreviation router := (router (ReceiptRepository0 := repository) sha256_hex media_type_ok blob_ref_value
  self to_str parse_uuid uuid_text HEADER_USER_ID HEADER_DEVICE_ID HEADER_CORRELATION_ID HEADER_OPERATION_ID
  HEADER_ARCHIVE_SHA256 HEADER_ARCHIVE_BYTE_SIZE ARCHIVE_MEDIA_TYPE RECEIPT_PATH CAPABILITIES_PATH).
#[local] Abbreviation receive_inner :=
  (receive_inner (ReceiptRepository0 := repository) sha256_hex media_type_ok blob_ref_value self).
#[local] Abbreviation parse_platform_claims := (parse_platform_claims to_str parse_uuid HEADER_USER_ID
  HEADER_DEVICE_ID HEADER_CORRELATION_ID HEADER_OPERATION_ID HEADER_ARCHIVE_SHA256 HEADER_ARCHIVE_BYTE_SIZE).
#[local] Abbreviation recorded := (recorded sha256_hex blob_ref_of self).
#[local] Abbreviation untouched := (untouched self).

(** What the receiver is asked for. *)
Record asked : Type := Asked {
  as_principal : tenant_principal;
  as_mode : acquisition_mode;
  as_media_type : string;
  as_declared : option N;
  as_expectations : receipt_expectations;
}.

(** [POST /exports]: an authenticated account, a declared mode and media type. *)
Definition asks_export (rq : request) (a : asked) : Prop :=
  rq_path rq = "/exports" ∧ rq_method rq = "POST" ∧
  authenticate (ra_authenticator state) (header_text to_str (rq_headers rq) AUTHORIZATION) = Ok (as_principal a) ∧
  header_text to_str (rq_headers rq) HEADER_ACQUISITION ≫= mode_parse = Some (as_mode a) ∧
  header_text to_str (rq_headers rq) CONTENT_TYPE = Some (as_media_type a) ∧
  declared_length to_str (rq_headers rq) = Some (as_declared a) ∧
  as_expectations a = ReceiptExpectations None None.

(** The Platform receipt: claims of a mapped user, no credential, the one media
    type, and the digest and length the claims declare. *)
Definition asks_platform (rq : request) (a : asked) : Prop :=
  rq_path rq = RECEIPT_PATH ∧ rq_method rq = "POST" ∧ rq_headers rq AUTHORIZATION = None ∧
  rq_headers rq CONTENT_TYPE = Some ARCHIVE_MEDIA_TYPE ∧
  ∃ claims, parse_platform_claims (rq_headers rq) = Some claims ∧
    ra_platform_accounts state !! pc_user_id claims = Some (as_principal a) ∧
    as_mode a = ConsumerExport ∧ as_media_type a = ARCHIVE_MEDIA_TYPE ∧
    as_declared a = Some (pc_byte_size claims) ∧
    as_expectations a = ReceiptExpectations (Some (pc_sha256 claims)) (Some (PlatformOperation (pc_operation_id claims))).

(** A request is refused before the receiver sees it, is for the capability
    document or for no route, or is what the receiver makes of it.  What an
    error displays ([d]) matters to the rendering of an internal one alone. *)
Inductive handled (rq : request) (w : world tables) : ((receipt_error → error_chain) → reply) → world tables → Prop :=
| HRefused kind : kind ∈ [Unauthenticated; AccountUnmapped; InvalidRequest; MethodNotAllowed] →
    handled rq w (λ _, refuse kind) w
| HNoRoute : handled rq w (λ _, Response 404 Empty []) w
| HCapabilities : handled rq w (λ _, Response 200 (Carries (CapabilityDocument "chatgpt")) []) w
| HReceived a ok r w' :
    (asks_export rq a ∧ ok = answer uuid_text) ∨ (asks_platform rq a ∧ ok = λ _, Response 202 Empty []) →
    receive_inner (as_principal a) (as_mode a) (as_media_type a) (as_declared a) (as_expectations a)
      (body_stream (rq_frames rq)) w = (r, w') →
    handled rq w (λ d, match r with Ok out => ok out | Err e => respond d e end) w'.

(** A handler that answers as [handled] says, whatever errors display. *)
Definition answers (h : (receipt_error → error_chain) → sm (world tables) Empty_set reply) (rq : request)
    (w : world tables) : Prop :=
  ∃ f w', handled rq w f w' ∧ ∀ d, h d w = (Ok (f d), w').

Lemma answers_refused kind rq w :
  kind ∈ [Unauthenticated; AccountUnmapped; InvalidRequest; MethodNotAllowed] →
  answers (λ _, sret (refuse kind)) rq w.
Proof. intros H. exists (λ _, refuse kind), w. split; [by apply HRefused|done]. Qed.

Lemma create_export_answers rq w :
  rq_path rq = "/exports" → rq_method rq = "POST" →
  answers (λ d, create_export (ReceiptRepository0 := repository) sha256_hex media_type_ok blob_ref_value self to_str
    uuid_text d state rq) rq w.
Proof.
  intros Hpath Hmethod. unfold create_export.
  destruct (authenticate _ _) as [principal|] eqn:Ea; [|apply answers_refused; set_solver].
  destruct (_ ≫= mode_parse) as [mode|] eqn:Em; [|apply answers_refused; set_solver].
  destruct (header_text _ _ CONTENT_TYPE) as [mt|] eqn:Ec; [|apply answers_refused; set_solver].
  destruct (declared_length _ _) as [declared|] eqn:Ed; [|apply answers_refused; set_solver].
  unfold answers, sbind, stry. destruct (receive _ _ _ _ _ _ _ _ _ w) as [x u] eqn:Er.
  set (a := Asked principal mode mt declared (ReceiptExpectations None None)).
  assert (asks_export rq a) as Hasks by done.
  eexists _, u. split; [by apply (HReceived rq w a (answer uuid_text) x u (or_introl (conj Hasks eq_refl)))|done].
Qed.

Lemma receive_platform_answers rq w :
  rq_path rq = RECEIPT_PATH → rq_method rq = "POST" →
  answers (λ d, receive_platform (ReceiptRepository0 := repository) sha256_hex media_type_ok blob_ref_value self to_str
    parse_uuid HEADER_USER_ID HEADER_DEVICE_ID HEADER_CORRELATION_ID HEADER_OPERATION_ID
    HEADER_ARCHIVE_SHA256 HEADER_ARCHIVE_BYTE_SIZE ARCHIVE_MEDIA_TYPE d state rq) rq w.
Proof.
  intros Hpath Hmethod. unfold receive_platform. case_bool_decide as Ha; [apply answers_refused; set_solver|].
  destruct (claims_of _ _ _ _ _ _ _ _ _ _) as [[[[principal sha] n] op]|kind] eqn:Ec; unfold claims_of in Ec;
    destruct (parse_platform_claims _) as [c|] eqn:Ep; cbn in Ec; try done;
    [|destruct (_ !! _); [done|]; injection Ec as <-; apply answers_refused; set_solver
     |injection Ec as <-; apply answers_refused; set_solver].
  destruct (_ !! _) as [q|] eqn:Eq; [|done]. injection Ec as <- <- <- <-.
  case_bool_decide as Hm; cbn [negb]; [|apply answers_refused; set_solver].
  unfold answers, sbind, stry. destruct (receive_platform_archive _ _ _ _ _ _ _ _ _ _ w) as [x u] eqn:Er.
  set (a := Asked q ConsumerExport ARCHIVE_MEDIA_TYPE (Some (pc_byte_size c))
    (ReceiptExpectations (Some (pc_sha256 c)) (Some (PlatformOperation (pc_operation_id c))))).
  assert (asks_platform rq a) as Hasks by (split_and!; [done..|by apply eq_None_not_Some|done|by exists c]).
  eexists _, u. split; [by apply (HReceived rq w a (λ _, Response 202 Empty []) x u (or_intror (conj Hasks eq_refl)))|done].
Qed.

Lemma router_answers rq w : answers (λ d, router d state rq) rq w.
Proof.
  unfold ReceiptHttp.router. destruct (String.eqb_spec (rq_path rq) "/exports") as [Hp|_].
  { destruct (String.eqb_spec (rq_method rq) "POST"); [by apply create_export_answers|apply answers_refused; set_solver]. }
  destruct (String.eqb_spec (rq_path rq) RECEIPT_PATH) as [Hp|_].
  { destruct (String.eqb_spec (rq_method rq) "POST"); [by apply receive_platform_answers|apply answers_refused; set_solver]. }
  destruct (String.eqb (rq_path rq) CAPABILITIES_PATH).
  { destruct (_ || _); [|apply answers_refused; set_solver]. eexists _, w. split; [apply HCapabilities|done]. }
  eexists _, w. split; [apply HNoRoute|done].
Qed.

(** A failure of the receiver is rendered from the table; a client error is one
    the request itself caused. *)
Lemma respond_from_table displayed e : from_table (respond displayed e).
Proof. by destruct e; apply logged_from_table. Qed.

Lemma respond_client_error displayed e :
  (rs_status (respond displayed e) < 500)%N → refused_input e.
Proof. unfold refused_input. destruct e; cbn; try lia; set_solver. Qed.

Lemma respond_not_refusal displayed e : rs_status (respond displayed e) ∉ [401; 403; 404; 405]%N.
Proof. by destruct e; apply (bool_decide_unpack _). Qed.

Lemma refuse_status kind : (400 <= rs_status (refuse (B := carried) kind) < 500)%N.
Proof. destruct kind; cbn; lia. Qed.

(** C7. A success is answered only for what was recorded. With nobody else at
    work, whatever fails: an answer of 200, 201 or 202 is the capability
    document, which changes nothing, or comes from a request that passed every
    guard of its route - on the export route an authenticated account, a known
    acquisition mode, a media type; on the Platform route no credential, the
    literal media type and the claims of a mapped user - and what the body held
    is recorded for that account: its bytes agree with the declared length and,
    on the Platform route, with the digest the claims carry.  That is either a
    new export of that account, its first with this digest, whose blob is
    present, or, for a duplicate, the export that same account already has with
    this digest (no export's account being missing), and then no row but the
    run's changed; the answer on the export route names the outcome, the
    export, the digest and the length. *)
Theorem successes_are_recorded displayed rq w r w' :
  w_others w = [] → store_wf sha256_hex (av_blob self) (d_nodes (w_disk w)) →
  (∀ id dir rem, String.length dir = 2 → staging_path self id ≠ object_path (av_blob self) dir rem) →
  (∀ r v, blob_ref_value r = Some v → blob_ref_of v = Some r) →
  router displayed state rq w = (Ok r, w') → (rs_status r < 400)%N →
  (r = Response 200 (Carries (CapabilityDocument "chatgpt")) [] ∧ w' = w) ∨
  ∃ a out, recorded w w' (as_principal a) (as_mode a) (as_media_type a) (as_declared a) (as_expectations a)
      (body_stream (rq_frames rq)) out ∧
    ((asks_export rq a ∧ r = answer uuid_text out) ∨ (asks_platform rq a ∧ r = Response 202 Empty [])).
Proof.
  intros Hw Hwf Hapart Hround H Hs. destruct (router_answers rq w) as (f & u & Hh & Hf).
  rewrite Hf in H. injection H as <- <-. destruct Hh as [kind Hk| | |a ok x w' Hask Hrun].
  - pose proof (refuse_status kind). lia.
  - cbn in Hs. lia.
  - by left.
  - destruct x as [out|e].
    + right. exists a, out. split; [by eapply receive_inner_records|]. destruct Hask as [[? ->]|[? ->]]; auto.
    + destruct e; cbn in Hs; lia.
Qed.

(** C8. A client error leaves no trace. With nobody else at work, whatever
    fails: a request answered with a status from 400 to 499 publishes no export
    and no account and touches no stored object; one that is refused for its
    credential, its user, its method or its path changes nothing at all, and so
    does every other one, unless it passed the guards of its route and named a
    well-formed media type, in which case the run it opened may remain. *)
Theorem client_errors_publish_nothing displayed rq w r w' :
  w_others w = [] →
  (∀ id dir rem, String.length dir = 2 → staging_path self id ≠ object_path (av_blob self) dir rem) →
  router displayed state rq w = (Ok r, w') → (400 <= rs_status r < 500)%N →
  t_exports (w_tables w') = t_exports (w_tables w) ∧
  t_accounts (w_tables w') = t_accounts (w_tables w) ∧
  objects_same (av_blob self) (d_nodes (w_disk w)) (d_nodes (w_disk w')) ∧
  (rs_status r ∈ [401; 403; 404; 405]%N → w' = w) ∧
  (w' ≠ w → ∃ a, (asks_export rq a ∨ asks_platform rq a) ∧ media_type_ok (as_media_type a) = true).
Proof.
  intros Hw Hapart H Hs. destruct (router_answers rq w) as (f & u & Hh & Hf).
  rewrite Hf in H. injection H as <- <-.
  assert (Hsame : objects_same (av_blob self) (d_nodes (w_disk w)) (d_nodes (w_disk w))) by reflexivity.
  destruct Hh as [kind Hk| | |a ok x w' Hask Hrun]; [by split_and!..|].
  destruct x as [out|e].
  { destruct Hask as [[_ ->]|[_ ->]]; [destruct out|]; cbn in Hs; lia. }
  pose proof (respond_client_error displayed e ltac:(lia)) as Href.
  pose proof (receive_inner_refused sha256_hex media_type_ok blob_ref_value blob_ref_of self Hapart
    w w' _ _ _ _ _ _ e Hw Href Hrun) as (He & Ha & Ho & Hmt & _).
  split_and!; try done.
  - by intros ?%respond_not_refusal.
  - intros Hne. exists a. split; [naive_solver|]. destruct (media_type_ok _); [done|]. by destruct Hne, Hmt.
Qed.

End http_laws.

(** ** Closed examples *)

Module HttpWitness.
Import ReceiptPgWitness.

Definition zeros : string := "00000000000000000000000000000000000000000000000000000000000000".

Definition headers (l : list (string * string)) : string → option string :=
  λ name, snd <$> head (filter (λ h : string * string, h.1 = name) l).

Definition claims : list (string * string) :=
  [("user", "7"); ("device", "8"); ("correlation", "c"); ("operation", "9"); ("sha256", "ab" +:+ zeros);
   ("size", "62"); ("content-type", "application/zip")].

Definition state : receipt_api_state :=
  new_with_platform_account_ids (authenticator_new [("secret", "tenant")]) [(7%N, "tenant")].

#[local] Abbreviation serve :=
  (router (ReceiptRepository0 := pg) toy_sha (λ _, true) value self Some parse_u64 (λ n, pretty n) "user" "device"
    "correlation" "operation" "sha256" "size" "application/zip" "/receipt" "/capabilities" (λ _, ("boom", ["disk"])) state).
#[local] Abbreviation quiet := (world_of no_tables [] []).

(** A Platform receipt, the same with a credential beside the claims, a user
    that is not mapped, and a size that is not the body's. *)
Definition platform (l : list (string * string)) : request := Request "POST" "/receipt" (headers l) [Data zeros; Trailers].
Definition accepted := serve (platform claims) quiet.
Definition short : list (string * string) := ("size", "200") :: claims.

Definition status_of (x : result Empty_set reply * world (tables blob_ref)) : N :=
  match x.1 with Ok r => rs_status r | Err _ => 0 end.

Example statuses :
  status_of accepted = 202%N ∧
  status_of (serve (platform (("authorization", "Bearer secret") :: claims)) quiet) = 401%N ∧
  status_of (serve (platform (("user", "70") :: claims)) quiet) = 403%N ∧
  status_of (serve (platform short) quiet) = 413%N ∧
  status_of (serve (platform (("content-type", "application/ZIP") :: claims)) quiet) = 400%N ∧
  status_of (serve (Request "GET" "/exports" (headers []) []) quiet) = 405%N.
Proof. vm_compute. done. Qed.

(** The export route: a stored receipt, the same bytes again, the same with no
    mode. *)
Definition upload_headers : list (string * string) :=
  [("authorization", "bearer secret"); ("x-ratatoskr-acquisition", "consumer_export"); ("content-type", "text/any")].
Definition exports (l : list (string * string)) : request := Request "POST" "/exports" (headers l) [Data "xyz"].
Definition stored := serve (exports upload_headers) quiet.

Example exports_answered :
  stored.1 = Ok (Response 201 (Carries (Answer (ReceiptAnswer "stored" "4" "abxyz" 3))) []) ∧
  status_of (serve (exports upload_headers) stored.2) = 200%N ∧
  status_of (serve (exports (tail (tail upload_headers))) stored.2) = 401%N.
Proof. vm_compute. done. Qed.

Definition reply_of (x : result Empty_set reply * world (tables blob_ref)) : reply :=
  match x.1 with Ok r => r | Err _ => Response 0 Empty [] end.

Lemma served rq w : serve rq w = (Ok (reply_of (serve rq w)), (serve rq w).2).
Proof. unfold reply_of. by destruct (serve rq w) as [[r|[]] u]. Qed.

Lemma successes_are_recorded_witness :
  ∃ chunks, body_stream (rq_frames (platform claims)) = Some <$> chunks ∧ "ab" +:+ zeros = toy_sha (concat_bytes chunks).
Proof.
  destruct (successes_are_recorded toy_sha (λ _, true) value of_value self Some parse_u64 (λ n, pretty n) "user"
    "device" "correlation" "operation" "sha256" "size" "application/zip" "/receipt" "/capabilities" state
    (λ _, ("boom", ["disk"])) (platform claims) quiet (reply_of (serve (platform claims) quiet)) (serve (platform claims) quiet).2
    eq_refl (empty_wf _ eq_refl) apart (λ r v H, eq_sym H) (served (platform claims) quiet)) as [[H _]|(a & out & Hrec & Hask)].
  - apply (bool_decide_unpack _). vm_compute. exact I.
  - exfalso. apply (f_equal rs_status) in H. vm_compute in H. discriminate H.
  - destruct Hrec as (chunks & run & w1 & Hc & _ & _ & He & _). exists chunks. split; [exact Hc|]. apply He.
    destruct Hask as [[Hx _]|[Hx _]]; [destruct Hx as [Hx _]; discriminate Hx|].
    destruct Hx as (_ & _ & _ & _ & c & Hp & _ & _ & _ & _ & ->). cbn. f_equal.
    enough (pc_sha256 <$> Some c = Some ("ab" +:+ zeros)) as [= ?] by done. rewrite <-Hp. vm_compute. reflexivity.
Defined.

Lemma client_errors_publish_nothing_witness :
  t_exports (w_tables (serve (platform short) quiet).2) = ∅.
Proof.
  destruct (client_errors_publish_nothing toy_sha (λ _, true) value of_value self Some parse_u64 (λ n, pretty n) "user"
    "device" "correlation" "operation" "sha256" "size" "application/zip" "/receipt" "/capabilities" state
    (λ _, ("boom", ["disk"])) (platform short) quiet (reply_of (serve (platform short) quiet))
    (serve (platform short) quiet).2 eq_refl apart (served (platform short) quiet)) as [H _].
  - apply (bool_decide_unpack _). vm_compute. exact I.
  - exact H.
Defined.
End HttpWitness.
