(* ===== verification/OutboxTable.v ===== *)
(** * The outbox table ([schema.sql], [outbox_events])

    Its rows, what the pump may change in them, and the statements several
    writers share. *)

From S2P Require Import Prelude BTree Json Postgres.

#[local] Open Scope result_scope.

(** ** Rows *)

(** The columns no statement of the service updates. *)
Record fact : Set := Fact {
  ft_event_type : string;
  ft_aggregate_id : string;
  ft_tenant_id : option string;
  ft_export_id : option string;
  ft_payload : json;
  ft_correlation_id : option string;
  ft_deduplication_key : option string;
  ft_created_at : N;
}.

(** The columns of the delivery; instants are seconds. *)
Record delivery : Set := Delivery {
  dl_published_at : option N;
  dl_attempt_count : N;
  dl_last_error : option string;
  dl_next_attempt_at : N;
  dl_undeliverable_at : option N;
  dl_acknowledged_at : option N;
  dl_ack_outcome : option string;
  dl_resend_count : N;
  dl_next_resend_at : option N;
  dl_published_stream_seqs : list Z;
}.

Abbreviation outbox_row := (fact * delivery)%type.

(** The column defaults. *)
Definition undelivered (now : N) : delivery :=
  Delivery None 0 None now None None None 0 None [].

(** [ot_now] is [now()]; [ot_next] the identity column; [ot_history] every
    fact that was ever inserted - no code reads it, the theorems do. *)
Record otables : Set := OTables {
  ot_rows : gmap N outbox_row;
  ot_next : N;
  ot_now : N;
  ot_history : gmap N fact;
}.

Definition set_rows (f : gmap N outbox_row → gmap N outbox_row) (t : otables) : otables :=
  OTables (f (ot_rows t)) (ot_next t) (ot_now t) (ot_history t).

Definition TOMBSTONE_EVENT_TYPE : string := "ai_archive.subject.tombstoned.v1".
Definition STREAM_ERASURE_COMMAND : string := "platform.stream_erasure.requested.v1".

Definition CONTENT_BEARING_TYPES : list string :=
  ["ai_archive.archive.imported.v1"; "ai_archive.conversation.added.v1";
   "ai_archive.conversation.updated.v1"; "ai_archive.project.added.v1";
   "ai_archive.project.updated.v1"; "ai_archive.artifact.added.v1";
   "ai_archive.artifact.updated.v1"].

Definition is_content_bearing (event_type : string) : bool :=
  existsb (String.eqb event_type) CONTENT_BEARING_TYPES.

Definition is_null {A} (o : option A) : bool := match o with None => true | Some _ => false end.

(** [payload.get("tenant_id").and_then(Value::as_str)]. *)
Definition get_str (k : string) (payload : json) : option string :=
  l ← as_object payload; v ← obj_get k l; as_str v.

(** SQL's [payload ->> k]; [render] spells what is not a string. *)
Definition sql_text (render : json → string) (k : string) (payload : json) : option string :=
  l ← as_object payload; v ← obj_get k l;
  match v with
  | JNull => None
  | JString s => Some s
  | v => Some (render v)
  end.

Lemma sql_text_str render k payload s :
  get_str k payload = Some s → sql_text render k payload = Some s.
Proof.
  unfold get_str, sql_text. intros H. apply bind_Some in H as (l & -> & H).
  apply bind_Some in H as (v & Hv & H). cbn. rewrite Hv. cbn. by destruct v; simplify_eq/=.
Qed.

(** ** Statements *)

Definition sql (A : Type) : Type := otables → result sql_error (A * otables).

(** [UPDATE outbox_events SET f WHERE id = $1 AND where]: rows affected. *)
Definition update_row (id : N) (where_ : outbox_row → bool)
    (f : N → outbox_row → delivery) : sql nat := λ t,
  match ot_rows t !! id with
  | Some row =>
      if where_ row then Ok (1, set_rows <[id := (row.1, f (ot_now t) row)]> t) else Ok (0, t)
  | None => Ok (0, t)
  end.

(** The same over every row. *)
Definition update_rows (where_ : outbox_row → bool) (f : N → outbox_row → delivery) : sql nat := λ t,
  Ok (size (filter (λ r : N * outbox_row, where_ r.2 = true) (ot_rows t)),
      set_rows (fmap (λ row, if where_ row then (row.1, f (ot_now t) row) else row)) t).

Definition has_key (key : string) (row : outbox_row) : bool :=
  bool_decide (ft_deduplication_key row.1 = Some key).

(** [INSERT ... ON CONFLICT (deduplication_key) WHERE ... DO NOTHING]: whether
    the row was added. *)
Definition insert_fact (f : fact) : sql bool := λ t,
  if existsb (λ r : N * outbox_row,
       match ft_deduplication_key f with Some key => has_key key r.2 | None => false end)
       (map_to_list (ot_rows t))
  then Ok (false, t)
  else Ok (true, OTables (<[ot_next t := (f, undelivered (ot_now t))]> (ot_rows t)) (ot_next t + 1)
                 (ot_now t) (<[ot_next t := f]> (ot_history t))).

Definition select_now : sql N := λ t, Ok (ot_now t, t).

(** ** What holds of the table *)

(** Rows are facts of the history, and the identity column is ahead of it. *)
Record table_ok (t : otables) : Prop := TableOk {
  to_rows id row : ot_rows t !! id = Some row → ot_history t !! id = Some row.1;
  to_next id f : ot_history t !! id = Some f → (id < ot_next t)%N;
}.

(** A table that gained rows whose facts satisfy [K], and lost none. *)
Record gain (K : fact → Prop) (t t' : otables) : Prop := Gain {
  ga_ok : table_ok t';
  ga_rows id row : ot_rows t !! id = Some row → ot_rows t' !! id = Some row;
  ga_history id f : ot_history t !! id = Some f → ot_history t' !! id = Some f;
  ga_new id f : ot_history t' !! id = Some f →
    ot_history t !! id = Some f ∨ (ot_history t !! id = None ∧ K f);
  ga_gone id f : ot_history t !! id = Some f → ot_rows t !! id = None → ot_rows t' !! id = None;
}.

Definition gained (K : fact → Prop) (t t' : otables) : Prop := table_ok t → gain K t t'.

#[export] Instance gained_preorder K : PreOrder (gained K).
Proof.
  split; [intros t Ht; constructor; naive_solver|].
  intros a b c H1 H2 Ha. destruct (H1 Ha) as [ob rb hb nb gb].
  destruct (H2 ob) as [oc rc hc nc gc]. constructor; eauto.
  intros id f Hf. destruct (nc id f Hf) as [H|[H K']]; [by apply nb|]. right. split; [|done].
  destruct (ot_history a !! id) eqn:E; [|done]. apply hb in E. congruence.
Qed.

Lemma insert_fact_gained (K : fact → Prop) f t a t' :
  insert_fact f t = Ok (a, t') → K f → gained K t t'.
Proof.
  unfold insert_fact. intros H Kf Ht. case_match; simplify_eq; [by apply gained_preorder|].
  assert (Hh : ot_history t !! ot_next t = None).
  { destruct (_ !! _) eqn:E; [|done]. apply Ht in E. lia. }
  assert (Hr : ot_rows t !! ot_next t = None).
  { destruct (ot_rows t !! _) eqn:E; [|done]. apply Ht in E. congruence. }
  constructor; cbn.
  - constructor; cbn.
    + intros id row. rewrite !lookup_insert_Some. intros [[<- <-]|[? ?%Ht]]; auto.
    + intros id g. rewrite lookup_insert_Some. intros [[<- _]|[_ ?%Ht]]; lia.
  - intros id row Hrow. rewrite lookup_insert_ne; [done|]. congruence.
  - intros id g Hg. rewrite lookup_insert_ne; [done|]. congruence.
  - intros id g. rewrite lookup_insert_Some. naive_solver.
  - intros id g Hg ?. rewrite lookup_insert_ne; [done|]. congruence.
Qed.

(** The key is held by a live row afterwards. *)
Lemma insert_fact_keyed f key t a t' :
  insert_fact f t = Ok (a, t') → ft_deduplication_key f = Some key →
  ∃ id row, ot_rows t' !! id = Some row ∧ ft_deduplication_key row.1 = Some key.
Proof.
  unfold insert_fact. intros H Hkey. rewrite Hkey in H.
  destruct (existsb _ _) eqn:E; simplify_eq.
  - apply existsb_exists in E as ([id row] & Hin & Hk). exists id, row.
    apply list_elem_of_In, elem_of_map_to_list in Hin. unfold has_key in Hk.
    by case_bool_decide.
  - eexists (ot_next t), _. cbn. rewrite lookup_insert_eq. done.
Qed.


Lemma gained_mono (K K' : fact → Prop) t t' :
  (∀ f, K f → K' f) → gained K t t' → gained K' t t'.
Proof. intros HK Hg [? ? ? Hn ?]%Hg. constructor; auto. intros id f [|[]]%Hn; auto. Qed.

(** A row that is there was there, or is new. *)
Lemma gained_row K t t' id row :
  gained K t t' → table_ok t → ot_rows t' !! id = Some row → ot_rows t !! id = Some row ∨ K row.1.
Proof.
  intros Hg Ht Hrow. destruct (Hg Ht) as [ok keep _ new gone].
  destruct (new id row.1 (to_rows _ ok _ _ Hrow)) as [Hf|[_ ?]]; [left|by right].
  destruct (ot_rows t !! id) as [row'|] eqn:E; [by rewrite <-(keep _ _ E)|].
  rewrite (gone _ _ Hf E) in Hrow. done.
Qed.
