(* ===== verification/StreamErasure.v ===== *)
(** * Erasing published facts from the stream ([stream_erasure.rs],
      [privacy_deletion/erasure.rs], [deletion_ack.rs], [pg_instant.rs])

    The commands that ask for the erasure of stream messages, the deletion
    that drops fact rows and issues them, and the acknowledgement of a
    tombstone. *)

From S2P Require Import Prelude Disk BTree Json Postgres OutboxTable.

#[local] Open Scope result_scope.

(** ** Instants ([pg_instant.rs]) *)

(** [str::trim_end_matches] of one character. *)
Fixpoint trim_end_matches (c : ascii) (s : string) : string :=
  match s with
  | EmptyString => EmptyString
  | String d s =>
      let r := trim_end_matches c s in
      if String.eqb r "" && Ascii.eqb d c then "" else String d r
  end.

Definition dot : ascii := "."%char.
Definition zero : ascii := "0"%char.
Definition colon : ascii := ":"%char.

(** The spelling [wire_instant] hands to the parser. *)
Definition wire_spelling (rendered : string) : string :=
  let '(whole, fraction) := default (rendered, "") (split_once dot rendered) in
  let fraction := trim_end_matches zero fraction in
  if String.eqb fraction "" then whole +:+ "Z" else whole +:+ "." +:+ fraction +:+ "Z".

(** ** Chunks *)

(** [slice::chunks(n)], [n > 0]. *)
Fixpoint chunks_go {A} (fuel n : nat) (l : list A) : list (list A) :=
  match fuel, l with
  | S fuel, _ :: _ => take n l :: chunks_go fuel n (drop n l)
  | _, _ => []
  end.

Definition chunks {A} (n : nat) (l : list A) : list (list A) := chunks_go (length l) n l.

(** ** Commands *)

Definition MAX_SEQUENCES_PER_COMMAND : nat := 500.

Inductive enqueue_error : Set := Invalid | EDatabase | EEncode.

(** [PublishedFacts]: a [BTreeMap] of [BTreeSet]s. *)
Definition published_facts : Set := list (string * list (Z * unit)).

Record durable_request : Set := DurableRequest {
  dr_tenant_id : string;
  dr_correlation_id : option string;
}.

Inductive privacy_deletion_error : Set := DStreamErasure | DStore | DEncode.

Inductive ack_application : Set := Applied | Refusal | Unmatched.

(** [{key_stem}:{index}]. *)
Definition chunk_key (key_stem : string) (index : nat) : string :=
  key_stem +:+ String colon (pretty index).

(** The stem of the pump's own commands, and of a deletion's. *)
Definition reconcile_stem (event_id : string) : string :=
  "stream-erasure:reconcile:" +:+ event_id.
Definition deletion_stem (request_id owner : string) : string :=
  "stream-erasure:" +:+ (request_id +:+ String colon owner).

Section stream_erasure.
(** [WireTimestamp::parse], and the database's rendering of [now()]. *)
Context {wire : Type} (parse_wire : string → option wire) (pg_render : N → string).
(** [EntityLocalId::parse], [ProducerName::parse] of the constant producer,
    [TenantRef::parse]. *)
Context (request_ok : string → bool) (producer_ok : bool) (owner_ok : string → bool).
(** SQL's text of a JSON value that is not a string. *)
Context (render : json → string).

Definition wire_instant (rendered : string) : option wire := parse_wire (wire_spelling rendered).

Definition select_rendered : sql string := λ t, Ok (pg_render (ot_now t), t).

Definition database_now : sm (world otables) sql_error wire :=
  let! rendered := statement select_rendered in
  slift (ok_or SqlError (wire_instant rendered)).

(** What an erasure command envelope is built from. *)
Record erasure_command : Type := ErasureCommand {
  ec_command_id : N;
  ec_issued_at : wire;
  ec_request_id : string;
  ec_correlation_id : option string;
  ec_owner : string;
  ec_stream_sequences : list N;
}.

(** The envelope of the contracts crate: [set_payload] and [to_value]. *)
Context (erasure_document : erasure_command → result enqueue_error json).

Record owner_erasure : Type := OwnerErasure {
  oe_owner : string;
  oe_sequences : list (Z * unit);
  oe_request_id : string;
  oe_account_id : option string;
  oe_correlation_id : option string;
  oe_issued_at : wire;
  oe_key_stem : string;
}.

Definition to_u64 (sequence : Z) : option N :=
  if (sequence <? 0)%Z then None else Some (Z.to_N sequence).

Definition command_fact (e : owner_erasure) (command_id : N) (payload : json) (index : nat) (now : N)
    : fact :=
  Fact STREAM_ERASURE_COMMAND (oe_request_id e) (oe_account_id e) None payload
    (Some (default (pretty command_id) (oe_correlation_id e)))
    (Some (chunk_key (oe_key_stem e) index)) now.

Fixpoint enqueue_chunks (e : owner_erasure) (index : nat) (sequences : list (list N))
    : sm (world otables) enqueue_error unit :=
  match sequences with
  | [] => sret tt
  | chunk :: rest =>
      let! command_id := mint in
      let! payload := slift (erasure_document
        (ErasureCommand command_id (oe_issued_at e) (oe_request_id e) (oe_correlation_id e)
           (oe_owner e) chunk)) in
      let! _ := smap_err (λ _, EDatabase) (statement (λ t,
        insert_fact (command_fact e command_id payload index (ot_now t)) t)) in
      enqueue_chunks e (S index) rest
  end.

Definition enqueue_owner_erasure (e : owner_erasure) : sm (world otables) enqueue_error unit :=
  if negb (request_ok (oe_request_id e) && producer_ok && owner_ok (oe_owner e)) then sfail Invalid
  else
    let! sequences := slift (ok_or Invalid (mapM to_u64 (bt_keys (oe_sequences e)))) in
    enqueue_chunks e 0 (chunks MAX_SEQUENCES_PER_COMMAND sequences).

(** ** The deletion ([privacy_deletion/erasure.rs]) *)

Definition is_dropped (outbox_ids : list N) (exports : list string) (r : N * outbox_row) : bool :=
  bool_decide (r.1 ∈ outbox_ids) ||
  match ft_export_id r.2.1 with Some export => bool_decide (export ∈ exports) | None => false end.

(** The rows [(owner, sequence)] of one dropped row. *)
Definition recorded_copies (row : outbox_row) : list (string * Z) :=
  match sql_text render "tenant_id" (ft_payload row.1) with
  | Some owner =>
      if is_content_bearing (ft_event_type row.1)
      then (owner,.) <$> dl_published_stream_seqs row.2 else []
  | None => []
  end.

(** [WITH dropped AS (DELETE ... RETURNING ...) SELECT owner, unnest(...)];
    the order of the rows is not specified. *)
Definition delete_rows (outbox_ids : list N) (exports : list string) : sql (list (string * Z)) := λ t,
  Ok (filter (λ r, is_dropped outbox_ids exports r = true) (map_to_list (ot_rows t))
        ≫= λ r, recorded_copies r.2,
      set_rows (filter (λ r, is_dropped outbox_ids exports r = false)) t).

Definition insert_copy (facts : published_facts) (copy : string * Z) : published_facts :=
  bt_upd copy.1 (λ sequences, bset_insert copy.2 (default [] sequences)) facts.

Definition drop_published_fact_rows (outbox_ids : list N) (exports : list string)
    : sm (world otables) sql_error published_facts :=
  let! rows := statement (delete_rows outbox_ids exports) in
  sret (foldl insert_copy [] rows).

Definition deletion_error_of (e : enqueue_error) : privacy_deletion_error :=
  match e with Invalid => DStreamErasure | EDatabase => DStore | EEncode => DEncode end.

Fixpoint enqueue_erasure_commands (durable : durable_request) (request_id : string)
    (issued_at : wire) (facts : published_facts)
    : sm (world otables) privacy_deletion_error unit :=
  match facts with
  | [] => sret tt
  | (owner, sequences) :: rest =>
      let! _ := smap_err deletion_error_of (enqueue_owner_erasure
        (OwnerErasure owner sequences request_id (Some (dr_tenant_id durable))
           (dr_correlation_id durable) issued_at (deletion_stem request_id owner))) in
      enqueue_erasure_commands durable request_id issued_at rest
  end.

(** ** The acknowledgement of a tombstone ([deletion_ack.rs]) *)

Definition is_acknowledged_by (event_id owner : string) (row : outbox_row) : bool :=
  String.eqb (ft_event_type row.1) TOMBSTONE_EVENT_TYPE
  && is_null (dl_acknowledged_at row.2)
  && bool_decide (sql_text render "event_id" (ft_payload row.1) = Some event_id)
  && bool_decide (sql_text render "tenant_id" (ft_payload row.1) = Some owner).

Definition acknowledged (outcome : string) (now : N) (row : outbox_row) : delivery :=
  let d := row.2 in
  Delivery (Some (default now (dl_published_at d))) (dl_attempt_count d) (dl_last_error d)
    (dl_next_attempt_at d) (dl_undeliverable_at d) (Some now) (Some outcome) (dl_resend_count d)
    (dl_next_resend_at d) (dl_published_stream_seqs d).

Definition acknowledge (acknowledged_event_id owner : string) (refused : bool)
    : sm (world otables) sql_error ack_application :=
  let! rows := auto (update_rows (is_acknowledged_by acknowledged_event_id owner)
                       (acknowledged (if refused then "refused" else "applied"))) in
  sret (match rows with
        | O => Unmatched
        | _ => if refused then Refusal else Applied
        end).
End stream_erasure.

(** ** Chunks *)

Lemma chunks_go_concat {A} n fuel (l : list A) :
  n ≠ 0 → length l <= fuel → mjoin (chunks_go fuel n l) = l.
Proof.
  intros Hn. revert l. induction fuel as [|fuel IH]; intros [|x l] Hl; try done; [simpl in Hl; lia|].
  cbn [chunks_go mjoin]. rewrite list_join_cons || cbn. rewrite IH; [by rewrite take_drop|].
  rewrite length_drop. simpl in *. lia.
Qed.

Lemma chunks_concat {A} n (l : list A) : n ≠ 0 → mjoin (chunks n l) = l.
Proof. intros Hn. by apply chunks_go_concat. Qed.

Lemma chunks_elem {A} n (l : list A) x :
  n ≠ 0 → x ∈ l → ∃ i chunk, chunks n l !! i = Some chunk ∧ x ∈ chunk.
Proof.
  intros Hn. rewrite <-(chunks_concat n l) at 1 by done.
  intros (chunk & Hx & (i & Hi)%list_elem_of_lookup)%list_elem_of_join. eauto.
Qed.

Lemma chunks_go_lengths {A} n fuel (l : list A) :
  n ≠ 0 → Forall (λ c, 0 < length c <= n) (chunks_go fuel n l).
Proof.
  intros Hn. revert l. induction fuel as [|fuel IH]; intros [|x l]; cbn; try constructor; auto.
  rewrite length_take. cbn. lia.
Qed.

(** ** Keys *)

Definition no_colon (s : string) : Prop := any_byte (is_char colon) s = false.

Lemma index_no_colon (i : nat) : no_colon (pretty i).
Proof. by apply (show_nat_clear (is_char colon)). Qed.

Lemma chunk_key_inj stem stem' i j :
  chunk_key stem i = chunk_key stem' j → stem = stem' ∧ i = j.
Proof.
  intros [-> H]%split_last_inj; [|apply index_no_colon..]. split; [done|]. by apply (inj pretty).
Qed.

Lemma reconcile_stem_inj e e' : reconcile_stem e = reconcile_stem e' → e = e'.
Proof. apply string_app_inj. Qed.

(** Identities are UUIDs: no colon, and not the word [reconcile]. *)
Definition is_uuid (s : string) : Prop := no_colon s ∧ String.length s = 36.

Lemma deletion_stem_inj r o o' : deletion_stem r o = deletion_stem r o' → o = o'.
Proof. intros H%string_app_inj%string_app_inj. by injection H. Qed.

Lemma deletion_not_reconcile r o e i j :
  is_uuid r → chunk_key (deletion_stem r o) i ≠ chunk_key (reconcile_stem e) j.
Proof.
  intros [Hc Hl] [E _]%chunk_key_inj. unfold deletion_stem, reconcile_stem in E.
  change ("stream-erasure:reconcile:" +:+ e) with ("stream-erasure:" +:+ ("reconcile" +:+ String colon e)) in E.
  apply string_app_inj, split_first_inj in E as [-> _]; done.
Qed.

(** ** Updating the delivery of rows *)

(** Facts are as before, and so is every recorded sequence. *)
Definition delivers (t t' : otables) : Prop :=
  ot_history t' = ot_history t ∧ ot_next t' = ot_next t ∧
  (∀ id, ot_rows t' !! id = None ↔ ot_rows t !! id = None) ∧
  ∀ id f d, ot_rows t !! id = Some (f, d) → ∃ d', ot_rows t' !! id = Some (f, d') ∧
    dl_published_stream_seqs d ⊆ dl_published_stream_seqs d'.

Lemma update_row_delivers id where_ up t n t' :
  update_row id where_ up t = Ok (n, t') →
  (∀ row, ot_rows t !! id = Some row → where_ row = true →
     dl_published_stream_seqs row.2 ⊆ dl_published_stream_seqs (up (ot_now t) row)) →
  delivers t t'.
Proof.
  unfold update_row. intros H Hup. assert (Hrefl : delivers t t) by (split_and!; naive_solver).
  destruct (ot_rows t !! id) as [row|] eqn:E; [|by simplify_eq].
  destruct (where_ row) eqn:W; simplify_eq; [|done]. split_and!; [done..| |]; cbn.
  - intros i. rewrite lookup_insert_None. naive_solver congruence.
  - intros i f d Hi. destruct (decide (id = i)) as [<-|Hne].
    + rewrite lookup_insert_eq. rewrite E in Hi. injection Hi as ->. eexists. split; [done|].
      by apply (Hup (f, d)).
    + rewrite lookup_insert_ne by done. eauto.
Qed.

Lemma update_rows_delivers where_ up t n t' :
  update_rows where_ up t = Ok (n, t') →
  (∀ now row, dl_published_stream_seqs row.2 ⊆ dl_published_stream_seqs (up now row)) →
  delivers t t'.
Proof.
  unfold update_rows. intros H Hup. simplify_eq. split_and!; [done..| |]; cbn.
  - intros i. by rewrite lookup_fmap, fmap_None.
  - intros i f d Hi. rewrite lookup_fmap, Hi. cbn. case_match; eexists; split; try done.
    apply (Hup _ (f, d)).
Qed.

(** ** What the writers may do to the table *)

Section rely.
(** What Edge reads from a command: the owner and the sequences; and the
    event identity of a stored fact. *)
Context (names : json → option (string * list N)) (event_of : fact → option string).

(** A sequence whose erasure was asked for in the name of its owner. *)
Definition asked (t : otables) (owner : string) (s : N) : Prop :=
  ∃ id f l, ot_history t !! id = Some f ∧ ft_event_type f = STREAM_ERASURE_COMMAND ∧
    names (ft_payload f) = Some (owner, l) ∧ s ∈ l.

Definition content_bearing (f : fact) : Prop := is_content_bearing (ft_event_type f) = true.
Definition owner_of_fact (f : fact) : option string := get_str "tenant_id" (ft_payload f).

(** Content-bearing facts have identities of their own. *)
Definition events_unique (t : otables) : Prop := ∀ i j f g e,
  ot_history t !! i = Some f → ot_history t !! j = Some g →
  content_bearing f → content_bearing g → event_of f = Some e → event_of g = Some e → i = j.

Definition is_reconcile_key (key : option string) : Prop :=
  ∃ event_id n, key = Some (chunk_key (reconcile_stem event_id) n).

(** What a writer leaves of the table: facts are only added, a row once gone
    stays gone, and a recorded copy of a content-bearing fact stays recorded or
    its erasure is asked for. *)
Record keeping (t t' : otables) : Prop := Keeping {
  kp_ok : table_ok t';
  kp_history id f : ot_history t !! id = Some f → ot_history t' !! id = Some f;
  kp_new id f : ot_history t' !! id = Some f →
    ot_history t !! id = Some f ∨ ¬ is_reconcile_key (ft_deduplication_key f);
  kp_gone id f : ot_history t !! id = Some f → ot_rows t !! id = None → ot_rows t' !! id = None;
  kp_recorded id f d owner (s : N) : ot_rows t !! id = Some (f, d) →
    content_bearing f → owner_of_fact f = Some owner →
    Z.of_N s ∈ dl_published_stream_seqs d →
    (∃ d', ot_rows t' !! id = Some (f, d') ∧ Z.of_N s ∈ dl_published_stream_seqs d') ∨
    asked t' owner s;
}.

Definition keeps (t t' : otables) : Prop := table_ok t → keeping t t'.

(** A step of another writer of the pump's table. *)
Record evolution (t t' : otables) : Prop := Evolution {
  ev_keeping : keeping t t';
  ev_unique : events_unique t';
}.

Definition evolves (t t' : otables) : Prop := table_ok t → events_unique t → evolution t t'.

Lemma asked_history t t' owner s :
  (∀ id f, ot_history t !! id = Some f → ot_history t' !! id = Some f) →
  asked t owner s → asked t' owner s.
Proof. intros H (id & f & l & ? & ?). exists id, f, l. eauto. Qed.

#[export] Instance keeps_preorder : PreOrder keeps.
Proof.
  clear event_of.
  split; [intros t Ht; constructor; naive_solver|].
  intros a b c H1 H2 Ha. destruct (H1 Ha) as [ob hb nb gb rb].
  destruct (H2 ob) as [oc hc nc gc rc]. constructor; eauto.
  - intros id f Hf. destruct (nc id f Hf) as [Hb|Hn]; [by apply nb|by right].
  - intros id f d owner s Hrow Hc Ho Hs.
    destruct (rb _ _ _ _ _ Hrow Hc Ho Hs) as [(d' & Hrow' & Hs')|Hask]; [by eapply rc|].
    right. by eapply asked_history.
Qed.

#[export] Instance evolves_preorder : PreOrder evolves.
Proof.
  split; [intros t Ht Hu; split; [by apply keeps_preorder|done]|].
  intros a b c H1 H2 Ha Hu. destruct (H1 Ha Hu) as [Hk Hub].
  destruct (H2 (kp_ok _ _ Hk) Hub) as [Hk' Huc]. split; [|done].
  destruct keeps_preorder as [_ Htr]. refine (Htr a b c _ _ Ha); by intros _.
Qed.

(** *** Adding facts *)

Lemma gained_keeps K t t' :
  (∀ f, K f → ¬ is_reconcile_key (ft_deduplication_key f)) → gained K t t' → keeps t t'.
Proof.
  intros HK Hg Ht. destruct (Hg Ht) as [ok rows hist new gone]. constructor; eauto.
  intros id f [|[_ ?%HK]]%new; auto.
Qed.

Lemma gained_evolves K t t' :
  (∀ f, K f → ¬ content_bearing f ∧ ¬ is_reconcile_key (ft_deduplication_key f)) →
  gained K t t' → evolves t t'.
Proof.
  intros HK Hg Ht Hu. split; [by eapply gained_keeps; [intros f [_ ?]%HK| |]|].
  destruct (Hg Ht) as [ok rows hist new gone].
  intros i j f g e Hf Hg' Cf Cg Ef Eg. apply new in Hf as [Hf|[_ [? _]%HK]]; [|done].
  apply new in Hg' as [Hg'|[_ [? _]%HK]]; [|done]. by eapply Hu.
Qed.

Lemma command_not_content f :
  ft_event_type f = STREAM_ERASURE_COMMAND → ¬ content_bearing f.
Proof. unfold content_bearing. by intros ->. Qed.

Lemma delivers_evolves t t' : delivers t t' → evolves t t'.
Proof.
  intros (Hh & Hn & Hnone & Hrow) Ht Hu. split; [|unfold events_unique; by rewrite Hh]. constructor.
  - constructor; rewrite Hh, ?Hn; [|by apply Ht]. intros id row Hid.
    destruct (ot_rows t !! id) as [[f d]|] eqn:E; [|apply Hnone in E; congruence].
    destruct (Hrow _ _ _ E) as (d' & E' & _). rewrite E' in Hid. simplify_eq.
    by apply (to_rows _ Ht) in E.
  - by rewrite Hh.
  - rewrite Hh. auto.
  - intros id f _ H. by apply Hnone.
  - intros id f d owner s (d' & ? & ?)%Hrow _ _ Hs. left. exists d'. auto.
Qed.

End rely.

(** ** The commands that were queued *)

Section laws.
Context {wire : Type}.
Context (request_ok : string → bool) (producer_ok : bool) (owner_ok : string → bool).
Context (render : json → string).
Context (erasure_document : erasure_command (wire := wire) → result enqueue_error json).
(** What the commands name is what they were built from. *)
Context (names : json → option (string * list N)).
Context (names_document : ∀ c doc, erasure_document c = Ok doc →
  names doc = Some (ec_owner c, ec_stream_sequences c)).

#[local] Abbreviation asked := (asked names).
#[local] Abbreviation enqueue_chunks := (enqueue_chunks erasure_document).
#[local] Abbreviation enqueue_owner_erasure :=
  (enqueue_owner_erasure request_ok producer_ok owner_ok erasure_document).

(** The commands of [e] for the chunks [l], numbered from [index]. *)
Definition commands_of (e : owner_erasure (wire := wire)) (index : nat) (l : list (list N)) (f : fact) : Prop :=
  ft_event_type f = STREAM_ERASURE_COMMAND ∧
  ∃ n chunk, l !! n = Some chunk ∧
    ft_deduplication_key f = Some (chunk_key (oe_key_stem e) (index + n)) ∧
    names (ft_payload f) = Some (oe_owner e, chunk).

(** A live row holds the key. *)
Definition keyed (key : string) (t : otables) : Prop :=
  ∃ id row, ot_rows t !! id = Some row ∧ ft_deduplication_key row.1 = Some key.

Lemma keyed_gained K key t t' : table_ok t → gained K t t' → keyed key t → keyed key t'.
Proof. intros Ht [? Hr ? ? ?]%(λ H, H Ht) (id & row & ? & ?). exists id, row. auto. Qed.

Lemma enqueue_chunks_spec e (l : list (list N)) : ∀ index w r w', enqueue_chunks e index l w = (r, w') →
  inside (gained (commands_of e index l)) w w' ∧
  (r = Ok tt → table_ok (w_tables w) →
   ∀ n, n < length l → keyed (chunk_key (oe_key_stem e) (index + n)) (w_tables w')).
Proof.
  induction l as [|chunk l IH]; intros index w r w' H.
  { injection H as <- <-. split; [reflexivity|]. simpl. lia. }
  cbn [StreamErasure.enqueue_chunks] in H.
  apply sbind_inv in H as [(id & w1 & [= <- <-] & H)|(e' & [=] & _)].
  set (w1 := World _ _ _) in *.
  assert (H1 : inside (gained (commands_of e index (chunk :: l))) w w1) by by split_and!.
  apply sbind_inv in H as [(doc & w2 & [= Hdoc <-] & H)|(e' & [= _ <-] & ->)]; [|by split; [exact H1|]].
  apply sbind_inv in H as [(added & w3 & H3 & H)|(e' & H3 & ->)].
  2:{ split; [|done]. etrans; [exact H1|]. unfold smap_err in H3.
      destruct (statement _ _) as [[added|x] w3] eqn:E; simplify_eq.
      apply statement_inv in E as (? & ? & E). split_and!; [done..|]. by rewrite E. }
  apply smap_err_Ok_inv, statement_inv in H3 as (Hd & Ho & Hi). cbn beta in Hi.
  assert (Kf : commands_of e index (chunk :: l) (command_fact e (w_mint w) doc index (ot_now (w_tables w1)))).
  { split; [done|]. exists 0, chunk. rewrite Nat.add_0_r. split_and!; [done..|].
    by apply names_document in Hdoc. }
  pose proof (insert_fact_gained _ _ _ _ _ Hi Kf) as Hg.
  apply IH in H as [Hin Hk].
  assert (Hin' : inside (gained (commands_of e index (chunk :: l))) w3 w').
  { destruct Hin as (? & ? & Hin). split_and!; [done..|]. eapply gained_mono; [|exact Hin].
    intros f [? (n & c & ? & ? & ?)]. split; [done|]. exists (S n), c.
    by rewrite Nat.add_succ_r. }
  split; [etrans; [exact H1|]; etrans; [|exact Hin']; by split_and!|].
  intros -> Ht [|n] Hn.
  - rewrite Nat.add_0_r. eapply keyed_gained; [|apply Hin'|].
    + by apply Hg.
    + by eapply insert_fact_keyed.
  - rewrite Nat.add_succ_r. apply (Hk eq_refl); [by apply Hg|simpl in Hn; lia].
Qed.

Definition command_chunks (e : owner_erasure (wire := wire)) : list (list N) :=
  chunks MAX_SEQUENCES_PER_COMMAND (default [] (mapM to_u64 (bt_keys (oe_sequences e)))).

Lemma enqueue_owner_spec e w r w' : enqueue_owner_erasure e w = (r, w') →
  inside (gained (commands_of e 0 (command_chunks e))) w w' ∧
  (r = Ok tt → table_ok (w_tables w) →
   is_Some (mapM to_u64 (bt_keys (oe_sequences e))) ∧
   ∀ n, n < length (command_chunks e) → keyed (chunk_key (oe_key_stem e) n) (w_tables w')).
Proof.
  unfold StreamErasure.enqueue_owner_erasure, command_chunks.
  destruct (negb _); [intros [= <- <-]; by split; [reflexivity|]|].
  intros H. apply sbind_inv in H as [(l & w1 & [= Hl <-] & H)|(e' & [= _ <-] & ->)];
    [|by split; [reflexivity|]].
  destruct (mapM _ _) as [k|]; [|done]. injection Hl as ->. cbn [default].
  apply enqueue_chunks_spec in H as [Hin Hk]. split; [done|]. intros Hr Ht.
  split; [eauto|]. intros n Hn. by apply (Hk Hr Ht).
Qed.

Lemma mapM_to_u64 l k (s : N) : mapM to_u64 l = Some k → Z.of_N s ∈ l → s ∈ k.
Proof.
  intros H%mapM_Some (i & Hi)%list_elem_of_lookup.
  destruct (Forall2_lookup_l _ _ _ _ _ H Hi) as (n & Hn & E).
  unfold to_u64 in E. destruct (Z.ltb_spec (Z.of_N s) 0); [lia|]. simplify_eq.
  rewrite N2Z.id in Hn. by eapply list_elem_of_lookup_2.
Qed.

(** A queued erasure names every sequence, once rows that hold its keys
    already name the same chunks. *)
Lemma enqueue_asks e w w' (s : N) :
  enqueue_owner_erasure e w = (Ok tt, w') → table_ok (w_tables w) →
  (∀ id row n, ot_rows (w_tables w) !! id = Some row →
     ft_deduplication_key row.1 = Some (chunk_key (oe_key_stem e) n) →
     commands_of e 0 (command_chunks e) row.1) →
  Z.of_N s ∈ bt_keys (oe_sequences e) → asked (w_tables w') (oe_owner e) s.
Proof.
  intros H Ht Hold Hs. apply enqueue_owner_spec in H as [(_ & _ & Hg) Hk].
  destruct (Hk eq_refl Ht) as [[l Hl] Hkeyed]. specialize (Hg Ht).
  pose proof (mapM_to_u64 _ _ _ Hl Hs) as Hin.
  apply (chunks_elem MAX_SEQUENCES_PER_COMMAND) in Hin as (n & chunk & Hn & Hin); [|done].
  assert (Hc : command_chunks e !! n = Some chunk) by (unfold command_chunks; by rewrite Hl).
  destruct (Hkeyed n) as (id & row & Hrow & Hkey); [by eapply lookup_lt_Some|].
  assert (K : commands_of e 0 (command_chunks e) row.1).
  { apply (gained_row _ _ _ _ _ (λ _, Hg) Ht) in Hrow as [Hrow|K]; [by eapply Hold|done]. }
  destruct K as (Htype & m & chunk' & Hm & Hkey' & Hnames). rewrite Hkey in Hkey'.
  injection Hkey' as [_ <-]%chunk_key_inj. assert (chunk' = chunk) as -> by congruence.
  exists id, row.1, chunk. split_and!; [|done..]. by apply Hg.
Qed.

(** *** Dropping rows and queueing their erasure *)

Lemma insert_copies_spec rows :
  let facts := foldl insert_copy [] rows in
  bt_wf facts ∧
  ∀ owner z, (owner, z) ∈ rows → ∃ sequences, bt_get owner facts = Some sequences ∧ z ∈ bt_keys sequences.
Proof.
  cbv zeta. assert (Hgen : let facts := foldl insert_copy [] rows in bt_wf facts ∧
    (∀ owner sequences, bt_get owner facts = Some sequences → bt_wf sequences) ∧
    ∀ owner z, (owner, z) ∈ rows → ∃ sequences, bt_get owner facts = Some sequences ∧ z ∈ bt_keys sequences);
    [|by destruct Hgen as (? & _ & ?)].
  induction rows as [|[o z] rows IH] using rev_ind.
  { split_and!; [constructor|done|by intros ?? ?%not_elem_of_nil]. }
  cbv zeta in IH. destruct IH as (Hwf & Hsub & Hin). rewrite foldl_app. cbn [foldl].
  set (facts := foldl insert_copy [] rows) in *.
  assert (Hset : bt_wf (default [] (bt_get o facts))).
  { destruct (bt_get o facts) eqn:E; [by eapply Hsub|constructor]. }
  assert (Hget : ∀ owner, bt_get owner (insert_copy facts (o, z)) =
    if decide (o = owner) then Some (bset_insert z (default [] (bt_get o facts)))
    else bt_get owner facts).
  { intros owner. unfold insert_copy. by rewrite (bt_get_upd o owner _ facts Hwf). }
  split_and!; [by apply bt_upd_wf| |].
  - intros owner sequences. rewrite Hget. case_decide; [|apply Hsub].
    intros [= <-]. by apply bt_insert_wf.
  - intros owner y. rewrite elem_of_app, list_elem_of_singleton, Hget. intros [Hy|[= -> ->]].
    + apply Hin in Hy as (sequences & E & Hy). case_decide as Ho; [subst|by eauto].
      eexists. split; [done|]. apply bset_insert_keys; [done|]. right. by rewrite E.
    + rewrite decide_True by done. eexists. split; [done|].
      apply bset_insert_keys; [done|]. by left.
Qed.

#[local] Abbreviation enqueue_erasure_commands :=
  (enqueue_erasure_commands request_ok producer_ok owner_ok erasure_document).

(** The commands a deletion queues for some of the [owners]. *)
Definition deletion_commands (request_id : string) (owners : list string) (f : fact) : Prop :=
  ft_event_type f = STREAM_ERASURE_COMMAND ∧
  ∃ owner n, owner ∈ owners ∧
    ft_deduplication_key f = Some (chunk_key (deletion_stem request_id owner) n).

(** No live row holds a key of this deletion for an owner of [owners]. *)
Definition unissued (request_id : string) (owners : list string) (t : otables) : Prop :=
  ∀ owner n, owner ∈ owners → ¬ keyed (chunk_key (deletion_stem request_id owner) n) t.

Lemma commands_of_deletion durable request_id at' owner sequences k l f :
  commands_of (OwnerErasure owner sequences request_id durable k at' (deletion_stem request_id owner)) 0 l f →
  deletion_commands request_id [owner] f.
Proof. intros (? & n & chunk & ? & ? & ?). split; [done|]. exists owner, n. set_solver. Qed.

Lemma unissued_gained request_id owner owners t t' :
  owner ∉ owners → table_ok t → gained (deletion_commands request_id [owner]) t t' →
  unissued request_id owners t → unissued request_id owners t'.
Proof.
  intros Hnew Ht Hg Hun o n Ho (id & row & Hrow & Hkey).
  apply (gained_row _ _ _ _ _ Hg Ht) in Hrow as [Hrow|(_ & o' & n' & Ho' & Hkey')].
  - eapply Hun; [exact Ho|]. by exists id, row.
  - rewrite Hkey in Hkey'.
    apply (inj Some), chunk_key_inj in Hkey' as [->%deletion_stem_inj _]. set_solver.
Qed.

Lemma enqueue_erasure_commands_spec durable request_id at' facts : ∀ w r w',
  enqueue_erasure_commands durable request_id at' facts w = (r, w') →
  inside (gained (deletion_commands request_id facts.*1)) w w' ∧
  (r = Ok tt → table_ok (w_tables w) → NoDup facts.*1 →
   unissued request_id facts.*1 (w_tables w) →
   ∀ owner sequences (s : N), (owner, sequences) ∈ facts → Z.of_N s ∈ bt_keys sequences →
   asked (w_tables w') owner s).
Proof.
  induction facts as [|[o seqs] facts IH]; intros w r w' H.
  { injection H as <- <-. split; [reflexivity|]. by intros ???? ??? ?%not_elem_of_nil. }
  cbn [StreamErasure.enqueue_erasure_commands] in H.
  set (e := OwnerErasure _ _ _ _ _ _ _) in H.
  assert (Hone : ∀ x w1, enqueue_owner_erasure e w = (x, w1) →
    inside (gained (deletion_commands request_id [o])) w w1).
  { intros x w1 [(? & ? & Hg) _]%enqueue_owner_spec. split_and!; [done..|].
    eapply gained_mono; [|exact Hg]. intros f. apply commands_of_deletion. }
  assert (Hwide : ∀ owners owners' w w', owners ⊆ owners' →
    inside (gained (deletion_commands request_id owners)) w w' →
    inside (gained (deletion_commands request_id owners')) w w').
  { intros owners owners' u u' Hsub (? & ? & Hg). split_and!; [done..|].
    eapply gained_mono; [|exact Hg]. intros f (? & o' & n & ? & ?). split; [done|]. exists o', n. auto. }
  cbn [fmap list_fmap fst]. apply sbind_inv in H as [([] & w1 & H1 & H)|(e' & H1 & ->)].
  2:{ split; [|done]. unfold smap_err in H1.
      destruct (enqueue_owner_erasure e w) as [x w1] eqn:E. simplify_eq.
      eapply Hwide; [|by eapply Hone]. set_solver. }
  apply smap_err_Ok_inv in H1. pose proof (Hone _ _ H1) as Hin1. pose proof Hin1 as (_ & _ & Hg1).
  apply IH in H as [Hin2 Hask]. split.
  { etrans; (eapply Hwide; [|eassumption]); set_solver. }
  intros -> Ht [Hnew Hnd]%NoDup_cons Hun owner sequences s Hin Hs.
  apply elem_of_cons in Hin as [[= -> ->]|Hin].
  - eapply asked_history; [|eapply (enqueue_asks e _ _ _ H1 Ht); [|exact Hs]].
    + by apply Hin2, Hg1.
    + intros id row n Hrow Hkey. exfalso. eapply Hun; [by left|]. exists id, row. eauto.
  - eapply Hask; [done|by apply Hg1|done| |done|done].
    eapply unissued_gained; [exact Hnew|done|exact Hg1|]. intros o' n Ho'. apply Hun. by right.
Qed.

(** The rows a deletion drops are gone, and every recorded copy of theirs is
    asked for; facts [K] may be queued in between. *)
Lemma drop_enqueue_spec K durable request_id ids exports at' t rows t1 w w' :
  delete_rows render ids exports t = Ok (rows, t1) → gained K t1 (w_tables w) →
  (∀ f owner n, K f → ¬ is_reconcile_key (ft_deduplication_key f) ∧
     ft_deduplication_key f ≠ Some (chunk_key (deletion_stem request_id owner) n)) →
  enqueue_erasure_commands durable request_id at' (foldl insert_copy [] rows) w = (Ok tt, w') →
  is_uuid request_id → (∀ owners, unissued request_id owners t) → table_ok t →
  keeping names t (w_tables w') ∧
  ∀ id row, ot_rows t !! id = Some row → is_dropped ids exports (id, row) = true →
    ot_rows (w_tables w') !! id = None.
Proof.
  unfold delete_rows. intros [= <- <-] HK Kkeys H Hid Hun Ht.
  set (rows := _ ≫= _) in *. apply enqueue_erasure_commands_spec in H as [(_ & _ & Hg) Hask].
  set (t1 := set_rows _ t) in *.
  assert (Ht1 : table_ok t1).
  { constructor; cbn; [|by apply Ht]. intros id row [Hrow _]%map_lookup_filter_Some. by apply Ht. }
  assert (Hun1 : ∀ owners, unissued request_id owners (w_tables w)).
  { intros owners o n Ho (id & row & Hrow & Hkey).
    apply (gained_row _ _ _ _ _ HK Ht1) in Hrow as [Hrow|Kf]; [|by apply (Kkeys _ o n) in Kf as [_ []]].
    cbn in Hrow. apply map_lookup_filter_Some in Hrow as [Hrow _]. eapply (Hun owners); [done|]. by exists id, row. }
  destruct (insert_copies_spec rows) as [Hwf Hcopies].
  assert (Hk : keeping names t1 (w_tables w')).
  { assert (keeps names t1 (w_tables w)) as H1.
    { apply (gained_keeps names K); [|exact HK]. intros f Kf. by apply (Kkeys f "" 0) in Kf as [? _]. }
    assert (keeps names (w_tables w) (w_tables w')) as H2.
    { eapply gained_keeps; [|exact Hg]. intros f (_ & o & n & _ & Hkey) (e & j & Hrec). rewrite Hkey in Hrec.
      apply (inj Some) in Hrec. by eapply deletion_not_reconcile. }
    exact (PreOrder_Transitive _ _ _ H1 H2 Ht1). }
  specialize (Hask eq_refl (ga_ok _ _ _ (HK Ht1)) (bt_keys_NoDup _ Hwf) (Hun1 _)).
  destruct Hk as [ok hist new gone rec]. split; [constructor; try done|].
  - intros id f Hf Hnone. apply (gone id f Hf). cbn. apply map_lookup_filter_None. by left.
  - intros id f d owner s Hrow Hc Ho Hs. destruct (is_dropped ids exports (id, (f, d))) eqn:D.
    + right. destruct (Hcopies owner (Z.of_N s)) as (sequences & Hget & Hin).
      { unfold rows. apply list_elem_of_bind. exists (id, (f, d)). split.
        - unfold recorded_copies. cbn [fst snd]. rewrite (sql_text_str _ _ _ _ Ho). unfold content_bearing in Hc. rewrite Hc.
          by apply list_elem_of_fmap_2.
        - apply list_elem_of_filter. split; [done|]. by apply elem_of_map_to_list. }
      apply (Hask owner sequences); [by apply bt_get_elem|done].
    + apply (rec id f d owner s); [|done..]. cbn. by apply map_lookup_filter_Some.
  - intros id row Hrow D. apply (gone id row.1); [by apply Ht|]. cbn.
    apply map_lookup_filter_None. right. intros row' ?. by simplify_eq; rewrite D.
Qed.

Lemma database_now_reads (parse_wire : string → option wire) (pg_render : N → string) w r w' :
  database_now parse_wire pg_render w = (r, w') →
  w_disk w' = w_disk w ∧ w_others w' = w_others w ∧ w_tables w' = w_tables w.
Proof.
  unfold StreamErasure.database_now. intros H.
  apply sbind_inv in H as [(t & w1 & H1 & [= _ <-])|(e & H1 & _)];
    apply statement_inv in H1 as (? & ? & H1); [|done]. by injection H1.
Qed.

Lemma insert_fact_again f key t a t' :
  insert_fact f t = Ok (a, t') → ft_deduplication_key f = Some key → keyed key t → t' = t.
Proof.
  unfold insert_fact. intros H Hf (id & row & Hrow & Hkey).
  destruct (existsb _ _) eqn:E; [by simplify_eq|].
  rewrite Hf in E. apply existsb_false in E. rewrite Forall_forall in E.
  specialize (E (id, row)). cbn in E. unfold has_key in E.
  rewrite bool_decide_eq_true_2 in E by done. by discriminate E; apply elem_of_map_to_list.
Qed.

Lemma enqueue_chunks_again e (l : list (list N)) : ∀ index w r w',
  enqueue_chunks e index l w = (r, w') →
  (∀ n, n < length l → keyed (chunk_key (oe_key_stem e) (index + n)) (w_tables w)) →
  w_tables w' = w_tables w.
Proof.
  induction l as [|chunk l IH]; intros index w r w' H Hk; [by injection H as _ <-|].
  cbn [StreamErasure.enqueue_chunks] in H.
  apply sbind_inv in H as [(id & w1 & [= <- <-] & H)|(e' & [=] & _)].
  apply sbind_inv in H as [(doc & w2 & [= _ <-] & H)|(e' & [= _ <-] & _)]; [|done].
  apply sbind_inv in H as [(added & w3 & H3 & H)|(e' & H3 & _)].
  - apply smap_err_Ok_inv, statement_inv in H3 as (_ & _ & H3). cbn beta in H3.
    eapply insert_fact_again in H3; [|done|].
    + change (w_tables w3 = w_tables w) in H3. rewrite <-H3. apply (IH _ _ _ _ H). rewrite H3. intros n Hn.
      specialize (Hk (S n)). rewrite Nat.add_succ_r in Hk. apply Hk. simpl. lia.
    + specialize (Hk 0). rewrite Nat.add_0_r in Hk. apply Hk. simpl. lia.
  - unfold smap_err in H3. destruct (statement _ _) as [[added|x] w3] eqn:E; simplify_eq.
    by apply statement_inv in E as (_ & _ & E).
Qed.

Lemma mapM_to_u64_exact l k : mapM to_u64 l = Some k → l = Z.of_N <$> k.
Proof.
  intros H%mapM_Some. induction H as [|z n l k Hz _ IH]; [done|]. rewrite fmap_cons, <-IH.
  f_equal. unfold to_u64 in Hz. destruct (Z.ltb_spec z 0); [done|]. simplify_eq. lia.
Qed.

(** The erasure commands of one owner cover its sequences exactly and once.
    When they are queued, the sequences are cut, in ascending order, into
    chunks of one to five hundred; every fact added is the command of one
    chunk under that chunk's key, and a live command holds each key.  Queueing
    the same erasure again changes nothing, whatever it returns. *)
Theorem erasure_commands_exact (e : owner_erasure (wire := wire)) (w w' w'' : world otables)
    (r : result enqueue_error unit) :
  enqueue_owner_erasure e w = (Ok tt, w') → enqueue_owner_erasure e w' = (r, w'') →
  table_ok (w_tables w) →
  ∃ commands, bt_keys (oe_sequences e) = Z.of_N <$> mjoin commands ∧
    Forall (λ chunk, 0 < length chunk <= 500) commands ∧
    (∀ id f, ot_history (w_tables w') !! id = Some f →
       ot_history (w_tables w) !! id = Some f ∨ commands_of e 0 commands f) ∧
    (∀ n, n < length commands → keyed (chunk_key (oe_key_stem e) n) (w_tables w')) ∧
    w_tables w'' = w_tables w'.
Proof.
  intros H H2 Ht. pose proof (enqueue_owner_spec _ _ _ _ H) as [(_ & _ & Hg) Hk].
  destruct (Hk eq_refl Ht) as [[l Hl] Hkeyed]. exists (command_chunks e).
  assert (command_chunks e = chunks MAX_SEQUENCES_PER_COMMAND l) as E.
  { unfold command_chunks. by rewrite Hl. }
  split_and!; [| | |done|].
  - rewrite E, chunks_concat by done. by apply mapM_to_u64_exact.
  - rewrite E. by apply chunks_go_lengths.
  - intros id f Hf. destruct (ga_new _ _ _ (Hg Ht) _ _ Hf) as [|[_ ?]]; auto.
  - unfold StreamErasure.enqueue_owner_erasure in H2.
    destruct (negb _); [by injection H2 as _ <-|].
    rewrite Hl in H2. eapply (enqueue_chunks_again e (command_chunks e) 0); [by rewrite E|].
    intros n Hn. by apply Hkeyed.
Qed.

(** An acknowledgement is a step the pump relies on too. *)
Lemma acknowledge_evolves (event_of : fact → option string) event_id owner refused :
  stable (respects (λ x y : snap otables, evolves names event_of x.2 y.2))
    (acknowledge render event_id owner refused).
Proof.
  assert (PreOrder (λ x y : snap otables, evolves names event_of x.2 y.2)).
  { split; [intros x; reflexivity|]. intros x y z ??. by etrans. }
  unfold acknowledge. apply stable_bind; [apply _| |intros n; apply stable_ret; apply _].
  apply stable_auto; [done|]. intros ns t n t' Hup. apply delivers_evolves.
  by apply (update_rows_delivers _ _ _ _ _ Hup).
Qed.
End laws.

(** The commands of a deletion. *)
Definition command_of (request_id : string) (f : fact) : Prop :=
  ft_event_type f = STREAM_ERASURE_COMMAND ∧
  ∃ owner n, ft_deduplication_key f = Some (chunk_key (deletion_stem request_id owner) n).

(** Queueing commands inserts them, and nothing else. *)
Lemma enqueue_erasure_commands_inside {wire : Type} (request_ok : string → bool) (producer_ok : bool)
    (owner_ok : string → bool) (erasure_document : erasure_command (wire := wire) → result enqueue_error json)
    (Q : otables → otables → Prop) `{!PreOrder Q} durable request_id at' facts :
  (∀ f t a t', command_of request_id f → insert_fact f t = Ok (a, t') → Q t t') →
  stable (inside Q)
    (enqueue_erasure_commands request_ok producer_ok owner_ok erasure_document durable request_id at' facts).
Proof.
  intros HQ. induction facts as [|[owner sequences] facts IH]; [apply stable_ret, _|].
  apply stable_bind; [apply _|apply stable_map_err|intros _; exact IH].
  unfold enqueue_owner_erasure. destruct (negb _); [apply stable_fail, _|].
  apply stable_bind; [apply _|apply stable_lift, _|intros l]. generalize 0.
  induction (chunks _ l) as [|chunk ll IHl]; intros index; [apply stable_ret, _|].
  apply stable_bind; [apply _|apply inside_mint, _|intros id].
  apply stable_bind; [apply _|apply stable_lift, _|intros payload].
  apply stable_bind; [apply _| |intros _; apply IHl].
  apply stable_map_err, inside_statement; [apply _|]. intros t a t'. apply HQ.
  split; [done|]. by exists owner, index.
Qed.

(** ** A concrete table *)

Module ErasureWitness.
#[export] Instance fact_eq_dec : EqDecision fact.
Proof. solve_decision. Defined.

Lemma table_ok_by t :
  bool_decide (map_Forall (λ id row, ot_history t !! id = Some row.1) (ot_rows t) ∧
    map_Forall (λ id _, (id < ot_next t)%N) (ot_history t)) = true → table_ok t.
Proof. intros [H1 H2]%bool_decide_eq_true. constructor; [exact H1|exact H2]. Qed.

Lemma events_unique_by event_of t :
  bool_decide (map_Forall (λ i f, map_Forall (λ j g,
    i = j ∨ is_content_bearing (ft_event_type f) = false ∨ event_of f ≠ event_of g) (ot_history t))
    (ot_history t)) = true → events_unique event_of t.
Proof.
  intros H%bool_decide_eq_true i j f g e Hf Hg Cf _ Ef Eg. unfold content_bearing in Cf.
  destruct (H i f Hf j g Hg) as [?|[?|?]]; congruence.
Qed.

Lemma unissued_by request_id owners t :
  bool_decide (map_Forall (λ _ row, ft_deduplication_key row.1 = None) (ot_rows t)) = true →
  unissued request_id owners t.
Proof.
  intros H%bool_decide_eq_true o n _ (id & row & Hrow & Hkey). specialize (H _ _ Hrow). cbn in H. congruence.
Qed.

(** The documents of the contracts crate: an object that can be read back. *)
Definition document (c : erasure_command (wire := string)) : result enqueue_error json :=
  Ok (JObject [("event_type", JString STREAM_ERASURE_COMMAND); ("event_id", JString (pretty (ec_command_id c)));
               ("owner", JString (ec_owner c));
               ("sequences", JArray ((λ n, JNumber (PosInt n)) <$> ec_stream_sequences c))]).

Definition number_of (v : json) : option N :=
  match v with JNumber (PosInt n) => Some n | _ => None end.

Definition names (v : json) : option (string * list N) :=
  l ← as_object v; owner ← obj_get "owner" l ≫= as_str;
  match obj_get "sequences" l with Some (JArray seqs) => Some (owner, omap number_of seqs) | _ => None end.

Lemma names_document c doc : document c = Ok doc → names doc = Some (ec_owner c, ec_stream_sequences c).
Proof.
  intros [= <-]. unfold names. cbn. do 2 f_equal. induction (ec_stream_sequences c); [done|].
  cbn in *. by f_equal.
Qed.

(** Two content-bearing facts, the first published twice. *)
Definition first_event : string := "00000000-0000-7000-8000-000000000001".
Definition second_event : string := "00000000-0000-7000-8000-000000000002".
Definition envelope (event_id owner : string) : json :=
  JObject [("event_type", JString "ai_archive.conversation.added.v1");
           ("event_id", JString event_id); ("tenant_id", JString owner)].
Definition added (event_id owner : string) : fact :=
  Fact "ai_archive.conversation.added.v1" "aggregate" (Some "account") None
    (envelope event_id owner) None None 90.
Definition event_id_of (f : fact) : option string := get_str "event_id" (ft_payload f).

Definition table : otables :=
  OTables
    {[ 1%N := (added first_event "alice", Delivery (Some 95%N) 0 None 90 None None None 0 None [3%Z; 7%Z]);
       2%N := (added second_event "bob", undelivered 90) ]}
    3 100 {[ 1%N := added first_event "alice"; 2%N := added second_event "bob" ]}.

Definition world_with (t : otables) (faults : list fault) (others : list (snap otables → snap otables))
    : world otables := World (Disk ∅ []) (Database t [] faults others []) 40.

Definition render (v : json) : string := "number".

#[local] Abbreviation enqueue :=
  (enqueue_owner_erasure (λ _, true) true (λ _, true) document).

Definition deletion : durable_request := DurableRequest "account" (Some "correlation").
Definition request : string := "00000000-0000-7000-8000-0000000000aa".

(** A deletion of some rows: they go, and their erasure is asked for. *)
Definition drops (ids : list N) (t : otables) : otables :=
  match delete_rows render ids [] t with
  | Ok (rows, t1) =>
      match enqueue_erasure_commands (λ _, true) true (λ _, true) document deletion request "now"
              (foldl insert_copy [] rows) (world_with t1 [] []) with
      | (Ok _, w) => w_tables w
      | _ => t
      end
  | Err _ => t
  end.

Lemma drops_evolves event_of ids t :
  (∀ owners, unissued request owners t) → evolves names event_of t (drops ids t).
Proof.
  intros Hun. unfold drops. destruct (delete_rows _ _ _ t) as [[rows t1]|] eqn:E; [|reflexivity].
  destruct (enqueue_erasure_commands _ _ _ _ _ _ _ _ _) as [[[]|] w] eqn:H; [|reflexivity].
  intros Ht Hu. split.
  { edestruct (drop_enqueue_spec (λ _, true) true (λ _, true) render document names names_document (λ _, False)) as [Hk _];
      [exact E| |done|exact H|by split|exact Hun|exact Ht|exact Hk]. by apply gained_preorder. }
  apply (enqueue_erasure_commands_spec (λ _, true) true (λ _, true) document names names_document) in H as [(_ & _ & Hg) _].
  apply (gained_evolves names event_of) in Hg.
  - unfold delete_rows in E. injection E as _ <-. apply Hg; [|exact Hu]. constructor; cbn; [|by apply Ht].
    intros id row [Hrow _]%map_lookup_filter_Some. by apply Ht.
  - intros f (Ht' & o & n & _ & Hkey). split; [by apply command_not_content|].
    intros (e & j & Hrec). rewrite Hkey in Hrec. apply (inj Some) in Hrec. by eapply deletion_not_reconcile.
Qed.

Example dropped_rows :
  ot_rows (drops [1%N] table) !! 1%N = None ∧
  (λ row, names (ft_payload row.1)) <$> ot_rows (drops [1%N] table) !! 3%N = Some (Some ("alice", [3%N; 7%N])).
Proof. vm_compute. done. Qed.

Definition erasure : owner_erasure (wire := string) :=
  OwnerErasure "alice" [(3%Z, tt); (7%Z, tt)] request (Some "account") None "now"
    (deletion_stem request "alice").

Lemma erasure_commands_exact_witness :
  w_tables (enqueue erasure (enqueue erasure (world_with table [] [])).2).2 =
  w_tables (enqueue erasure (world_with table [] [])).2.
Proof.
  destruct (erasure_commands_exact (λ _, true) true (λ _, true) document names names_document erasure
    (world_with table [] []) (enqueue erasure (world_with table [] [])).2 _ _ eq_refl
    (surjective_pairing _)) as (commands & _ & _ & _ & _ & H).
  - apply table_ok_by. by vm_compute.
  - exact H.
Defined.
End ErasureWitness.
