(* ===== verification/AckConsumer.v ===== *)
(** * The consumer of deletion acknowledgements ([deletion_ack/consumer.rs],
      [services/chatgpt-archive/src/deletion_acks.rs])

    What one message does, the pull loop over the messages of the durable, and
    the supervision that looks for the durable again until the service stops.
    The broker is a script of what the loop is told next; the envelope and the
    payload of the contracts crate are parameters. *)

From S2P Require Import Prelude Disk BTree Json Postgres OutboxTable StreamErasure.

#[local] Open Scope result_scope.

Definition EVENTS_STREAM : string := "ratatoskr_events".
Definition DURABLE : string := "ratatoskr_chatgpt_deletion_acks".
Definition FILTER_SUBJECT : string := "evt.knowledge.deletion.acknowledged.v1".
(** The only producer an acknowledgement may come from. *)
Definition KNOWLEDGE : string := "ratatoskr-knowledge".
(** In seconds. *)
Definition ACK_WAIT : N := 30.
Definition NAK_DELAY : N := 2.

(** The totals of a session, [u64]s. *)
Record ack_summary : Set := AckSummary {
  as_applied : N;
  as_refused : N;
  as_ignored : N;
  as_terminated : N;
  as_retried : N;
}.

#[global] Instance ack_summary_eq_dec : EqDecision ack_summary.
Proof. solve_decision. Defined.

Definition no_acks : ack_summary := AckSummary 0 0 0 0 0.

Inductive deletion_ack_error : Set := Bus | Stopped.

#[global] Instance deletion_ack_error_eq_dec : EqDecision deletion_ack_error.
Proof. solve_decision. Defined.

(** ** The durable *)

Inductive ack_policy : Set := AckNone | AckAll | AckExplicit.

#[global] Instance ack_policy_eq_dec : EqDecision ack_policy.
Proof. solve_decision. Defined.

(** What the broker says the durable is; [ack_wait] in seconds. *)
Record consumer_config : Set := ConsumerConfig {
  cc_durable_name : option string;
  cc_filter_subject : string;
  cc_ack_policy : ack_policy;
  cc_ack_wait : N;
  cc_deliver_subject : option string;
}.

Definition verified_consumer (found : result unit consumer_config) : result deletion_ack_error consumer_config :=
  let? config := map_err (λ _, Bus) found in
  if negb (bool_decide (cc_durable_name config = Some DURABLE))
     || negb (String.eqb (cc_filter_subject config) FILTER_SUBJECT)
     || negb (bool_decide (cc_ack_policy config = AckExplicit))
     || negb (cc_ack_wait config =? ACK_WAIT)%N
     || bool_decide (is_Some (cc_deliver_subject config))
  then Err Bus
  else Ok config.

(** What the start of a session is told: the seed file, the connection, the
    durable, its stream of messages. *)
Record connecting : Set := Connecting {
  cn_seed : result unit unit;
  cn_client : result unit unit;
  cn_durable : result unit consumer_config;
  cn_messages : result unit unit;
}.

Definition connect (c : connecting) : result deletion_ack_error consumer_config :=
  let? _ := map_err (λ _, Bus) (cn_seed c) in
  let? _ := map_err (λ _, Bus) (cn_client c) in
  let? consumer := verified_consumer (cn_durable c) in
  let? _ := map_err (λ _, Bus) (cn_messages c) in
  Ok consumer.

(** ** A message *)

(** [Handling]; the [AckApplication] is [StreamErasure]'s. *)
Inductive handling : Set := Terminate | Handled (application : ack_application) | Retry.

(** [AckKind], with the delay of a negative answer. *)
Inductive ack_kind : Set := Ack | Nak (delay : N) | Term.

#[global] Instance ack_kind_eq_dec : EqDecision ack_kind.
Proof. solve_decision. Defined.

(** What an acknowledgement says: [DeletionAckOutcome::Refused] or not. *)
Record acknowledgement : Set := Acknowledgement {
  ak_acknowledged_event_id : string;
  ak_owner : string;
  ak_refused : bool;
}.

(** [MessagesErrorKind]; the other kinds are recoverable. *)
Inductive messages_error_kind : Set := ConsumerDeleted | PushBasedConsumer | Recoverable.

(** What the loop is told next. [Shutdown]: the shutdown future is ready, which
    the biased [select!] sees before a message; after a recoverable error it is
    looked for during the pause, with the same answer. *)
Inductive turn : Set :=
| Shutdown
| Closed                                   (* [None] *)
| Broken (kind : messages_error_kind)      (* [Some(Err(_))] *)
| Arrived (payload : string).              (* [Some(Ok(_))] *)

(** What a session has done so far: its totals, and its answer to each message. *)
Record session : Set := Session {
  ss_summary : ack_summary;
  ss_settled : list (string * ack_kind);
}.

(** [+= 1] on a [u64]. *)
Definition incr (n : N) : N := ((n + 1) mod 2 ^ 64)%N.

Section consumer.
(** SQL's text of a JSON value that is not a string. *)
Context (render : json → string).
(** The contracts crate: [EventEnvelope::from_json], the wire name of the type,
    the producer, [payload_as]. *)
Context {envelope : Type} (from_json : string → option envelope).
Context (event_type producer : envelope → string).
Context (payload_as : envelope → option acknowledgement).
Context (ACK_EVENT_TYPE : string).

(** The acknowledgement of a payload, if it is one from Knowledge. *)
Definition acknowledgement_of (payload : string) : option acknowledgement :=
  match from_json payload with
  | None => None
  | Some e =>
      if negb (String.eqb (event_type e) ACK_EVENT_TYPE) || negb (String.eqb (producer e) KNOWLEDGE)
      then None
      else payload_as e
  end.

Definition handle (payload : string) : sm (world otables) Empty_set handling :=
  match acknowledgement_of payload with
  | None => sret Terminate
  | Some a =>
      let! answer := stry (acknowledge render (ak_acknowledged_event_id a) (ak_owner a) (ak_refused a)) in
      sret (match answer with
            | Ok application => Handled application
            | Err _ => Retry
            end)
  end.

Definition counted (h : handling) (s : ack_summary) : ack_summary :=
  let '(AckSummary applied refused ignored terminated retried) := s in
  match h with
  | Terminate => AckSummary applied refused ignored (incr terminated) retried
  | Handled Applied => AckSummary (incr applied) refused ignored terminated retried
  | Handled Refusal => AckSummary applied (incr refused) ignored terminated retried
  | Handled Unmatched => AckSummary applied refused (incr ignored) terminated retried
  | Retry => AckSummary applied refused ignored terminated (incr retried)
  end.

Definition settlement (h : handling) : ack_kind :=
  match h with
  | Terminate => Term
  | Handled _ => Ack
  | Retry => Nak NAK_DELAY
  end.

(** [settle] ignores whether its answer arrived. *)
Definition settled (payload : string) (h : handling) (s : session) : session :=
  Session (counted h (ss_summary s)) (ss_settled s ++ [(payload, settlement h)]).

(** The loop of [run]. At the end of the script nothing more has happened: the
    session is still waiting ([None]). *)
Fixpoint run (turns : list turn) (s : session)
    : sm (world otables) Empty_set (option (result deletion_ack_error ack_summary) * session) :=
  match turns with
  | [] => sret (None, s)
  | Shutdown :: _ => sret (Some (Ok (ss_summary s)), s)
  | Closed :: _ => sret (Some (Err Stopped), s)
  | Broken (ConsumerDeleted | PushBasedConsumer) :: _ => sret (Some (Err Bus), s)
  | Broken Recoverable :: rest => run rest s
  | Arrived payload :: rest =>
      let! h := handle payload in
      run rest (settled payload h s)
  end.

(** ** Supervision ([deletion_acks.rs])

    The flags other tasks read. *)
Record ack_flags : Set := AckFlags {
  af_ready : bool;
  af_failed : bool;
  af_fatal : bool;
}.

(** What one round finds: whether the service is stopping, how connecting goes,
    what the session is told, and whether the service stops in the pause. *)
Record round : Set := Round {
  ro_stopped : bool;
  ro_connect : connecting;
  ro_turns : list turn;
  ro_stopped_in_pause : bool;
}.

(** [true]: the supervision returned. *)
Fixpoint supervise (rounds : list round) (f : ack_flags) : sm (world otables) Empty_set (bool * ack_flags) :=
  match rounds with
  | [] => sret (false, f)
  | r :: rest =>
      if ro_stopped r then sret (true, f)
      else
        match connect (ro_connect r) with
        | Ok _ =>
            let! (outcome, _) := run (ro_turns r) (Session no_acks []) in
            sret (match outcome with
                  | None => (false, AckFlags true (af_failed f) (af_fatal f))
                  | Some (Ok _) => (true, AckFlags false (af_failed f) (af_fatal f))
                  | Some (Err _) => (true, AckFlags false true true)
                  end)
        | Err _ =>
            let f := AckFlags false (af_failed f) (af_fatal f) in
            if ro_stopped_in_pause r then sret (true, f) else supervise rest f
        end
  end.
End consumer.

(** ** What a session does to the tombstones *)

Definition acked (row : outbox_row) : Prop := dl_acknowledged_at row.2 ≠ None.

(** The tombstone an acknowledgement is about. *)
Definition names_fact (render : json → string) (a : acknowledgement) (f : fact) : Prop :=
  ft_event_type f = TOMBSTONE_EVENT_TYPE ∧
  sql_text render "event_id" (ft_payload f) = Some (ak_acknowledged_event_id a) ∧
  sql_text render "tenant_id" (ft_payload f) = Some (ak_owner a).

(** Facts stay what they were, what is acknowledged stays so, and only rows
    [named] are acknowledged anew. *)
Record acking (named : fact → Prop) (t t' : otables) : Prop := Acking {
  ag_ok : table_ok t';
  ag_history id f : ot_history t !! id = Some f → ot_history t' !! id = Some f;
  ag_gone id f : ot_history t !! id = Some f → ot_rows t !! id = None → ot_rows t' !! id = None;
  ag_kept id row row' : ot_rows t !! id = Some row → ot_rows t' !! id = Some row' →
    row'.1 = row.1 ∧ (acked row → acked row');
  ag_named id row' : ot_rows t' !! id = Some row' → acked row' →
    (∃ row, ot_rows t !! id = Some row ∧ acked row) ∨ named row'.1;
}.

Definition acks (named : fact → Prop) (t t' : otables) : Prop := table_ok t → acking named t t'.

(** Other processes acknowledge nothing. *)
Abbreviation acks_nothing := (λ x y : snap otables, acks (λ _, False) x.2 y.2).

Lemma acks_weaken (P Q : fact → Prop) t t' : (∀ f, P f → Q f) → acks P t t' → acks Q t t'.
Proof. intros HPQ H [? ? ? ? Hn]%H. split; eauto. intros id row' H1 H2. destruct (Hn id row' H1 H2); auto. Qed.

#[export] Instance acks_preorder named : PreOrder (acks named).
Proof.
  split.
  - intros t Ht. split; [done..|naive_solver|eauto].
  - intros a b c Hab Hbc Ha. destruct (Hab Ha) as [Hb Hh Hg Hk Hn].
    destruct (Hbc Hb) as [Hc Hh' Hg' Hk' Hn'].
    assert (∀ id row row'', ot_rows a !! id = Some row → ot_rows c !! id = Some row'' →
      ∃ row', ot_rows b !! id = Some row') as Hmid.
    { intros id row row'' H1 H2. destruct (ot_rows b !! id) as [row'|] eqn:E; [by eauto|].
      apply (to_rows a Ha), Hh in H1. rewrite (Hg' _ _ H1 E) in H2. done. }
    split; [done|by eauto|by eauto| |].
    + intros id row row'' H1 H2. destruct (Hmid _ _ _ H1 H2) as [row' H3].
      destruct (Hk' _ _ _ H3 H2) as [-> ?], (Hk _ _ _ H1 H3) as [-> ?]. auto.
    + intros id row'' H2 H4. destruct (Hn' _ _ H2 H4) as [(row' & H3 & H5)|?]; [|by right].
      destruct (Hn _ _ H3 H5) as [?|Hnamed]; [by left|right].
      destruct (Hk' _ _ _ H3 H2) as [Hf _]. by rewrite Hf.
Qed.

#[export] Instance acks_nothing_preorder : PreOrder acks_nothing.
Proof. split; [intros x; reflexivity|intros x y z; apply transitivity]. Qed.

Section session_laws.
Context (render : json → string).
Context {envelope : Type} (from_json : string → option envelope).
Context (event_type producer : envelope → string).
Context (payload_as : envelope → option acknowledgement).
Context (ACK_EVENT_TYPE : string).

#[local] Abbreviation acknowledgement_of :=
  (acknowledgement_of from_json event_type producer payload_as ACK_EVENT_TYPE).
#[local] Abbreviation handle := (handle render from_json event_type producer payload_as ACK_EVENT_TYPE).
#[local] Abbreviation run := (run render from_json event_type producer payload_as ACK_EVENT_TYPE).
#[local] Abbreviation names_fact := (names_fact render).

(** The fact is named by the acknowledgement in the payload. *)
Definition named_by (p : string) (f : fact) : Prop :=
  ∃ a, acknowledgement_of p = Some a ∧ names_fact a f.

Lemma is_acknowledged_by_spec a row :
  is_acknowledged_by render (ak_acknowledged_event_id a) (ak_owner a) row = true ↔
  names_fact a row.1 ∧ ¬ acked row.
Proof.
  unfold is_acknowledged_by, AckConsumer.names_fact, acked. rewrite !andb_true_iff, !bool_decide_eq_true, String.eqb_eq.
  destruct (dl_acknowledged_at row.2); cbn; naive_solver congruence.
Qed.

(** The statement acknowledges every row it names, and no other. *)
Lemma acknowledge_rows a r t n t' :
  update_rows (is_acknowledged_by render (ak_acknowledged_event_id a) (ak_owner a)) (acknowledged r) t = Ok (n, t') →
  acks (names_fact a) t t' ∧
  ∀ id row, ot_rows t' !! id = Some row → names_fact a row.1 → acked row.
Proof.
  intros [= <- <-]. cbn.
  set (hit := is_acknowledged_by _ _ _). set (up := λ row : outbox_row, _).
  assert (Hfst : ∀ row, (up row).1 = row.1) by (intros row; unfold up; by case_match).
  assert (Hup : ∀ row, acked row → acked (up row)) by (intros row; unfold up; by case_match).
  assert (Hnew : ∀ row, acked (up row) → acked row ∨ names_fact a row.1).
  { intros row. unfold up. case_match eqn:E; [|by left]. apply is_acknowledged_by_spec in E as [? _]. by right. }
  assert (Hall : ∀ row, names_fact a row.1 → acked (up row)).
  { intros row Hn. unfold up. case_match eqn:E; [done|]. destruct (decide (dl_acknowledged_at row.2 = None)) as [H|H]; [|done].
    apply not_true_iff_false in E. destruct E. apply is_acknowledged_by_spec. unfold acked. naive_solver. }
  split.
  - intros Ht. split; cbn; [split; cbn|done|..].
    + intros id row. rewrite lookup_fmap. intros (row0 & H & ->)%fmap_Some_1. rewrite Hfst. by apply Ht.
    + apply Ht.
    + intros id f _ H. by rewrite lookup_fmap, H.
    + intros id row row'. rewrite lookup_fmap. intros H. rewrite H. intros [= <-]. split; [done|]. apply Hup.
    + intros id row'. rewrite lookup_fmap. intros (row & H & ->)%fmap_Some_1 [?|?]%Hnew; [by eauto|].
      right. by rewrite Hfst.
  - intros id row'. rewrite lookup_fmap. intros (row & H & ->)%fmap_Some_1. rewrite Hfst. apply Hall.
Qed.

#[local] Abbreviation calm := (others_ok acks_nothing).

(** The update as a statement of its own, among other processes. *)
Lemma acknowledge_alone a w r w' :
  acknowledge render (ak_acknowledged_event_id a) (ak_owner a) (ak_refused a) w = (r, w') → calm w →
  calm w' ∧ acks (names_fact a) (w_tables w) (w_tables w') ∧
  (is_ok r = true → ∀ id row, ot_rows (w_tables w') !! id = Some row → names_fact a row.1 → acked row).
Proof.
  unfold acknowledge, sbind, auto. intros H Hw.
  destruct (interfere_respects acks_nothing w Hw) as [Hv Hothers]. cbn in Hothers.
  set (v := interfere w) in *. set (op := update_rows _ _) in *.
  apply (acks_weaken _ (names_fact a)) in Hothers; [|done].
  destruct (op (w_tables v)) as [[n t]|e] eqn:E; [|done].
  apply acknowledge_rows in E as [Hacks Hall].
  destruct (next_fault v); unfold sret in H; cbn in H; simplify_eq; (split; [exact Hv|]); cbn;
    (split; [first [exact Hothers|by etrans]|]); intros Hr; first [done|exact Hall].
Qed.

(** One message: what it may change, and what it changed when it is
    acknowledged to the broker. *)
Lemma handle_served p w r w' :
  handle p w = (r, w') → calm w →
  ∃ h, r = Ok h ∧ calm w' ∧ acks (named_by p) (w_tables w) (w_tables w') ∧
    (h = Terminate ↔ acknowledgement_of p = None) ∧
    ∀ a application, acknowledgement_of p = Some a → h = Handled application →
      ∀ id row, ot_rows (w_tables w') !! id = Some row → names_fact a row.1 → acked row.
Proof.
  unfold AckConsumer.handle. destruct (acknowledgement_of p) as [a|] eqn:Ea.
  - unfold sbind, stry. destruct (acknowledge _ _ _ _ w) as [x u] eqn:Eu. cbn.
    intros [= <- <-] Hw. destruct (acknowledge_alone a w x u Eu Hw) as (Hc & Hacks & Hall).
    eexists. split; [done|]. split; [done|]. split.
    { eapply acks_weaken, Hacks. intros f Hf. by exists a. }
    split; [by destruct x|]. intros a' application [= <-] Hx. apply Hall. by destruct x.
  - intros [= <- <-] Hw. exists Terminate. split; [done|]. split; [done|]. split; [reflexivity|]. done.
Qed.

(** The payloads that arrive, in order. *)
Definition payloads (turns : list turn) : list string :=
  omap (λ x, match x with Arrived p => Some p | _ => None end) turns.

Definition settled_with (k : ack_kind) (l : list (string * ack_kind)) : N :=
  N.of_nat (length (filter (λ e : string * ack_kind, e.2 = k) l)).

(** The totals are the numbers of answers of each kind. *)
Definition tallied (s : session) : Prop :=
  let c := ss_summary s in
  as_terminated c = (settled_with Term (ss_settled s) mod 2 ^ 64)%N ∧
  as_retried c = (settled_with (Nak NAK_DELAY) (ss_settled s) mod 2 ^ 64)%N ∧
  ((as_applied c + as_refused c + as_ignored c) mod 2 ^ 64)%N = (settled_with Ack (ss_settled s) mod 2 ^ 64)%N.

Lemma settled_with_snoc k l p k' :
  settled_with k (l ++ [(p, k')]) = (settled_with k l + if decide (k' = k) then 1 else 0)%N.
Proof.
  unfold settled_with. rewrite filter_app, length_app. destruct (decide (k' = k)) as [->|Hk].
  - rewrite filter_cons_True by done. cbn. lia.
  - rewrite filter_cons_False by done. cbn. lia.
Qed.

Lemma incr_mod n : incr (n mod 2 ^ 64) = ((n + 1) mod 2 ^ 64)%N.
Proof. unfold incr. by rewrite N.Div0.add_mod_idemp_l. Qed.

Lemma tallied_settled p h s : tallied s → tallied (settled p h s).
Proof.
  destruct s as [[ap re ig te tr] l]. unfold tallied, settled. cbn [ss_summary ss_settled as_applied as_refused
    as_ignored as_terminated as_retried]. intros (-> & -> & H). rewrite !settled_with_snoc.
  assert (Hi : ∀ x y, ((incr x + y) mod 2 ^ 64 = ((x + y) mod 2 ^ 64 + 1) mod 2 ^ 64)%N).
  { intros x y. unfold incr. rewrite !N.Div0.add_mod_idemp_l. f_equal. lia. }
  destruct h as [|[]|]; cbn [settlement counted as_applied as_refused as_ignored as_terminated as_retried];
    repeat (case_decide; [try done|try done]); rewrite ?N.add_0_r, ?incr_mod; split_and!; try done.
  all: rewrite <-(N.Div0.add_mod_idemp_l (settled_with _ _)), <-H.
  - by rewrite <-!N.add_assoc, Hi.
  - rewrite (N.add_comm ap), <-!N.add_assoc, Hi. do 2 f_equal. f_equal. lia.
  - rewrite (N.add_comm _ (incr ig)), Hi. do 2 f_equal. f_equal. lia.
Qed.

(** What a session that began as [s] on the tables [t] has done when it has
    settled [l] more and the tables are [t']. *)
Record served (l : list (string * ack_kind)) (t t' : otables) : Prop := Served {
  sv_acks : acking (λ f, ∃ p k, (p, k) ∈ l ∧ named_by p f) t t';
  sv_terminated p k : (p, k) ∈ l → k = Term ↔ acknowledgement_of p = None;
  sv_recorded p a id row row' : (p, Ack) ∈ l → acknowledgement_of p = Some a →
    ot_rows t !! id = Some row → ot_rows t' !! id = Some row' → names_fact a row.1 → acked row';
}.

Lemma served_nil t : table_ok t → served [] t t.
Proof. intros Ht. split; [by apply (acks_preorder _)|set_solver|set_solver]. Qed.

(** One message more at the front. *)
Lemma served_cons p k l t u t' :
  acking (named_by p) t u →
  (k = Term ↔ acknowledgement_of p = None) →
  (∀ a, k = Ack → acknowledgement_of p = Some a →
     ∀ id row, ot_rows u !! id = Some row → names_fact a row.1 → acked row) →
  table_ok t → served l u t' → served ((p, k) :: l) t t'.
Proof.
  intros Hu Hk Hall Ht [Hl Hterm Hrec].
  assert (Hmid : ∀ id row row', ot_rows t !! id = Some row → ot_rows t' !! id = Some row' →
    ∃ row0, ot_rows u !! id = Some row0 ∧ row0.1 = row.1 ∧ row'.1 = row0.1 ∧ (acked row0 → acked row')).
  { intros id row row' H1 H2. destruct (ot_rows u !! id) as [row0|] eqn:E.
    - exists row0. destruct (ag_kept _ _ _ Hu _ _ _ H1 E), (ag_kept _ _ _ Hl _ _ _ E H2). done.
    - apply (to_rows t Ht), (ag_history _ _ _ Hu) in H1. by rewrite (ag_gone _ _ _ Hl _ _ H1 E) in H2. }
  split.
  - assert (Hw : acks (λ f, ∃ p0 k0, (p0, k0) ∈ (p, k) :: l ∧ named_by p0 f) t t'); [|by apply Hw].
    transitivity u; (eapply acks_weaken; [|intros _; eassumption]); [|].
    + intros f Hf. exists p, k. split; [left|done].
    + intros f (p0 & k0 & Hin & Hf). exists p0, k0. split; [by right|done].
  - intros p0 k0 [[= -> ->]|?]%elem_of_cons; [done|by eapply Hterm].
  - intros p0 a id row row' [[= -> <-]|Hin]%elem_of_cons Ha H1 H2 Hn;
      destruct (Hmid _ _ _ H1 H2) as (row0 & H3 & Hf & _ & Hacked).
    + apply Hacked. eapply Hall; [done..|]. by rewrite Hf.
    + eapply (Hrec p0); [done..|]. by rewrite Hf.
Qed.

(** What the session has answered, in order of arrival. *)
Lemma run_served turns s w r w' :
  run turns s w = (r, w') → calm w → table_ok (w_tables w) → tallied s →
  ∃ outcome s' l, r = Ok (outcome, s') ∧ ss_settled s' = ss_settled s ++ l ∧
    l.*1 `prefix_of` payloads turns ∧ (outcome = None → l.*1 = payloads turns) ∧
    tallied s' ∧ calm w' ∧ served l (w_tables w) (w_tables w').
Proof.
  revert s w. induction turns as [|x turns IH]; intros s w H Hw Ht Hs.
  { injection H as <- <-. exists None, s, []. rewrite app_nil_r. split_and!; eauto using served_nil. }
  assert (Hstop : ∀ o, (Ok (Some o, s), w) = (r, w') →
    ∃ outcome s' l, r = Ok (outcome, s') ∧ ss_settled s' = ss_settled s ++ l ∧
    l.*1 `prefix_of` payloads (x :: turns) ∧ (outcome = None → l.*1 = payloads (x :: turns)) ∧
    tallied s' ∧ calm w' ∧ served l (w_tables w) (w_tables w')).
  { intros o [= <- <-]. exists (Some o), s, []. rewrite app_nil_r. split_and!; try done; eauto using served_nil, prefix_nil. }
  destruct x as [| |[]|p]; cbn [AckConsumer.run] in H; try by eapply Hstop.
  - apply IH in H; done.
  - unfold sbind at 1 in H. destruct (handle p w) as [x u] eqn:Eh.
    destruct (handle_served p w x u Eh Hw) as (h & -> & Hu & Hacks & Hterm & Hall). specialize (Hacks Ht).
    destruct (IH _ _ H Hu (ag_ok _ _ _ Hacks) (tallied_settled p h s Hs))
      as (outcome & s' & l & -> & Hl & Hp & Ho & Hs' & Hw' & Hserved).
    exists outcome, s', ((p, settlement h) :: l). split_and!; try done.
    + rewrite Hl. unfold settled. cbn. by rewrite <-app_assoc.
    + by apply prefix_cons.
    + intros ->. cbn. by rewrite Ho.
    + eapply served_cons; [done| |intros a Ha|done..].
      * rewrite <-Hterm. by destruct h.
      * intros E. destruct h; try done. by eapply Hall.
Qed.

End session_laws.

(** ** Supervision *)

Section supervision_laws.
Context (render : json → string).
Context {envelope : Type} (from_json : string → option envelope).
Context (event_type producer : envelope → string).
Context (payload_as : envelope → option acknowledgement).
Context (ACK_EVENT_TYPE : string).

#[local] Abbreviation supervise := (supervise render from_json event_type producer payload_as ACK_EVENT_TYPE).
#[local] Abbreviation run := (run render from_json event_type producer payload_as ACK_EVENT_TYPE).

(** A durable is used only if it is the one that was provisioned. *)
Lemma connect_spec c config :
  connect c = Ok config ↔
  cn_seed c = Ok tt ∧ cn_client c = Ok tt ∧ cn_messages c = Ok tt ∧ cn_durable c = Ok config ∧
  ∃ wait, config = ConsumerConfig (Some DURABLE) FILTER_SUBJECT AckExplicit wait None ∧ wait = ACK_WAIT.
Proof.
  destruct c as [[[]|] [[]|] [[name subject policy wait deliver]|] [[]|]]; unfold connect, verified_consumer; cbn;
    try (split; [done|naive_solver]).
  all: destruct (bool_decide_reflect (name = Some DURABLE)), (String.eqb_spec subject FILTER_SUBJECT),
    (bool_decide_reflect (policy = AckExplicit)), (N.eqb_spec wait ACK_WAIT), deliver; cbn; naive_solver.
Qed.

(** A session that ends without being asked to stop is reported as a failure
    that stops the service; a supervision that returned is not ready; and it is
    ready only while a session is open. *)
Lemma supervise_flags rounds f w r w' :
  supervise rounds f w = (r, w') → af_ready f = false → af_failed f = af_fatal f →
  ∃ returned f', r = Ok (returned, f') ∧ af_failed f' = af_fatal f' ∧
    (af_ready f' = true → returned = false ∧ ∃ ro config, ro ∈ rounds ∧ connect (ro_connect ro) = Ok config) ∧
    (returned = true → af_ready f' = false) ∧ (af_failed f = false → af_failed f' = true → returned = true).
Proof.
  revert f w. induction rounds as [|ro rounds IH]; intros f w H Hr Hf; cbn [AckConsumer.supervise] in H.
  { injection H as <- <-. exists false, f. split_and!; naive_solver congruence. }
  destruct (ro_stopped ro); [injection H as <- <-; exists true, f; split_and!; naive_solver congruence|].
  destruct (connect (ro_connect ro)) as [config|e] eqn:Ec.
  - unfold sbind in H. destruct (AckConsumer.run _ _ _ _ _ _ _ _ w) as [[[outcome s]|[]] u].
    injection H as <- <-. destruct outcome as [[sum|e]|]; eexists _, _; (split; [done|]); cbn;
      split_and!; try done; try (intros _; split; [done|]; exists ro, config; split; [left|done]); congruence.
  - destruct (ro_stopped_in_pause ro).
    { injection H as <- <-. eexists _, _. split; [done|]. cbn. split_and!; naive_solver congruence. }
    apply IH in H as (returned & f' & -> & ? & Hready & ? & ?); [|done..]. exists returned, f'.
    split_and!; try done. intros (? & ro' & config & ? & ?)%Hready. split; [done|]. exists ro', config. split; [by right|done].
Qed.

(** A round that ends in another attempt. *)
Definition retried (ro : round) : Prop :=
  ro_stopped ro = false ∧ ro_stopped_in_pause ro = false ∧ ∃ e, connect (ro_connect ro) = Err e.

(** The session of the first round that connects ended with an error. *)
Definition session_failed (rounds : list round) (w : world otables) : Prop :=
  ∃ before ro after config e s, rounds = before ++ ro :: after ∧ Forall retried before ∧ ro_stopped ro = false ∧
    connect (ro_connect ro) = Ok config ∧ (run (ro_turns ro) (Session no_acks []) w).1 = Ok (Some (Err e), s).

Lemma session_failed_next (ro : round) (rounds : list round) w :
  session_failed (ro :: rounds) w ↔
  ro_stopped ro = false ∧
  match connect (ro_connect ro) with
  | Ok _ => ∃ e s, (run (ro_turns ro) (Session no_acks []) w).1 = Ok (Some (Err e), s)
  | Err _ => ro_stopped_in_pause ro = false ∧ session_failed rounds w
  end.
Proof.
  split.
  - intros (before & ro' & after & config & e & s & Heq & Hb & Hs & Hc & Hrun). destruct before as [|ro0 before].
    + injection Heq as -> ->. rewrite Hc. eauto.
    + injection Heq as <- ->. apply Forall_cons in Hb as [(H1 & H2 & e' & He) Hb]. rewrite He. split_and!; [done..|].
      exists before, ro', after, config, e, s. by split_and!.
  - intros [Hs H]. destruct (connect (ro_connect ro)) as [config|e0] eqn:Hc.
    + destruct H as (e & s & H). exists [], ro, rounds, config, e, s. by split_and!.
    + destruct H as (Hp & before & ro' & after & config & e & s & -> & Hb & H).
      exists (ro :: before), ro', after, config, e, s. split; [done|]. split; [|done].
      apply Forall_cons. split; [|done]. split_and!; eauto.
Qed.

(** A supervision reports exactly the sessions that failed. *)
Lemma supervise_failed rounds f w r w' :
  supervise rounds f w = (r, w') → af_failed f = false →
  ∃ returned f', r = Ok (returned, f') ∧ (af_failed f' = true ↔ session_failed rounds w).
Proof.
  revert f w. induction rounds as [|ro rounds IH]; intros f w H Hf; cbn [AckConsumer.supervise] in H.
  { injection H as <- <-. exists false, f. split; [done|]. rewrite Hf. split; [done|].
    intros (before & ? & ? & ? & ? & ? & Heq & _). by destruct before. }
  setoid_rewrite session_failed_next. destruct (ro_stopped ro).
  { injection H as <- <-. exists true, f. split; [done|]. rewrite Hf. naive_solver. }
  destruct (connect (ro_connect ro)) as [config|e] eqn:Ec.
  - unfold sbind in H. destruct (AckConsumer.run _ _ _ _ _ _ _ _ w) as [[[outcome s]|[]] u].
    injection H as <- <-. destruct outcome as [[sum|e]|]; eexists _, _; (split; [done|]); cbn; naive_solver congruence.
  - destruct (ro_stopped_in_pause ro).
    { injection H as <- <-. eexists _, _. split; [done|]. cbn. rewrite Hf. naive_solver. }
    apply IH in H as (returned & f' & -> & H); [|done]. exists returned, f'. split; [done|]. rewrite H. naive_solver.
Qed.
End supervision_laws.

(** ** Closed examples *)

Module AckWitness.
Definition alice : acknowledgement := Acknowledgement "event-1" "alice" false.
Definition bob : acknowledgement := Acknowledgement "event-2" "bob" true.

(** The type of an envelope, its producer and what it acknowledges. *)
Definition decode (s : string) : option (string * string * acknowledgement) :=
  if String.eqb s "alice" then Some ("knowledge.deletion.acknowledged.v1", KNOWLEDGE, alice)
  else if String.eqb s "bob" then Some ("knowledge.deletion.acknowledged.v1", KNOWLEDGE, bob)
  else if String.eqb s "forged" then Some ("knowledge.deletion.acknowledged.v1", "ratatoskr-other", alice)
  else None.

Definition tombstone (event_id owner : string) : fact :=
  Fact TOMBSTONE_EVENT_TYPE "aggregate" (Some "account") None
    (JObject [("event_id", JString event_id); ("tenant_id", JString owner)]) None None 90.

Definition sent (now : N) : delivery := Delivery (Some now) 0 None now None None None 0 None [Z.of_N now].

Definition table : otables :=
  OTables {[ 1%N := (tombstone "event-1" "alice", sent 91); 2%N := (tombstone "event-2" "bob", sent 92);
             3%N := (tombstone "event-3" "alice", sent 93) ]}
    4 100 {[ 1%N := tombstone "event-1" "alice"; 2%N := tombstone "event-2" "bob"; 3%N := tombstone "event-3" "alice" ]}.

(** Another process drops the third row meanwhile. *)
Definition drops_third (x : snap otables) : snap otables := (x.1, set_rows (delete 3%N) x.2).

Lemma drops_third_calm x : acks_nothing x (drops_third x).
Proof.
  intros Ht. split; cbn.
  - split; cbn; [|apply Ht]. intros id row [_ H]%lookup_delete_Some. by apply Ht.
  - done.
  - intros id f _ H. by apply lookup_delete_None; right.
  - intros id row row' H [_ H']%lookup_delete_Some. by simplify_eq.
  - intros id row' [_ H']%lookup_delete_Some ?. left. by exists row'.
Qed.

(** The third statement is refused, so bob's message is delivered again. *)
Definition start : world otables :=
  World (Disk ∅ []) (Database table [] [Fine; Refused] [drops_third] []) 40.

Definition turns : list turn :=
  [Arrived "noise"; Arrived "forged"; Arrived "alice"; Arrived "bob"; Broken Recoverable; Arrived "bob";
   Arrived "alice"; Shutdown].

#[local] Abbreviation calm := (others_ok acks_nothing).
#[local] Abbreviation consume := (run (λ _, "") decode (λ e, e.1.1) (λ e, e.1.2) (λ e, Some e.2)
  "knowledge.deletion.acknowledged.v1").

Definition session_end : result Empty_set (option (result deletion_ack_error ack_summary) * session) * world otables :=
  consume turns (Session no_acks []) start.

Lemma session_end_eq : consume turns (Session no_acks []) start = (session_end.1, session_end.2).
Proof. unfold session_end. generalize (consume turns (Session no_acks []) start). by intros []. Qed.

Definition expected (x : result Empty_set (option (result deletion_ack_error ack_summary) * session)) : bool :=
  match x with
  | Ok (Some (Ok summary), s) =>
      bool_decide (summary = AckSummary 1 1 1 2 1) &&
      bool_decide (ss_settled s = [("noise", Term); ("forged", Term); ("alice", Ack); ("bob", Nak 2); ("bob", Ack); ("alice", Ack)])
  | _ => false
  end.

Example expected_holds : expected session_end.1 = true.
Proof. evaluates. Qed.

Lemma row_one_there : ∃ row, ot_rows (w_tables session_end.2) !! 1%N = Some row.
Proof.
  assert (bool_decide (is_Some (ot_rows (w_tables session_end.2) !! 1%N)) = true) as H%bool_decide_eq_true by evaluates.
  exact H.
Qed.

End AckWitness.
