(* ===== verification/Outbox.v ===== *)
(** * The event outbox ([receipt/outbox/])

    The pump: it publishes stored envelopes, records the stream sequence of
    every acknowledgement on the row, carries in memory the ones it could not
    record, and has the copies of rows that disappeared erased. *)

From S2P Require Import Prelude Disk BTree Json Config Postgres OutboxTable StreamErasure.

#[local] Open Scope result_scope.

Definition OPERATION_REPORTED_SUBJECT : string := "evt.ai-archive.chatgpt.operation.reported.v1".
Definition PAYLOAD_HEADROOM_BYTES : N := 1024.
Definition CLASS_PAYLOAD_TOO_LARGE : string := "payload_too_large".
Definition BATCH_SIZE : nat := 32.
Definition MAX_BACKOFF_SECONDS : N := 300.

(** ** Subjects ([subject.rs]) *)

Definition subject_for_event_type (event_type : string) : option string :=
  if String.eqb event_type "platform.operation.reported.v1" then Some OPERATION_REPORTED_SUBJECT
  else if String.eqb event_type "ai_archive.archive.imported.v1" then
    Some "evt.ai_archive.archive.imported.v1"
  else if String.eqb event_type "ai_archive.conversation.added.v1" then
    Some "evt.ai_archive.conversation.added.v1"
  else if String.eqb event_type "ai_archive.conversation.updated.v1" then
    Some "evt.ai_archive.conversation.updated.v1"
  else if String.eqb event_type "ai_archive.project.added.v1" then
    Some "evt.ai_archive.project.added.v1"
  else if String.eqb event_type "ai_archive.project.updated.v1" then
    Some "evt.ai_archive.project.updated.v1"
  else if String.eqb event_type "ai_archive.artifact.added.v1" then
    Some "evt.ai_archive.artifact.added.v1"
  else if String.eqb event_type "ai_archive.artifact.updated.v1" then
    Some "evt.ai_archive.artifact.updated.v1"
  else if String.eqb event_type "ai_archive.subject.tombstoned.v1" then
    Some "evt.ai_archive.subject.tombstoned.v1"
  else if String.eqb event_type "platform.stream_erasure.requested.v1" then
    Some "cmd.platform.stream_erasure.requested.v1"
  else None.

(** ** Errors ([error.rs]) *)

(** [Broker]'s source says whether the client was closed. *)
Inductive publish_error : Set :=
| Broker (closed : bool) | PDatabase | PEncode | UnknownEventType | InvalidRow | MarkLost.

Definition is_closed_connection (e : publish_error) : bool :=
  match e with Broker closed => closed | _ => false end.

Definition is_fatal (e : publish_error) : bool :=
  match e with UnknownEventType | InvalidRow => true | _ => false end.

Definition publish_error_of (e : enqueue_error) : publish_error :=
  match e with Invalid => InvalidRow | EDatabase => PDatabase | EEncode => PEncode end.

(** ** The pump *)

(** [carry.rs] [Carried]; the sequences are a [BTreeSet]. *)
Record carried : Set := Carried {
  ca_owner : string;
  ca_event_id : string;
  ca_account_id : option string;
  ca_sequences : list (Z * unit);
}.

Record candidate : Set := Candidate {
  cd_id : N;
  cd_event_type : string;
  cd_payload : json;
  cd_account_id : option string;
  cd_resend : bool;
}.

(** What the broker answers to one publish: the sequence of the message it
    holds, or no acknowledgement. *)
Inductive answer : Set := Acked (sequence : N) | Unacked (closed : bool).

(** One message handed to the broker.  [sn_row] is the row it came from; only
    the theorems read it. *)
Record sent : Set := Sent {
  sn_row : N;
  sn_subject : string;
  sn_msg_id : string;
  sn_body : string;
  sn_answer : answer;
}.

(** [pm_connection]: the connection and whether its client was closed.  The
    answers of the broker, the outcomes of connecting, the closings the client
    reports and the rows other sessions hold are scheduled. *)
Record pump : Type := Pump {
  pm_world : world otables;
  pm_carry : gmap N carried;
  pm_connection : option bool;
  pm_answers : list answer;
  pm_connects : list bool;
  pm_closings : list bool;
  pm_held : list bool;
  pm_sent : list sent;
}.

Definition set_world (w : world otables) (p : pump) : pump :=
  Pump w (pm_carry p) (pm_connection p) (pm_answers p) (pm_connects p) (pm_closings p) (pm_held p)
    (pm_sent p).
Definition set_carry (c : gmap N carried) (p : pump) : pump :=
  Pump (pm_world p) c (pm_connection p) (pm_answers p) (pm_connects p) (pm_closings p) (pm_held p)
    (pm_sent p).
Definition set_connection (c : option bool) (p : pump) : pump :=
  Pump (pm_world p) (pm_carry p) c (pm_answers p) (pm_connects p) (pm_closings p) (pm_held p)
    (pm_sent p).

#[local] Abbreviation pumping := (sm pump publish_error).

(** A database computation, its error as [PublishError::Database]. *)
Definition in_db {E A} (f : E → publish_error) (c : sm (world otables) E A) : pumping A := λ p,
  let '(r, w) := c (pm_world p) in (map_err f r, set_world w p).

Definition database {E : Type} (e : E) : publish_error := PDatabase.

(** ** Statements *)

(** The candidates' [WHERE]. *)
Definition pending (now : N) (row : outbox_row) : bool :=
  is_null (dl_undeliverable_at row.2)
  && ((is_null (dl_published_at row.2) && (dl_next_attempt_at row.2 <=? now)%N)
      || (String.eqb (ft_event_type row.1) TOMBSTONE_EVENT_TYPE
          && negb (is_null (dl_published_at row.2)) && is_null (dl_acknowledged_at row.2)
          && match dl_next_resend_at row.2 with Some at' => (at' <=? now)%N | None => false end)).

Definition candidate_of (id : N) (row : outbox_row) : candidate :=
  Candidate id (ft_event_type row.1) (ft_payload row.1) (ft_tenant_id row.1)
    (negb (is_null (dl_published_at row.2))).

(** [... ORDER BY id LIMIT 32]. *)
Definition select_pending : sql (list candidate) := λ t,
  Ok (take BATCH_SIZE ((λ r, candidate_of r.1 r.2) <$>
        sort_by (cmp_on (λ r : N * outbox_row, r.1))
          (filter (λ r, pending (ot_now t) r.2 = true) (map_to_list (ot_rows t)))), t).

(** [SELECT id FROM outbox_events WHERE id = ANY($1)]. *)
Definition select_present (ids : list N) : sql (list N) := λ t,
  Ok (filter (λ id, is_Some (ot_rows t !! id)) ids, t).

(** How many tombstones are unacknowledged, and how old the oldest is. *)
Definition select_unacknowledged : sql (N * N) := λ t,
  let rows := filter (λ r : N * outbox_row,
    ft_event_type r.2.1 = TOMBSTONE_EVENT_TYPE ∧ dl_acknowledged_at r.2.2 = None)
    (map_to_list (ot_rows t)) in
  let oldest := foldr (λ r m, N.min (ft_created_at r.2.1) m) (ot_now t) rows in
  Ok ((N.of_nat (length rows), (ot_now t - oldest)%N), t).

(** ** Marks ([marks.rs]) *)

(** [SELECT DISTINCT sequence FROM unnest(a || b) ORDER BY sequence]. *)
Definition merge_sequences (a b : list Z) : list Z := bt_keys (bset_of_list (a ++ b)).

Definition unpublished (row : outbox_row) : bool := is_null (dl_published_at row.2).

Definition published (sequences : list Z) (resend_after : N) (now : N) (row : outbox_row) : delivery :=
  let d := row.2 in
  Delivery (Some now) (dl_attempt_count d) (dl_last_error d) (dl_next_attempt_at d)
    (dl_undeliverable_at d) (dl_acknowledged_at d) (dl_ack_outcome d) (dl_resend_count d)
    (if String.eqb (ft_event_type row.1) TOMBSTONE_EVENT_TYPE then Some (now + resend_after)%N else None)
    (merge_sequences (dl_published_stream_seqs d) sequences).

(** [least($2 * power(2, least(resend_count + 1, 30)), $3)]. *)
Definition resend_wait (resend : tombstone_resend) (resend_count : N) : N :=
  N.min (tr_after resend * 2 ^ N.min (resend_count + 1) 30) (tr_cap resend).

Definition resent (resend : tombstone_resend) (now : N) (row : outbox_row) : delivery :=
  let d := row.2 in
  Delivery (dl_published_at d) (dl_attempt_count d) (dl_last_error d) (dl_next_attempt_at d)
    (dl_undeliverable_at d) (dl_acknowledged_at d) (dl_ack_outcome d) (dl_resend_count d + 1)
    (Some (now + resend_wait resend (dl_resend_count d))%N) (dl_published_stream_seqs d).

(** [least(power(2, least(attempt_count, 8))::int, $2)]. *)
Definition backoff (attempt_count : N) : N :=
  N.min (2 ^ N.min attempt_count 8) MAX_BACKOFF_SECONDS.

Definition resend_failed (now : N) (row : outbox_row) : delivery :=
  let d := row.2 in
  Delivery (dl_published_at d) (dl_attempt_count d + 1) (Some "not_acknowledged")
    (dl_next_attempt_at d) (dl_undeliverable_at d) (dl_acknowledged_at d) (dl_ack_outcome d)
    (dl_resend_count d) (Some (now + backoff (dl_attempt_count d))%N) (dl_published_stream_seqs d).

Definition undeliverable (now : N) (row : outbox_row) : delivery :=
  let d := row.2 in
  Delivery (dl_published_at d) (dl_attempt_count d) (Some CLASS_PAYLOAD_TOO_LARGE)
    (dl_next_attempt_at d) (Some now) (dl_acknowledged_at d) (dl_ack_outcome d)
    (dl_resend_count d) (dl_next_resend_at d) (dl_published_stream_seqs d).

Definition failed (now : N) (row : outbox_row) : delivery :=
  let d := row.2 in
  Delivery (dl_published_at d) (dl_attempt_count d + 1) (Some "not_acknowledged")
    (now + backoff (dl_attempt_count d))%N (dl_undeliverable_at d) (dl_acknowledged_at d)
    (dl_ack_outcome d) (dl_resend_count d) (dl_next_resend_at d) (dl_published_stream_seqs d).

Definition deliverable (row : outbox_row) : bool :=
  is_null (dl_published_at row.2) && is_null (dl_undeliverable_at row.2).
Definition unacknowledged (row : outbox_row) : bool := is_null (dl_acknowledged_at row.2).

(** [mark_published], inside the transaction that holds the row. *)
Definition mark_published (id : N) (sequences : list Z) (resend_after : N) : pumping unit :=
  let! marked := in_db database
    (statement (update_row id unpublished (published sequences resend_after))) in
  if Nat.eqb marked 1 then sret tt else sfail MarkLost.

Definition mark_resent (resend : tombstone_resend) (id : N) : pumping unit :=
  let! _ := in_db database (auto (update_row id unacknowledged (resent resend))) in sret tt.

Definition record_resend_failure (id : N) : pumping unit :=
  let! _ := in_db database
    (auto (update_row id (λ row, negb (unpublished row) && unacknowledged row) resend_failed)) in
  sret tt.

Definition mark_undeliverable (id : N) : pumping unit :=
  let! _ := in_db database (auto (update_row id deliverable undeliverable)) in sret tt.

Definition record_failure (id : N) : pumping unit :=
  let! _ := in_db database (auto (update_row id unpublished failed)) in sret tt.

(** ** The carry ([carry.rs]) *)

Section pump.
(** [serde_json::to_vec]; the envelopes of the contracts crate, read from
    bytes: the type and the identity; [Uuid::parse_str]. *)
Context (to_vec : json → option string).
Context (event_envelope command_envelope : string → option (string * string)).
Context (parse_uuid : string → option string).
(** The erasure command, see [StreamErasure]. *)
Context {wire : Type} (parse_wire : string → option wire) (pg_render : N → string).
Context (request_ok : string → bool) (producer_ok : bool) (owner_ok : string → bool).
Context (erasure_document : erasure_command (wire := wire) → result enqueue_error json).
(** The resend intervals, and what the connected server accepts. *)
Context (resend : tombstone_resend) (max_payload : N).

(** [i64::try_from(u64)]. *)
Definition to_bigint (sequence : N) : option Z :=
  if (sequence <=? i64_max)%N then Some (Z.of_N sequence) else None.

Definition remember (c : candidate) (event_id : string) (sequence : N) : pumping (list Z) := λ p,
  match to_bigint sequence with
  | None => (Err InvalidRow, p)
  | Some sequence =>
      match (if is_content_bearing (cd_event_type c) then get_str "tenant_id" (cd_payload c) else None) with
      | None => (Ok [sequence], p)
      | Some owner =>
          match parse_uuid event_id with
          | None => (Err InvalidRow, p)
          | Some event_id =>
              let carried :=
                default (Carried owner event_id (cd_account_id c) []) (pm_carry p !! cd_id c) in
              let sequences := bset_insert sequence (ca_sequences carried) in
              (Ok (bt_keys sequences),
               set_carry (<[cd_id c := Carried (ca_owner carried) (ca_event_id carried)
                                        (ca_account_id carried) sequences]> (pm_carry p)) p)
          end
      end
  end.

Definition forget {E} (id : N) : sm pump E unit := λ p,
  (Ok tt, set_carry (delete id (pm_carry p)) p).

(** The order of a [HashMap] is not specified. *)
Definition snapshot {E} : sm pump E (list (N * carried)) := λ p,
  (Ok (map_to_list (pm_carry p)), p).

(** The transaction that queues the erasure of one carried entry. *)
Definition erase_carried (entry : carried) : sm (world otables) publish_error unit :=
  transaction (λ _, PDatabase)
    (let! issued_at := smap_err (λ _, PDatabase) (database_now parse_wire pg_render) in
     smap_err publish_error_of
       (enqueue_owner_erasure request_ok producer_ok owner_ok erasure_document
          (OwnerErasure (ca_owner entry) (ca_sequences entry) (ca_event_id entry)
             (ca_account_id entry) None issued_at (reconcile_stem (ca_event_id entry))))).

Fixpoint reconcile_entries (entries : list (N * carried)) : pumping unit :=
  match entries with
  | [] => sret tt
  | (id, entry) :: rest =>
      let! _ := in_db (λ e, e) (erase_carried entry) in
      let! _ := forget id in
      reconcile_entries rest
  end.

Definition reconcile_carried : pumping unit :=
  let! carried := snapshot in
  match carried with
  | [] => sret tt
  | _ =>
      let! present := in_db database (auto (select_present carried.*1)) in
      reconcile_entries (filter (λ e, e.1 ∉ present) carried)
  end.

(** ** The stored document ([subject.rs]) *)

Definition stored_envelope (event_type : string) (payload : json)
    : result publish_error (string * string) :=
  let? bytes := ok_or PEncode (to_vec payload) in
  let? (declared, id) :=
    ok_or InvalidRow
      (if String.eqb event_type STREAM_ERASURE_COMMAND then command_envelope bytes
       else event_envelope bytes) in
  if String.eqb declared event_type then Ok (bytes, id) else Err InvalidRow.

(** One publish and its acknowledgement. *)
Definition publish_row (row : N) (subject event_id body : string) : pumping N := λ p,
  let answer := default (Unacked false) (head (pm_answers p)) in
  let p := Pump (pm_world p) (pm_carry p) (pm_connection p) (tail (pm_answers p)) (pm_connects p)
             (pm_closings p) (pm_held p) (pm_sent p ++ [Sent row subject event_id body answer]) in
  match answer with
  | Acked sequence => (Ok sequence, p)
  | Unacked closed => (Err (Broker closed), p)
  end.

(** ** One batch ([publish.rs]) *)

Inductive outcome : Set := Published | Skipped.

(** [FOR UPDATE SKIP LOCKED]: whether another session holds the row. *)
Definition is_held {E} : sm pump E bool := λ p,
  (Ok (default false (head (pm_held p))),
   Pump (pm_world p) (pm_carry p) (pm_connection p) (pm_answers p) (pm_connects p) (pm_closings p)
     (tail (pm_held p)) (pm_sent p)).

(** [SELECT 1 ... WHERE id = $1 AND published_at IS NULL AND undeliverable_at IS NULL]. *)
Definition select_deliverable (id : N) : sql bool := λ t,
  Ok (match ot_rows t !! id with Some row => deliverable row | None => false end, t).

Definition publish_locked (c : candidate) (subject event_id body : string) : pumping outcome :=
  let! deliverable := in_db database (statement (select_deliverable (cd_id c))) in
  let! held := is_held in
  if negb deliverable || held then sret Skipped
  else
    let! sequence := publish_row (cd_id c) subject event_id body in
    let! sequences := remember c event_id sequence in
    let! _ := mark_published (cd_id c) sequences (tr_after resend) in
    sret Published.

Definition publish_first (c : candidate) (subject event_id body : string) : pumping outcome :=
  let! saved := in_db database begin_tx in
  let! result := stry (publish_locked c subject event_id body) in
  match result with
  | Ok Published =>
      let! _ := in_db database (commit_tx saved) in
      let! _ := forget (cd_id c) in
      sret Published
  | other =>
      let! _ := signore (in_db (E := publish_error) (λ e, e) (rollback_tx saved)) in
      slift other
  end.

Definition publish_again (c : candidate) (subject event_id body : string) : pumping outcome :=
  let! _ := publish_row (cd_id c) subject event_id body in
  let! _ := mark_resent resend (cd_id c) in
  sret Published.

Definition mark_closed {E} : sm pump E unit := λ p,
  (Ok tt, set_connection ((λ _, true) <$> pm_connection p) p).

Definition deliverable_bytes : N := (max_payload - PAYLOAD_HEADROOM_BYTES)%N.

(** [first_failure.get_or_insert(error)]. *)
Definition or_first (first : option publish_error) (e : publish_error) : option publish_error :=
  Some (default e first).

(** The loop of [publish_rows]: how many were published, and the first
    failure that does not stop the pass. *)
Fixpoint publish_loop (candidates : list candidate) (published : nat)
    (first_failure : option publish_error) : pumping nat :=
  match candidates with
  | [] => match first_failure with None => sret published | Some e => sfail e end
  | c :: rest =>
      let! subject := slift (ok_or UnknownEventType (subject_for_event_type (cd_event_type c))) in
      let! (body, event_id) := slift (stored_envelope (cd_event_type c) (cd_payload c)) in
      if (deliverable_bytes <? N.of_nat (String.length body))%N then
        let! _ := mark_undeliverable (cd_id c) in
        publish_loop rest published first_failure
      else
        let! outcome :=
          stry (if cd_resend c then publish_again c subject event_id body
                else publish_first c subject event_id body) in
        match outcome with
        | Ok Published => publish_loop rest (S published) first_failure
        | Ok Skipped => publish_loop rest published first_failure
        | Err (Broker closed as e) =>
            let! _ := if is_closed_connection e then mark_closed else sret tt in
            let! _ := if cd_resend c then record_resend_failure (cd_id c)
                      else record_failure (cd_id c) in
            publish_loop rest published (or_first first_failure e)
        | Err (MarkLost as e) => publish_loop rest published (or_first first_failure e)
        | Err e => sfail e
        end
  end.

Definition publish_rows (candidates : list candidate) : pumping nat :=
  publish_loop candidates 0 None.

(** ** One pass ([mod.rs]) *)

(** Reading the seed and reaching the server, or not: the slot keeps the old
    client until a new one is connected. *)
Definition connect : pumping unit := λ p,
  let reached := default false (head (pm_connects p)) in
  (if reached then Ok tt else Err (Broker false),
   Pump (pm_world p) (pm_carry p) (if reached then Some false else pm_connection p) (pm_answers p)
     (tail (pm_connects p)) (pm_closings p) (pm_held p) (pm_sent p)).

(** Whether the client has reported that it was closed since the last look. *)
Definition closing {E} : sm pump E unit := λ p,
  (Ok tt, Pump (pm_world p) (pm_carry p)
            (if default false (head (pm_closings p)) then (λ _, true) <$> pm_connection p
             else pm_connection p)
            (pm_answers p) (pm_connects p) (tail (pm_closings p)) (pm_held p) (pm_sent p)).

(** The live connection, or a new one when none exists yet or the client was
    closed. *)
Definition connection : pumping unit :=
  let! _ := closing in
  λ p, match pm_connection p with
       | Some false => (Ok tt, p)
       | _ => connect p
       end.

Definition pending_rows : pumping (list candidate) := in_db database (auto select_pending).

Definition publish_pending_once : pumping nat :=
  let! _ := in_db database (auto select_unacknowledged) in
  let! _ := reconcile_carried in
  let! candidates := pending_rows in
  match candidates with
  | [] => sret 0
  | _ =>
      let! _ := connection in
      publish_rows candidates
  end.

(** [close]: the drain itself is the client's. *)
Definition close : sm pump Empty_set unit := mark_closed.
End pump.

(** ** No acknowledged copy is forgotten *)

Section pump_laws.
Context (to_vec : json → option string).
Context (event_envelope command_envelope : string → option (string * string)).
Context (parse_uuid : string → option string).
Context {wire : Type} (parse_wire : string → option wire) (pg_render : N → string).
Context (request_ok : string → bool) (producer_ok : bool) (owner_ok : string → bool).
Context (erasure_document : erasure_command (wire := wire) → result enqueue_error json).
Context (resend : tombstone_resend) (max_payload : N).
(** The contracts crate: what a command names can be read back, and an
    envelope's identity is a UUID. *)
Context (names : json → option (string * list N)).
Context (names_document : ∀ c doc, erasure_document c = Ok doc →
  names doc = Some (ec_owner c, ec_stream_sequences c)).
Context (envelope_uuid : ∀ bytes declared id,
  event_envelope bytes = Some (declared, id) → is_Some (parse_uuid id)).

#[local] Abbreviation stored_envelope := (stored_envelope to_vec event_envelope command_envelope).
#[local] Abbreviation remember := (remember parse_uuid).
#[local] Abbreviation asked := (asked names).

(** The identity of a stored fact. *)
Definition event_of (f : fact) : option string :=
  match stored_envelope (ft_event_type f) (ft_payload f) with
  | Ok (_, id) => parse_uuid id
  | Err _ => None
  end.

#[local] Abbreviation evolution := (evolution names event_of).
#[local] Abbreviation evolves := (evolves names event_of).

(** The erasure of a carried entry. *)
Definition carried_erasure (c : carried) (at' : wire) : owner_erasure :=
  OwnerErasure (ca_owner c) (ca_sequences c) (ca_event_id c) (ca_account_id c) None at'
    (reconcile_stem (ca_event_id c)).

Definition carried_commands (c : carried) (f : fact) : Prop :=
  ∀ at', commands_of names (carried_erasure c at') 0 (command_chunks (carried_erasure c at')) f.

(** Where an acknowledged sequence of a row is remembered. *)
Definition recorded (t : otables) (id : N) (s : N) : Prop :=
  ∃ row, ot_rows t !! id = Some row ∧ Z.of_N s ∈ dl_published_stream_seqs row.2.
Definition is_carried (carry : gmap N carried) (id : N) (s : N) : Prop :=
  ∃ c, carry !! id = Some c ∧ Z.of_N s ∈ bt_keys (ca_sequences c).
Definition accounted (t : otables) (carry : gmap N carried) (id : N) (owner : string) (s : N) : Prop :=
  recorded t id s ∨ is_carried carry id s ∨ asked t owner s.

(** The message is the stored document of the fact, on its type's subject,
    under its identity, and the server accepts its size. *)
Definition relays (f : fact) (m : sent) : Prop :=
  subject_for_event_type (ft_event_type f) = Some (sn_subject m) ∧
  stored_envelope (ft_event_type f) (ft_payload f) = Ok (sn_body m, sn_msg_id m) ∧
  (N.of_nat (String.length (sn_body m)) <= deliverable_bytes max_payload)%N.

Record copies_kept (t : otables) (carry : gmap N carried) (log : list sent) : Prop := CopiesKept {
  ck_ok : table_ok t;
  ck_unique : events_unique event_of t;
  ck_carry id c : carry !! id = Some c → ∃ f, ot_history t !! id = Some f ∧ content_bearing f ∧
    owner_of_fact f = Some (ca_owner c) ∧ event_of f = Some (ca_event_id c) ∧
    bt_wf (ca_sequences c);
  ck_keys i f event_id n : ot_history t !! i = Some f →
    ft_deduplication_key f = Some (chunk_key (reconcile_stem event_id) n) →
    ∃ id g, ot_history t !! id = Some g ∧ content_bearing g ∧ event_of g = Some event_id ∧
      ot_rows t !! id = None ∧ ∀ c, carry !! id = Some c → carried_commands c f;
  ck_known m : m ∈ log → ∃ f, ot_history t !! sn_row m = Some f ∧ relays f m;
  ck_sent m f owner s : m ∈ log → ot_history t !! sn_row m = Some f → content_bearing f →
    owner_of_fact f = Some owner → sn_answer m = Acked s → accounted t carry (sn_row m) owner s;
}.

Lemma kept_evolves t t' carry log :
  copies_kept t carry log → evolution t t' → copies_kept t' carry log.
Proof.
  intros [ok un Hcarry Hkeys Hknown Hsent] [[ok' hist new gone rec] un']. constructor; [done..| | | |].
  - intros id c (f & ? & ?)%Hcarry. exists f. auto.
  - intros i f e n Hf Hkey. destruct (new _ _ Hf) as [Hf'|Hn]; [|by destruct Hn; exists e, n].
    destruct (Hkeys _ _ _ _ Hf' Hkey) as (id & g & ? & ? & ? & ? & ?). exists id, g. split_and!; eauto.
  - intros m (f & Hf & Hr)%Hknown. eauto.
  - intros m f owner s Hm Hf Hc Ho Ha. destruct (Hknown _ Hm) as (f' & Hf' & _).
    assert (f' = f) as -> by (apply hist in Hf'; congruence).
    destruct (Hsent _ _ _ _ Hm Hf' Hc Ho Ha) as [([f' d] & Hrow & Hs)|[?|Hask]].
    + pose proof (to_rows _ ok _ _ Hrow) as E. cbn in E. rewrite Hf' in E. simplify_eq.
      destruct (rec _ _ _ _ _ Hrow Hc Ho Hs) as [(d' & Hrow' & Hs')|]; [|by right; right].
      left. by eexists.
    + right. by left.
    + right. right. by eapply asked_history.
Qed.

(** One more message: of a known row, and accounted for if it matters. *)
Lemma kept_send t carry log m :
  copies_kept t carry log → (∃ f, ot_history t !! sn_row m = Some f ∧ relays f m) →
  (∀ f owner s, ot_history t !! sn_row m = Some f → content_bearing f →
     owner_of_fact f = Some owner → sn_answer m = Acked s → accounted t carry (sn_row m) owner s) →
  copies_kept t carry (log ++ [m]).
Proof.
  intros [ok un Hcarry Hkeys Hknown Hsent] Hm Hacc. constructor; try done.
  - intros x [?| ->%list_elem_of_singleton]%elem_of_app; auto.
  - intros x f owner s [?| ->%list_elem_of_singleton]%elem_of_app; eauto.
Qed.

(** Carrying one more sequence of a live content-bearing row. *)
Lemma kept_carry t carry log id row c' :
  copies_kept t carry log → ot_rows t !! id = Some row → content_bearing row.1 →
  owner_of_fact row.1 = Some (ca_owner c') → event_of row.1 = Some (ca_event_id c') →
  bt_wf (ca_sequences c') →
  (∀ c, carry !! id = Some c → bt_keys (ca_sequences c) ⊆ bt_keys (ca_sequences c')) →
  copies_kept t (<[id := c']> carry) log.
Proof.
  intros [ok un Hcarry Hkeys Hknown Hsent] Hrow Hc Ho He Hwf Hsub.
  pose proof (to_rows _ ok _ _ Hrow) as Hf. constructor; try done.
  - intros i c. rewrite lookup_insert_Some. intros [[<- <-]|[_ ?]]; eauto 10.
  - intros i f e n Hi Hkey. destruct (Hkeys _ _ _ _ Hi Hkey) as (j & g & Hj & Cg & Eg & Hnone & Hcmd).
    exists j, g. split_and!; try done. intros c. rewrite lookup_insert_Some.
    intros [[<- _]|[_ ?]]; [congruence|auto].
  - intros m f owner s Hm Hf' Hc' Ho' Ha.
    destruct (Hsent _ _ _ _ Hm Hf' Hc' Ho' Ha) as [?|[(c & Hcar & Hs)|?]]; [by left| |by right; right].
    right. left. destruct (decide (id = sn_row m)) as [->|Hne].
    + exists c'. rewrite lookup_insert_eq. split; [done|]. by eapply Hsub.
    + exists c. by rewrite lookup_insert_ne.
Qed.

(** Forgetting an entry all of whose sequences are remembered elsewhere. *)
Lemma kept_forget t carry log id :
  copies_kept t carry log →
  (∀ c s, carry !! id = Some c → Z.of_N s ∈ bt_keys (ca_sequences c) →
     recorded t id s ∨ asked t (ca_owner c) s) →
  copies_kept t (delete id carry) log.
Proof.
  intros [ok un Hcarry Hkeys Hknown Hsent] Helse. constructor; try done.
  - intros i c [_ ?]%lookup_delete_Some. eauto.
  - intros i f e n Hi Hkey. destruct (Hkeys _ _ _ _ Hi Hkey) as (j & g & ? & ? & ? & ? & Hcmd).
    exists j, g. split_and!; try done. intros c [_ ?]%lookup_delete_Some. auto.
  - intros m f owner s Hm Hf Hc Ho Ha.
    destruct (Hsent _ _ _ _ Hm Hf Hc Ho Ha) as [?|[(c & Hcar & Hs)|?]]; [by left| |by right; right].
    destruct (decide (id = sn_row m)) as [->|Hne].
    + destruct (Hcarry _ _ Hcar) as (f' & Hf' & _ & Ho' & _). simplify_eq.
      destruct (Helse _ _ Hcar Hs); [by left|by right; right].
    + right. left. exists c. by rewrite lookup_delete_ne.
Qed.

(** Queueing the commands of a carried entry whose row is gone. *)
Lemma kept_commands t t' carry log id c at' :
  copies_kept t carry log → carry !! id = Some c → ot_rows t !! id = None →
  gained (commands_of names (carried_erasure c at') 0 (command_chunks (carried_erasure c at'))) t t' →
  copies_kept t' carry log.
Proof.
  intros [ok un Hcarry Hkeys Hknown Hsent] Hc Hnone Hg.
  destruct (Hg ok) as [ok' rows hist new gone]. destruct (Hcarry _ _ Hc) as (f0 & Hf0 & Cf0 & Of0 & Ef0 & Wf0).
  assert (Hold : ∀ i f, ot_history t' !! i = Some f → content_bearing f → ot_history t !! i = Some f).
  { intros i f [?|[_ [Ht _]]]%new; [done|]. by intros []%command_not_content. }
  constructor; [done| | | | |].
  - intros i j f g e Hf Hg' Cf Cg. apply (un i j f g e); auto.
  - intros i ca (f & ? & ?)%Hcarry. eauto.
  - intros i f e n Hf Hkey. destruct (new _ _ Hf) as [Hf'|[_ Hcmd]].
    + destruct (Hkeys _ _ _ _ Hf' Hkey) as (j & g & ? & ? & ? & ? & ?). exists j, g. split_and!; eauto.
    + assert (e = ca_event_id c) as ->.
      { destruct Hcmd as (_ & m & chunk & _ & Hkey' & _). rewrite Hkey in Hkey'.
        apply (inj Some), chunk_key_inj in Hkey' as [E _]. by apply reconcile_stem_inj in E. }
      exists id, f0. split_and!; eauto. intros c' Hc'. simplify_eq. exact (λ _, Hcmd).
  - intros m (f & ? & ?)%Hknown. eauto.
  - intros m f owner s Hm Hf Hcf Ho Ha. apply Hold in Hf as Hf'; [|done].
    destruct (Hsent _ _ _ _ Hm Hf' Hcf Ho Ha) as [(row & ? & ?)|[?|?]].
    + left. exists row. auto.
    + right. by left.
    + right. right. by eapply asked_history.
Qed.

(** *** The pump's own steps *)

#[local] Abbreviation tables p := (w_tables (pm_world p)).

Definition bounded_answer (a : answer) : Prop :=
  match a with Acked s => (s <= i64_max)%N | Unacked _ => True end.

(** What the pump relies on - the other writers, the broker's sequences fit
    a [bigint] - and what it keeps. *)
Record pump_ok (p : pump) : Prop := PumpOk {
  po_others : Forall (λ f, ∀ x, evolves x.2 (f x).2) (w_others (pm_world p));
  po_answers : Forall bounded_answer (pm_answers p);
  po_kept : copies_kept (tables p) (pm_carry p) (pm_sent p);
}.

Definition older (t t' : otables) : Prop :=
  ∀ id f, ot_history t !! id = Some f → ot_history t' !! id = Some f.

(** A step keeps [pump_ok], and every fact ever inserted. *)
Definition step_ok (p p' : pump) : Prop :=
  pump_ok p → pump_ok p' ∧ older (tables p) (tables p').

#[export] Instance step_ok_preorder : PreOrder step_ok.
Proof.
  split; [intros p Hp; by split; [|intros id f]|].
  intros a b c H1 H2 Ha. destruct (H1 Ha) as [Hb Hab]. destruct (H2 Hb) as [Hc Hbc].
  split; [done|]. intros id f Hf. auto.
Qed.

#[local] Abbreviation snap_evolves := (λ x y : snap otables, evolves x.2 y.2).

#[export] Instance snap_evolves_preorder : PreOrder snap_evolves.
Proof. split; [intros x; reflexivity|]. intros x y z ??. by etrans. Qed.

(** A database step that respects the rely. *)
Lemma in_db_ok {E A} (f : E → publish_error) (c : sm (world otables) E A) :
  stable (respects snap_evolves) c → stable step_ok (in_db f c).
Proof.
  intros Hc p r p'. unfold in_db. destruct (c (pm_world p)) as [x w] eqn:Hw. intros [= <- <-].
  intros [Ho Ha Hk]. destruct (Hc _ _ _ Hw Ho) as [Ho' Hev].
  specialize (Hev (ck_ok _ _ _ Hk) (ck_unique _ _ _ Hk)).
  split; [constructor; [done..|by eapply kept_evolves]|]. exact (kp_history _ _ _ (ev_keeping _ _ _ _ Hev)).
Qed.

Lemma auto_ok {A} (op : sql A) :
  (∀ t a t', op t = Ok (a, t') → evolves t t') → stable step_ok (in_db database (auto op)).
Proof. intros Hop. apply in_db_ok, stable_auto; [apply _|]. intros ns t a t'. apply Hop. Qed.

Lemma reading_ok {A} (f : otables → A) :
  stable step_ok (in_db database (auto (λ t, Ok (f t, t)))).
Proof. apply auto_ok. intros t a t' [= _ <-]. reflexivity. Qed.

(** A mark that leaves the recorded sequences alone. *)
Lemma mark_ok id where_ up :
  (∀ now row, dl_published_stream_seqs (up now row) = dl_published_stream_seqs row.2) →
  stable step_ok (in_db database (auto (update_row id where_ up))).
Proof.
  intros Hup. apply auto_ok. intros t n t' H. apply delivers_evolves.
  eapply update_row_delivers; [exact H|]. intros row _ _. by rewrite Hup.
Qed.

Lemma mark_resent_ok id : stable step_ok (mark_resent resend id).
Proof. apply stable_bind; [apply _|by apply mark_ok|intros n; apply stable_ret, _]. Qed.
Lemma record_resend_failure_ok id : stable step_ok (record_resend_failure id).
Proof. apply stable_bind; [apply _|by apply mark_ok|intros n; apply stable_ret, _]. Qed.
Lemma mark_undeliverable_ok id : stable step_ok (mark_undeliverable id).
Proof. apply stable_bind; [apply _|by apply mark_ok|intros n; apply stable_ret, _]. Qed.
Lemma record_failure_ok id : stable step_ok (record_failure id).
Proof. apply stable_bind; [apply _|by apply mark_ok|intros n; apply stable_ret, _]. Qed.

(** Steps that touch neither the tables, the carry nor the log. *)
Lemma untouched_ok {E A} (c : sm pump E A) :
  (∀ p r p', c p = (r, p') → pm_world p' = pm_world p ∧ pm_carry p' = pm_carry p ∧
     pm_answers p' = pm_answers p ∧ pm_sent p' = pm_sent p) → stable step_ok c.
Proof.
  intros Hc p r p' (Hw & Hca & Ha & Hs)%Hc [? ? ?]. rewrite Hw. split; [|by intros id f].
  constructor; by rewrite ?Hw, ?Hca, ?Ha, ?Hs.
Qed.

Lemma mark_closed_ok {E} : stable step_ok (mark_closed (E := E)).
Proof. apply untouched_ok. by intros p r p' [= <- <-]. Qed.
Lemma connection_ok : stable step_ok connection.
Proof.
  apply untouched_ok. unfold connection. intros p r p' H.
  apply sbind_inv in H as [([] & p1 & [= <-] & H)|(? & [=] & _)].
  unfold connect in H. repeat case_match; by simplify_eq.
Qed.

(** *** Reconciling *)

#[local] Abbreviation erase_carried :=
  (erase_carried parse_wire pg_render request_ok producer_ok owner_ok erasure_document).
#[local] Abbreviation reconcile_entries :=
  (reconcile_entries parse_wire pg_render request_ok producer_ok owner_ok erasure_document).
#[local] Abbreviation reconcile_carried :=
  (reconcile_carried parse_wire pg_render request_ok producer_ok owner_ok erasure_document).

Lemma interfere_ok p : pump_ok p → pump_ok (set_world (interfere (pm_world p)) p) ∧
  evolution (tables p) (w_tables (interfere (pm_world p))).
Proof.
  intros [Ho Ha Hk]. destruct (interfere_respects snap_evolves (pm_world p) Ho) as [Ho' Hev].
  specialize (Hev (ck_ok _ _ _ Hk) (ck_unique _ _ _ Hk)).
  split; [|done]. constructor; [done..|by eapply kept_evolves].
Qed.

Lemma erase_body_inside c :
  stable (inside (λ _ _, True))
    (let! issued_at := smap_err (λ _, PDatabase) (database_now parse_wire pg_render) in
     smap_err publish_error_of
       (enqueue_owner_erasure request_ok producer_ok owner_ok erasure_document
          (carried_erasure c issued_at))).
Proof using names names_document.
  assert (HP : PreOrder (λ _ _ : otables, True)) by by split.
  apply stable_bind; [apply _| |intros at']; apply stable_map_err; intros w r w' H.
  - apply database_now_reads in H as (? & ? & _). by split_and!.
  - eapply enqueue_owner_spec in H as [(? & ? & _) _]; [by split_and!|exact names_document].
Qed.

(** What a stretch of the reconciliation leaves alone. *)
Record keeps_gone (t t' : otables) : Prop := KeepsGone {
  kg_older : older t t';
  kg_gone id f : ot_history t !! id = Some f → ot_rows t !! id = None → ot_rows t' !! id = None;
  kg_asked owner s : asked t owner s → asked t' owner s;
}.

#[export] Instance keeps_gone_preorder : PreOrder keeps_gone.
Proof.
  split; [intros t; by split; [intros id f| |]|]. intros a b c [o1 g1 a1] [o2 g2 a2].
  split; [intros id f ?; auto|eauto|auto].
Qed.

Lemma evolution_keeps_gone t t' : evolution t t' → keeps_gone t t'.
Proof. intros [[_ hist _ gone _] _]. split; [exact hist|exact gone|]. intros o s. by apply asked_history. Qed.

(** One transaction of the reconciliation: the entry stays carried, and when
    it commits every sequence of it is asked for. *)
Lemma erase_carried_ok p id c r w' :
  erase_carried c (pm_world p) = (r, w') → pump_ok p → pm_carry p !! id = Some c →
  ot_rows (tables p) !! id = None →
  pump_ok (set_world w' p) ∧ keeps_gone (tables p) (w_tables w') ∧
  (r = Ok tt → ∀ s, Z.of_N s ∈ bt_keys (ca_sequences c) → asked (w_tables w') (ca_owner c) s).
Proof.
  unfold Outbox.erase_carried. intros Hrun Hp Hc Hnone.
  destruct (interfere_ok p Hp) as [Hp1 Hev]. set (v := interfere (pm_world p)) in *.
  pose proof (evolution_keeps_gone _ _ Hev) as Hgone.
  assert (HP : PreOrder (λ _ _ : otables, True)) by by split.
  apply (transaction_cases _ _ _ _ _ _ (erase_body_inside c)) in Hrun as (Hd & Ho & Hrun).
  fold v in Hd, Ho, Hrun. destruct Hp1 as [Ho1 Ha1 Hk1]. cbn in Ho1, Ha1, Hk1.
  destruct Hrun as [[Hr E]|([] & u & Hb & E & _)].
  { split_and!; [|by rewrite E|by intros ->].
    constructor; cbn; [by rewrite Ho|done|by rewrite E]. }
  apply sbind_Ok_inv in Hb as (at' & w1 & H1 & Hb).
  apply smap_err_Ok_inv, database_now_reads in H1 as (_ & _ & H1).
  change (w_tables w1 = w_tables v) in H1.
  apply smap_err_Ok_inv in Hb. fold (carried_erasure c at') in Hb.
  pose proof Hb as Hspec. eapply enqueue_owner_spec in Hspec as [(_ & _ & Hg) _]; [|exact names_document].
  rewrite H1 in Hg.
  assert (Hnone' : ot_rows (w_tables v) !! id = None).
  { destruct (ck_carry _ _ _ (po_kept _ Hp) _ _ Hc) as (f & Hf & _). by eapply (kp_gone _ _ _ (ev_keeping _ _ _ _ Hev)). }
  pose proof (kept_commands _ _ _ _ _ _ _ Hk1 Hc Hnone' Hg) as Hk'. rewrite <-E in Hk', Hg.
  destruct (Hg (ck_ok _ _ _ Hk1)) as [_ _ hist _ gone].
  split_and!; [by constructor; cbn; rewrite ?Ho| |].
  - etrans; [exact Hgone|]. split; [done|done|]. intros o s. by apply asked_history.
  - intros _ s Hs. rewrite E.
    eapply (enqueue_asks _ _ _ _ _ names_document (carried_erasure c at') _ _ s Hb); [| |exact Hs].
    + rewrite H1. apply Hk1.
    + rewrite H1. intros i row n Hrow Hkey. cbn in Hkey.
      pose proof (to_rows _ (ck_ok _ _ _ Hk1) _ _ Hrow) as Hf.
      destruct (ck_keys _ _ _ Hk1 _ _ _ _ Hf Hkey) as (j & g & Hj & Cg & Eg & _ & Hcmd).
      destruct (ck_carry _ _ _ Hk1 _ _ Hc) as (f & Hf' & Cf & _ & Ef & _).
      assert (j = id) as -> by (by eapply (ck_unique _ _ _ Hk1)). by apply Hcmd.
Qed.

Definition settled (p : pump) (id : N) (c : carried) : Prop :=
  pm_carry p !! id = None ∧
  ∀ s, Z.of_N s ∈ bt_keys (ca_sequences c) → asked (tables p) (ca_owner c) s.

Lemma forget_asked p id c :
  pump_ok p → pm_carry p !! id = Some c →
  (∀ s, Z.of_N s ∈ bt_keys (ca_sequences c) → asked (tables p) (ca_owner c) s) →
  pump_ok (set_carry (delete id (pm_carry p)) p).
Proof.
  intros [Ho Ha Hk] Hc Hask. constructor; [done..|]. apply kept_forget; [done|].
  intros c' s Hc' Hs. cbn in Hc'. simplify_eq. right. by apply Hask.
Qed.

Lemma reconcile_entries_ok entries : ∀ p r p',
  reconcile_entries entries p = (r, p') → pump_ok p → NoDup entries.*1 →
  (∀ id c, (id, c) ∈ entries → pm_carry p !! id = Some c ∧ ot_rows (tables p) !! id = None) →
  pump_ok p' ∧ keeps_gone (tables p) (tables p') ∧ pm_carry p' ⊆ pm_carry p ∧
  (r = Ok tt → ∀ id c, (id, c) ∈ entries → settled p' id c).
Proof.
  induction entries as [|[id c] rest IH]; intros p r p' H Hp Hnd Hall.
  { injection H as <- <-. split_and!; [done|reflexivity|done|]. by intros _ ?? ?%not_elem_of_nil. }
  cbn [Outbox.reconcile_entries] in H. cbn [fmap list_fmap fst] in Hnd.
  apply NoDup_cons in Hnd as [Hnew Hnd]. destruct (Hall id c) as [Hc Hnone]; [by left|].
  assert (Hstep : ∀ x p1, in_db (λ e, e) (erase_carried c) p = (x, p1) →
    ∃ w1, p1 = set_world w1 p ∧ erase_carried c (pm_world p) = (x, w1)).
  { intros x p1. unfold in_db. destruct (erase_carried c (pm_world p)) as [y w1].
    intros [= <- <-]. exists w1. split; [done|]. by destruct y. }
  apply sbind_inv in H as [([] & p1 & H1 & H)|(e & H1 & ->)];
    apply Hstep in H1 as (w1 & -> & H1);
    pose proof (erase_carried_ok _ _ _ _ _ H1 Hp Hc Hnone) as (Hp1 & Hg1 & Hask); [|by split_and!].
  specialize (Hask eq_refl). apply sbind_inv in H as [([] & p2 & [= <-] & H)|(? & [=] & _)].
  assert (Hp2 := forget_asked _ _ _ Hp1 Hc Hask). set (p2 := set_carry _ _) in *.
  apply IH in H as (Hp' & Hg & Hsub & Hset); [|done|done|].
  - split_and!; [done|by etrans| |].
    + etrans; [exact Hsub|]. apply delete_subseteq.
    + intros Hr i ci [[= -> ->]|Hi]%elem_of_cons; [|by apply Hset]. split.
      * destruct (pm_carry p' !! id) eqn:E; [|done]. eapply lookup_weaken in E; [|exact Hsub].
        cbn in E. by rewrite lookup_delete_eq in E.
      * intros s Hs. by apply (kg_asked _ _ Hg), Hask.
  - intros i ci Hi. destruct (Hall i ci) as [Hci Hni]; [by right|]. split.
    + cbn. rewrite lookup_delete_ne; [done|]. intros <-. apply Hnew.
      apply list_elem_of_fmap. by exists (id, ci).
    + destruct (ck_carry _ _ _ (po_kept _ Hp) _ _ Hci) as (f & Hf & _).
      by eapply (kg_gone _ _ Hg1).
Qed.

Lemma in_db_auto_Ok {A} (op : sql A) p a p' :
  in_db database (auto op) p = (Ok a, p') →
  op (w_tables (interfere (pm_world p))) = Ok (a, tables p') ∧ pm_carry p' = pm_carry p ∧
  pm_sent p' = pm_sent p.
Proof.
  unfold in_db. destruct (auto op (pm_world p)) as [[x|x] w] eqn:E; intros [= <- <-].
  by apply auto_Ok_inv in E.
Qed.

Lemma reconcile_carried_spec p r p' :
  reconcile_carried p = (r, p') → pump_ok p →
  pump_ok p' ∧ older (tables p) (tables p') ∧
  (r = Ok tt → ∀ id c, pm_carry p !! id = Some c → ot_rows (tables p) !! id = None → settled p' id c).
Proof.
  intros H Hp. unfold Outbox.reconcile_carried in H.
  apply sbind_inv in H as [(entries & p1 & [= <- <-] & H)|(? & [=] & _)].
  destruct (map_to_list (pm_carry p)) as [|e es] eqn:El.
  { injection H as <- <-. split_and!; [done|by intros id f|]. intros _ id c Hc.
    apply elem_of_map_to_list in Hc. rewrite El in Hc. by apply not_elem_of_nil in Hc. }
  rewrite <-El in H. clear El.
  apply sbind_inv in H as [(present & p1 & H1 & H)|(x & H1 & ->)];
    destruct (reading_ok _ _ _ _ H1 Hp) as [Hp1 Hold]; [|by split_and!].
  apply in_db_auto_Ok in H1 as ([= Hpres Ht] & Hcar & _).
  destruct (interfere_ok p Hp) as [_ Hev]. set (v := interfere (pm_world p)) in *.
  apply reconcile_entries_ok in H as (Hp' & Hg & _ & Hset); [|done| |].
  - split_and!; [done|intros id f Hf; by apply Hg, Hold|]. intros Hr id c Hc Hnone.
    apply Hset; [done|]. apply list_elem_of_filter. split; [|by apply elem_of_map_to_list].
    cbn. rewrite <-Hpres, list_elem_of_filter. intros [[row Hrow] _].
    destruct (ck_carry _ _ _ (po_kept _ Hp) _ _ Hc) as (f & Hf & _).
    rewrite (kp_gone _ _ _ (ev_keeping _ _ _ _ Hev) _ _ Hf Hnone) in Hrow. done.
  - apply (sublist_NoDup _ (map_to_list (pm_carry p)).*1); [apply NoDup_fst_map_to_list|].
    apply (fmap_sublist fst), sublist_filter.
  - intros id c [Hn Hc]%list_elem_of_filter. rewrite Hcar.
    apply elem_of_map_to_list in Hc as Hc'. split; [done|]. rewrite <-Ht.
    destruct (ot_rows (w_tables v) !! id) eqn:E; [|done]. destruct Hn. cbn.
    rewrite <-Hpres, list_elem_of_filter. split; [by eexists|].
    apply list_elem_of_fmap. by exists (id, c).
Qed.

(** ** Publishing *)

#[local] Abbreviation publish_locked := (publish_locked parse_uuid resend).
#[local] Abbreviation publish_first := (publish_first parse_uuid resend).
#[local] Abbreviation publish_loop :=
  (publish_loop to_vec event_envelope command_envelope parse_uuid resend max_payload).

(** A candidate is a fact of the table; the ones published again are
    tombstones. *)
Definition candidate_ok (t : otables) (c : candidate) : Prop :=
  ∃ f, ot_history t !! cd_id c = Some f ∧ ft_event_type f = cd_event_type c ∧
    ft_payload f = cd_payload c ∧ (cd_resend c = true → ¬ content_bearing f).

Lemma candidate_older t t' c : older t t' → candidate_ok t c → candidate_ok t' c.
Proof. intros Ho (f & ? & ?). exists f. auto. Qed.

Lemma stored_event event_type payload bytes id :
  stored_envelope event_type payload = Ok (bytes, id) → is_content_bearing event_type = true →
  is_Some (parse_uuid id).
Proof.
  unfold Outbox.stored_envelope. intros H Hc. destruct (to_vec payload) as [b|]; [|done].
  cbn [ok_or] in H. destruct (String.eqb_spec event_type STREAM_ERASURE_COMMAND) as [->|_]; [done|].
  destruct (event_envelope b) as [[d i]|] eqn:E; [|done]. cbn [ok_or] in H.
  destruct (String.eqb d event_type); simplify_eq. by eapply envelope_uuid.
Qed.

(** What the loop has worked out before it publishes a candidate. *)
Definition prepared (c : candidate) (subject event_id body : string) : Prop :=
  subject_for_event_type (cd_event_type c) = Some subject ∧
  stored_envelope (cd_event_type c) (cd_payload c) = Ok (body, event_id) ∧
  (N.of_nat (String.length body) <= deliverable_bytes max_payload)%N.

Lemma candidate_relays t c subject event_id body a :
  candidate_ok t c → prepared c subject event_id body →
  ∃ f, ot_history t !! cd_id c = Some f ∧ relays f (Sent (cd_id c) subject event_id body a).
Proof. intros (f & Hf & E1 & E2 & _) Hp. exists f. unfold relays. by rewrite E1, E2. Qed.

(** The acknowledgement of a live row and its [remember]: the sequence is
    carried if the row bears content. *)
Lemma acknowledged_kept t carry log c subject event_id body s q :
  copies_kept t carry log → is_Some (ot_rows t !! cd_id c) → candidate_ok t c →
  prepared c subject event_id body → (s <= i64_max)%N →
  pm_carry q = carry →
  ∃ seqs carry', remember c event_id s q = (Ok seqs, set_carry carry' q) ∧
    copies_kept t carry' (log ++ [Sent (cd_id c) subject event_id body (Acked s)]) ∧
    ∀ ca, carry' !! cd_id c = Some ca → bt_keys (ca_sequences ca) ⊆ seqs.
Proof.
  intros Hk [row Hrow] Hcand Hprep Hs <-. pose proof (candidate_relays _ _ _ _ _ (Acked s) Hcand Hprep) as Hrel.
  destruct Hcand as (f & Hf & Hty & Hpay & _), Hprep as (_ & Hst & _).
  pose proof (to_rows _ (ck_ok _ _ _ Hk) _ _ Hrow) as Hf'. rewrite Hf in Hf'. injection Hf' as ->.
  unfold Outbox.remember, to_bigint. rewrite (proj2 (N.leb_le _ _) Hs).
  rewrite <-Hty, <-Hpay in *. fold (owner_of_fact row.1).
  destruct (if is_content_bearing (ft_event_type row.1) then owner_of_fact row.1 else None)
    as [owner|] eqn:Eo.
  - destruct (is_content_bearing (ft_event_type row.1)) eqn:Ec; [|done].
    destruct (stored_event _ _ _ _ Hst Ec) as [ev Eev]. rewrite Eev.
    assert (Eof : event_of row.1 = Some ev) by (unfold event_of; by rewrite Hst).
    set (old := default _ _). set (new := Carried _ _ _ _).
    assert (Hold : bt_wf (ca_sequences old) ∧ ca_owner old = owner ∧ ca_event_id old = ev).
    { unfold old. destruct (pm_carry q !! cd_id c) as [co|] eqn:E; cbn; [|by split; [constructor|]].
      destruct (ck_carry _ _ _ Hk _ _ E) as (f & Hf' & _ & Ho & He & Hwf). by simplify_eq. }
    destruct Hold as (Hwf & Ho & He).
    eexists _, _. split; [reflexivity|]. split.
    + assert (Hk' : copies_kept t (<[cd_id c := new]> (pm_carry q)) log).
      { eapply kept_carry; [done|exact Hrow|done|..]; cbn.
        - by rewrite Ho, Eo.
        - by rewrite He.
        - by apply bt_insert_wf.
        - intros co Hco x Hx. apply bset_insert_keys; [done|]. right. unfold old. by rewrite Hco. }
      apply kept_send; [done|done|]. intros f o s' Hf' _ _ [= <-]. right. left.
      exists new. cbn. rewrite lookup_insert_eq. split; [done|].
      apply bset_insert_keys; [done|]. by left.
    + intros ca. rewrite lookup_insert_eq. by intros [= <-].
  - exists [Z.of_N s], (pm_carry q). split; [by destruct q|]. split.
    + apply kept_send; [done|done|]. intros f o s' Hf' Hc Ho _. cbn in Hf'. simplify_eq.
      unfold content_bearing in Hc. rewrite Hc in Eo. congruence.
    + intros ca Hca. destruct (ck_carry _ _ _ Hk _ _ Hca) as (f & Hf' & Hc & Ho & _). simplify_eq.
      unfold content_bearing in Hc. rewrite Hc in Eo. congruence.
Qed.

(** *** One first publication *)

(** In a transaction that holds the row: the carry and the log are right for
    the tables of the beginning, and when the row is marked, for the new ones
    too - even without the row's carried entry. *)
Definition publication (saved : otables) (c : candidate) (p p' : pump) (r : result publish_error outcome) : Prop :=
  w_others (pm_world p') = w_others (pm_world p) ∧ Forall bounded_answer (pm_answers p') ∧
  copies_kept saved (pm_carry p') (pm_sent p') ∧
  (r = Ok Published → copies_kept (tables p') (pm_carry p') (pm_sent p') ∧
     older saved (tables p') ∧
     ∀ ca, pm_carry p' !! cd_id c = Some ca →
       ∃ row, ot_rows (tables p') !! cd_id c = Some row ∧
         bt_keys (ca_sequences ca) ⊆ dl_published_stream_seqs row.2).

Lemma merge_sequences_elem a b z : z ∈ merge_sequences a b ↔ z ∈ a ∨ z ∈ b.
Proof. unfold merge_sequences. by rewrite bset_keys, elem_of_app. Qed.

Lemma mark_published_ok id seqs after p r p' :
  mark_published id seqs after p = (r, p') →
  pm_carry p' = pm_carry p ∧ pm_sent p' = pm_sent p ∧ pm_answers p' = pm_answers p ∧
  w_others (pm_world p') = w_others (pm_world p) ∧
  (r = Ok tt → delivers (tables p) (tables p') ∧
     ∃ row, ot_rows (tables p') !! id = Some row ∧ seqs ⊆ dl_published_stream_seqs row.2).
Proof.
  unfold mark_published. intros H.
  assert (Hs : ∀ x p1, in_db database (statement (update_row id unpublished (published seqs after))) p = (x, p1) →
    ∃ w1, p1 = set_world w1 p ∧ w_others w1 = w_others (pm_world p) ∧
      ∀ n, x = Ok n → update_row id unpublished (published seqs after) (tables p) = Ok (n, w_tables w1)).
  { intros x p1. unfold in_db. destruct (statement _ _) as [y w1] eqn:E. intros [= <- <-].
    apply statement_inv in E as (_ & Ho & E). exists w1. split_and!; [done..|].
    intros n. destruct y; [|done]. by intros [= ->]. }
  apply sbind_inv in H as [(n & p1 & H1 & H)|(e & H1 & ->)];
    apply Hs in H1 as (w1 & -> & Ho & Hn); [|by split_and!].
  specialize (Hn n eq_refl).
  assert (Hd : delivers (tables p) (w_tables w1)).
  { eapply update_row_delivers; [exact Hn|]. intros row _ _ z Hz. cbn.
    apply merge_sequences_elem. by left. }
  destruct (Nat.eqb_spec n 1) as [->|_]; injection H as <- <-; split_and!; try done. intros _.
  split; [done|]. unfold update_row in Hn. cbn.
  destruct (ot_rows (tables p) !! id) as [row|] eqn:E; [|done].
  destruct (unpublished row); [|done]. injection Hn as <-. cbn. rewrite lookup_insert_eq.
  eexists. split; [done|]. intros z Hz. cbn. apply merge_sequences_elem. by right.
Qed.

Lemma publish_locked_ok c subject event_id body p r p' :
  publish_locked c subject event_id body p = (r, p') → pump_ok p → candidate_ok (tables p) c →
  prepared c subject event_id body →
  publication (tables p) c p p' r.
Proof.
  intros H [Hoth Hans Hk] Hcand Hst. unfold Outbox.publish_locked in H.
  assert (Hkeep : ∀ q x, pm_sent q = pm_sent p → pm_carry q = pm_carry p →
    w_others (pm_world q) = w_others (pm_world p) → pm_answers q = pm_answers p →
    x ≠ Ok Published → publication (tables p) c p q x).
  { intros q x E1 E2 E3 E4 Hx. split_and!; [by rewrite ?E3|by rewrite E4|by rewrite E1, E2|done]. }
  assert (Hsel : ∀ x p1, in_db database (statement (select_deliverable (cd_id c))) p = (x, p1) →
    ∃ w1, p1 = set_world w1 p ∧ w_others w1 = w_others (pm_world p) ∧ w_tables w1 = tables p ∧
      (x = Ok true → is_Some (ot_rows (tables p) !! cd_id c))).
  { intros x p1. unfold in_db. destruct (statement _ _) as [y w1] eqn:E. intros [= <- <-].
    apply statement_inv in E as (_ & Ho & E). exists w1. unfold select_deliverable in E.
    destruct y as [b|e]; [injection E as E1 E2|]; split_and!; try done.
    cbn. intros [= ->]. case_match; [by eexists|done]. }
  apply sbind_inv in H as [(d & p1 & H1 & H)|(e & H1 & ->)];
    apply Hsel in H1 as (w1 & -> & Ho1 & Ht1 & Hd); [|by apply Hkeep].
  apply sbind_inv in H as [(held & p2 & [= <- <-] & H)|(? & [=] & _)].
  destruct (negb d || _) eqn:Eskip; [injection H as <- <-; by apply Hkeep|].
  apply orb_false_iff in Eskip as [Ed%negb_false_iff _]. subst d.
  specialize (Hd eq_refl). set (p2 := Pump _ _ _ _ _ _ _ _) in H.
  apply sbind_inv in H as [(s & p3 & H3 & H)|(e & H3 & ->)]; unfold publish_row in H3;
    destruct (default (Unacked false) (head (pm_answers p2))) as [s'|closed] eqn:Ea; simplify_eq.
  2:{ split_and!; [done| | |done].
      - by apply Forall_tail.
      - cbn. apply kept_send; [done| |by intros ???????]. by apply candidate_relays. }
  set (p3 := Pump _ _ _ _ _ _ _ _) in H.
  assert (Hs : (s <= i64_max)%N).
  { cbn in Ea. destruct (pm_answers p) as [|a l]; [done|]. inversion_clear Hans. cbn in Ea. by subst a. }
  destruct (acknowledged_kept (tables p) (pm_carry p) (pm_sent p) c subject event_id body s p3)
    as (seqs & carry' & Hrem & Hk' & Hsub); [done..|].
  rewrite (sbind_run _ _ _ _ _ Hrem) in H. set (p4 := set_carry carry' p3) in *.
  assert (Hans' : Forall bounded_answer (tail (pm_answers p))) by by apply Forall_tail.
  apply sbind_inv in H as [([] & p5 & H5 & H)|(e & H5 & ->)];
    apply mark_published_ok in H5 as (E1 & E2 & E3 & E4 & Hm).
  - injection H as <- <-. destruct (Hm eq_refl) as [Hdel (row & Hrow & Hin)].
    change (tables p4) with (w_tables w1) in Hdel. rewrite Ht1 in Hdel.
    split_and!; [by rewrite E4|by rewrite E3|by rewrite E1, E2|]. intros _. rewrite E1, E2.
    assert (Hev : evolution (tables p) (tables p5)).
    { apply delivers_evolves; [done|apply Hk..]. }
    split_and!; [by eapply kept_evolves|exact (kp_history _ _ _ (ev_keeping _ _ _ _ Hev))|].
    intros ca Hca. exists row. split; [done|]. etrans; [by apply Hsub|done].
  - split_and!; [by rewrite E4|by rewrite E3|by rewrite E1, E2|done].
Qed.

Lemma begin_ok p r p' : in_db database begin_tx p = (r, p') → pump_ok p →
  pump_ok p' ∧ older (tables p) (tables p') ∧ (∀ saved, r = Ok saved → saved = tables p').
Proof.
  intros H Hp. destruct (interfere_ok p Hp) as [Hp1 Hev]. pose proof (kp_history _ _ _ (ev_keeping _ _ _ _ Hev)) as Hold.
  unfold in_db, begin_tx in H. set (v := interfere (pm_world p)) in *.
  destruct Hp1 as [Ho Ha Hk].
  destruct (next_fault v); injection H as <- <-;
    (split_and!; [by constructor|done|intros saved; by intros [= <-]]).
Qed.

(** Ending the transaction: at the tables of the beginning, or committed. *)
Lemma end_tx_ok saved c p p1 r p2 :
  publication saved c p p1 r → pump_ok p → saved = tables p →
  pm_carry p2 = pm_carry p1 → pm_sent p2 = pm_sent p1 → pm_answers p2 = pm_answers p1 →
  w_others (pm_world p2) = w_others (pm_world p1) →
  tables p2 = saved ∨ (r = Ok Published ∧ tables p2 = tables p1) →
  pump_ok p2 ∧ older (tables p) (tables p2).
Proof.
  intros (Ho & Ha & Hk & Hdone) [Hoth _ _] -> E1 E2 E3 E4 Ht.
  destruct Ht as [Ht|[-> Ht]]; (split; [constructor|]); rewrite ?E1, ?E2, ?E3, ?E4, ?Ho, ?Ht; try done.
  - by intros id f.
  - by destruct (Hdone eq_refl).
  - by destruct (Hdone eq_refl) as (_ & ? & _).
Qed.

Lemma publish_first_ok c subject event_id body p r p' :
  publish_first c subject event_id body p = (r, p') → pump_ok p → candidate_ok (tables p) c →
  prepared c subject event_id body →
  pump_ok p' ∧ older (tables p) (tables p').
Proof.
  intros H Hp Hcand Hst. unfold Outbox.publish_first in H.
  apply sbind_inv in H as [(saved & p1 & H1 & H)|(e & H1 & ->)];
    destruct (begin_ok _ _ _ H1 Hp) as (Hp1 & Hold & Hsaved); [|done].
  specialize (Hsaved _ eq_refl). subst saved.
  apply sbind_inv in H as [(result & p2 & H2 & H)|(e & H2 & _)]; unfold stry in H2;
    destruct (publish_locked c subject event_id body p1) as [x p2'] eqn:E; simplify_eq.
  eapply publish_locked_ok in E as Hpub; [|done|by eapply candidate_older|done].
  assert (Hend : ∀ q, pump_ok q ∧ older (tables p1) (tables q) → pump_ok q ∧ older (tables p) (tables q)).
  { intros q [? Ho]. split; [done|]. intros id f Hf. by apply Ho, Hold. }
  assert (Hroll : ∀ q, (let! _ := signore (in_db (E := publish_error) (λ e, e) (rollback_tx (tables p1))) in
      slift result) p2 = (r, q) → result ≠ Ok Published → pump_ok q ∧ older (tables p) (tables q)).
  { intros q [= <- <-] _. apply Hend. by eapply end_tx_ok; [exact Hpub|done..|left]. }
  destruct result as [[]|e]; [|by apply Hroll..]. clear Hroll.
  unfold in_db, commit_tx in H. unfold sbind at 1 in H.
  set (w2 := pm_world p2) in *.
  assert (Hend2 := λ q, end_tx_ok _ _ _ _ _ q Hpub Hp1 eq_refl).
  destruct (next_fault w2); cbn in H; simplify_eq; apply Hend.
  - set (q := set_world _ p2) in *.
    destruct (Hend2 q) as [[Ho Ha Hk] Hold2]; [done..|by right|].
    injection H as _ <-. split; [|done]. constructor; [done..|]. apply kept_forget; [done|].
    intros ca s Hca Hs. left. destruct Hpub as (_ & _ & _ & Hdone).
    destruct (Hdone eq_refl) as (_ & _ & Hcov). destruct (Hcov ca Hca) as (row & Hrow & Hin).
    exists row. split; [done|by apply Hin].
  - apply Hend2; [done..|by left].
  - apply Hend2; [done..|by right].
Qed.

Lemma publish_again_ok c subject event_id body p r p' :
  publish_again resend c subject event_id body p = (r, p') → pump_ok p →
  candidate_ok (tables p) c → prepared c subject event_id body → cd_resend c = true →
  pump_ok p' ∧ older (tables p) (tables p').
Proof.
  intros H [Ho Ha Hk] Hcand Hprep Hre. unfold publish_again in H.
  pose proof (λ a, candidate_relays _ _ _ _ _ a Hcand Hprep) as Hrel. destruct Hcand as (f & Hf & _ & _ & Hcon).
  assert (Hsend : ∀ x p1, publish_row (cd_id c) subject event_id body p = (x, p1) →
    pump_ok p1 ∧ tables p1 = tables p).
  { intros x p1 H1. unfold publish_row in H1.
    destruct (default _ _) as [s|closed]; injection H1 as _ <-; (split; [|done]);
      (constructor; [done|by apply Forall_tail|]);
      (apply kept_send; [done|apply Hrel|]); intros f' o s' Hf' Hc _ _; cbn in Hf'; simplify_eq; by apply Hcon in Hc. }
  apply sbind_inv in H as [(s & p1 & H1 & H)|(e & H1 & ->)];
    apply Hsend in H1 as [Hp1 Ht]; [|split; [done|rewrite Ht; by intros id f']].
  rewrite <-Ht. assert (Hs : stable step_ok
    (let! _ := mark_resent resend (cd_id c) in sret (E := publish_error) Published)).
  { apply stable_bind; [apply _|apply mark_resent_ok|intros []; apply stable_ret, _]. }
  by apply (Hs _ _ _ H).
Qed.

(** *** The batch and the pass *)

Definition advances (p p' : pump) : Prop := pump_ok p' ∧ older (tables p) (tables p').

Lemma advances_trans p p1 p2 : advances p p1 → (pump_ok p1 → advances p1 p2) → advances p p2.
Proof. intros [H1 O1] H2. destruct (H2 H1) as [? O2]. split; [done|]. intros id f ?. by apply O2, O1. Qed.

Lemma step_advances {E A} (c : sm pump E A) p r p' :
  stable step_ok c → c p = (r, p') → pump_ok p → advances p p'.
Proof. intros Hc H Hp. by apply (Hc _ _ _ H). Qed.

Lemma advances_refl p : pump_ok p → advances p p.
Proof. intros Hp. by split; [|intros id f]. Qed.

(** A step, then the rest from wherever it led. *)
Lemma bind_advances {A B} (c : pumping A) (k : A → pumping B) p r p' :
  sbind c k p = (r, p') → (∀ x p1, c p = (x, p1) → advances p p1) →
  (∀ a p1, advances p p1 → k a p1 = (r, p') → advances p p') → advances p p'.
Proof.
  intros [(a & p1 & H1 & H)|(e & H1 & _)]%sbind_inv Hc Hk; [|by eapply Hc].
  by eapply Hk; [eapply Hc|].
Qed.

Lemma lift_advances {A B} (x : result publish_error A) (k : A → pumping B) p r p' :
  sbind (slift x) k p = (r, p') → pump_ok p →
  (∀ a, x = Ok a → k a p = (r, p') → advances p p') → advances p p'.
Proof.
  intros [(a & p1 & [= -> <-] & H)|(e & [= _ <-] & _)]%sbind_inv Hp Hk; [by eapply Hk|].
  by apply advances_refl.
Qed.

Lemma publish_loop_ok candidates : ∀ n first p r p',
  publish_loop candidates n first p = (r, p') → pump_ok p →
  Forall (candidate_ok (tables p)) candidates → advances p p'.
Proof.
  induction candidates as [|c rest IH]; intros n first p r p' H Hp Hall.
  { cbn in H. destruct first; injection H as _ <-; by apply advances_refl. }
  apply Forall_cons in Hall as [Hc Hrest].
  assert (Hnext : ∀ n first p1, advances p p1 → publish_loop rest n first p1 = (r, p') → advances p p').
  { intros m e p1 Ha Hrun. eapply advances_trans; [exact Ha|]. intros Hp1. eapply IH; [exact Hrun|done|].
    eapply Forall_impl; [exact Hrest|]. intros x. apply candidate_older, Ha. }
  cbn [Outbox.publish_loop] in H.
  apply (lift_advances _ _ _ _ _ H Hp). clear H. intros subject Hsub H.
  apply (lift_advances _ _ _ _ _ H Hp). clear H. intros [body event_id] Hst H.
  destruct (N.ltb_spec (deliverable_bytes max_payload) (N.of_nat (String.length body))) as [_|Hfit].
  { eapply bind_advances; [exact H| |intros u p1; apply Hnext].
    intros x p1 H1. by eapply step_advances; [apply mark_undeliverable_ok|..]. }
  assert (Hprep : prepared c subject event_id body).
  { split_and!; [|done..]. by destruct (subject_for_event_type _); simplify_eq/=. }
  eapply bind_advances; [exact H| |].
  { intros x p1. unfold stry. destruct (cd_resend c) eqn:Er.
    - destruct (publish_again _ _ _ _ _ p) as [y q] eqn:E. intros [= _ <-]. by eapply publish_again_ok.
    - destruct (publish_first _ _ _ _ p) as [y q] eqn:E. intros [= _ <-]. by eapply publish_first_ok. }
  clear H. intros x p1 Ha H.
  destruct x as [[]|[closed| | | | |]]; try (by eapply Hnext); try (by injection H as _ <-).
  assert (Hmark : ∀ E, stable step_ok (E := E) (if closed then mark_closed else sret tt)).
  { intros E. destruct closed; [apply mark_closed_ok|apply stable_ret, _]. }
  assert (Hfail : stable step_ok
    (if cd_resend c then record_resend_failure (cd_id c) else record_failure (cd_id c))).
  { destruct (cd_resend c); [apply record_resend_failure_ok|apply record_failure_ok]. }
  assert (Hstep : ∀ A B (m : pumping A) (k : A → pumping B) q x q', stable step_ok m →
    advances p q → sbind m k q = (x, q') →
    (∀ a q2, advances p q2 → k a q2 = (x, q') → advances p q') → advances p q').
  { intros A B m k q y q' Hm Hq Hrun Hk. apply sbind_inv in Hrun as [(a & q2 & H2 & Hrun)|(e & H2 & _)].
    - eapply Hk; [|exact Hrun]. eapply advances_trans; [exact Hq|]. by eapply step_advances.
    - eapply advances_trans; [exact Hq|]. by eapply step_advances. }
  eapply Hstep; [apply Hmark|exact Ha|exact H|]. clear H. intros [] p2 Ha2 H.
  eapply Hstep; [apply Hfail|exact Ha2|exact H|]. intros [] p3. apply Hnext.
Qed.

Lemma pending_rows_ok p r p' : pending_rows p = (r, p') → pump_ok p →
  advances p p' ∧ ∀ l, r = Ok l → Forall (candidate_ok (tables p')) l.
Proof.
  intros H Hp. unfold pending_rows in H. pose proof (reading_ok _ _ _ _ H Hp) as Ha.
  split; [exact Ha|]. intros l ->. destruct Ha as [[_ _ Hk] _].
  apply in_db_auto_Ok in H as ([= Hl Ht] & _ & _). rewrite Ht in Hl.
  apply Forall_forall. intros c Hc. rewrite <-Hl in Hc.
  apply subseteq_take, list_elem_of_fmap in Hc as ([id row] & -> & Hc).
  apply elem_of_sort_by, list_elem_of_filter in Hc as [Hpend Hrow%elem_of_map_to_list].
  exists row.1. split_and!; [by apply (to_rows _ (ck_ok _ _ _ Hk))|done..|].
  cbn in *. intros Hre%negb_true_iff. unfold pending in Hpend. cbn in Hpend. rewrite Hre in Hpend.
  apply andb_prop in Hpend as [_ Hpend]. cbn in Hpend.
  apply andb_prop in Hpend as [Hpend _]. apply andb_prop in Hpend as [Hpend _].
  apply andb_prop in Hpend as [Hty%String.eqb_eq _]. unfold content_bearing. by rewrite Hty.
Qed.

#[local] Abbreviation publish_pending_once :=
  (publish_pending_once to_vec event_envelope command_envelope parse_uuid parse_wire pg_render
     request_ok producer_ok owner_ok erasure_document resend max_payload).

Lemma pass_advances p r p' : publish_pending_once p = (r, p') → pump_ok p → advances p p'.
Proof.
  intros H Hp. unfold Outbox.publish_pending_once in H.
  eapply bind_advances; [exact H| |].
  { intros x p1 H1. exact (reading_ok _ _ _ _ H1 Hp). }
  clear H. intros [] p1 [Hp1 O1] H. eapply advances_trans; [split; [exact Hp1|exact O1]|]. intros _.
  eapply bind_advances; [exact H| |].
  { intros x p2 (? & ? & _)%reconcile_carried_spec; [|done]. by split. }
  clear H. intros [] p2 [Hp2 O2] H. eapply advances_trans; [split; [exact Hp2|exact O2]|]. intros _.
  apply sbind_inv in H as [(l & p3 & H3 & H)|(e & H3 & _)];
    apply pending_rows_ok in H3 as [Ha3 Hl]; [|done..]. specialize (Hl _ eq_refl).
  eapply advances_trans; [exact Ha3|]. intros Hp3.
  destruct l as [|c l]; [injection H as _ <-; by apply advances_refl|].
  apply sbind_inv in H as [([] & p4 & H4 & H)|(e & H4 & _)];
    pose proof (step_advances _ _ _ _ connection_ok H4 Hp3) as Ha4; [|done].
  eapply advances_trans; [exact Ha4|]. intros Hp4. eapply publish_loop_ok; [exact H|done|].
  eapply Forall_impl; [exact Hl|]. intros x. apply candidate_older, Ha4.
Qed.

(** No acknowledged copy is forgotten.  Whatever statement of a pass is
    refused or loses its answer - a commit included -, whatever the broker
    acknowledges, wherever the pass stops, and whatever the other writers do
    between its statements as long as they are steps of [evolution] (a
    deletion is one): every sequence the broker ever acknowledged for a
    content-bearing row is recorded on that row, carried by the pump, or named
    by an erasure command queued in the name of the row's owner. *)
Theorem no_acknowledged_copy_is_forgotten (p p' : pump) (r : result publish_error nat) :
  publish_pending_once p = (r, p') → pump_ok p →
  pump_ok p' ∧
  ∀ m f owner s, m ∈ pm_sent p' → ot_history (tables p') !! sn_row m = Some f →
    content_bearing f → owner_of_fact f = Some owner → sn_answer m = Acked s →
    recorded (tables p') (sn_row m) s ∨ is_carried (pm_carry p') (sn_row m) s ∨
    asked (tables p') owner s.
Proof.
  intros H Hp. destruct (pass_advances _ _ _ H Hp) as [Hp' _]. split; [done|].
  intros m f owner s. apply (ck_sent _ _ _ (po_kept _ Hp')).
Qed.

(** The pump relays the stored document.  Every message ever handed to the
    broker is, byte for byte, the envelope stored in its row, whose declared
    type is the row's; it goes to the subject of that type, is named by the
    envelope's own identity, and fits what the server accepts - whatever the
    other writers do meanwhile. *)
Theorem messages_relay_stored_documents (p p' : pump) (r : result publish_error nat) (m : sent) :
  publish_pending_once p = (r, p') → pump_ok p → m ∈ pm_sent p' →
  ∃ f, ot_history (tables p') !! sn_row m = Some f ∧ relays f m.
Proof.
  intros H Hp. destruct (pass_advances _ _ _ H Hp) as [Hp' _].
  apply (ck_known _ _ _ (po_kept _ Hp')).
Qed.

(** C30. Every orphaned copy is eventually asked for: when a reconciliation
    returns, each carried entry whose row was gone before it is carried no
    more, and every one of its sequences is named by an erasure command in the
    name of its owner. *)
Theorem orphaned_copies_are_erased (p p' : pump) :
  reconcile_carried p = (Ok tt, p') → pump_ok p →
  ∀ id c, pm_carry p !! id = Some c → ot_rows (tables p) !! id = None → settled p' id c.
Proof. intros H Hp. by destruct (reconcile_carried_spec _ _ _ H Hp) as (_ & _ & Hset); apply Hset. Qed.
End pump_laws.

(** ** Rows are published on acknowledgement only *)

Section marks.
Context (to_vec : json → option string).
Context (event_envelope command_envelope : string → option (string * string)).
Context (parse_uuid : string → option string).
Context {wire : Type} (parse_wire : string → option wire) (pg_render : N → string).
Context (request_ok : string → bool) (producer_ok : bool) (owner_ok : string → bool).
Context (erasure_document : erasure_command (wire := wire) → result enqueue_error json).
Context (resend : tombstone_resend) (max_payload : N).

#[local] Abbreviation tables p := (w_tables (pm_world p)).
#[local] Abbreviation publish_pending_once :=
  (publish_pending_once to_vec event_envelope command_envelope parse_uuid parse_wire pg_render
     request_ok producer_ok owner_ok erasure_document resend max_payload).

Definition is_published (t : otables) (id : N) : Prop :=
  ∃ row, ot_rows t !! id = Some row ∧ is_Some (dl_published_at row.2).

(** A step that publishes no row. *)
Definition publishes_none (t t' : otables) : Prop := ∀ id, is_published t' id → is_published t id.

#[export] Instance publishes_none_preorder : PreOrder publishes_none.
Proof. split; [by intros t id|]. intros a b c H1 H2 id ?. by apply H1, H2. Qed.

#[local] Abbreviation none_snap := (λ x y : snap otables, publishes_none x.2 y.2).

#[export] Instance none_snap_preorder : PreOrder none_snap.
Proof. split; [intros x; reflexivity|]. intros x y z ??. by etrans. Qed.

Definition is_acknowledged (log : list sent) (id : N) : Prop :=
  ∃ m s, m ∈ log ∧ sn_row m = id ∧ sn_answer m = Acked s.

(** What a step of the pump publishes was acknowledged. *)
Definition acknowledged_only (p p' : pump) : Prop :=
  others_ok none_snap (pm_world p) →
  others_ok none_snap (pm_world p') ∧ pm_sent p ⊆ pm_sent p' ∧
  ∀ id, is_published (tables p') id → is_published (tables p) id ∨ is_acknowledged (pm_sent p') id.

#[export] Instance acknowledged_only_preorder : PreOrder acknowledged_only.
Proof.
  split; [intros p Hp; split_and!; [done..|auto]|].
  intros a b c H1 H2 Ha. destruct (H1 Ha) as (Hb & Sb & Pb). destruct (H2 Hb) as (Hc & Sc & Pc).
  split_and!; [done|by etrans|]. intros id [[?|(m & s & ? & ?)]%Pb|?]%Pc; auto.
  right. exists m, s. auto.
Qed.

Lemma only_in_db {E A} (f : E → publish_error) (c : sm (world otables) E A) :
  stable (respects none_snap) c → stable acknowledged_only (in_db f c).
Proof.
  intros Hc p r p'. unfold in_db. destruct (c (pm_world p)) as [x w] eqn:Hw. intros [= <- <-] Hp.
  destruct (Hc _ _ _ Hw Hp) as [Ho Hq]. split_and!; [done..|]. intros id ?. left. by apply Hq.
Qed.

Lemma only_auto {A} (op : sql A) :
  (∀ t a t', op t = Ok (a, t') → publishes_none t t') → stable acknowledged_only (in_db database (auto op)).
Proof. intros Hop. apply only_in_db, stable_auto; [apply _|]. intros ns t a t'. apply Hop. Qed.

Lemma only_reading {A} (f : otables → A) :
  stable acknowledged_only (in_db database (auto (λ t, Ok (f t, t)))).
Proof. apply only_auto. by intros t a t' [= _ <-]. Qed.

Lemma update_publishes_none id where_ up t n t' :
  update_row id where_ up t = Ok (n, t') →
  (∀ now row, where_ row = true → is_Some (dl_published_at (up now row)) → is_Some (dl_published_at row.2)) →
  publishes_none t t'.
Proof.
  unfold update_row. intros H Hup. destruct (ot_rows t !! id) as [row|] eqn:E; [|by simplify_eq].
  destruct (where_ row) eqn:W; simplify_eq; [|done]. intros i (row' & Hi & Hp). cbn in Hi.
  apply lookup_insert_Some in Hi as [[<- <-]|[_ Hi]]; [|by exists row'].
  exists row. split; [done|by eapply Hup].
Qed.

Lemma only_mark id where_ up :
  (∀ now row, dl_published_at (up now row) = dl_published_at row.2) →
  stable acknowledged_only (let! _ := in_db database (auto (update_row id where_ up)) in sret tt).
Proof.
  intros Hup. apply stable_bind; [apply _| |intros n; apply stable_ret, _].
  apply only_auto. intros t n t' H. eapply update_publishes_none; [exact H|]. intros now row _. by rewrite Hup.
Qed.

Lemma only_untouched {E A} (c : sm pump E A) :
  (∀ p r p', c p = (r, p') → pm_world p' = pm_world p ∧ pm_sent p ⊆ pm_sent p') →
  stable acknowledged_only c.
Proof.
  intros Hc p r p' (Hw & Hs)%Hc Hp. rewrite Hw. split_and!; [done..|auto].
Qed.

Lemma enqueue_publishes_none (e : owner_erasure (wire := wire)) :
  stable (inside publishes_none) (enqueue_owner_erasure request_ok producer_ok owner_ok erasure_document e).
Proof.
  assert (Hchunks : ∀ l i, stable (inside publishes_none) (enqueue_chunks erasure_document e i l)).
  { induction l as [|chunk l IH]; intros i; cbn [enqueue_chunks]; [apply stable_ret, _|].
    apply stable_bind; [apply _|apply inside_mint, _|intros id].
    apply stable_bind; [apply _|apply stable_lift, _|intros doc].
    apply stable_bind; [apply _| |intros []; apply IH].
    apply stable_map_err, inside_statement; [apply _|]. intros t a t'. unfold insert_fact.
    case_match; intros [= <- <-]; [done|]. intros j (row & Hj & Hp). cbn in Hj.
    apply lookup_insert_Some in Hj as [[_ <-]|[_ Hj]]; [by destruct Hp|by exists row]. }
  unfold enqueue_owner_erasure. destruct (negb _); [apply stable_fail, _|].
  apply stable_bind; [apply _|apply stable_lift, _|intros l; apply Hchunks].
Qed.

Lemma erase_carried_only c :
  stable acknowledged_only
    (in_db (λ e, e) (erase_carried parse_wire pg_render request_ok producer_ok owner_ok erasure_document c)).
Proof.
  apply only_in_db, stable_transaction, inside_body_ok; [apply _..|].
  apply stable_bind; [apply _| |intros at'; apply stable_map_err, enqueue_publishes_none].
  apply stable_map_err. intros w r w' (? & ? & E)%database_now_reads. split_and!; [done..|].
  by rewrite E.
Qed.

Lemma only_reconcile :
  stable acknowledged_only
    (reconcile_carried parse_wire pg_render request_ok producer_ok owner_ok erasure_document).
Proof.
  assert (Hforget : ∀ id, stable acknowledged_only (forget (E := publish_error) id)).
  { intros id. apply only_untouched. by intros p r p' [= <- <-]. }
  assert (Hentries : ∀ l, stable acknowledged_only
    (reconcile_entries parse_wire pg_render request_ok producer_ok owner_ok erasure_document l)).
  { induction l as [|[id c] l IH]; cbn [reconcile_entries]; [apply stable_ret, _|].
    apply stable_bind; [apply _|apply erase_carried_only|intros _].
    apply stable_bind; [apply _|apply Hforget|intros _; exact IH]. }
  unfold reconcile_carried. apply stable_bind; [apply _| |intros [|e l]; [apply stable_ret, _|]].
  { apply only_untouched. by intros p r p' [= <- <-]. }
  apply stable_bind; [apply _|apply only_reading|intros present; apply Hentries].
Qed.

(** Inside the transaction that holds the row. *)
Definition locked_only (p p' : pump) : Prop :=
  w_others (pm_world p') = w_others (pm_world p) ∧ pm_sent p ⊆ pm_sent p' ∧
  ∀ id, is_published (tables p') id → is_published (tables p) id ∨ is_acknowledged (pm_sent p') id.

#[export] Instance locked_only_preorder : PreOrder locked_only.
Proof.
  split; [intros p; split_and!; [done..|auto]|].
  intros a b c (Hb & Sb & Pb) (Hc & Sc & Pc). split_and!; [congruence|by etrans|].
  intros id [[?|(m & s & ? & ?)]%Pb|?]%Pc; auto. right. exists m, s. auto.
Qed.

Lemma locked_untouched {E A} (c : sm pump E A) :
  (∀ p r p', c p = (r, p') → w_others (pm_world p') = w_others (pm_world p) ∧
     pm_sent p ⊆ pm_sent p' ∧ tables p' = tables p) → stable locked_only c.
Proof. intros Hc p r p' (Ho & Hs & Ht)%Hc. split_and!; [done..|]. rewrite Ht. auto. Qed.

Lemma same_log p p' : pm_world p' = pm_world p → pm_sent p' = pm_sent p → locked_only p p'.
Proof. intros Hw Hs. unfold locked_only. rewrite Hw, Hs. split_and!; auto. Qed.

Lemma publish_row_log id subject event_id body p r p' :
  publish_row id subject event_id body p = (r, p') →
  pm_world p' = pm_world p ∧ pm_sent p ⊆ pm_sent p' ∧
  (is_ok r = true → is_acknowledged (pm_sent p') id).
Proof.
  unfold publish_row. destruct (default _ _) as [s|closed] eqn:E; intros [= <- <-]; cbn;
    (split_and!; [done|by apply list_subseteq_app_l|]); [|done]. intros _.
  eexists (Sent _ _ _ _ (Acked s)), s. split; [apply elem_of_app; right; by left|done].
Qed.

Lemma remember_log c event_id s p r p' :
  remember parse_uuid c event_id s p = (r, p') →
  pm_world p' = pm_world p ∧ pm_sent p' = pm_sent p.
Proof. unfold remember. repeat case_match; by intros [= <- <-]. Qed.

Lemma mark_published_only id seqs after p r p' :
  mark_published id seqs after p = (r, p') → is_acknowledged (pm_sent p) id → locked_only p p'.
Proof.
  unfold mark_published, in_db. intros H Hack. unfold sbind in H.
  destruct (statement _ _) as [x w1] eqn:E. apply statement_inv in E as (_ & Ho & E).
  assert (Hp : p' = set_world w1 p).
  { destruct x as [n|e]; cbn [map_err] in H; [destruct (Nat.eqb n 1)|]; by injection H. }
  subst p'. split_and!; [done..|]. intros i (row' & Hi & Hpub).
  change (tables (set_world w1 p)) with (w_tables w1) in Hi.
  destruct x as [n|e]; [|left; exists row'; by rewrite <-E].
  unfold update_row in E. destruct (ot_rows (w_tables _) !! id) as [row|] eqn:El;
    [|injection E as _ Ht; left; exists row'; by rewrite Ht].
  destruct (unpublished row); injection E as _ Ht; [|left; rewrite <-Ht in Hi; by exists row'].
  rewrite <-Ht in Hi. cbn in Hi. apply lookup_insert_Some in Hi as [[<- _]|[_ Hi]]; [by right|].
  left. by exists row'.
Qed.

Lemma publish_locked_only c subject event_id body :
  stable locked_only (publish_locked parse_uuid resend c subject event_id body).
Proof.
  unfold publish_locked. apply stable_bind; [apply _| |intros d].
  { apply locked_untouched. unfold in_db. intros p r p'. destruct (statement _ _) as [x w1] eqn:E.
    intros [= <- <-]. apply statement_inv in E as (_ & Ho & E). split_and!; [done..|].
    destruct x; [injection E as _ E; exact (eq_sym E)|exact E]. }
  apply stable_bind; [apply _| |intros held].
  { apply locked_untouched. by intros p r p' [= <- <-]. }
  destruct (negb d || held); [apply stable_ret, _|]. intros p r p' H.
  apply sbind_inv in H as [(s & p1 & H1 & H)|(e & H1 & _)];
    apply publish_row_log in H1 as (Hw1 & Hs1 & Hack).
  2:{ split_and!; [by rewrite Hw1|done|]. rewrite Hw1. auto. }
  specialize (Hack eq_refl).
  assert (H01 : locked_only p p1) by (split_and!; [by rewrite Hw1|done|]; rewrite Hw1; auto).
  etrans; [exact H01|]. clear H01 Hw1 Hs1.
  apply sbind_inv in H as [(seqs & p2 & H2 & H)|(e & H2 & _)];
    apply remember_log in H2 as [Hw2 Hs2]; [|by apply same_log].
  etrans; [apply (same_log p1 p2 Hw2 Hs2)|].
  rewrite <-Hs2 in Hack.
  apply sbind_inv in H as [([] & p3 & H3 & [= _ <-])|(e & H3 & _)];
    by eapply mark_published_only.
Qed.

Lemma publish_first_only c subject event_id body :
  stable acknowledged_only (publish_first parse_uuid resend c subject event_id body).
Proof.
  intros p r p' H. unfold publish_first in H.
  assert (Hbegin : ∀ x p1, in_db database begin_tx p = (x, p1) →
    acknowledged_only p p1 ∧ (∀ saved, x = Ok saved → saved = tables p1)).
  { intros x p1. unfold in_db, begin_tx. intros H1.
    assert (Hp1 : w_others (pm_world p1) = w_others (interfere (pm_world p)) ∧ pm_sent p1 = pm_sent p ∧
      tables p1 = w_tables (interfere (pm_world p))) by (by destruct (next_fault _); simplify_eq).
    destruct Hp1 as (Ho & Hs & Ht). split.
    - intros Hp. destruct (interfere_respects none_snap _ Hp) as [Hv Hq]. unfold others_ok.
      rewrite Ho, Hs, Ht. split_and!; [exact Hv|reflexivity|]. intros id Hid. left. by apply Hq.
    - intros saved ->. by destruct (next_fault _); cbn in H1; simplify_eq. }
  apply sbind_inv in H as [(saved & p1 & H1 & H)|(e & H1 & _)]; apply Hbegin in H1 as [H01 Hsaved];
    [|done]. specialize (Hsaved _ eq_refl). subst saved. etrans; [exact H01|]. clear H01.
  apply sbind_inv in H as [(result & p2 & H2 & H)|(e & H2 & _)]; unfold stry in H2;
    destruct (publish_locked _ _ _ _ _ _ p1) as [x p2'] eqn:E; simplify_eq.
  apply publish_locked_only in E as (Ho & Hs & Hq).
  assert (Hend : ∀ w, w_others w = w_others (pm_world p2) →
    w_tables w = tables p1 ∨ w_tables w = tables p2 → acknowledged_only p1 (set_world w p2)).
  { intros w E Ht Hp1. unfold others_ok. cbn. rewrite E, Ho. split_and!; [exact Hp1|exact Hs|].
    intros id. destruct Ht as [->| ->]; auto. }
  destruct result as [[]|e]; [|injection H as _ <-; refine (Hend _ _ _); [done|by left]..].
  unfold in_db, commit_tx in H. unfold sbind at 1 in H.
  destruct (next_fault (pm_world p2)); cbn in H; injection H as _ <-;
    refine (Hend _ _ _); auto.
Qed.

Lemma only_publish c subject event_id body again :
  stable acknowledged_only
    (if again : bool then publish_again resend c subject event_id body
     else publish_first parse_uuid resend c subject event_id body).
Proof.
  destruct again; [|apply publish_first_only]. unfold publish_again.
  apply stable_bind; [apply _| |intros _].
  { apply only_untouched. intros p r p' (? & ? & _)%publish_row_log. done. }
  apply stable_bind; [apply _|by apply only_mark|intros _; apply stable_ret, _].
Qed.

Lemma only_closed (closed : bool) :
  stable acknowledged_only (E := publish_error) (if closed then mark_closed else sret tt).
Proof.
  destruct closed; [|apply stable_ret, _]. apply only_untouched. by intros p r p' [= <- <-].
Qed.

Lemma only_loop candidates : ∀ n first,
  stable acknowledged_only
    (publish_loop to_vec event_envelope command_envelope parse_uuid resend max_payload candidates n first).
Proof.
  induction candidates as [|c rest IH]; intros n first; cbn [publish_loop].
  { destruct first; [apply stable_fail, _|apply stable_ret, _]. }
  apply stable_bind; [apply _|apply stable_lift, _|intros subject].
  apply stable_bind; [apply _|apply stable_lift, _|intros [body event_id]].
  destruct (_ <? _)%N.
  { apply stable_bind; [apply _|by apply only_mark|intros _; apply IH]. }
  apply stable_bind; [apply _|apply stable_try, only_publish|].
  intros [[]|[closed| | | | |]]; try apply IH; try apply stable_fail, _.
  apply stable_bind; [apply _|apply only_closed|intros _].
  apply stable_bind; [apply _| |intros _; apply IH].
  destruct (cd_resend c); by apply only_mark.
Qed.

Lemma only_pass : stable acknowledged_only publish_pending_once.
Proof.
  unfold Outbox.publish_pending_once.
  apply stable_bind; [apply _|apply only_reading|intros _].
  apply stable_bind; [apply _|apply only_reconcile|intros _].
  apply stable_bind; [apply _|apply only_reading|intros [|c l]; [apply stable_ret, _|]].
  apply stable_bind; [apply _| |intros _; apply only_loop].
  apply only_untouched. unfold connection. intros p r p' H.
  apply sbind_inv in H as [([] & p1 & [= <-] & H)|(? & [=] & _)].
  unfold connect in H. by repeat case_match; simplify_eq.
Qed.

(** C31. Rows are published on acknowledgement only.  As long as the other writers
    publish no row, a row is published after a pass only if it was before, or
    if the broker acknowledged a message of that row - a refused publish, a
    lost commit or a row another pass holds never marks it. *)
Theorem rows_published_on_acknowledgement_only (p p' : pump) (r : result publish_error nat) (id : N) :
  publish_pending_once p = (r, p') → others_ok none_snap (pm_world p) →
  is_published (tables p') id →
  is_published (tables p) id ∨ is_acknowledged (pm_sent p') id.
Proof. intros H Ho. destruct (only_pass _ _ _ H Ho) as (_ & _ & Hp). apply Hp. Qed.
End marks.

(** ** The retry schedule *)

Lemma pow2_mono a b : (a <= b → 2 ^ a <= 2 ^ b)%N.
Proof. intros. by apply N.pow_le_mono_r. Qed.

(** The waits between attempts.  After a failure a row waits between one and
    256 seconds, never less after more failures - the bound of
    [MAX_BACKOFF_SECONDS] is never reached, since the exponent stops at 8.  A
    tombstone waits at most the configured cap before it is sent again, and
    twice as long after each sending until the cap or the thirtieth doubling. *)
Theorem retry_schedule (resend : tombstone_resend) (n m : N) :
  (1 <= backoff n <= 256)%N ∧ (backoff n < MAX_BACKOFF_SECONDS)%N ∧
  ((n <= m)%N → (backoff n <= backoff m)%N ∧ (resend_wait resend n <= resend_wait resend m)%N) ∧
  (resend_wait resend n <= tr_cap resend)%N ∧
  ((n < 29)%N → resend_wait resend (n + 1) = N.min (2 * resend_wait resend n) (tr_cap resend)).
Proof.
  unfold backoff, resend_wait, MAX_BACKOFF_SECONDS.
  pose proof (pow2_mono (N.min n 8) 8 ltac:(lia)). pose proof (pow2_mono 0 (N.min n 8) ltac:(lia)).
  change (2 ^ 8)%N with 256%N in *. change (2 ^ 0)%N with 1%N in *.
  split_and!; [lia..| |lia|].
  - intros Hnm. pose proof (pow2_mono (N.min n 8) (N.min m 8) ltac:(lia)).
    pose proof (pow2_mono (N.min (n + 1) 30) (N.min (m + 1) 30) ltac:(lia)). split; [lia|].
    apply N.min_le_compat_r. by apply N.mul_le_mono_l.
  - intros Hn. rewrite !N.min_l with (m := 30%N) by lia. rewrite (N.pow_add_r 2 (n + 1) 1).
    change (2 ^ 1)%N with 2%N. lia.
Qed.

Lemma retry_schedule_witness :
  backoff 20 = 256%N ∧ (backoff 3 <= backoff 4)%N ∧
  resend_wait (TombstoneResend 600 21600) 3 = N.min (2 * resend_wait (TombstoneResend 600 21600) 2) 21600.
Proof.
  destruct (retry_schedule (TombstoneResend 600 21600) 3 4) as (_ & _ & Hm & _).
  destruct (retry_schedule (TombstoneResend 600 21600) 2 2) as (_ & _ & _ & _ & Hd).
  split; [by vm_compute|]. split; [apply Hm; lia|exact (Hd ltac:(lia))].
Defined.

(** ** A concrete pump *)

Module OutboxWitness.
Import ErasureWitness.

Definition bar : ascii := "|"%char.
Definition parse_uuid (s : string) : option string :=
  if any_byte (is_char colon) s then None else Some s.

(** The bytes of an envelope: its type and its identity. *)
Definition to_vec (v : json) : option string :=
  ty ← get_str "event_type" v; id ← get_str "event_id" v; Some (ty +:+ String bar id).
Definition read_envelope (bytes : string) : option (string * string) :=
  e ← split_once bar bytes; _ ← parse_uuid e.2; Some e.

Lemma envelope_uuid bytes declared id : read_envelope bytes = Some (declared, id) → is_Some (parse_uuid id).
Proof.
  unfold read_envelope. intros ([d i] & _ & H)%bind_Some. apply bind_Some in H as (u & Hu & H).
  simplify_eq. by exists u.
Qed.

#[local] Abbreviation resend := (TombstoneResend 600 21600).
#[local] Abbreviation pass :=
  (publish_pending_once to_vec read_envelope read_envelope parse_uuid Some (λ n, pretty n) (λ _, true)
     true (λ _, true) document resend 1048576).
#[local] Abbreviation reconcile :=
  (reconcile_carried Some (λ n, pretty n) (λ _, true) true (λ _, true) document).
#[local] Abbreviation event_of := (event_of to_vec read_envelope read_envelope parse_uuid).
#[local] Abbreviation pump_ok :=
  (pump_ok (wire := string) to_vec read_envelope read_envelope parse_uuid 1048576 names).

(** A deletion of the second fact, by another process. *)
Definition deleting (x : snap otables) : snap otables :=
  if bool_decide (map_Forall (λ _ row, ft_deduplication_key row.1 = None) (ot_rows x.2))
  then (x.1, drops [2%N] x.2) else x.

Lemma deleting_evolves x : evolves names event_of x.2 (deleting x).2.
Proof.
  unfold deleting. case_bool_decide as Hkeys; [|reflexivity]. cbn [snd]. apply drops_evolves.
  intros owners. apply unissued_by. by apply bool_decide_eq_true.
Qed.

(** The pass publishes the second fact, but its commit is refused; the fact
    is then deleted, and the next pass has its copy erased. *)
Definition start : pump :=
  Pump (world_with table [Fine; Fine; Fine; Fine; Fine; Refused] [id; id; id; deleting]) ∅ None
    [Acked 9; Acked 10] [true] [] [] [].
Definition second : pump := (pass start).2.
Definition third : pump := (pass second).2.

Example refused_commit :
  (pass start).1 = Err PDatabase ∧ w_tables (pm_world second) = table ∧
  (λ c, (ca_owner c, bt_keys (ca_sequences c))) <$> pm_carry second !! 2%N = Some ("bob", [9%Z]).
Proof. vm_compute. done. Qed.

Example deleted_then_erased :
  (pass second).1 = Ok 1 ∧ pm_carry third !! 2%N = None ∧
  (λ row, names (ft_payload row.1)) <$> ot_rows (w_tables (pm_world third)) !! 3%N
    = Some (Some ("bob", [9%N])).
Proof. vm_compute. done. Qed.

Lemma start_ok : pump_ok start.
Proof.
  constructor.
  - cbn. rewrite !Forall_cons. split_and!; [intros x; reflexivity..|exact deleting_evolves|constructor].
  - cbn. rewrite !Forall_cons. by split_and!.
  - constructor.
    + apply table_ok_by. by vm_compute.
    + apply events_unique_by. by vm_compute.
    + intros id c H. cbn in H. by rewrite lookup_empty in H.
    + intros i f e n Hf Hkey. assert (H : map_Forall (λ _ f, ft_deduplication_key f = None)
        (ot_history table)) by by eapply bool_decide_eq_true_1; vm_compute.
      specialize (H i f Hf). cbn in H. congruence.
    + by intros m ?%not_elem_of_nil.
    + by intros m f owner s ?%not_elem_of_nil.
Qed.

Lemma no_acknowledged_copy_is_forgotten_witness :
  recorded (w_tables (pm_world third)) 2 9 ∨ is_carried (pm_carry third) 2 9 ∨
  asked names (w_tables (pm_world third)) "bob" 9.
Proof.
  assert (H2 : pump_ok second).
  { by destruct (no_acknowledged_copy_is_forgotten to_vec read_envelope read_envelope parse_uuid
      Some (λ n, pretty n) (λ _, true) true (λ _, true) document resend 1048576 names names_document
      envelope_uuid start second _ (surjective_pairing _) start_ok). }
  destruct (no_acknowledged_copy_is_forgotten to_vec read_envelope read_envelope parse_uuid
      Some (λ n, pretty n) (λ _, true) true (λ _, true) document resend 1048576 names names_document
      envelope_uuid second third _ (surjective_pairing _) H2) as [_ H].
  apply (H (Sent 2 "evt.ai_archive.conversation.added.v1" second_event
             ("ai_archive.conversation.added.v1|" +:+ second_event) (Acked 9)) (added second_event "bob"));
    try (by vm_compute).
  vm_compute. by left.
Defined.

Lemma messages_relay_stored_documents_witness :
  ∃ f, ot_history (w_tables (pm_world second)) !! 2%N = Some f ∧
    subject_for_event_type (ft_event_type f) = Some "evt.ai_archive.conversation.added.v1".
Proof.
  destruct (messages_relay_stored_documents to_vec read_envelope read_envelope parse_uuid
      Some (λ n, pretty n) (λ _, true) true (λ _, true) document resend 1048576 names names_document
      envelope_uuid start second _
      (Sent 2 "evt.ai_archive.conversation.added.v1" second_event
         ("ai_archive.conversation.added.v1|" +:+ second_event) (Acked 9))
      (surjective_pairing _) start_ok) as (f & Hf & Hs & _).
  - vm_compute. by left.
  - by exists f.
Defined.

(** The entry of the refused commit, once its row is gone. *)
Definition orphaned : pump := (pending_rows second).2.

Lemma orphaned_ok : pump_ok orphaned.
Proof.
  pose proof (pass_advances to_vec read_envelope read_envelope parse_uuid
    Some (λ n, pretty n) (λ _, true) true (λ _, true) document resend 1048576 names names_document
    envelope_uuid start _ second (surjective_pairing _) start_ok) as [H2 _].
  by destruct (pending_rows_ok to_vec read_envelope read_envelope parse_uuid 1048576 names second _ _
    (surjective_pairing _) H2) as [[H _] _].
Qed.

Lemma orphaned_copies_are_erased_witness :
  asked names (w_tables (pm_world (reconcile orphaned).2)) "bob" 9.
Proof.
  assert (Hrun : reconcile orphaned = (Ok tt, (reconcile orphaned).2)).
  { rewrite (surjective_pairing (reconcile orphaned)) at 1. f_equal. }
  destruct (orphaned_copies_are_erased to_vec read_envelope read_envelope parse_uuid
    Some (λ n, pretty n) (λ _, true) true (λ _, true) document 1048576 names names_document
    orphaned _ Hrun orphaned_ok 2%N (Carried "bob" second_event (Some "account") [(9%Z, tt)]))
    as [_ H]; [by vm_compute..|].
  apply H. by left.
Defined.

(** A pass nobody interferes with. *)
Definition quiet : pump :=
  Pump (world_with table [] []) ∅ None [Acked 9] [true] [] [] [].

Lemma rows_published_on_acknowledgement_only_witness :
  is_published (w_tables (pm_world (pass quiet).2)) 2 ∧
  (is_published table 2 ∨ is_acknowledged (pm_sent (pass quiet).2) 2).
Proof.
  assert (Hp : is_published (w_tables (pm_world (pass quiet).2)) 2).
  { eexists. split; [by vm_compute|]. by eexists. }
  split; [exact Hp|].
  exact (rows_published_on_acknowledgement_only to_vec read_envelope read_envelope parse_uuid
    Some (λ n, pretty n) (λ _, true) true (λ _, true) document resend 1048576 quiet _ _ 2
    (surjective_pairing _) (List.Forall_nil _) Hp).
Defined.
End OutboxWitness.
