(* ===== verification/ArchiveTables.v ===== *)
(** * The archive's tables ([schema.sql])

    The tables a privacy deletion reads and writes, grouped by concern, with
    the columns the modelled code uses; the foreign keys; and the shapes of
    statements over them.  A UUID is its canonical text, whose order is the
    order of the bytes. *)

From S2P Require Import Prelude Json Postgres OutboxTable.

#[local] Open Scope result_scope.

Abbreviation uuid := string (only parsing).

(** ** Evidence: what was received, and what each import did *)

(** [V] is the type of a stored [BlobRef]: a [JSONB] value. *)
Record archive_export (V : Type) : Type := ArchiveExport {
  xp_ai_archive_id : uuid;
  xp_account_id : uuid;
  xp_acquisition_mode : string;
  xp_blob_ref : V;
  xp_received_at : N;
}.
Arguments ArchiveExport {V} _ _ _ _ _.
Arguments xp_ai_archive_id {V} _.
Arguments xp_account_id {V} _.
Arguments xp_acquisition_mode {V} _.
Arguments xp_blob_ref {V} _.
Arguments xp_received_at {V} _.

Record artifact_row (V : Type) : Type := ArtifactRow {
  ar_export_id : uuid;
  ar_ordinal : N;
  ar_kind : string;
  ar_blob_ref : V;
  ar_sha256_hex : string;
  ar_byte_length : N;
}.
Arguments ArtifactRow {V} _ _ _ _ _ _.
Arguments ar_export_id {V} _.
Arguments ar_ordinal {V} _.
Arguments ar_kind {V} _.
Arguments ar_blob_ref {V} _.
Arguments ar_sha256_hex {V} _.
Arguments ar_byte_length {V} _.

Record run_row : Set := RunRow {
  rn_export_id : option uuid;
  rn_parser_name : option string;
  rn_parser_version : option string;
  rn_schema_id : option string;
  rn_state : string;
  rn_started_at : N;
  rn_finished_at : option N;
}.

Record report_row : Set := ReportRow {
  rp_import_run_id : uuid;
  rp_status : string;
  rp_counts : json;
  rp_warnings : json;
  rp_gaps : json;
  rp_missing_assets : N;
  rp_unknown_variants : N;
}.

(** [platform_operation_imports], by operation. *)
Record operation_row : Set := OperationRow {
  oi_import_run_id : uuid;
  oi_export_id : uuid;
  oi_reported_at : option N;
}.

Record reparse_row : Set := ReparseRow {
  rr_tenant_id : uuid;
  rr_export_id : uuid;
  rr_parser_name : string;
  rr_parser_version : string;
  rr_raw_sha256_hex : string;
  rr_registry_fingerprint : string;
  rr_input_projection_fingerprint : string;
  rr_status : string;
  rr_report : json;
  rr_started_at : N;
  rr_completed_at : option N;
}.

Record migration_row : Set := MigrationRow {
  mg_parser_name : string;
  mg_parser_version : string;
  mg_status : string;
  mg_report : json;
}.

(** [raw_records]: the export; [parser_migration_reports] by tenant and
    operation. *)
Record evidence (V : Type) : Type := Evidence {
  ev_exports : gmap uuid (archive_export V);
  ev_artifacts : gmap uuid (artifact_row V);
  ev_import_runs : gmap uuid run_row;
  ev_reports : gmap uuid report_row;
  ev_raw_records : gmap uuid uuid;
  ev_operations : gmap uuid operation_row;
  ev_reparse_runs : gmap uuid reparse_row;
  ev_migrations : gmap (uuid * uuid) migration_row;
}.
Arguments Evidence {V} _ _ _ _ _ _ _ _.
Arguments ev_exports {V} _.
Arguments ev_artifacts {V} _.
Arguments ev_import_runs {V} _.
Arguments ev_reports {V} _.
Arguments ev_raw_records {V} _.
Arguments ev_operations {V} _.
Arguments ev_reparse_runs {V} _.
Arguments ev_migrations {V} _.

(** ** The normalized records *)

Record project_row : Set := ProjectRow {
  prj_account_id : option uuid;
  prj_external_id : string;
  prj_title : option string;
  prj_description : option string;
  prj_instructions : option string;
  prj_first_seen_export : option uuid;
  prj_last_seen_export : option uuid;
  prj_parser_name : option string;
  prj_parser_version : option string;
  prj_content_digest : option string;
}.

(** Instants the provider stated are the bit pattern of their epoch seconds. *)
Record conversation_row : Set := ConversationRow {
  cnv_project_id : option uuid;
  cnv_account_id : option uuid;
  cnv_external_id : string;
  cnv_title : option string;
  cnv_first_seen_export : option uuid;
  cnv_last_seen_export : option uuid;
  cnv_provider_created_at : option N;
  cnv_provider_updated_at : option N;
  cnv_parser_name : option string;
  cnv_parser_version : option string;
  cnv_content_digest : option string;
}.

Record message_row : Set := MessageRow {
  ms_conversation_id : uuid;
  ms_external_id : option string;
  ms_parent_message_id : option uuid;
  ms_role : string;
  ms_model_slug : option string;
  ms_source_ordinal : option N;
  ms_created_at : option N;
  ms_updated_at : option N;
  ms_provider_metadata : json;
}.

Record relation_row : Set := RelationRow {
  rl_from_message_id : uuid;
  rl_to_message_id : uuid;
  rl_observed_in_export : option uuid;
}.

Record part_row (V : Type) : Type := PartRow {
  pt_message_id : uuid;
  pt_revision : N;
  pt_ordinal : N;
  pt_part_kind : string;
  pt_payload : json;
  pt_blob_ref : option V;
}.
Arguments PartRow {V} _ _ _ _ _ _.
Arguments pt_message_id {V} _.
Arguments pt_revision {V} _.
Arguments pt_ordinal {V} _.
Arguments pt_part_kind {V} _.
Arguments pt_payload {V} _.
Arguments pt_blob_ref {V} _.

Record asset_row (V : Type) : Type := AssetRow {
  ast_observed_in : option uuid;
  ast_blob_ref : option V;
}.
Arguments AssetRow {V} _ _.
Arguments ast_observed_in {V} _.
Arguments ast_blob_ref {V} _.

Record revision_row : Set := RevisionRow {
  rv_entity_table : string;
  rv_entity_id : uuid;
  rv_revision_number : N;
  rv_observed_in : uuid;
  rv_payload : json;
}.

(** [export_entity_observations] by export, kind and entity, with the digest
    of the version presented; [entity_versions] by kind, entity and digest,
    with the snapshot. *)
Abbreviation observation_key := (uuid * string * uuid)%type.
Abbreviation version_key := (string * uuid * string)%type.

Record normalized (V : Type) : Type := Normalized {
  nm_projects : gmap uuid project_row;
  nm_conversations : gmap uuid conversation_row;
  nm_messages : gmap uuid message_row;
  nm_relations : gmap uuid relation_row;
  nm_parts : gmap uuid (part_row V);
  nm_assets : gmap uuid (asset_row V);
  nm_revisions : gmap uuid revision_row;
  nm_observations : gmap observation_key (option string);
  nm_versions : gmap version_key json;
}.
Arguments Normalized {V} _ _ _ _ _ _ _ _ _.
Arguments nm_projects {V} _.
Arguments nm_conversations {V} _.
Arguments nm_messages {V} _.
Arguments nm_relations {V} _.
Arguments nm_parts {V} _.
Arguments nm_assets {V} _.
Arguments nm_revisions {V} _.
Arguments nm_observations {V} _.
Arguments nm_versions {V} _.

(** ** The privacy workflow *)

(** [R] is the type of a stored report. *)
Record request_row (V R : Type) : Type := RequestRow {
  rq_tenant_id : uuid;
  rq_scope_kind : string;
  rq_scope_id : option uuid;
  rq_status : string;
  rq_correlation_id : option uuid;
  rq_completion_report : option R;
  rq_evidence_ref : option V;
}.
Arguments RequestRow {V R} _ _ _ _ _ _ _.
Arguments rq_tenant_id {V R} _.
Arguments rq_scope_kind {V R} _.
Arguments rq_scope_id {V R} _.
Arguments rq_status {V R} _.
Arguments rq_correlation_id {V R} _.
Arguments rq_completion_report {V R} _.
Arguments rq_evidence_ref {V R} _.

Record item_row (V : Type) : Type := ItemRow {
  it_category : string;
  it_opaque_id : string;
  it_action : string;
  it_state : string;
  it_blob_ref : option V;
}.
Arguments ItemRow {V} _ _ _ _ _.
Arguments it_category {V} _.
Arguments it_opaque_id {V} _.
Arguments it_action {V} _.
Arguments it_state {V} _.
Arguments it_blob_ref {V} _.

Record audit_row (V : Type) : Type := AuditRow {
  ad_request_id : uuid;
  ad_tenant_id : uuid;
  ad_scope_kind : string;
  ad_category_counts : list (string * N);
  ad_evidence_ref : V;
  ad_correlation_id : option uuid;
  ad_completed_at : string;
}.
Arguments AuditRow {V} _ _ _ _ _ _ _.
Arguments ad_request_id {V} _.
Arguments ad_tenant_id {V} _.
Arguments ad_scope_kind {V} _.
Arguments ad_category_counts {V} _.
Arguments ad_evidence_ref {V} _.
Arguments ad_correlation_id {V} _.
Arguments ad_completed_at {V} _.

(** [privacy_deletion_items] by request and ordinal. *)
Record workflow (V R : Type) : Type := Workflow {
  wf_requests : gmap uuid (request_row V R);
  wf_items : gmap (uuid * N) (item_row V);
  wf_audits : gmap uuid (audit_row V);
}.
Arguments Workflow {V R} _ _ _.
Arguments wf_requests {V R} _.
Arguments wf_items {V R} _.
Arguments wf_audits {V R} _.

(** [announced_subjects] by kind, subject and owner. *)
Record announced_row : Set := AnnouncedRow {
  an_ai_archive_id : uuid;
  an_account_id : uuid;
  an_announced_at : N;
}.

(** [accounts] with the external reference; [inbox_events]: tenant and export. *)
Record atables (V R : Type) : Type := ATables {
  at_accounts : gmap uuid (option string);
  at_evidence : evidence V;
  at_normalized : normalized V;
  at_workflow : workflow V R;
  at_inbox : gmap N (option uuid * option uuid);
  at_outbox : otables;
  at_announced : gmap (string * uuid * string) announced_row;
}.
Arguments ATables {V R} _ _ _ _ _ _ _.
Arguments at_accounts {V R} _.
Arguments at_evidence {V R} _.
Arguments at_normalized {V R} _.
Arguments at_workflow {V R} _.
Arguments at_inbox {V R} _.
Arguments at_outbox {V R} _.
Arguments at_announced {V R} _.

(** ** Updates of one table *)

Section updates.
Context {V R : Type}.

#[local] Abbreviation evidence := (evidence V).
#[local] Abbreviation normalized := (normalized V).
#[local] Abbreviation workflow := (workflow V R).
#[local] Abbreviation atables := (atables V R).

Definition on_accounts (f : gmap uuid (option string) → gmap uuid (option string)) (t : atables) : atables :=
  ATables (f (at_accounts t)) (at_evidence t) (at_normalized t) (at_workflow t) (at_inbox t)
    (at_outbox t) (at_announced t).
Definition on_evidence (f : evidence → evidence) (t : atables) : atables :=
  ATables (at_accounts t) (f (at_evidence t)) (at_normalized t) (at_workflow t) (at_inbox t)
    (at_outbox t) (at_announced t).
Definition on_normalized (f : normalized → normalized) (t : atables) : atables :=
  ATables (at_accounts t) (at_evidence t) (f (at_normalized t)) (at_workflow t) (at_inbox t)
    (at_outbox t) (at_announced t).
Definition on_workflow (f : workflow → workflow) (t : atables) : atables :=
  ATables (at_accounts t) (at_evidence t) (at_normalized t) (f (at_workflow t)) (at_inbox t)
    (at_outbox t) (at_announced t).
Definition on_inbox (f : gmap N (option uuid * option uuid) → gmap N (option uuid * option uuid))
    (t : atables) : atables :=
  ATables (at_accounts t) (at_evidence t) (at_normalized t) (at_workflow t) (f (at_inbox t))
    (at_outbox t) (at_announced t).
Definition on_outbox (f : otables → otables) (t : atables) : atables :=
  ATables (at_accounts t) (at_evidence t) (at_normalized t) (at_workflow t) (at_inbox t)
    (f (at_outbox t)) (at_announced t).
Definition on_announced f (t : atables) : atables :=
  ATables (at_accounts t) (at_evidence t) (at_normalized t) (at_workflow t) (at_inbox t)
    (at_outbox t) (f (at_announced t)).

Definition on_exports f (e : evidence) : evidence :=
  Evidence (f (ev_exports e)) (ev_artifacts e) (ev_import_runs e) (ev_reports e)
    (ev_raw_records e) (ev_operations e) (ev_reparse_runs e) (ev_migrations e).
Definition on_artifacts f (e : evidence) : evidence :=
  Evidence (ev_exports e) (f (ev_artifacts e)) (ev_import_runs e) (ev_reports e)
    (ev_raw_records e) (ev_operations e) (ev_reparse_runs e) (ev_migrations e).
Definition on_import_runs f (e : evidence) : evidence :=
  Evidence (ev_exports e) (ev_artifacts e) (f (ev_import_runs e)) (ev_reports e)
    (ev_raw_records e) (ev_operations e) (ev_reparse_runs e) (ev_migrations e).
Definition on_reports f (e : evidence) : evidence :=
  Evidence (ev_exports e) (ev_artifacts e) (ev_import_runs e) (f (ev_reports e))
    (ev_raw_records e) (ev_operations e) (ev_reparse_runs e) (ev_migrations e).
Definition on_raw_records f (e : evidence) : evidence :=
  Evidence (ev_exports e) (ev_artifacts e) (ev_import_runs e) (ev_reports e)
    (f (ev_raw_records e)) (ev_operations e) (ev_reparse_runs e) (ev_migrations e).
Definition on_operations f (e : evidence) : evidence :=
  Evidence (ev_exports e) (ev_artifacts e) (ev_import_runs e) (ev_reports e)
    (ev_raw_records e) (f (ev_operations e)) (ev_reparse_runs e) (ev_migrations e).
Definition on_reparse_runs f (e : evidence) : evidence :=
  Evidence (ev_exports e) (ev_artifacts e) (ev_import_runs e) (ev_reports e)
    (ev_raw_records e) (ev_operations e) (f (ev_reparse_runs e)) (ev_migrations e).
Definition on_migrations f (e : evidence) : evidence :=
  Evidence (ev_exports e) (ev_artifacts e) (ev_import_runs e) (ev_reports e)
    (ev_raw_records e) (ev_operations e) (ev_reparse_runs e) (f (ev_migrations e)).

Definition on_projects f (n : normalized) : normalized :=
  Normalized (f (nm_projects n)) (nm_conversations n) (nm_messages n) (nm_relations n)
    (nm_parts n) (nm_assets n) (nm_revisions n) (nm_observations n) (nm_versions n).
Definition on_conversations f (n : normalized) : normalized :=
  Normalized (nm_projects n) (f (nm_conversations n)) (nm_messages n) (nm_relations n)
    (nm_parts n) (nm_assets n) (nm_revisions n) (nm_observations n) (nm_versions n).
Definition on_messages f (n : normalized) : normalized :=
  Normalized (nm_projects n) (nm_conversations n) (f (nm_messages n)) (nm_relations n)
    (nm_parts n) (nm_assets n) (nm_revisions n) (nm_observations n) (nm_versions n).
Definition on_relations f (n : normalized) : normalized :=
  Normalized (nm_projects n) (nm_conversations n) (nm_messages n) (f (nm_relations n))
    (nm_parts n) (nm_assets n) (nm_revisions n) (nm_observations n) (nm_versions n).
Definition on_parts f (n : normalized) : normalized :=
  Normalized (nm_projects n) (nm_conversations n) (nm_messages n) (nm_relations n)
    (f (nm_parts n)) (nm_assets n) (nm_revisions n) (nm_observations n) (nm_versions n).
Definition on_assets f (n : normalized) : normalized :=
  Normalized (nm_projects n) (nm_conversations n) (nm_messages n) (nm_relations n)
    (nm_parts n) (f (nm_assets n)) (nm_revisions n) (nm_observations n) (nm_versions n).
Definition on_revisions f (n : normalized) : normalized :=
  Normalized (nm_projects n) (nm_conversations n) (nm_messages n) (nm_relations n)
    (nm_parts n) (nm_assets n) (f (nm_revisions n)) (nm_observations n) (nm_versions n).
Definition on_observations f (n : normalized) : normalized :=
  Normalized (nm_projects n) (nm_conversations n) (nm_messages n) (nm_relations n)
    (nm_parts n) (nm_assets n) (nm_revisions n) (f (nm_observations n)) (nm_versions n).
Definition on_versions f (n : normalized) : normalized :=
  Normalized (nm_projects n) (nm_conversations n) (nm_messages n) (nm_relations n)
    (nm_parts n) (nm_assets n) (nm_revisions n) (nm_observations n) (f (nm_versions n)).

Definition on_requests f (w : workflow) : workflow :=
  Workflow (f (wf_requests w)) (wf_items w) (wf_audits w).
Definition on_items f (w : workflow) : workflow :=
  Workflow (wf_requests w) (f (wf_items w)) (wf_audits w).
Definition on_audits f (w : workflow) : workflow :=
  Workflow (wf_requests w) (wf_items w) (f (wf_audits w)).

(** ** Foreign keys *)

(** Every reference of the children resolves. *)
Definition resolves {I A B} `{Countable I, Countable J} (ref : A → option J) (children : gmap I A)
    (parents : gmap J B) : bool :=
  forallb (λ r : I * A, match ref r.2 with
                        | Some id => bool_decide (is_Some (parents !! id))
                        | None => true
                        end) (map_to_list children).

Definition belongs {I A} `{Countable I} (ref : A → option uuid) (children : gmap I A)
    (accounts : gmap uuid (option string)) : bool :=
  forallb (λ r : I * A, match ref r.2 with
                        | Some id => bool_decide (is_Some (accounts !! id))
                        | None => true
                        end) (map_to_list children).

(** Every reference of the schema; the ones of [HANDLED_REFERENCES] first, then
    the ones that cascade. *)
Definition fk_ok (t : atables) : bool :=
  let e := at_evidence t in
  let n := at_normalized t in
  belongs (λ x, Some (xp_account_id x)) (ev_exports e) (at_accounts t)
  && belongs prj_account_id (nm_projects n) (at_accounts t)
  && belongs cnv_account_id (nm_conversations n) (at_accounts t)
  && resolves rn_export_id (ev_import_runs e) (ev_exports e)
  && resolves (λ r, Some (rp_import_run_id r)) (ev_reports e) (ev_import_runs e)
  && resolves Some (ev_raw_records e) (ev_exports e)
  && resolves (λ r, Some (rv_observed_in r)) (nm_revisions n) (ev_exports e)
  && resolves rl_observed_in_export (nm_relations n) (ev_exports e)
  && resolves (λ r, Some (rl_from_message_id r)) (nm_relations n) (nm_messages n)
  && resolves (λ r, Some (rl_to_message_id r)) (nm_relations n) (nm_messages n)
  && resolves (λ r, Some (ms_conversation_id r)) (nm_messages n) (nm_conversations n)
  && resolves (λ r, Some (pt_message_id r)) (nm_parts n) (nm_messages n)
  && resolves ms_parent_message_id (nm_messages n) (nm_messages n)
  && resolves (λ o, Some (oi_import_run_id o)) (ev_operations e) (ev_import_runs e)
  && resolves (λ o, Some (oi_export_id o)) (ev_operations e) (ev_exports e)
  && resolves (λ r, Some (rr_export_id r)) (ev_reparse_runs e) (ev_exports e)
  && resolves prj_first_seen_export (nm_projects n) (ev_exports e)
  && resolves prj_last_seen_export (nm_projects n) (ev_exports e)
  && resolves cnv_first_seen_export (nm_conversations n) (ev_exports e)
  && resolves cnv_last_seen_export (nm_conversations n) (ev_exports e)
  && resolves ast_observed_in (nm_assets n) (ev_exports e)
  && resolves cnv_project_id (nm_conversations n) (nm_projects n)
  && forallb (λ r : observation_key * option string, bool_decide (is_Some (ev_exports e !! r.1.1.1)))
       (map_to_list (nm_observations n))
  && resolves (λ a, Some (ar_export_id a)) (ev_artifacts e) (ev_exports e)
  && resolves (λ r : outbox_row, ft_export_id r.1) (ot_rows (at_outbox t)) (ev_exports e)
  && resolves snd (at_inbox t) (ev_exports e)
  && belongs (λ a, Some (an_account_id a)) (at_announced t) (at_accounts t)
  && forallb (λ r : (uuid * N) * item_row V, bool_decide (is_Some (wf_requests (at_workflow t) !! r.1.1)))
       (map_to_list (wf_items (at_workflow t)))
  && resolves (λ a, Some (ad_request_id a)) (wf_audits (at_workflow t)) (wf_requests (at_workflow t)).

(** ** Statements *)

#[local] Abbreviation sql A := (atables → result sql_error (A * atables)).

Definition reading {A} (f : atables → A) : sql A := λ t, Ok (f t, t).

(** [fetch_one]: an error when there is no row. *)
Definition fetch_one {A} (f : atables → option A) : sql A := λ t,
  match f t with Some a => Ok (a, t) | None => Err SqlError end.

(** A writing statement, [None] when a key is taken: refused then, and when a
    reference would dangle after it. *)
Definition writing {A} (f : atables → option (A * atables)) : sql A := λ t,
  match f t with
  | Some (a, t') => if fk_ok t' then Ok (a, t') else Err SqlError
  | None => Err SqlError
  end.

Definition write (f : atables → atables) : sql unit := writing (λ t, Some (tt, f t)).

(** A statement on the outbox alone. *)
Definition on_outbox_sql {A} (op : OutboxTable.sql A) : sql A := λ t,
  match op (at_outbox t) with
  | Ok (a, o) =>
      let t' := on_outbox (λ _, o) t in if fk_ok t' then Ok (a, t') else Err SqlError
  | Err e => Err e
  end.

(** A computation of a transaction's body on the outbox alone. *)
Definition in_outbox {E A} (c : sm (world otables) E A) : sm (world atables) E A :=
  zoom at_outbox (λ o, on_outbox (λ _, o)) c.

(** [... WHERE id = ANY($1)]. *)
Definition delete_ids {I A} `{Countable I} (ids : list I) (m : gmap I A) : gmap I A :=
  filter (λ r, r.1 ∉ ids) m.
End updates.

(** Rows in the order of their key. *)
Definition rows_by_key {I A} `{Countable I, Ord I} (m : gmap I A) : list (I * A) :=
  sort_by (cmp_on (λ r : I * A, r.1)) (map_to_list m).

(** The keys of the rows that satisfy [P], in order. *)
Definition ids_where {I A} `{Countable I, Ord I} (P : A → bool) (m : gmap I A) : list I :=
  (filter (λ r : I * A, P r.2 = true) (rows_by_key m)).*1.

(** Every row stays, changed along [P] at most. *)
Definition rows_kept {I A} `{Countable I} (P : A → A → Prop) (m m' : gmap I A) : Prop :=
  ∀ id a, m !! id = Some a → ∃ a', m' !! id = Some a' ∧ P a a'.

#[export] Instance rows_kept_preorder {I A} `{Countable I} (P : A → A → Prop) `{!PreOrder P} :
  PreOrder (rows_kept (I := I) P).
Proof.
  split; [intros m id a Ha; by exists a|]. intros m1 m2 m3 H12 H23 id a (b & Hb & ?)%H12.
  apply H23 in Hb as (c & Hc & ?). exists c. split; [done|]. by etrans.
Qed.

Lemma rows_kept_insert {I A} `{Countable I} (P : A → A → Prop) `{!PreOrder P} (m : gmap I A) id a :
  (∀ b, m !! id = Some b → P b a) → rows_kept P m (<[id := a]> m).
Proof.
  intros Ha i b Hb. destruct (decide (i = id)) as [->|Hne]; [exists a|exists b].
  - by rewrite lookup_insert_eq; auto.
  - by rewrite lookup_insert_ne.
Qed.

Lemma rows_kept_alter {I A} `{Countable I} (P : A → A → Prop) `{!PreOrder P} (m : gmap I A) id f :
  (∀ b, P b (f b)) → rows_kept P m (alter f id m).
Proof.
  intros Hf i b Hb. destruct (decide (i = id)) as [->|Hne]; [exists (f b)|exists b].
  - rewrite lookup_alter_eq, Hb. by split.
  - by rewrite lookup_alter_ne.
Qed.

(** ** What statements do

    The blobs rows name, and the blobs listed by deletion items. *)

Definition names {V R} (t : atables V R) (v : V) : Prop :=
  (∃ id x, ev_exports (at_evidence t) !! id = Some x ∧ xp_blob_ref x = v) ∨
  (∃ id a, ev_artifacts (at_evidence t) !! id = Some a ∧ ar_blob_ref a = v) ∨
  (∃ id a, nm_assets (at_normalized t) !! id = Some a ∧ ast_blob_ref a = Some v) ∨
  (∃ id p, nm_parts (at_normalized t) !! id = Some p ∧ pt_blob_ref p = Some v).

Definition listed {V R} (t : atables V R) (v : V) : Prop :=
  ∃ k i, wf_items (at_workflow t) !! k = Some i ∧ it_blob_ref i = Some v.

(** No blob is named or listed anew; the outbox moves along [O]. *)
Record effect {V R} (O : otables → otables → Prop) (t t' : atables V R) : Prop := Effect {
  ef_names v : names t' v → names t v;
  ef_listed v : listed t' v → listed t v;
  ef_outbox : O (at_outbox t) (at_outbox t');
}.

Section effects.
Context {V R : Type}.

#[local] Abbreviation atables := (atables V R).

#[export] Instance effect_preorder (O : otables → otables → Prop) `{!PreOrder O} :
  PreOrder (effect (V := V) (R := R) O).
Proof.
  split; [by intros t|]. intros a b c [? ? Hab] [? ? Hbc]. split; [auto..|]. by etrans.
Qed.

Lemma effect_mono (O O' : otables → otables → Prop) (t t' : atables) :
  (∀ o o', O o o' → O' o o') → effect O t t' → effect O' t t'.
Proof. intros HO []. split; auto. Qed.

Lemma inside_mono (Q Q' : atables → atables → Prop) w w' :
  (∀ t t', Q t t' → Q' t t') → inside Q w w' → inside Q' w w'.
Proof. intros HQ (? & ? & ?). split_and!; auto. Qed.

Lemma stable_inside_mono (Q Q' : atables → atables → Prop) {E A} (c : sm (world atables) E A) :
  (∀ t t', Q t t' → Q' t t') → stable (inside Q) c → stable (inside Q') c.
Proof. intros HQ Hc w r w' H%Hc. by eapply inside_mono. Qed.

(** The tables that name or list blobs only lose rows. *)
Lemma effect_sub (O : otables → otables → Prop) (t t' : atables) :
  ev_exports (at_evidence t') ⊆ ev_exports (at_evidence t) →
  ev_artifacts (at_evidence t') ⊆ ev_artifacts (at_evidence t) →
  nm_assets (at_normalized t') ⊆ nm_assets (at_normalized t) →
  nm_parts (at_normalized t') ⊆ nm_parts (at_normalized t) →
  wf_items (at_workflow t') ⊆ wf_items (at_workflow t) →
  O (at_outbox t) (at_outbox t') → effect O t t'.
Proof.
  intros H1 H2 H3 H4 H5 HO. split; [| |done].
  - intros v [(i & x & Hx & ?)|[(i & x & Hx & ?)|[(i & x & Hx & ?)|(i & x & Hx & ?)]]].
    + left. eauto using lookup_weaken.
    + right; left. eauto using lookup_weaken.
    + do 2 right; left. eauto using lookup_weaken.
    + do 3 right. eauto using lookup_weaken.
  - intros v (k & i & Hi & ?). exists k, i. eauto using lookup_weaken.
Qed.

(** The rows that name blobs stay, those that list blobs keep them. *)
Lemma effect_items (O : otables → otables → Prop) (t : atables) (f : gmap (uuid * N) (item_row V) → gmap (uuid * N) (item_row V)) :
  (∀ k i', f (wf_items (at_workflow t)) !! k = Some i' →
     ∃ i, wf_items (at_workflow t) !! k = Some i ∧ it_blob_ref i' = it_blob_ref i) →
  O (at_outbox t) (at_outbox t) → effect O t (on_workflow (on_items f) t).
Proof.
  intros Hf HO. split; [done| |done]. intros v (k & i' & Hi & Hv). cbn in Hi.
  destruct (Hf _ _ Hi) as (i & Hi' & E). exists k, i. split; [done|congruence].
Qed.

Section inside.
Context (Q : atables → atables → Prop) `{!PreOrder Q}.

Lemma inside_reading {A} (f : atables → A) : stable (inside Q) (statement (reading f)).
Proof. apply inside_statement; [done|]. by intros t a t' [= _ <-]. Qed.

Lemma inside_fetch_one {A} (f : atables → option A) : stable (inside Q) (statement (fetch_one f)).
Proof.
  apply inside_statement; [done|]. intros t a t'. unfold fetch_one. by destruct (f t); intros [= _ <-].
Qed.

Lemma inside_writing {A} (f : atables → option (A * atables)) :
  (∀ t a t', f t = Some (a, t') → Q t t') → stable (inside Q) (statement (writing f)).
Proof.
  intros Hf. apply inside_statement; [done|]. intros t a t'. unfold writing.
  destruct (f t) as [[b u]|] eqn:E; [|done]. destruct (fk_ok u); intros [= <- <-]. by eapply Hf.
Qed.

Lemma inside_write (f : atables → atables) :
  (∀ t, Q t (f t)) → stable (inside Q) (statement (write f)).
Proof. intros Hf. apply inside_writing. by intros t a t' [= <- <-]. Qed.

Lemma inside_take_lock l : stable (inside (T := atables) Q) (take_lock l).
Proof.
  intros w r w'. unfold take_lock. destruct (next_fault w); intros [= <- <-]; by split_and!.
Qed.
End inside.

(** A computation on the outbox. *)
Lemma in_outbox_inv {E A} (c : sm (world otables) E A) (w : world atables) r w' :
  in_outbox c w = (r, w') →
  ∃ u u', c u = (r, u') ∧ w_tables u = at_outbox (w_tables w) ∧ w_disk u = w_disk w ∧ w_others u = [] ∧
    w_tables w' = on_outbox (λ _, w_tables u') (w_tables w) ∧ w_disk w' = w_disk u' ∧
    w_others w' = w_others w.
Proof.
  unfold in_outbox, zoom. intros H. set (u := World _ _ _) in H.
  destruct (c u) as [x u'] eqn:E'. injection H as <- <-. exists u, u'. by split_and!.
Qed.

Lemma on_outbox_effect (O : otables → otables → Prop) (t : atables) o :
  O (at_outbox t) o → effect O t (on_outbox (λ _, o) t).
Proof. by split. Qed.

Lemma inside_in_outbox (O : otables → otables → Prop) {E A} (c : sm (world otables) E A) :
  stable (inside O) c → stable (inside (effect (V := V) (R := R) O)) (in_outbox c).
Proof.
  intros Hc w r w' (u & u' & Hu & Ht & Hd & Ho & Et & Ed & Eo)%in_outbox_inv.
  apply Hc in Hu as (? & ? & HO). rewrite Ht in HO.
  split_and!; [congruence|done|]. rewrite Et. by apply on_outbox_effect.
Qed.

Lemma inside_on_outbox_sql (O : otables → otables → Prop) `{!PreOrder O} {A} (op : OutboxTable.sql A) :
  (∀ o a o', op o = Ok (a, o') → O o o') →
  stable (inside (effect (V := V) (R := R) O)) (statement (on_outbox_sql op)).
Proof.
  intros Hop. apply inside_statement; [apply _|]. intros t a t'. unfold on_outbox_sql.
  destruct (op (at_outbox t)) as [[b o]|] eqn:E; [|done]. case_match; intros [= <- <-].
  by eapply on_outbox_effect, Hop.
Qed.
End effects.

(** What a successful statement did. *)
Lemma statement_reading_Ok {V R A} (f : atables V R → A) w a w' :
  statement (reading f) w = (Ok a, w') → a = f (w_tables w) ∧ w_tables w' = w_tables w.
Proof. intros (_ & _ & [= <- ->])%statement_inv. done. Qed.

Lemma statement_fetch_one_Ok {V R A} (f : atables V R → option A) w a w' :
  statement (fetch_one f) w = (Ok a, w') → f (w_tables w) = Some a ∧ w_tables w' = w_tables w.
Proof.
  intros (_ & _ & H)%statement_inv. unfold fetch_one in H. destruct (f (w_tables w)) as [b|]; [|done].
  by injection H as -> ->.
Qed.

Lemma statement_writing_Ok {V R A} (f : atables V R → option (A * atables V R)) w a w' :
  statement (writing f) w = (Ok a, w') → f (w_tables w) = Some (a, w_tables w') ∧ fk_ok (w_tables w') = true.
Proof.
  intros (_ & _ & H)%statement_inv. unfold writing in H.
  destruct (f (w_tables w)) as [[b u]|]; [|done]. destruct (fk_ok u) eqn:E; [|done]. injection H as -> <-. done.
Qed.

Lemma statement_write_Ok {V R} (f : atables V R → atables V R) w a w' :
  statement (write f) w = (Ok a, w') → w_tables w' = f (w_tables w) ∧ fk_ok (w_tables w') = true.
Proof. unfold write. intros [H ?]%statement_writing_Ok. split; [|done]. by injection H. Qed.

#[export] Hint Resolve inside_reading inside_fetch_one inside_take_lock : stable.
