(* ===== verification/NormalizedStore.v ===== *)
(** * Writing the normalized records ([entity_versions.rs],
      [normalized_persist.rs])

    The versions each export presented, and the writers the initial import,
    a reparse and a deletion's restoration share. *)

From S2P Require Import Prelude BTree Disk BlobStore Registry Json Parser Postgres OutboxTable.
From S2P Require Import ArchiveTables.

#[local] Open Scope result_scope.

(** ** Values *)

Definition PROJECT : string := "project".
Definition CONVERSATION : string := "conversation".

Record project_version : Set := ProjectVersion {
  pjv_title : option string;
  pjv_description : option string;
  pjv_instructions : option string;
  pjv_parser_name : string;
  pjv_parser_version : string;
}.

Record conversation_version : Set := ConversationVersion {
  cvn_conversation : parsed_conversation;
  cvn_project_external_id : option string;
  cvn_parser_name : string;
  cvn_parser_version : string;
}.

Inductive version_error : Set := VStore | VEncode.

(** The bit pattern of [MAX_EPOCH_SECONDS], 253402300799.0, and of -0.0. *)
Definition MAX_EPOCH_SECONDS : N := 4777615491977936896.
Definition negative_zero : N := 9223372036854775808.

(** Finite doubles from 0.0 on are ordered as their bit patterns. *)
Definition storable_epoch (seconds : option N) : option N :=
  bits ← seconds;
  if (bits <=? MAX_EPOCH_SECONDS)%N || (bits =? negative_zero)%N then Some bits else None.

Definition i32_max : N := 2147483647.

(** The [role] and [part_kind] columns. *)
Definition role_text (role : message_role) : string :=
  match role with
  | System => "system" | User => "user" | Assistant => "assistant" | Tool => "tool"
  | Internal => "internal" | UnknownRole => "unknown"
  end.

Definition content_kind (kind : content_part_kind) : string :=
  match kind with
  | PText => "text" | ToolCall => "tool_call" | ToolResult => "tool_result" | Image => "image"
  | File => "file" | UnknownPart => "unknown"
  end.

(** The first project that lists the conversation. *)
Definition project_external_id_of (parsed : parsed_conversations) (external_id : string)
    : option string :=
  pp_external_id <$> find (λ p, existsb (String.eqb external_id) (pp_conversation_external_ids p))
                       (pcs_projects parsed).

Definition project_of_conversation (parsed : parsed_conversations)
    (projects : list (string * uuid)) (external_id : string) : option uuid :=
  e ← project_external_id_of parsed external_id; bt_get e projects.

Section store.
(** [Value::to_string], SHA-256 in hexadecimal; the derived [Serialize] and
    SQL's text of a JSON value; the text of a new UUID. *)
Context (to_string : json → string) (sha256_hex : string → string).
Context (encode_project : project_version → option json).
Context (encode_conversation : conversation_version → option json).
Context (render : json → string) (new_uuid : N → uuid).
(** [to_timestamp] of epoch seconds, given as their bit pattern. *)
Context (to_timestamp : N → N).
Context {V R : Type}.

#[local] Abbreviation atables := (atables V R).
#[local] Abbreviation sql A := (atables → result sql_error (A * atables)).
#[local] Abbreviation tx := (sm (world atables)).

(** ** Versions ([entity_versions.rs]) *)

Definition version_digest (v : project_version) : string :=
  sha256_hex (to_string (JArray [json_option JString (pjv_title v); json_option JString (pjv_description v);
                                 json_option JString (pjv_instructions v)])).

(** Some export presents this version. *)
Definition presented (n : normalized V) (kind : string) (entity : uuid) (digest : string) : bool :=
  existsb (λ o : observation_key * option string,
    String.eqb o.1.1.2 kind && String.eqb o.1.2 entity && bool_decide (o.2 = Some digest))
    (map_to_list (nm_observations n)).

(** [DELETE ... WHERE kind AND entity AND digest <> $3 AND NOT EXISTS (...)]. *)
Definition drop_versions (kind : string) (entity : uuid) (keep : string → bool) (n : normalized V)
    : normalized V :=
  on_versions (filter (λ v : version_key * json,
    negb (String.eqb v.1.1.1 kind && String.eqb v.1.1.2 entity && negb (keep v.1.2)
          && negb (presented n v.1.1.1 v.1.1.2 v.1.2)) = true)) n.

Definition observe (export_id : uuid) (kind : string) (entity : uuid) (digest : string)
    : tx sql_error unit :=
  let! _ := statement (write (on_normalized (on_observations <[(export_id, kind, entity) := Some digest]>))) in
  statement (write (on_normalized (drop_versions kind entity (String.eqb digest)))).

(** [INSERT ... ON CONFLICT DO NOTHING]. *)
Definition insert_new {I A} `{Countable I} (key : I) (a : A) (m : gmap I A) : gmap I A :=
  match m !! key with Some _ => m | None => <[key := a]> m end.

Definition keep_snapshot (kind : string) (entity : uuid) (digest : string) (snapshot : json)
    : tx sql_error unit :=
  statement (write (on_normalized (on_versions (insert_new (kind, entity, digest) snapshot)))).

Definition keep_project_version (project_id : uuid) (version : project_version)
    : tx version_error unit :=
  let! snapshot := slift (ok_or VEncode (encode_project version)) in
  smap_err (λ _, VStore) (keep_snapshot PROJECT project_id (version_digest version) snapshot).

(** [UPDATE conversations SET ... WHERE id = $1]. *)
Definition update_conversation (id : uuid) (f : conversation_row → conversation_row) : sql unit :=
  write (on_normalized (on_conversations (alter f id))).

Definition set_conversation_digest (conversation_id : uuid) (digest : string) : tx sql_error unit :=
  statement (update_conversation conversation_id (λ c,
    ConversationRow (cnv_project_id c) (cnv_account_id c) (cnv_external_id c) (cnv_title c)
      (cnv_first_seen_export c) (cnv_last_seen_export c) (cnv_provider_created_at c)
      (cnv_provider_updated_at c) (cnv_parser_name c) (cnv_parser_version c) (Some digest))).

Definition keep_conversation_version (conversation_id : uuid) (digest : string)
    (version : conversation_version) : tx version_error unit :=
  let! snapshot := slift (ok_or VEncode (encode_conversation version)) in
  let! _ := smap_err (λ _, VStore) (keep_snapshot CONVERSATION conversation_id digest snapshot) in
  smap_err (λ _, VStore) (set_conversation_digest conversation_id digest).

Definition CONVERSATIONS_TABLE : string := "conversations".

(** The revisions of a conversation, the latest first. *)
Definition revisions_of (conversation_id : uuid) (t : atables) : list revision_row :=
  sort_by (λ a b, cmp (rv_revision_number b) (rv_revision_number a))
    (filter (λ r, rv_entity_table r = CONVERSATIONS_TABLE ∧ rv_entity_id r = conversation_id)
       (map_to_list (nm_revisions (at_normalized t))).*2).

Definition latest_digest (conversation_id : uuid) (t : atables) : option string :=
  r ← head (revisions_of conversation_id t); sql_text render "digest" (rv_payload r).

Definition revision_payload (digest : string) (parser : string * string) : json :=
  JObject [("digest", JString digest); ("parser_name", JString parser.1);
           ("parser_version", JString parser.2)].

(** The number of the new row is one more than the latest; [UNIQUE] cannot
    fail, the primary key can. *)
Definition insert_revision (id conversation_id export_id : uuid) (payload : json) : sql unit :=
  writing (λ t,
    let number := from_option (λ r, (rv_revision_number r + 1)%N) 1%N (head (revisions_of conversation_id t)) in
    match nm_revisions (at_normalized t) !! id with
    | Some _ => None
    | None => Some (tt, on_normalized (on_revisions
        <[id := RevisionRow CONVERSATIONS_TABLE conversation_id number export_id payload]>) t)
    end).

Definition append_revision (conversation_id export_id : uuid) (digest : string)
    (parser : string * string) : tx sql_error unit :=
  let! latest := statement (reading (latest_digest conversation_id)) in
  if bool_decide (latest = Some digest) then sret tt
  else
    let! id := mint in
    statement (insert_revision (new_uuid id) conversation_id export_id (revision_payload digest parser)).

(** ** Writers ([normalized_persist.rs]) *)

Definition content_text (content : json) : string :=
  match content with JString text => text | other => to_string other end.

Definition blank_line : string := String "010" (String "010" "").

Definition instruction_text (project : parsed_project) : option string :=
  let instructions := sort_by (cmp_on pin_ordinal) (pp_instructions project) in
  match content_text ∘ pin_content <$> instructions with
  | [] => None
  | texts => Some (join blank_line texts)
  end.

(** The row with the provider's identity. *)
Definition project_with (account_id : uuid) (external_id : string) (n : normalized V) : option uuid :=
  fst <$> find (λ r : uuid * project_row,
    bool_decide (prj_account_id r.2 = Some account_id) && String.eqb (prj_external_id r.2) external_id)
    (map_to_list (nm_projects n)).

(** The stamp stays while the content does. *)
Definition kept_stamp (row : project_row) (digest : string) (old : option string) (new : string)
    : option string :=
  if bool_decide (prj_content_digest row = Some digest) then Some (default new old) else Some new.

Definition upserted_project (v : project_version) (digest : string) (export_id : uuid) (row : project_row)
    : project_row :=
  ProjectRow (prj_account_id row) (prj_external_id row) (pjv_title v) (pjv_description v)
    (pjv_instructions v) (Some (default export_id (prj_first_seen_export row))) (Some export_id)
    (kept_stamp row digest (prj_parser_name row) (pjv_parser_name v))
    (kept_stamp row digest (prj_parser_version row) (pjv_parser_version v)) (Some digest).

(** [INSERT ... ON CONFLICT (account_id, external_id) DO UPDATE ... RETURNING]. *)
Definition upsert_project (new_id tenant_id export_id : uuid) (external_id : string)
    (v : project_version) (digest : string) : sql (uuid * option string * option string) :=
  writing (λ t,
    let projects := nm_projects (at_normalized t) in
    match id ← project_with tenant_id external_id (at_normalized t); row ← projects !! id; Some (id, row) with
    | Some (id, row) =>
        let row := upserted_project v digest export_id row in
        Some ((id, prj_parser_name row, prj_parser_version row),
              on_normalized (on_projects <[id := row]>) t)
    | None =>
        match projects !! new_id with
        | Some _ => None
        | None =>
            let row := ProjectRow (Some tenant_id) external_id (pjv_title v) (pjv_description v)
              (pjv_instructions v) (Some export_id) (Some export_id) (Some (pjv_parser_name v))
              (Some (pjv_parser_version v)) (Some digest) in
            Some ((new_id, prj_parser_name row, prj_parser_version row),
                  on_normalized (on_projects <[new_id := row]>) t)
        end
    end).

Definition persist_project (tenant_id export_id : uuid) (parser : parser_id) (project : parsed_project)
    : tx version_error uuid :=
  let version := ProjectVersion (pp_title project) (pp_description project) (instruction_text project)
                   (pi_name parser) (pi_version parser) in
  let digest := version_digest version in
  let! new_id := mint in
  let! (id, stamp_name, stamp_version) := smap_err (λ _, VStore) (statement
    (upsert_project (new_uuid new_id) tenant_id export_id (pp_external_id project) version digest)) in
  let version := ProjectVersion (pjv_title version) (pjv_description version) (pjv_instructions version)
                   (default (pjv_parser_name version) stamp_name)
                   (default (pjv_parser_version version) stamp_version) in
  let! _ := smap_err (λ _, VStore) (observe export_id PROJECT id digest) in
  let! _ := keep_project_version id version in
  sret id.

Fixpoint persist_projects_loop (tenant_id export_id : uuid) (parser : parser_id)
    (projects : list parsed_project) (ids : list (string * uuid))
    : tx version_error (list (string * uuid)) :=
  match projects with
  | [] => sret ids
  | project :: rest =>
      let! id := persist_project tenant_id export_id parser project in
      persist_projects_loop tenant_id export_id parser rest (bt_insert (pp_external_id project) id ids)
  end.

Definition persist_projects (tenant_id export_id : uuid) (parsed : parsed_conversations)
    (parser : parser_id) : tx version_error (list (string * uuid)) :=
  persist_projects_loop tenant_id export_id parser (pcs_projects parsed) [].

Definition stored_instant (seconds : option N) : option N := to_timestamp <$> storable_epoch seconds.

Definition message_with (conversation_id : uuid) (external_id : string) (n : normalized V)
    : option (uuid * message_row) :=
  find (λ r : uuid * message_row,
    String.eqb (ms_conversation_id r.2) conversation_id
    && bool_decide (ms_external_id r.2 = Some external_id)) (map_to_list (nm_messages n)).

Definition written_message (conversation_id : uuid) (parent : option uuid) (ordinal : nat)
    (m : parsed_message) : message_row :=
  MessageRow conversation_id (Some (pm_external_id m)) parent (role_text (pm_role m))
    (pm_model_slug m) (Some (N.min (N.of_nat ordinal) i32_max)) (stored_instant (pm_created m))
    (stored_instant (pm_updated m)) (pm_provider_metadata m).

(** [INSERT ... ON CONFLICT (conversation_id, external_id) DO UPDATE ... RETURNING id]. *)
Definition upsert_message (new_id conversation_id : uuid) (ordinal : nat) (m : parsed_message) : sql uuid :=
  writing (λ t,
    match message_with conversation_id (pm_external_id m) (at_normalized t) with
    | Some (id, row) =>
        Some (id, on_normalized (on_messages
          <[id := written_message conversation_id (ms_parent_message_id row) ordinal m]>) t)
    | None =>
        match nm_messages (at_normalized t) !! new_id with
        | Some _ => None
        | None => Some (new_id, on_normalized (on_messages
            <[new_id := written_message conversation_id None ordinal m]>) t)
        end
    end).

Definition persist_message (export_id conversation_id : uuid) (ordinal : nat) (m : parsed_message)
    : tx sql_error uuid :=
  let! new_id := mint in
  let! id := statement (upsert_message (new_uuid new_id) conversation_id ordinal m) in
  let! _ := statement (write (on_normalized (on_observations (insert_new (export_id, "message", id) None)))) in
  sret id.

(** The parts of a message at one revision, in order. *)
Definition parts_of (message_id : uuid) (n : normalized V) : list (part_row V) :=
  filter (λ p, pt_message_id p = message_id) (map_to_list (nm_parts n)).*2.

Definition latest_revision (message_id : uuid) (n : normalized V) : option N :=
  foldr (λ p m, Some (N.max (pt_revision p) (default 0%N m))) None (parts_of message_id n).

Definition stored_parts (message_id : uuid) (revision : N) (n : normalized V) : list (N * json) :=
  (λ p, (pt_ordinal p, pt_payload p)) <$>
    sort_by (cmp_on pt_ordinal) (filter (λ p, pt_revision p = revision) (parts_of message_id n)).

Definition unchanged (stored : list (N * json)) (parts : list parsed_content_part) : bool :=
  Nat.eqb (length stored) (length parts)
  && forallb (λ sp : (N * json) * parsed_content_part,
       N.eqb sp.1.1 (N.of_nat (pp_ordinal sp.2)) && bool_decide (sp.1.2 = pp_payload sp.2))
       (zip stored parts).

Definition insert_part (id message_id : uuid) (revision : N) (part : parsed_content_part) : sql unit :=
  writing (λ t,
    let parts := nm_parts (at_normalized t) in
    let ordinal := N.min (N.of_nat (pp_ordinal part)) i32_max in
    if bool_decide (is_Some (parts !! id))
       || existsb (λ p, N.eqb (pt_revision p) revision && N.eqb (pt_ordinal p) ordinal)
            (parts_of message_id (at_normalized t))
    then None
    else Some (tt, on_normalized (on_parts
           <[id := PartRow message_id revision ordinal (content_kind (pp_kind part)) (pp_payload part) None]>) t)).

Fixpoint insert_parts (message_id : uuid) (revision : N) (parts : list parsed_content_part)
    : tx sql_error unit :=
  match parts with
  | [] => sret tt
  | part :: rest =>
      let! id := mint in
      let! _ := statement (insert_part (new_uuid id) message_id revision part) in
      insert_parts message_id revision rest
  end.

Definition persist_parts (message_id : uuid) (parts : list parsed_content_part) : tx sql_error unit :=
  let! latest := statement (reading (λ t, latest_revision message_id (at_normalized t))) in
  let! same :=
    match latest with
    | Some revision =>
        let! stored := statement (reading (λ t, stored_parts message_id revision (at_normalized t))) in
        sret (unchanged stored parts)
    | None => sret false
    end in
  if same : bool then sret tt
  else
    insert_parts message_id
      (from_option (λ r, N.min (r + 1) i32_max) 0%N latest) parts.

Definition written_header (export_id : uuid) (project_id : option uuid) (c : parsed_conversation)
    (parser : parser_id) (row : conversation_row) : conversation_row :=
  ConversationRow (match project_id with Some p => Some p | None => cnv_project_id row end)
    (cnv_account_id row) (cnv_external_id row) (pc_title c)
    (Some (default export_id (cnv_first_seen_export row))) (Some export_id)
    (stored_instant (pc_created c)) (stored_instant (pc_updated c))
    (Some (pi_name parser)) (Some (pi_version parser)) (cnv_content_digest row).

Fixpoint persist_messages (export_id conversation_id : uuid) (ordinal : nat)
    (messages : list parsed_message) (ids : list (string * uuid))
    : tx sql_error (list (string * uuid)) :=
  match messages with
  | [] => sret ids
  | m :: rest =>
      let! id := persist_message export_id conversation_id ordinal m in
      let! _ := persist_parts id (pm_parts m) in
      persist_messages export_id conversation_id (S ordinal) rest (bt_insert (pm_external_id m) id ids)
  end.

Definition with_parent (parent : uuid) (m : message_row) : message_row :=
  MessageRow (ms_conversation_id m) (ms_external_id m) (Some parent) (ms_role m) (ms_model_slug m)
    (ms_source_ordinal m) (ms_created_at m) (ms_updated_at m) (ms_provider_metadata m).

Fixpoint link_parents (ids : list (string * uuid)) (messages : list parsed_message)
    : tx sql_error unit :=
  match messages with
  | [] => sret tt
  | m :: rest =>
      let! _ :=
        match bt_get (pm_external_id m) ids, p ← pm_parent_external_id m; bt_get p ids with
        | Some id, Some parent =>
            statement (write (on_normalized (on_messages (alter (with_parent parent) id))))
        | _, _ => sret tt
        end in
      link_parents ids rest
  end.

Definition persist_conversation_detail (export_id conversation_id : uuid) (project_id : option uuid)
    (c : parsed_conversation) (parser : parser_id) : tx sql_error unit :=
  let! _ := statement (update_conversation conversation_id (written_header export_id project_id c parser)) in
  let! ids := persist_messages export_id conversation_id 0 (pc_messages c) [] in
  link_parents ids (pc_messages c).
End store.

(** ** Laws *)

(** A list in key order sorts to itself. *)
Lemma sort_by_id {A B} `{OrdLaws B} (f : A → B) (l : list A) :
  StronglySorted (λ a b, cmp (f a) (f b) = Lt) l → sort_by (cmp_on f) l = l.
Proof.
  induction 1 as [|x l Hl IH Hx]; cbn; [done|]. rewrite IH. destruct l as [|y l]; [done|]. cbn.
  apply Forall_cons in Hx as [Hx _]. unfold le_by, cmp_on. by rewrite Hx.
Qed.

Section store_laws.
Context (render : json → string) (new_uuid : N → uuid) (to_timestamp : N → N).
Context {V R : Type}.

#[local] Abbreviation atables := (atables V R).
#[local] Abbreviation normalized := (normalized V).
#[local] Abbreviation persist_conversation_detail :=
  (persist_conversation_detail new_uuid to_timestamp (V := V) (R := R)).
#[local] Abbreviation insert_parts := (insert_parts new_uuid (V := V) (R := R)).
#[local] Abbreviation persist_parts := (persist_parts new_uuid (V := V) (R := R)).

(** *** What the details of a conversation change *)

(** A change of a normalized table that names no blob. *)
Lemma normalized_effect (O : otables → otables → Prop) `{!PreOrder O} (f : normalized → normalized) (t : atables) :
  nm_assets (f (at_normalized t)) ⊆ nm_assets (at_normalized t) →
  nm_parts (f (at_normalized t)) ⊆ nm_parts (at_normalized t) →
  effect O t (on_normalized f t).
Proof. intros Ha Hp. by apply effect_sub. Qed.

(** A conversation and a message keep their identity, a conversation the
    export it was first seen in. *)
Definition same_conversation (c c' : conversation_row) : Prop :=
  cnv_account_id c' = cnv_account_id c ∧ cnv_external_id c' = cnv_external_id c ∧
  ∀ x, cnv_first_seen_export c = Some x → cnv_first_seen_export c' = Some x.

Definition same_message (m m' : message_row) : Prop :=
  ms_conversation_id m' = ms_conversation_id m ∧ ms_external_id m' = ms_external_id m.

#[export] Instance same_conversation_preorder : PreOrder same_conversation.
Proof. split; [done|]. intros a b c (? & ? & ?) (? & ? & ?). split_and!; [congruence..|auto]. Qed.

#[export] Instance same_message_preorder : PreOrder same_message.
Proof. split; [done|]. intros a b c [] []. split; congruence. Qed.

(** Records keep their owners and identities and none is lost, versions and
    assets stay as they are, what was observed stays observed, and a new part
    names no blob. *)
Record detail (n n' : normalized) : Prop := Detail {
  dt_projects : nm_projects n' = nm_projects n;
  dt_owners : cnv_account_id <$> nm_conversations n' = cnv_account_id <$> nm_conversations n;
  dt_conversations : rows_kept same_conversation (nm_conversations n) (nm_conversations n');
  dt_messages : rows_kept same_message (nm_messages n) (nm_messages n');
  dt_relations : nm_relations n' = nm_relations n;
  dt_revisions : nm_revisions n ⊆ nm_revisions n';
  dt_versions : nm_versions n' = nm_versions n;
  dt_assets : nm_assets n' = nm_assets n;
  dt_parts id p : nm_parts n' !! id = Some p → nm_parts n !! id = Some p ∨ pt_blob_ref p = None;
  dt_kept : nm_parts n ⊆ nm_parts n';
  dt_observations : nm_observations n ⊆ nm_observations n';
}.

Definition detailed (t t' : atables) : Prop :=
  t' = on_normalized (λ _, at_normalized t') t ∧ detail (at_normalized t) (at_normalized t').

#[export] Instance detailed_preorder : PreOrder detailed.
Proof.
  split; [intros []; by repeat (split; auto)|].
  intros a b c [Eb [? ? ? ? ? ? ? ? Hp ? ?]] [Ec [? ? ? ? ? ? ? ? Hp' ? ?]]. split; [by rewrite Ec, Eb|].
  split; try congruence; try (by etrans). intros id p [?%Hp|?]%Hp'; auto.
Qed.

(** A table the details are free to change. *)
Lemma detailed_free (f : normalized → normalized) (t : atables) :
  detail (at_normalized t) (f (at_normalized t)) → detailed t (on_normalized f t).
Proof. by split. Qed.

Lemma update_conversation_inside id f :
  (∀ c, same_conversation c (f c)) →
  stable (inside detailed) (statement (update_conversation (V := V) (R := R) id f)).
Proof.
  intros Hf. apply inside_write; [apply _|]. intros t. apply detailed_free.
  split; try done; [|by apply rows_kept_alter; [apply _|]|by left].
  cbn. apply map_eq. intros i. rewrite !lookup_fmap. destruct (decide (i = id)) as [->|].
  - rewrite lookup_alter_eq. destruct (_ !! _) as [c|]; [|done]. cbn. by rewrite (proj1 (Hf c)).
  - by rewrite lookup_alter_ne.
Qed.

Lemma insert_part_inside id message_id revision part :
  stable (inside detailed) (statement (insert_part (V := V) (R := R) id message_id revision part)).
Proof.
  apply inside_writing; [apply _|]. intros t [] t' Hw. cbv zeta in Hw. destruct (bool_decide _ || _) eqn:Ed; [done|]. injection Hw as <-.
  apply orb_false_iff in Ed as [Ed%bool_decide_eq_false _]. apply detailed_free. split; try done.
  - intros i p. cbn. rewrite lookup_insert_Some. intros [[_ <-]|[_ ?]]; auto.
  - apply insert_subseteq. by apply eq_None_not_Some.
Qed.

Lemma insert_parts_inside message_id revision parts : stable (inside detailed) (insert_parts message_id revision parts).
Proof.
  induction parts as [|p parts IH]; [apply stable_ret, _|].
  apply stable_bind; [apply _|apply inside_mint, _|intros id].
  apply stable_bind; [apply _|apply insert_part_inside|intros _; exact IH].
Qed.

Lemma persist_parts_inside message_id parts : stable (inside detailed) (persist_parts message_id parts).
Proof.
  unfold NormalizedStore.persist_parts.
  apply stable_bind; [apply _|apply inside_reading, _|intros latest].
  apply stable_bind; [apply _| |intros []; [apply stable_ret, _|apply insert_parts_inside]].
  destruct latest; [|apply stable_ret, _].
  apply stable_bind; [apply _|apply inside_reading, _|intros; apply stable_ret, _].
Qed.

Lemma insert_new_subseteq {I A} `{Countable I} (key : I) (a : A) (m : gmap I A) : m ⊆ insert_new key a m.
Proof. unfold insert_new. destruct (m !! key) eqn:E; [done|]. by apply insert_subseteq. Qed.

(** The first row a statement finds. *)
Lemma find_rows {I A} `{Countable I} (f : I * A → bool) (m : gmap I A) r :
  find f (map_to_list m) = Some r → m !! r.1 = Some r.2 ∧ f r = true.
Proof.
  intros [Hin Hf]%find_some. split; [|done]. apply elem_of_map_to_list. destruct r. by apply list_elem_of_In.
Qed.

Lemma message_with_Some conversation_id external_id (n : normalized) id row :
  message_with conversation_id external_id n = Some (id, row) →
  nm_messages n !! id = Some row ∧ ms_conversation_id row = conversation_id ∧ ms_external_id row = Some external_id.
Proof.
  intros [Hrow Hf]%find_rows. cbn in *. apply andb_true_iff in Hf as [?%String.eqb_eq ?%bool_decide_eq_true]. done.
Qed.

Lemma persist_message_inside export_id conversation_id ordinal m :
  stable (inside detailed)
    (persist_message new_uuid to_timestamp (V := V) (R := R) export_id conversation_id ordinal m).
Proof.
  apply stable_bind; [apply _|apply inside_mint, _|intros id].
  apply stable_bind; [apply _| |intros mid].
  - apply inside_writing; [apply _|]. intros t a t' Hw.
    destruct (message_with _ _ _) as [[i row]|] eqn:Em; [|destruct (nm_messages _ !! _) eqn:En; [done|]];
      injection Hw as _ <-; apply detailed_free; split; try done; auto;
      (apply rows_kept_insert; [apply _|]); intros b Hb; cbn in *; [|congruence].
    apply message_with_Some in Em as (Hi & Hc & Hx). rewrite Hi in Hb. injection Hb as <-. by split.
  - apply stable_bind; [apply _| |intros; apply stable_ret, _].
    apply inside_write; [apply _|]. intros t. apply detailed_free. split; try done; auto. apply insert_new_subseteq.
Qed.

Lemma written_header_same export_id project_id c parser row :
  same_conversation row (written_header to_timestamp export_id project_id c parser row).
Proof. split; [done|]. split; [done|]. intros x Hx. cbn. by rewrite Hx. Qed.

Lemma persist_conversation_detail_inside export_id conversation_id project_id c parser :
  stable (inside detailed) (persist_conversation_detail export_id conversation_id project_id c parser).
Proof.
  apply stable_bind; [apply _|apply update_conversation_inside; intros row; apply written_header_same|intros _].
  apply stable_bind; [apply _| |intros ids].
  - generalize 0 at 1, (@nil (string * uuid)). induction (pc_messages c) as [|m l IH]; intros n ids;
      cbn [persist_messages]; [apply stable_ret, _|].
    apply stable_bind; [apply _|apply persist_message_inside|intros id].
    apply stable_bind; [apply _|apply persist_parts_inside|intros _; apply IH].
  - induction (pc_messages c) as [|m l IH]; cbn [link_parents]; [apply stable_ret, _|].
    apply stable_bind; [apply _| |intros _; exact IH].
    destruct (bt_get (pm_external_id m) ids), (pm_parent_external_id m ≫= λ p, bt_get p ids); try apply stable_ret, _.
    apply inside_write; [apply _|]. intros t. apply detailed_free. split; try done; auto.
    by apply rows_kept_alter; [apply _|].
Qed.

Lemma set_conversation_digest_inside conversation_id digest :
  stable (inside detailed) (set_conversation_digest (V := V) (R := R) conversation_id digest).
Proof. by apply update_conversation_inside. Qed.

Lemma append_revision_inside conversation_id export_id digest parser :
  stable (inside detailed) (append_revision render new_uuid (V := V) (R := R) conversation_id export_id digest parser).
Proof.
  apply stable_bind; [apply _|apply inside_reading, _|intros latest]. case_bool_decide; [apply stable_ret, _|].
  apply stable_bind; [apply _|apply inside_mint, _|intros id].
  apply inside_writing; [apply _|]. intros t a t' Hw.
  destruct (nm_revisions _ !! _) eqn:En; [done|]. injection Hw as _ <-. apply detailed_free. split; try done; auto.
  by apply insert_subseteq.
Qed.

(** *** What the writers change *)

Definition same_project (p p' : project_row) : Prop :=
  prj_account_id p' = prj_account_id p ∧ prj_external_id p' = prj_external_id p ∧
  ∀ x, prj_first_seen_export p = Some x → prj_first_seen_export p' = Some x.

#[export] Instance same_project_preorder : PreOrder same_project.
Proof. split; [done|]. intros a b c (? & ? & ?) (? & ? & ?). split_and!; [congruence..|auto]. Qed.

(** Records only accrue: none is lost or becomes another, no part, revision,
    relation or asset is touched, what was observed stays observed, and a new
    part names no blob.  Old versions may go. *)
Record accretion (n n' : normalized) : Prop := Accretion {
  ac_projects : rows_kept same_project (nm_projects n) (nm_projects n');
  ac_conversations : rows_kept same_conversation (nm_conversations n) (nm_conversations n');
  ac_messages : rows_kept same_message (nm_messages n) (nm_messages n');
  ac_relations : nm_relations n' = nm_relations n;
  ac_revisions : nm_revisions n ⊆ nm_revisions n';
  ac_assets : nm_assets n' = nm_assets n;
  ac_parts : nm_parts n ⊆ nm_parts n';
  ac_new_parts id p : nm_parts n' !! id = Some p → nm_parts n !! id = Some p ∨ pt_blob_ref p = None;
  ac_observations k : is_Some (nm_observations n !! k) → is_Some (nm_observations n' !! k);
}.

#[export] Instance accretion_preorder : PreOrder accretion.
Proof.
  split; [intros n; split; auto; reflexivity|].
  intros a b c [? ? ? ? ? ? ? Hp ?] [? ? ? ? ? ? ? Hp' ?].
  split; try congruence; try (by etrans); auto. intros id p [?%Hp|?]%Hp'; auto.
Qed.

Definition accrete (t t' : atables) : Prop :=
  t' = on_normalized (λ _, at_normalized t') t ∧ accretion (at_normalized t) (at_normalized t').

#[export] Instance accrete_preorder : PreOrder accrete.
Proof.
  split; [intros []; by split|]. intros a b c [Eb ?] [Ec ?]. split; [by rewrite Ec, Eb|by etrans].
Qed.

Lemma accrete_on (f : normalized → normalized) (t : atables) :
  accretion (at_normalized t) (f (at_normalized t)) → accrete t (on_normalized f t).
Proof. by split. Qed.

Lemma detailed_accrete {E A} (c : sm (world atables) E A) : stable (inside detailed) c → stable (inside accrete) c.
Proof.
  apply stable_inside_mono. intros t t' [Et [Hp _ ? ? ? ? _ ? ? ? Hobs]]. split; [done|].
  split; auto; [by rewrite Hp|]. intros k [x Hx]. exists x. by eapply lookup_weaken.
Qed.

Lemma observe_accrete export_id kind entity digest :
  stable (inside accrete) (observe (V := V) (R := R) export_id kind entity digest).
Proof.
  apply stable_bind; [apply _| |intros _]; (apply inside_write; [apply _|]); intros t; apply accrete_on;
    split; auto; try reflexivity.
  cbn. intros k Hk. destruct (decide ((export_id, kind, entity) = k)) as [->|];
    [by rewrite lookup_insert_eq|by rewrite lookup_insert_ne].
Qed.

Lemma keep_snapshot_accrete kind entity digest snapshot :
  stable (inside accrete) (keep_snapshot (V := V) (R := R) kind entity digest snapshot).
Proof.
  apply inside_write; [apply _|]. intros t. apply accrete_on. split; auto; reflexivity.
Qed.

Lemma keep_conversation_version_accrete encode_conversation conversation_id digest version :
  stable (inside accrete)
    (keep_conversation_version encode_conversation (V := V) (R := R) conversation_id digest version).
Proof.
  apply stable_bind; [apply _|apply stable_lift, _|intros snapshot].
  apply stable_bind; [apply _|apply stable_map_err, keep_snapshot_accrete|intros _].
  apply stable_map_err, detailed_accrete, set_conversation_digest_inside.
Qed.

Lemma upsert_project_accrete new_id tenant_id export_id external_id v digest :
  stable (inside accrete) (statement (upsert_project (V := V) (R := R) new_id tenant_id export_id external_id v digest)).
Proof.
  apply inside_writing; [apply _|]. intros t a t' Hw. cbv zeta in Hw.
  destruct (project_with _ _ _ ≫= _) as [[id row]|] eqn:Ef; [|destruct (nm_projects _ !! _) eqn:En; [done|]];
    injection Hw as _ <-; apply accrete_on; split; auto; try reflexivity;
    (apply rows_kept_insert; [apply _|]); intros p Hp; [|congruence].
  apply bind_Some in Ef as (i & _ & Ef). apply bind_Some in Ef as (r & Hr & [= -> ->]).
  rewrite Hr in Hp. injection Hp as ->. split; [done|]. split; [done|]. intros x Hx. cbn. by rewrite Hx.
Qed.

Lemma persist_projects_accrete to_string sha256_hex encode_project tenant_id export_id parsed parser :
  stable (inside accrete)
    (persist_projects to_string sha256_hex encode_project new_uuid (V := V) (R := R) tenant_id export_id parsed parser).
Proof.
  unfold persist_projects. generalize (@nil (string * uuid)).
  induction (pcs_projects parsed) as [|project rest IH]; intros ids; cbn [persist_projects_loop]; [apply stable_ret, _|].
  apply stable_bind; [apply _| |intros id; apply IH]. clear IH.
  apply stable_bind; [apply _|apply inside_mint, _|intros new_id].
  apply stable_bind; [apply _|apply stable_map_err, upsert_project_accrete|intros [[id name] version]].
  apply stable_bind; [apply _|apply stable_map_err, observe_accrete|intros _].
  apply stable_bind; [apply _| |intros; apply stable_ret, _].
  apply stable_bind; [apply _|apply stable_lift, _|intros snapshot].
  apply stable_map_err, keep_snapshot_accrete.
Qed.

(** *** Revisions of content parts *)

(** The rows of a revision. *)
Definition part_of (message_id : uuid) (revision : N) (p : parsed_content_part) : part_row V :=
  PartRow message_id revision (N.min (N.of_nat (pp_ordinal p)) i32_max) (content_kind (pp_kind p)) (pp_payload p) None.

Lemma parts_of_insert id p message_id (n : normalized) :
  nm_parts n !! id = None → pt_message_id p = message_id →
  parts_of message_id (on_parts <[id := p]> n) ≡ₚ p :: parts_of message_id n.
Proof.
  intros Hid Hp. unfold parts_of. cbn. rewrite map_to_list_insert by done.
  rewrite fmap_cons, filter_cons_True by done. done.
Qed.

Lemma insert_parts_Ok message_id revision parts : ∀ w w',
  insert_parts message_id revision parts w = (Ok tt, w') →
  ∃ f, w_tables w' = on_normalized (on_parts f) (w_tables w) ∧
    nm_parts (at_normalized (w_tables w)) ⊆ f (nm_parts (at_normalized (w_tables w))) ∧
    parts_of message_id (at_normalized (w_tables w')) ≡ₚ
      parts_of message_id (at_normalized (w_tables w)) ++ (part_of message_id revision <$> parts).
Proof.
  induction parts as [|p parts IH]; intros w w' Hrun.
  { injection Hrun as <-. exists id. split_and!; [by destruct (w_tables w) as [? ? []]|done|by rewrite app_nil_r]. }
  cbn [NormalizedStore.insert_parts] in Hrun.
  apply sbind_Ok_inv in Hrun as (i & w1 & [= <- <-] & Hrun). set (i := new_uuid (w_mint w)) in *.
  apply sbind_Ok_inv in Hrun as ([] & w2 & H1 & Hrun).
  apply statement_writing_Ok in H1 as [H1 _]. cbv zeta in H1.
  change (w_tables (World (w_disk w) (w_db w) (w_mint w + 1))) with (w_tables w) in H1.
  destruct (bool_decide (is_Some _)) eqn:Hfresh; [done|]. cbn [orb] in H1.
  destruct (existsb _ _); [done|]. injection H1 as H1.
  apply bool_decide_eq_false in Hfresh. rewrite <-eq_None_not_Some in Hfresh.
  fold (part_of message_id revision p) in H1.
  apply IH in Hrun as (f & Ht & Hsub & Hparts). rewrite <-H1 in Ht, Hsub, Hparts.
  exists (λ m, f (<[i := part_of message_id revision p]> m)). split_and!; [exact Ht| |].
  - etrans; [|exact Hsub]. by apply insert_subseteq.
  - rewrite Hparts. cbn [fmap list_fmap]. rewrite <-Permutation_middle.
    rewrite app_comm_cons. apply Permutation_app_tail. by apply parts_of_insert.
Qed.

Lemma latest_revision_perm message_id (n : normalized) l :
  parts_of message_id n ≡ₚ l →
  latest_revision message_id n = foldr (λ p m, Some (N.max (pt_revision p) (default 0%N m))) None l.
Proof.
  unfold latest_revision. induction 1 as [|p l l' _ IH|p q l|l l' l'' _ IH1 _ IH2]; cbn; [done| | |congruence].
  - by rewrite IH.
  - f_equal. cbn. lia.
Qed.

Lemma latest_revision_bound message_id (n : normalized) p :
  p ∈ parts_of message_id n → (pt_revision p <= default 0 (latest_revision message_id n))%N ∧
    is_Some (latest_revision message_id n).
Proof.
  unfold latest_revision. induction (parts_of message_id n) as [|q l IH]; [by intros ?%not_elem_of_nil|].
  intros [->|[Hp _]%IH]%elem_of_cons; cbn; (split; [lia|done]).
Qed.

(** The rows of one revision, added to rows of earlier ones. *)
Lemma latest_revision_added message_id (n n' : normalized) revision parts :
  parts_of message_id n' ≡ₚ parts_of message_id n ++ (part_of message_id revision <$> parts) →
  parts ≠ [] → (∀ r, latest_revision message_id n = Some r → (r < revision)%N) →
  latest_revision message_id n' = Some revision.
Proof.
  intros Hp Hne Hlt. rewrite Permutation_app_comm in Hp. rewrite (latest_revision_perm _ _ _ Hp).
  rewrite foldr_app. fold (latest_revision message_id n).
  destruct parts as [|p parts]; [done|]. clear Hp Hne. cbn. f_equal.
  enough (default 0%N (foldr (λ (q : part_row V) m, Some (N.max (pt_revision q) (default 0%N m)))
    (latest_revision message_id n) (part_of message_id revision <$> parts)) <= revision)%N by lia.
  induction parts as [|q parts IH]; cbn; [|lia].
  destruct (latest_revision message_id n) as [r|]; cbn; [|lia]. specialize (Hlt r eq_refl). lia.
Qed.

(** Parts in the order of their ordinals, which the columns can hold. *)
Definition ordered_parts (parts : list parsed_content_part) : Prop :=
  StronglySorted (λ p q, pp_ordinal p < pp_ordinal q) parts ∧
  Forall (λ p, (N.of_nat (pp_ordinal p) <= i32_max)%N) parts.

Lemma stored_parts_added message_id (n n' : normalized) revision parts :
  parts_of message_id n' ≡ₚ parts_of message_id n ++ (part_of message_id revision <$> parts) →
  ordered_parts parts → (∀ r, latest_revision message_id n = Some r → (r < revision)%N) →
  stored_parts message_id revision n' = (λ p, (N.of_nat (pp_ordinal p), pp_payload p)) <$> parts.
Proof.
  intros Hp [Hsort Hmax] Hlt. unfold stored_parts.
  assert (Hs : StronglySorted (λ a b, cmp (pt_ordinal a) (pt_ordinal b) = Lt)
    (part_of message_id revision <$> parts)).
  { clear Hp Hlt. induction Hsort as [|p parts Hsort IH Hall]; cbn; constructor; apply Forall_cons in Hmax as [Hp Hmax].
    - by apply IH.
    - apply Forall_fmap, Forall_forall. intros q Hq. cbn.
      rewrite Forall_forall in Hall, Hmax. specialize (Hall q Hq). specialize (Hmax q Hq). unfold cmp, N_ord.
      apply N.compare_lt_iff. lia. }
  assert (Hf : filter (λ p, pt_revision p = revision) (parts_of message_id n') ≡ₚ part_of message_id revision <$> parts).
  { rewrite Hp, filter_app, (filter_none _ (parts_of message_id n)), filter_all; [done| |].
    - by apply Forall_fmap, Forall_forall.
    - apply Forall_forall. intros p Hin E. destruct (latest_revision_bound _ _ _ Hin) as [Hle [r Hr]].
      rewrite Hr in Hle. cbn in Hle. specialize (Hlt r Hr). lia. }
  rewrite (sort_by_unique pt_ordinal _ _ Hf).
  2:{ rewrite Hf. clear -Hs. induction Hs as [|x l _ IH Hx]; cbn; constructor; [|done].
      intros (y & Hy & Hin)%list_elem_of_fmap. rewrite Forall_forall in Hx. specialize (Hx y Hin).
      rewrite Hy in Hx. by rewrite cmp_refl in Hx. }
  rewrite (sort_by_id pt_ordinal) by exact Hs. rewrite <-list_fmap_compose.
  apply Forall_fmap_ext. eapply Forall_impl; [exact Hmax|]. intros p Hp'. cbn in *. f_equal. lia.
Qed.

Lemma unchanged_spec stored parts :
  unchanged stored parts = true ↔ stored = (λ p, (N.of_nat (pp_ordinal p), pp_payload p)) <$> parts.
Proof.
  unfold unchanged. rewrite andb_true_iff, Nat.eqb_eq, forallb_forall. split.
  - intros [Hlen Hall]. revert parts Hlen Hall. induction stored as [|[o v] stored IH]; intros [|p parts]; try done.
    cbn. intros [= Hlen] Hall. rewrite (IH parts Hlen) by eauto.
    specialize (Hall _ (or_introl eq_refl)). cbn in Hall.
    apply andb_true_iff in Hall as [Ho%N.eqb_eq Hv]. case_bool_decide; [|done]. by simplify_eq.
  - intros ->. rewrite length_fmap. split; [done|]. intros [[o v] p] Hin. cbn.
    apply list_elem_of_In in Hin. apply elem_of_lookup_zip_with in Hin as (i & a & b & E & Ha & Hb). simplify_eq.
    rewrite list_lookup_fmap, Hb in Ha. cbn in Ha. simplify_eq. rewrite N.eqb_refl. by case_bool_decide.
Qed.

(** Reading the parts of a message as the pairs the columns hold. *)
Definition written (parts : list parsed_content_part) : list (N * json) :=
  (λ p, (N.of_nat (pp_ordinal p), pp_payload p)) <$> parts.

Definition holds (message_id : uuid) (parts : list parsed_content_part) (n : normalized) : Prop :=
  ∃ r, latest_revision message_id n = Some r ∧ stored_parts message_id r n = written parts.

Lemma persist_parts_held message_id parts w x w' :
  holds message_id parts (at_normalized (w_tables w)) → persist_parts message_id parts w = (x, w') →
  w_tables w' = w_tables w.
Proof.
  intros (r & Hr & Hw) Hrun. unfold NormalizedStore.persist_parts in Hrun.
  apply sbind_inv in Hrun as [(l & w1 & H1 & Hrun)|(e & H1 & _)]; [|by apply statement_inv in H1 as (_ & _ & ->)].
  apply statement_reading_Ok in H1 as [-> H1]. rewrite Hr in Hrun.
  apply sbind_inv in Hrun as [(b & w2 & H2 & Hrun)|(e & H2 & _)].
  - apply sbind_Ok_inv in H2 as (s & w3 & [-> H2]%statement_reading_Ok & [= <- <-]). rewrite H1 in Hrun.
    rewrite (proj2 (unchanged_spec _ parts) Hw) in Hrun. injection Hrun as _ <-. congruence.
  - apply sbind_inv in H2 as [(s & w3 & _ & [=])|(e' & H2 & _)].
    apply statement_inv in H2 as (_ & _ & ->). done.
Qed.

Lemma persist_parts_new message_id parts w w' :
  let n := at_normalized (w_tables w) in
  persist_parts message_id parts w = (Ok tt, w') → ¬ holds message_id parts n →
  ∃ u, w_tables u = w_tables w ∧
    insert_parts message_id (from_option (λ r, N.min (r + 1) i32_max) 0%N (latest_revision message_id n)) parts u
      = (Ok tt, w').
Proof.
  intros n Hrun Hns. unfold NormalizedStore.persist_parts in Hrun.
  apply sbind_Ok_inv in Hrun as (l & w1 & [-> H1]%statement_reading_Ok & Hrun). fold n in Hrun.
  apply sbind_Ok_inv in Hrun as (b & w2 & H2 & Hrun).
  destruct (latest_revision message_id n) as [r|] eqn:Hr; [|injection H2 as <- <-; by exists w1].
  apply sbind_Ok_inv in H2 as (s & w3 & [-> H3]%statement_reading_Ok & [= <- <-]). rewrite H1 in Hrun.
  fold n in Hrun. destruct (unchanged _ _) eqn:E.
  - apply unchanged_spec in E. destruct Hns. by exists r.
  - exists w3. split; [congruence|done].
Qed.

Lemma holds_dec message_id parts n : holds message_id parts n ∨ ¬ holds message_id parts n.
Proof.
  unfold holds. destruct (latest_revision message_id n) as [r|]; [|right; by intros (? & [=] & _)].
  destruct (decide (stored_parts message_id r n = written parts)); [left; by exists r|].
  right. by intros (? & [= <-] & ?).
Qed.

End store_laws.

Module NormalizedStoreWitness.
Definition part (n : nat) (text : string) : parsed_content_part := ParsedContentPart n PText (JString text).

(** A message of one conversation, with one revision of one part. *)
Definition rows : atables unit unit :=
  ATables ∅ (Evidence ∅ ∅ ∅ ∅ ∅ ∅ ∅ ∅)
    (Normalized ∅
       {[ "c" := ConversationRow None None "ext" None None None None None None None None ]}
       {[ "m" := MessageRow "c" (Some "x") None "user" None None None None JNull ]} ∅
       {[ "p" := PartRow "m" 0 0 "text" (JString "old") None ]} ∅ ∅ ∅ ∅)
    (Workflow ∅ ∅ ∅) ∅ (OTables ∅ 1 100 ∅) ∅.
Definition start : world (atables unit unit) := World (Disk ∅ []) (Database rows [] [] [] []) 7.

#[local] Abbreviation persist := (persist_parts (λ n, pretty n) (V := unit) (R := unit) "m").
Definition edited : list parsed_content_part := [part 0 "new"; part 1 "more"].

Example held_revision : latest_revision "m" (at_normalized (w_tables start)) = Some 0%N ∧
  stored_parts "m" 0 (at_normalized (w_tables start)) = [(0%N, JString "old")].
Proof. vm_compute. done. Qed.

End NormalizedStoreWitness.
