(* ===== verification/ArchiveEvents.v ===== *)
(** * Archive events and the ledger of announced subjects ([outbox.rs],
      [announced_subjects.rs])

    The envelopes the service stores, and under whom each subject was
    announced.  The contracts crate is the class [Contracts]. *)

From S2P Require Import Prelude Disk BlobStore Json Postgres OutboxTable ArchiveTables.

#[local] Open Scope result_scope.

(** ** Payloads *)

Section payloads.
Context {wire ref : Type}.

Record ai_completeness_report : Set := AiCompletenessReport {
  cr_completeness : string;
  cr_conversation_count : N;
  cr_message_count : N;
  cr_asset_count : N;
  cr_gap_count : N;
  cr_gaps : list json;
}.

Record ai_archive_import : Type := AiArchiveImport {
  im_ai_archive_id : uuid;
  im_provider : string;
  im_owner : string;
  im_source_export : blob_ref;
  im_imported_at : wire;
  im_parser_name : string;
  im_parser_version : string;
  im_completeness_report : ai_completeness_report;
}.

Record ai_archive_provenance : Type := AiArchiveProvenance {
  pv_ai_archive_id : uuid;
  pv_provider : string;
  pv_owner : string;
  pv_source_export : blob_ref;
  pv_imported_at : wire;
  pv_parser_name : string;
  pv_parser_version : string;
}.

Record ai_project : Set := AiProject {
  aj_ai_project_id : uuid;
  aj_provider : string;
  aj_external_project_id : option string;
  aj_title : string;
  aj_description : option string;
  aj_instructions : option string;
  aj_parser_name : string;
  aj_parser_version : string;
}.

Inductive ai_author_role : Set := RoleUser | RoleAssistant | RoleSystem | RoleTool.

Inductive ai_content_part : Set := PartText (text : string) | PartUnknown (value : json).

Record ai_message : Type := AiMessage {
  am_external_message_id : string;
  am_author_role : ai_author_role;
  am_parent_message_id : option string;
  am_parts : list ai_content_part;
  am_model : option string;
  am_provider_created_at : option wire;
  am_parser_name : string;
  am_parser_version : string;
}.

Record warning_envelope : Set := WarningEnvelope { we_code : string; we_message : string }.

Record ai_conversation : Type := AiConversation {
  ac_ai_conversation_id : uuid;
  ac_provider : string;
  ac_external_conversation_id : option string;
  ac_owner : string;
  ac_project_ref : option ref;
  ac_title : option string;
  ac_provider_created_at : option wire;
  ac_provider_updated_at : option wire;
  ac_messages : list ai_message;
  ac_content_digest : string;
  ac_parser_name : string;
  ac_parser_version : string;
  ac_warnings : list warning_envelope;
}.

Inductive tombstone_subject : Set :=
| SubjectArchive | SubjectConversation (id : uuid) | SubjectProject (id : uuid).

Record ai_archive_tombstone : Type := AiArchiveTombstone {
  tb_ai_archive_id : uuid;
  tb_owner : string;
  tb_subject : tombstone_subject;
  tb_evidence_ref : blob_ref;
  tb_observed_at : wire;
}.

Inductive event_payload : Type :=
| ArchiveImported (import : ai_archive_import)
| ConversationAdded (provenance : ai_archive_provenance) (conversation : ai_conversation)
| ConversationUpdated (provenance : ai_archive_provenance) (conversation : ai_conversation)
| ProjectAdded (provenance : ai_archive_provenance) (project : ai_project) (digest : string)
| ProjectUpdated (provenance : ai_archive_provenance) (project : ai_project) (digest : string)
| SubjectTombstoned (tombstone : ai_archive_tombstone).

Definition event_type_of (p : event_payload) : string :=
  match p with
  | ArchiveImported _ => "ai_archive.archive.imported.v1"
  | ConversationAdded _ _ => "ai_archive.conversation.added.v1"
  | ConversationUpdated _ _ => "ai_archive.conversation.updated.v1"
  | ProjectAdded _ _ _ => "ai_archive.project.added.v1"
  | ProjectUpdated _ _ _ => "ai_archive.project.updated.v1"
  | SubjectTombstoned _ => TOMBSTONE_EVENT_TYPE
  end.

Record event_envelope : Type := EventEnvelope {
  en_event_id : uuid;
  en_event_type : string;
  en_occurred_at : wire;
  en_aggregate_id : ref;
  en_correlation_id : ref;
  en_tenant_id : string;
  en_payload : list (string * json);
}.
End payloads.

Arguments ai_archive_import : clear implicits.
Arguments ai_archive_provenance : clear implicits.
Arguments ai_message : clear implicits.
Arguments ai_conversation : clear implicits.
Arguments ai_archive_tombstone : clear implicits.
Arguments event_payload : clear implicits.
Arguments event_envelope : clear implicits.

(** ** The contracts crate *)

Class Contracts (wire ref : Type) : Type := {
  (* the parsers, which may normalise what they accept *)
  parse_local_id : string → option string;
  parse_title : string → option string;
  parse_text : string → option string;
  parse_model_name : string → option string;
  parse_parser_name : string → option string;
  parse_parser_version : string → option string;
  parse_provider : string → option string;
  parse_tenant : string → option string;
  parse_completeness : string → option string;
  parse_warning : string → string → option warning_envelope;
  parse_wire : string → option wire;
  to_wire : wire → string;
  producer_ok : bool;
  (* references to entities *)
  archive_ref : uuid → ref;
  conversation_ref : uuid → ref;
  project_ref : uuid → ref;
  event_ref : uuid → ref;
  correlation_ref : uuid → ref;
  ref_uuid : ref → option uuid;
  (* validation, digests and serialization *)
  from_import : ai_archive_import wire → ai_archive_provenance wire;
  parse_tombstone : json → option (ai_archive_tombstone wire);
  import_valid : ai_archive_import wire → bool;
  payload_valid : event_payload wire ref → bool;
  payload_json : event_payload wire ref → option json;
  envelope_json : event_envelope wire ref → option json;
  envelope_len : event_envelope wire ref → option N;
  import_json : ai_archive_import wire → option json;
  project_json : ai_project → option json;
  parse_gaps : json → option (list json);
  messages_digest : list (ai_message wire) → option string;
  canonical_json : json → option string;
  parse_digest_hex : string → option string;
}.

(** ** Errors and subjects *)

Inductive outbox_error : Set :=
| InvalidProvenance | OEncode | OStore | Envelope | AnnouncementWithoutAccount.

Inductive subject_kind : Set := KindArchive | KindConversation | KindProject.

#[global] Instance subject_kind_eq_dec : EqDecision subject_kind.
Proof. solve_decision. Defined.

Record announced_subject : Set := AnnouncedSubject {
  sj_kind : subject_kind;
  sj_subject_id : uuid;
  sj_ai_archive_id : uuid;
  sj_owner : string;
}.

Definition as_column (k : subject_kind) : string :=
  match k with
  | KindArchive => "archive" | KindConversation => "conversation" | KindProject => "project"
  end.

Definition subject_kind_parse (s : string) : option subject_kind :=
  if String.eqb s "archive" then Some KindArchive
  else if String.eqb s "conversation" then Some KindConversation
  else if String.eqb s "project" then Some KindProject
  else None.

Definition parse_inventory_subject (parse_uuid : string → option uuid) (subject : string)
    : option (subject_kind * uuid) :=
  '(prefix, id) ← split_once ":"%char subject;
  kind ← subject_kind_parse prefix;
  id ← parse_uuid id;
  Some (kind, id).

(** [NormalizedArchiveEvent] and [OutboxPlacement]. *)
Record normalized_archive_event (wire ref : Type) : Type := NormalizedArchiveEvent {
  ne_event_type : string;
  ne_aggregate_id : uuid;
  ne_envelope : event_envelope wire ref;
  ne_announced : option announced_subject;
}.
Arguments NormalizedArchiveEvent {wire ref} _ _ _ _.
Arguments ne_event_type {wire ref} _.
Arguments ne_aggregate_id {wire ref} _.
Arguments ne_envelope {wire ref} _.
Arguments ne_announced {wire ref} _.

Record outbox_placement : Set := OutboxPlacement {
  op_account_id : option uuid;
  op_export_id : option uuid;
  op_deduplication_key : option string;
}.

Section events.
Context {wire ref : Type} `{Contracts wire ref}.
Context (new_uuid : N → uuid).
Context {V R : Type}.

#[local] Abbreviation payload := (event_payload wire ref).
#[local] Abbreviation event := (normalized_archive_event wire ref).
#[local] Abbreviation atables := (atables V R).
#[local] Abbreviation tx := (sm (world atables)).

(** ** Events ([outbox.rs]) *)

Definition tombstone_subject_ref (t : ai_archive_tombstone wire) : ref :=
  match tb_subject t with
  | SubjectArchive => archive_ref (tb_ai_archive_id t)
  | SubjectConversation id => conversation_ref id
  | SubjectProject id => project_ref id
  end.

(** Aggregate, its reference, tenant, instant and announced subject of each
    constructor of [NormalizedArchiveEvent]. *)
Definition event_parts (p : payload) : uuid * ref * string * wire * option announced_subject :=
  match p with
  | ArchiveImported i =>
      (im_ai_archive_id i, archive_ref (im_ai_archive_id i), im_owner i, im_imported_at i,
       Some (AnnouncedSubject KindArchive (im_ai_archive_id i) (im_ai_archive_id i) (im_owner i)))
  | ConversationAdded pv c | ConversationUpdated pv c =>
      (ac_ai_conversation_id c, conversation_ref (ac_ai_conversation_id c), ac_owner c, pv_imported_at pv,
       Some (AnnouncedSubject KindConversation (ac_ai_conversation_id c) (pv_ai_archive_id pv) (ac_owner c)))
  | ProjectAdded pv j _ | ProjectUpdated pv j _ =>
      (aj_ai_project_id j, project_ref (aj_ai_project_id j), pv_owner pv, pv_imported_at pv,
       Some (AnnouncedSubject KindProject (aj_ai_project_id j) (pv_ai_archive_id pv) (pv_owner pv)))
  | SubjectTombstoned t =>
      (tb_ai_archive_id t, tombstone_subject_ref t, tb_owner t, tb_observed_at t, None)
  end.

(** Additions and updates are validated; the import and the tombstone are not. *)
Definition needs_validation (p : payload) : bool :=
  match p with ArchiveImported _ | SubjectTombstoned _ => false | _ => true end.

Definition encode (event_type : string) (aggregate : uuid) (aggregate_ref : ref) (tenant : string)
    (occurred_at : wire) (body : option json) : tx outbox_error event :=
  let! event_id := mint in
  match body with
  | None => sfail OEncode
  | Some (JObject members) =>
      if producer_ok then
        sret (NormalizedArchiveEvent event_type aggregate
          (EventEnvelope (new_uuid event_id) event_type occurred_at aggregate_ref
             (event_ref (new_uuid event_id)) tenant members) None)
      else sfail Envelope
  | Some _ => sfail Envelope
  end.

Definition announcing (subject : option announced_subject) (e : event) : event :=
  match subject with
  | Some s => NormalizedArchiveEvent (ne_event_type e) (ne_aggregate_id e) (ne_envelope e) (Some s)
  | None => e
  end.

(** [NormalizedArchiveEvent::archive_imported] and its siblings. *)
Definition event_of_payload (p : payload) : tx outbox_error event :=
  if needs_validation p && negb (payload_valid p) then sfail InvalidProvenance
  else
    let '(aggregate, aggregate_ref, tenant, occurred_at, subject) := event_parts p in
    let! e := encode (event_type_of p) aggregate aggregate_ref tenant occurred_at (payload_json p) in
    sret (announcing subject e).

Definition set_envelope (f : event_envelope wire ref → event_envelope wire ref) (e : event) : event :=
  NormalizedArchiveEvent (ne_event_type e) (ne_aggregate_id e) (f (ne_envelope e)) (ne_announced e).

Definition occurring_at (at' : wire) : event → event := set_envelope (λ v,
  EventEnvelope (en_event_id v) (en_event_type v) at' (en_aggregate_id v) (en_correlation_id v)
    (en_tenant_id v) (en_payload v)).

Definition with_correlation (correlation : ref) : event → event := set_envelope (λ v,
  EventEnvelope (en_event_id v) (en_event_type v) (en_occurred_at v) (en_aggregate_id v) correlation
    (en_tenant_id v) (en_payload v)).

(** ** The ledger ([announced_subjects.rs]) *)

Definition ledger_key (kind : subject_kind) (subject_id owner : string) : string * uuid * string :=
  (as_column kind, subject_id, owner).

(** [INSERT ... ON CONFLICT (subject_kind, subject_id, owner_ref) DO NOTHING]. *)
Definition record (s : announced_subject) (account_id : uuid) : tx sql_error unit :=
  statement (write (λ t, on_announced (λ m,
    let key := ledger_key (sj_kind s) (sj_subject_id s) (sj_owner s) in
    match m !! key with
    | Some _ => m
    | None => <[key := AnnouncedRow (sj_ai_archive_id s) account_id (ot_now (at_outbox t))]> m
    end) t)).

(** The rows of one subject. *)
Definition is_subject (account_id : uuid) (kind : subject_kind) (subject_id : uuid)
    (r : (string * uuid * string) * announced_row) : bool :=
  String.eqb (an_account_id r.2) account_id && String.eqb r.1.1.1 (as_column kind)
  && String.eqb r.1.1.2 subject_id.

Definition announcements_of (account_id : uuid) (kind : subject_kind) (subject_id : uuid) (t : atables)
    : list (string * uuid) :=
  (λ r : (string * uuid * string) * announced_row, (r.1.2, an_ai_archive_id r.2)) <$>
    sort_by (cmp_on (λ r : (string * uuid * string) * announced_row, r.1.2))
      (filter (λ r, is_subject account_id kind subject_id r = true) (map_to_list (at_announced t))).

(** A stored owner that no longer parses is passed over. *)
Definition owners_of (account_id : uuid) (kind : subject_kind) (subject_id : uuid)
    : tx sql_error (list (string * uuid)) :=
  let! rows := statement (reading (announcements_of account_id kind subject_id)) in
  sret (omap (λ r : string * uuid, owner ← parse_tenant r.1; Some (owner, r.2)) rows).

Definition forget (account_id : uuid) (kind : subject_kind) (subject_id : uuid) : tx sql_error unit :=
  statement (write (on_announced (filter (λ r, is_subject account_id kind subject_id r = false)))).

(** [... ORDER BY announced_at DESC, owner_ref DESC LIMIT 1]. *)
Definition latest_owner (ai_archive_id : uuid) (t : atables) : option string :=
  (λ r : (string * uuid * string) * announced_row, r.1.2) <$>
    head (sort_by (λ a b, cmp (an_announced_at b.2, b.1.2) (an_announced_at a.2, a.1.2))
      (filter (λ r : (string * uuid * string) * announced_row,
         r.1.1.1 = "archive" ∧ r.1.1.2 = ai_archive_id) (map_to_list (at_announced t)))).

Definition owner_of_archive (ai_archive_id : uuid) : tx sql_error (option string) :=
  let! owner := statement (reading (latest_owner ai_archive_id)) in
  sret (owner ≫= parse_tenant).

(** ** The outbox *)

Definition event_fact (e : event) (p : outbox_placement) (payload : json) (now : N) : fact :=
  Fact (ne_event_type e) (ne_aggregate_id e) (op_account_id p) (op_export_id p) payload
    (ref_uuid (en_correlation_id (ne_envelope e))) (op_deduplication_key p) now.

Definition enqueue_normalized_event (e : event) (p : outbox_placement) : tx outbox_error bool :=
  let! payload := slift (ok_or OEncode (envelope_json (ne_envelope e))) in
  let! added := smap_err (λ _, OStore) (statement (on_outbox_sql (λ o,
    insert_fact (event_fact e p payload (ot_now o)) o))) in
  let! _ :=
    match ne_announced e with
    | Some s =>
        if added : bool then
          match op_account_id p with
          | Some account_id => smap_err (λ _, OStore) (record s account_id)
          | None => sfail AnnouncementWithoutAccount
          end
        else sret tt
    | None => sret tt
    end in
  sret added.
End events.

(** ** Laws *)

Section event_laws.
Context {wire ref : Type} `{Contracts wire ref}.
Context (new_uuid : N → uuid).
Context {V R : Type}.

#[local] Abbreviation atables := (atables V R).
#[local] Abbreviation event := (normalized_archive_event wire ref).
#[local] Abbreviation event_of_payload := (event_of_payload new_uuid (V := V) (R := R)).
#[local] Abbreviation enqueue_normalized_event := (enqueue_normalized_event (V := V) (R := R)).

Lemma event_of_payload_inside (Q : atables → atables → Prop) `{!PreOrder Q} p :
  stable (inside Q) (event_of_payload p).
Proof.
  unfold ArchiveEvents.event_of_payload. case_match; [apply stable_fail, _|].
  destruct (event_parts p) as [[[[a ar] tn] oc] sj].
  apply stable_bind; [apply _| |intros e; apply stable_ret, _]. unfold encode.
  apply stable_bind; [apply _|apply inside_mint, _|intros i].
  repeat case_match; first [apply stable_fail|apply stable_ret]; apply _.
Qed.

Lemma set_announced_effect (O : otables → otables → Prop) `{!PreOrder O} f (t : atables) :
  effect O t (on_announced f t).
Proof. by apply effect_sub. Qed.

(** The facts an event is stored as. *)
Definition stored_as (e : event) (p : outbox_placement) (f : fact) : Prop :=
  ∃ payload now, envelope_json (ne_envelope e) = Some payload ∧ f = event_fact e p payload now.

Lemma enqueue_inside e p :
  stable (inside (effect (gained (stored_as e p)))) (enqueue_normalized_event e p).
Proof.
  unfold ArchiveEvents.enqueue_normalized_event.
  destruct (envelope_json (ne_envelope e)) as [payload|] eqn:Hp;
    [|intros w r w' Hrun; cbn in Hrun; by injection Hrun as <- <-].
  change (slift (ok_or OEncode (Some payload)))
    with (sret (S := world atables) (E := outbox_error) payload).
  intros w r w' Hrun. cbn in Hrun. revert w r w' Hrun.
  apply stable_bind; [apply _| |intros added; apply stable_bind; [apply _| |intros _; apply stable_ret, _]].
  - apply stable_map_err, inside_on_outbox_sql; [apply _|]. intros o a o' Ho.
    eapply insert_fact_gained; [exact Ho|]. by exists payload, (ot_now o).
  - destruct (ne_announced e) as [s|], added; try apply stable_ret, _.
    destruct (op_account_id p); [|apply stable_fail, _]. apply stable_map_err, inside_write; [apply _|].
    intros t. apply set_announced_effect, _.
Qed.

(** Queueing changes the outbox and the ledger only, and both only grow. *)
Record queues (t t' : atables) : Prop := Queues {
  qu_tables : t' = on_announced (λ _, at_announced t') (on_outbox (λ _, at_outbox t') t);
  qu_outbox : gained (λ _, True) (at_outbox t) (at_outbox t');
  qu_announced : at_announced t ⊆ at_announced t';
}.

#[export] Instance queues_preorder : PreOrder queues.
Proof.
  split; [intros []; by split|]. intros a b c [Eb ? ?] [Ec ? ?]. split; [by rewrite Ec, Eb|by etrans|by etrans].
Qed.

Lemma record_queues s account_id : stable (inside queues) (ArchiveEvents.record (V := V) (R := R) s account_id).
Proof.
  apply inside_write; [apply _|]. intros t. split; [by destruct t|reflexivity|].
  cbn. destruct (_ !! _) eqn:E; [done|]. by apply insert_subseteq.
Qed.

Lemma enqueue_queues e p : stable (inside queues) (enqueue_normalized_event e p).
Proof.
  apply stable_bind; [apply _|apply stable_lift, _|intros payload].
  apply stable_bind; [apply _| |intros added; apply stable_bind; [apply _| |intros _; apply stable_ret, _]].
  - apply stable_map_err, inside_statement; [apply _|]. intros t a t'. unfold on_outbox_sql.
    destruct (insert_fact _ _) as [[b o]|] eqn:E; [|done]. case_match; intros [= <- <-].
    split; [by destruct t| |done]. by eapply insert_fact_gained.
  - destruct (ne_announced e) as [s|], added; try apply stable_ret, _.
    destruct (op_account_id p); [|apply stable_fail, _]. apply stable_map_err, record_queues.
Qed.

(** The row of an announced subject. *)
Definition announced (s : announced_subject) (t : atables) : Prop :=
  is_Some (at_announced t !! ledger_key (sj_kind s) (sj_subject_id s) (sj_owner s)).

(** Queueing an event.  On success the envelope was encoded; if no live row
    held the deduplication key, one row was added, at the next identity, with
    the envelope as its payload and nothing delivered, and a subject the event
    announces is in the ledger under its owner; if one did, nothing changed.
    An event that announces a subject is never queued without an account, and
    whatever fails, no other table moves and no row is lost. *)
Theorem enqueue_exact (e : event) (p : outbox_placement) (w w' : world atables)
    (r : result outbox_error bool) :
  enqueue_normalized_event e p w = (r, w') →
  let o := at_outbox (w_tables w) in
  let held := existsb (λ x : N * outbox_row,
                match op_deduplication_key p with Some key => has_key key x.2 | None => false end)
                (map_to_list (ot_rows o)) in
  (∀ added, r = Ok added → ∃ payload, envelope_json (ne_envelope e) = Some payload ∧
     added = negb held ∧
     (held = true → w_tables w' = w_tables w) ∧
     (held = false →
        at_outbox (w_tables w') = OTables
          (<[ot_next o := (event_fact e p payload (ot_now o), undelivered (ot_now o))]> (ot_rows o))
          (ot_next o + 1) (ot_now o) (<[ot_next o := event_fact e p payload (ot_now o)]> (ot_history o)) ∧
        ∀ s, ne_announced e = Some s → is_Some (op_account_id p) ∧ announced s (w_tables w'))) ∧
  at_evidence (w_tables w') = at_evidence (w_tables w) ∧
  at_normalized (w_tables w') = at_normalized (w_tables w) ∧
  at_workflow (w_tables w') = at_workflow (w_tables w).
Proof.
  intros Hrun o held. unfold ArchiveEvents.enqueue_normalized_event in Hrun.
  destruct (envelope_json (ne_envelope e)) as [payload|] eqn:Hp;
    [|cbn in Hrun; injection Hrun as <- <-; by split].
  assert (Hins : ∀ x w1, statement (on_outbox_sql (λ o, insert_fact (event_fact e p payload (ot_now o)) o)) w
      = (x, w1) →
    match x with
    | Ok added => added = negb held ∧ w_tables w1 = on_outbox (λ _, at_outbox (w_tables w1)) (w_tables w) ∧
        (held = true → w_tables w1 = w_tables w) ∧
        (held = false → at_outbox (w_tables w1) = OTables
          (<[ot_next o := (event_fact e p payload (ot_now o), undelivered (ot_now o))]> (ot_rows o))
          (ot_next o + 1) (ot_now o) (<[ot_next o := event_fact e p payload (ot_now o)]> (ot_history o)))
    | Err _ => w_tables w1 = w_tables w
    end).
  { intros x w1 (_ & _ & Hx)%statement_inv. destruct x as [added|]; [|done].
    unfold on_outbox_sql, insert_fact in Hx. fold o in Hx. cbn [ft_deduplication_key event_fact] in Hx.
    fold held in Hx. destruct held; case_match; try done; injection Hx as <- <-; cbn; split_and!; try done.
    by destruct (w_tables w). }
  apply sbind_inv in Hrun as [(? & w0 & [= <- <-] & Hrun)|(? & [=] & _)].
  apply sbind_inv in Hrun as [(added & w1 & H1 & Hrun)|(x & H1 & ->)];
    unfold smap_err in H1; destruct (statement _ w) as [y w1']; pose proof (Hins _ _ eq_refl) as E1.
  2:{ destruct y; [done|]. injection H1 as <- <-. rewrite E1. by split. }
  destruct y as [b|]; [|done]. injection H1 as <- <-. destruct E1 as (Hadd & Hout & Hheld & Hnew).
  assert (Hframe : at_evidence (w_tables w1') = at_evidence (w_tables w) ∧
    at_normalized (w_tables w1') = at_normalized (w_tables w) ∧
    at_workflow (w_tables w1') = at_workflow (w_tables w)) by by rewrite Hout.
  destruct (ne_announced e) as [s|] eqn:Hs, b.
  - destruct (op_account_id p) as [account|] eqn:Ha.
    + apply sbind_inv in Hrun as [([] & w2 & H2 & [= <- <-])|(x & H2 & ->)];
        unfold smap_err in H2; destruct (record _ _ w1') as [y w2'] eqn:E2; unfold record in E2;
        destruct y as [[]|]; try done; injection H2 as <-; try subst w2'.
      * apply statement_write_Ok in E2 as [E2 _]. rewrite E2. split; [|done].
        intros added [= <-]. exists payload. split_and!; [done|done| |].
        -- intros Hh. by rewrite Hh in Hadd.
        -- intros Hf. split; [by apply Hnew|]. intros s' [= <-]. split; [done|]. unfold announced. cbn.
           destruct (at_announced (w_tables w1') !! _) eqn:El; [by rewrite El|]. by rewrite lookup_insert_eq.
      * apply statement_inv in E2 as (_ & _ & E2). rewrite E2. by split.
    + apply sbind_inv in Hrun as [(? & ? & [=] & _)|(x & [= <- <-] & ->)]. by split.
  - injection Hrun as <- <-. split; [|done]. intros added [= <-]. exists payload. split_and!; [done|done|done|].
    intros Hh. by rewrite Hh in Hadd.
  - injection Hrun as <- <-. split; [|done]. intros added [= <-]. exists payload. split_and!; [done|done|done|].
    intros Hf. split; [by apply Hnew|done].
  - injection Hrun as <- <-. split; [|done]. intros added [= <-]. exists payload. split_and!; [done|done|done|].
    intros Hh. by rewrite Hh in Hadd.
Qed.

Lemma enqueue_keyed e p key w b w' :
  enqueue_normalized_event e p w = (Ok b, w') → op_deduplication_key p = Some key →
  ∃ id row, ot_rows (at_outbox (w_tables w')) !! id = Some row ∧ ft_deduplication_key row.1 = Some key.
Proof.
  unfold ArchiveEvents.enqueue_normalized_event. intros (payload & w0 & [= _ <-] & Hrun)%sbind_Ok_inv Hkey.
  apply sbind_Ok_inv in Hrun as (added & w1 & H1%smap_err_Ok_inv & Hrun).
  apply statement_inv in H1 as (_ & _ & H1). unfold on_outbox_sql in H1.
  destruct (insert_fact _ _) as [[c o]|] eqn:Hi; [|done]. destruct (fk_ok _); [|done]. injection H1 as _ Ht.
  apply (insert_fact_keyed _ key) in Hi; [|done].
  assert (Ho : at_outbox (w_tables w1) = o) by by rewrite <-Ht. rewrite <-Ho in Hi.
  apply sbind_Ok_inv in Hrun as ([] & w2 & H2 & [= _ <-]).
  enough (at_outbox (w_tables w2) = at_outbox (w_tables w1)) as -> by exact Hi.
  destruct (ne_announced e), added; try (injection H2 as <-; done).
  destruct (op_account_id p); [|done].
  apply smap_err_Ok_inv in H2. unfold record in H2. by apply statement_write_Ok in H2 as [-> _].
Qed.

Lemma owners_of_inside (Q : atables → atables → Prop) `{!PreOrder Q} account kind id :
  stable (inside Q) (owners_of account kind id).
Proof.
  apply stable_bind; [apply _|apply inside_reading, _|intros; apply stable_ret, _].
Qed.

Lemma owner_of_archive_inside (Q : atables → atables → Prop) `{!PreOrder Q} archive_id :
  stable (inside Q) (owner_of_archive archive_id).
Proof.
  apply stable_bind; [apply _|apply inside_reading, _|intros; apply stable_ret, _].
Qed.

Lemma forget_inside (O : otables → otables → Prop) `{!PreOrder O} account kind id :
  stable (inside (effect O)) (forget (V := V) (R := R) account kind id).
Proof. apply inside_write; [apply _|]. intros t. apply set_announced_effect, _. Qed.
End event_laws.

#[export] Hint Resolve event_of_payload_inside owners_of_inside owner_of_archive_inside forget_inside : stable.

(** ** A concrete contracts crate

    Every parser accepts what it is given; a document is the object of the
    fields the service reads back. *)

Module ContractsWitness.
Definition text_field (k : string) (v : json) : string := default "" (get_str k v).

Definition event_document (e : event_envelope string string) : json :=
  JObject [("event_id", JString (en_event_id e)); ("event_type", JString (en_event_type e));
           ("tenant_id", JString (en_tenant_id e)); ("payload", JObject (en_payload e))].

Definition subject_of (v : json) : option tombstone_subject :=
  l ← as_object v; subject ← obj_get "subject" l; kind ← get_str "subject_kind" subject;
  if String.eqb kind "archive" then Some SubjectArchive
  else if String.eqb kind "conversation" then Some (SubjectConversation (text_field "ai_conversation_id" subject))
  else if String.eqb kind "project" then Some (SubjectProject (text_field "ai_project_id" subject))
  else None.

Definition tombstone_of (v : json) : option (ai_archive_tombstone string) :=
  subject ← subject_of v;
  Some (AiArchiveTombstone (text_field "ai_archive_id" v) (text_field "owner" v) subject
    (BlobRef OWNER (ContentDigest Sha256 (text_field "evidence_ref" v)) "application/json" 0)
    (text_field "observed_at" v)).

Definition payload_document (p : event_payload string string) : json :=
  match p with
  | ConversationAdded _ c | ConversationUpdated _ c =>
      JObject [("conversation", JString (ac_ai_conversation_id c))]
  | ProjectAdded _ j _ | ProjectUpdated _ j _ => JObject [("project", JString (aj_ai_project_id j))]
  | ArchiveImported i => JObject [("archive", JString (im_ai_archive_id i))]
  | SubjectTombstoned t => JObject [("ai_archive_id", JString (tb_ai_archive_id t))]
  end.

#[export] Instance contracts : Contracts string string := {|
  parse_local_id := Some; parse_title := Some; parse_text := Some; parse_model_name := Some;
  parse_parser_name := Some; parse_parser_version := Some; parse_provider := Some; parse_tenant := Some;
  parse_completeness := Some;
  parse_warning := λ code message, Some (WarningEnvelope code message);
  parse_wire := Some; to_wire := λ s, s; producer_ok := true;
  archive_ref := λ id, "archive/" +:+ id; conversation_ref := λ id, "conversation/" +:+ id;
  project_ref := λ id, "project/" +:+ id; event_ref := λ id, id; correlation_ref := λ id, id;
  ref_uuid := Some;
  from_import := λ i, AiArchiveProvenance (im_ai_archive_id i) (im_provider i) (im_owner i) (im_source_export i)
    (im_imported_at i) (im_parser_name i) (im_parser_version i);
  parse_tombstone := tombstone_of;
  import_valid := λ _, true; payload_valid := λ _, true;
  payload_json := λ p, Some (payload_document p);
  envelope_json := λ e, Some (event_document e);
  envelope_len := λ _, Some 1%N;
  import_json := λ i, Some (JString (im_ai_archive_id i));
  project_json := λ p, Some (JString (aj_ai_project_id p));
  parse_gaps := λ _, Some [];
  messages_digest := λ _, Some "digest";
  canonical_json := λ _, Some "canonical";
  parse_digest_hex := Some;
|}.

Definition no_rows : atables blob_ref unit :=
  ATables {[ "tenant" := None ]} (Evidence ∅ ∅ ∅ ∅ ∅ ∅ ∅ ∅) (Normalized ∅ ∅ ∅ ∅ ∅ ∅ ∅ ∅ ∅)
    (Workflow ∅ ∅ ∅) ∅ (OTables ∅ 1 100 ∅) ∅.

Definition start : world (atables blob_ref unit) := World (Disk ∅ []) (Database no_rows [] [] [] []) 7.

Definition project_added : normalized_archive_event string string :=
  NormalizedArchiveEvent "ai_archive.project.added.v1" "p1"
    (EventEnvelope "e1" "ai_archive.project.added.v1" "now" "project/p1" "e1" "alice" [])
    (Some (AnnouncedSubject KindProject "p1" "a1" "alice")).

Lemma enqueue_exact_witness :
  let w' := (enqueue_normalized_event project_added (OutboxPlacement (Some "tenant") None (Some "key")) start).2 in
  ot_next (at_outbox (w_tables w')) = 2%N ∧
  announced (AnnouncedSubject KindProject "p1" "a1" "alice") (w_tables w').
Proof.
  destruct (enqueue_exact project_added (OutboxPlacement (Some "tenant") None (Some "key")) start _ _
    (surjective_pairing _)) as [H _].
  destruct (H true) as (payload & _ & _ & _ & Hnew); [by vm_compute|].
  destruct Hnew as [Ho Ha]; [by vm_compute|]. split; [by rewrite Ho|]. by apply Ha.
Defined.
End ContractsWitness.
