(* ===== verification/ContractProjection.v ===== *)
(** * Facts for Knowledge ([contract_projection.rs],
      [contract_projection/messages.rs], [contract_projection/reannounce.rs])

    The facts of an import, built from the rows as they stand in the
    transaction that wrote them, and the facts of the records a deletion
    keeps. *)

From stdpp Require Import gmap.
From S2P Require Import Prelude BTree Disk BlobStore Registry Json Std Principals Postgres OutboxTable.
From S2P Require Import StreamErasure ArchiveTables ArchiveEvents.

#[local] Open Scope result_scope.

Inductive projection_error : Set := PStore | PEncode | PEvent (e : outbox_error) | Unrepresentable.

Inductive head_policy : Set := Always | WithChangedEntities.

Record fact_scope : Set := FactScope {
  fs_archive_id : uuid;
  fs_export_id : uuid;
  fs_account_id : uuid;
  fs_parser : parser_id;
  fs_head : head_policy;
  fs_max_event_bytes : N;
}.

Record projection_outcome : Set := ProjectionOutcome { po_enqueued : N; po_too_large : N }.

Definition PROJECT_TYPES : list string :=
  ["ai_archive.project.added.v1"; "ai_archive.project.updated.v1"].
Definition CONVERSATION_TYPES : list string :=
  ["ai_archive.conversation.added.v1"; "ai_archive.conversation.updated.v1"].
Definition ARCHIVE_IMPORTED : string := "ai_archive.archive.imported.v1".

Definition PROVIDER : string := "chatgpt".

(** ** Spellings *)

(** One character in, one byte out; the bytes that continue a character are
    skipped. *)
Fixpoint spell (name : string) : string :=
  match name with
  | EmptyString => EmptyString
  | String c rest =>
      if is_continuation c then spell rest
      else String (if is_ascii_alphanumeric c then to_lower c else "_"%char) (spell rest)
  end.

Definition spelled_parser_name (name : string) : string := String.substring 0 32 (spell name).

(** SQL's [payload #>> path] of a path of names. *)
Fixpoint sql_path (render : json → string) (path : list string) (v : json) : option string :=
  match path with
  | [] => match v with JNull => None | JString s => Some s | v => Some (render v) end
  | k :: path => l ← as_object v; v ← obj_get k l; sql_path render path v
  end.

(** [ORDER BY a NULLS LAST], the default of an ascending order. *)
Definition nulls_last {A} (c : A → A → comparison) (a b : option A) : comparison :=
  match a, b with
  | Some a, Some b => c a b
  | Some _, None => Lt
  | None, Some _ => Gt
  | None, None => Eq
  end.

(** ** Messages ([messages.rs]) *)

Record message_header : Set := MessageHeader {
  mh_id : uuid;
  mh_external_id : option string;
  mh_parent : option uuid;
  mh_role : string;
  mh_model : option string;
  mh_created_at : option string;
}.

Record conversation_header : Set := ConversationHeader {
  ch_id : uuid;
  ch_external_id : string;
  ch_title : option string;
  ch_project_id : option uuid;
  ch_created_at : option string;
  ch_updated_at : option string;
  ch_parser_name : option string;
  ch_parser_version : option string;
}.

Definition ROLE_WARNING_CODE : string := "ai_archive.message_role_unrepresentable".
Definition ROLE_WARNING_MESSAGE : string :=
  "Messages with an internal or unknown provider role were left out of this conversation.".
Definition IDENTITY_WARNING_CODE : string := "ai_archive.message_id_unrepresentable".
Definition IDENTITY_WARNING_MESSAGE : string :=
  "Messages without a representable provider identity were left out of this conversation.".

Definition author_role (role : string) : option ai_author_role :=
  if String.eqb role "user" then Some RoleUser
  else if String.eqb role "assistant" then Some RoleAssistant
  else if String.eqb role "system" then Some RoleSystem
  else if String.eqb role "tool" then Some RoleTool
  else None.

Section projection.
Context {wire ref : Type} `{Contracts wire ref}.
(** SHA-256 in hexadecimal; the text of a new UUID; [Uuid::parse_str]. *)
Context (sha256_hex : string → string) (new_uuid : N → uuid) (parse_uuid : string → option uuid).
(** The database: text of a JSON value, [now()] and an instant of a column as
    text, the order of text, and
    [$1::timestamptz + interval '1 millisecond' + $2 * interval '1 microsecond']. *)
Context (render : json → string) (pg_render render_instant : N → string).
Context (collate : string → string → comparison) (later : string → N → option string).
(** A stored [BlobRef]. *)
Context {V R : Type} (decode_ref : V → option blob_ref).

#[local] Abbreviation atables := (atables V R).
#[local] Abbreviation sql A := (atables → result sql_error (A * atables)).
#[local] Abbreviation tx := (sm (world atables) projection_error).
#[local] Abbreviation event := (normalized_archive_event wire ref).
#[local] Abbreviation import_of := (ai_archive_import wire).
#[local] Abbreviation provenance := (ai_archive_provenance wire).
#[local] Abbreviation wire_instant := (wire_instant (wire := wire) parse_wire).
#[local] Abbreviation database_now := (in_outbox (StreamErasure.database_now parse_wire pg_render)).

Definition fetch {A} (f : atables → A) : tx A := smap_err (λ _, PStore) (statement (reading f)).
Definition fetch1 {A} (f : atables → option A) : tx A := smap_err (λ _, PStore) (statement (fetch_one f)).
Definition representable {A} (o : option A) : tx A := slift (ok_or Unrepresentable o).

(** ** Headers *)

Definition header (r : uuid * conversation_row) : conversation_header :=
  ConversationHeader r.1 (cnv_external_id r.2) (cnv_title r.2) (cnv_project_id r.2)
    (render_instant <$> cnv_provider_created_at r.2) (render_instant <$> cnv_provider_updated_at r.2)
    (cnv_parser_name r.2) (cnv_parser_version r.2).

(** [ORDER BY external_id, id]. *)
Definition by_external_id {A} (external_id : A → string) (a b : uuid * A) : comparison :=
  then_cmp (collate (external_id a.2) (external_id b.2)) (cmp a.1 b.1).

Definition headers_where (P : uuid → bool) (t : atables) : list conversation_header :=
  header <$> sort_by (by_external_id cnv_external_id)
    (filter (λ r : uuid * conversation_row, P r.1 = true) (map_to_list (nm_conversations (at_normalized t)))).

Definition observed_in_export (export_id : uuid) (kind : string) (t : atables) (id : uuid) : bool :=
  bool_decide (is_Some (nm_observations (at_normalized t) !! (export_id, kind, id))).

Definition conversation_rows (export_id : uuid) : tx (list conversation_header) :=
  fetch (λ t, headers_where (observed_in_export export_id "conversation" t) t).

Definition conversation_rows_of (ids : list uuid) : tx (list conversation_header) :=
  fetch (headers_where (λ id, bool_decide (id ∈ ids))).

(** ** The messages of a conversation *)

Definition message_order (a b : uuid * message_row) : comparison :=
  then_cmp (nulls_last cmp (ms_source_ordinal a.2) (ms_source_ordinal b.2))
    (then_cmp (nulls_last cmp (ms_created_at a.2) (ms_created_at b.2))
      (then_cmp (nulls_last collate (ms_external_id a.2) (ms_external_id b.2)) (cmp a.1 b.1))).

Definition message_header_of (r : uuid * message_row) : message_header :=
  MessageHeader r.1 (ms_external_id r.2) (ms_parent_message_id r.2) (ms_role r.2) (ms_model_slug r.2)
    (render_instant <$> ms_created_at r.2).

Definition messages_in (conversation_id : uuid) (t : atables) : list message_header :=
  message_header_of <$> sort_by message_order
    (filter (λ r : uuid * message_row, ms_conversation_id r.2 = conversation_id)
       (map_to_list (nm_messages (at_normalized t)))).

Definition message_rows (conversation_id : uuid) : tx (list message_header) :=
  fetch (messages_in conversation_id).

Definition content_part (kind : string) (payload : json) : ai_content_part :=
  let unknown := PartUnknown (json_map [("part_kind", JString "provider_part");
                   ("provider_part_kind", JString kind); ("payload", payload)]) in
  if String.eqb kind "text" then
    match payload with
    | JString text => match parse_text text with Some text => PartText text | None => unknown end
    | _ => unknown
    end
  else unknown.

Definition last_revision (message_id : uuid) (t : atables) : N :=
  foldr (λ p m, if String.eqb (pt_message_id p) message_id then N.max (pt_revision p) m else m) 0%N
    (map_to_list (nm_parts (at_normalized t))).*2.

(** The parts at the latest revision, by message and ordinal. *)
Definition latest_parts (ids : list uuid) (t : atables) : list (part_row V) :=
  sort_by (cmp_on (λ p, (pt_message_id p, pt_ordinal p)))
    (filter (λ p, pt_message_id p ∈ ids ∧ pt_revision p = last_revision (pt_message_id p) t)
       (map_to_list (nm_parts (at_normalized t))).*2).

Definition push_part (parts : gmap uuid (list ai_content_part)) (p : part_row V)
    : gmap uuid (list ai_content_part) :=
  <[pt_message_id p := default [] (parts !! pt_message_id p)
                       ++ [content_part (pt_part_kind p) (pt_payload p)]]> parts.

Definition message_parts (ids : list uuid) : tx (gmap uuid (list ai_content_part)) :=
  let! rows := fetch (latest_parts ids) in
  sret (foldl push_part ∅ rows).

(** The walk to the nearest represented ancestor; every step but the last
    passes a new row. *)
Fixpoint ascend (fuel : nat) (by_id : gmap uuid message_header) (seen : gset uuid)
    (cursor : option uuid) : option string :=
  match fuel, cursor with
  | S fuel, Some parent_id =>
      if decide (parent_id ∈ seen) then None
      else
        parent ← by_id !! parent_id;
        match author_role (mh_role parent), mh_external_id parent with
        | Some _, Some external_id => parse_local_id external_id
        | _, _ => ascend fuel by_id ({[parent_id]} ∪ seen) (mh_parent parent)
        end
  | _, _ => None
  end.

Definition nearest_represented_parent (row : message_header) (by_id : gmap uuid message_header)
    : option string :=
  ascend (S (size by_id)) by_id {[mh_id row]} (mh_parent row).

Definition warning (code message : string) : result projection_error warning_envelope :=
  ok_or Unrepresentable (parse_warning code message).

(** A message of the fact, or why it is left out. *)
Inductive left_out : Set := NoRole | NoIdentity.

Definition represent (by_id : gmap uuid message_header) (parts : gmap uuid (list ai_content_part))
    (parser_name parser_version : string) (row : message_header) : result left_out (ai_message wire) :=
  match author_role (mh_role row) with
  | None => Err NoRole
  | Some role =>
      match mh_external_id row ≫= parse_local_id with
      | None => Err NoIdentity
      | Some external_id =>
          Ok (AiMessage external_id role (nearest_represented_parent row by_id)
                (default [] (parts !! mh_id row)) (mh_model row ≫= parse_model_name)
                (mh_created_at row ≫= wire_instant) parser_name parser_version)
      end
  end.

Definition represented (rows : list (result left_out (ai_message wire))) : list (ai_message wire) :=
  omap (λ r, match r with Ok m => Some m | Err _ => None end) rows.

Definition is_left_out (why : left_out) (r : result left_out (ai_message wire)) : bool :=
  match r, why with
  | Err NoRole, NoRole | Err NoIdentity, NoIdentity => true
  | _, _ => false
  end.

Definition warnings_of (rows : list (result left_out (ai_message wire)))
    : result projection_error (list warning_envelope) :=
  let? role := if existsb (is_left_out NoRole) rows
               then let? w := warning ROLE_WARNING_CODE ROLE_WARNING_MESSAGE in Ok [w]
               else Ok [] in
  let? identity := if existsb (is_left_out NoIdentity) rows
                   then let? w := warning IDENTITY_WARNING_CODE IDENTITY_WARNING_MESSAGE in Ok [w]
                   else Ok [] in
  Ok (role ++ identity).

Definition conversation_messages (conversation_id : uuid) (parser_name parser_version : string)
    : tx (list (ai_message wire) * list warning_envelope) :=
  let! rows := message_rows conversation_id in
  let! parts := message_parts (mh_id <$> rows) in
  let by_id : gmap uuid message_header := list_to_map ((λ r, (mh_id r, r)) <$> rows) in
  let messages := represent by_id parts parser_name parser_version <$> rows in
  let! warnings := slift (warnings_of messages) in
  sret (represented messages, warnings).

(** ** Facts *)

Definition contract_parser_name (name : string) : result projection_error string :=
  ok_or Unrepresentable (parse_parser_name (spelled_parser_name name)).

Definition contract_parser_version (version : string) : result projection_error string :=
  ok_or Unrepresentable (parse_parser_version version).

Definition digest_of (value : json) : result projection_error string :=
  let? canonical := ok_or PEncode (canonical_json value) in
  ok_or Unrepresentable (parse_digest_hex (sha256_hex canonical)).

Definition with_parser (name version : string) (p : provenance) : provenance :=
  AiArchiveProvenance (pv_ai_archive_id p) (pv_provider p) (pv_owner p) (pv_source_export p)
    (pv_imported_at p) name version.

Definition entity_provenance (base : provenance) (parser_name parser_version : option string)
    : result projection_error provenance :=
  match parser_name, parser_version with
  | Some name, Some version =>
      let? name := contract_parser_name name in
      let? version := contract_parser_version version in
      Ok (with_parser name version base)
  | _, _ => Ok base
  end.

Definition project_title (title : option string) (external_id : string) : result projection_error string :=
  match title ≫= parse_title with
  | Some title => Ok title
  | None => ok_or Unrepresentable (parse_title external_id)
  end.

Definition project_fact (r : uuid * project_row) (base : provenance)
    : result projection_error (provenance * ai_project * string) :=
  let row := r.2 in
  let? p := entity_provenance base (prj_parser_name row) (prj_parser_version row) in
  let? title := project_title (prj_title row) (prj_external_id row) in
  let project := AiProject r.1 (pv_provider p) (parse_local_id (prj_external_id row)) title
                   (prj_description row ≫= parse_text) (prj_instructions row ≫= parse_text)
                   (pv_parser_name p) (pv_parser_version p) in
  let? value := ok_or PEncode (project_json project) in
  let? digest := digest_of value in
  Ok (p, project, digest).

Definition conversation_fact (row : conversation_header) (base : provenance)
    : tx (provenance * ai_conversation wire ref) :=
  let! p := slift (entity_provenance base (ch_parser_name row) (ch_parser_version row)) in
  let! (messages, warnings) := conversation_messages (ch_id row) (pv_parser_name p) (pv_parser_version p) in
  let! digest := representable (messages_digest messages) in
  sret (p, AiConversation (ch_id row) (pv_provider p) (parse_local_id (ch_external_id row)) (pv_owner p)
             (project_ref <$> ch_project_id row) (ch_title row ≫= parse_title)
             (ch_created_at row ≫= wire_instant) (ch_updated_at row ≫= wire_instant)
             messages digest (pv_parser_name p) (pv_parser_version p) warnings).

(** ** The import *)

Definition export_of (export_id : uuid) (t : atables) : option (archive_export V) :=
  ev_exports (at_evidence t) !! export_id.

(** The runs of an export, the latest first. *)
Definition runs_of (export_id : uuid) (t : atables) : list (uuid * run_row) :=
  sort_by (λ a b, cmp (rn_started_at b.2, b.1) (rn_started_at a.2, a.1))
    (filter (λ r : uuid * run_row, rn_export_id r.2 = Some export_id)
       (map_to_list (ev_import_runs (at_evidence t)))).

(** A run has one report at most ([completeness_reports_import_run_unique]). *)
Definition report_of_run (run_id : uuid) (t : atables) : option report_row :=
  snd <$> find (λ r : uuid * report_row, String.eqb (rp_import_run_id r.2) run_id)
            (map_to_list (ev_reports (at_evidence t))).

(** The report of the latest run that has one. *)
Definition latest_report (export_id : uuid) (t : atables) : option report_row :=
  head (omap (λ r, report_of_run r.1 t) (runs_of export_id t)).

Definition observed_conversations (export_id : uuid) (t : atables) : list uuid :=
  filter (λ id, observed_in_export export_id "conversation" t id = true)
    (map_to_list (nm_conversations (at_normalized t))).*1.

Definition message_count (conversations : list uuid) (t : atables) : N :=
  N.of_nat (length (filter (λ r : uuid * message_row, ms_conversation_id r.2 ∈ conversations)
                      (map_to_list (nm_messages (at_normalized t))))).

Definition stored_count (counts : json) (name : string) : N :=
  match l ← as_object counts; obj_get name l with
  | Some (JNumber (PosInt n)) => if (n <=? u32_max)%N then n else 0%N
  | _ => 0%N
  end.

Definition completeness_report (s : fact_scope) : tx ai_completeness_report :=
  let! row := fetch1 (latest_report (fs_export_id s)) in
  let! completeness := slift (ok_or PEncode (parse_completeness (rp_status row))) in
  let! gaps := slift (ok_or PEncode (parse_gaps (rp_gaps row))) in
  let! conversations := fetch (observed_conversations (fs_export_id s)) in
  let! messages := fetch (λ t, message_count (observed_conversations (fs_export_id s) t) t) in
  sret (AiCompletenessReport completeness (N.min (N.of_nat (length conversations)) u32_max)
          (N.min messages u32_max) (stored_count (rp_counts row) "assets")
          (N.min (N.of_nat (length gaps)) u32_max) gaps).

Definition head_digest (import : import_of) : result projection_error string :=
  let? stable := ok_or PEncode (import_json import) in
  digest_of (match stable with
             | JObject members => JObject (filter (λ kv : string * json, kv.1 ≠ "imported_at") members)
             | v => v
             end).

Definition load_import (s : fact_scope) (owner : string) : tx (import_of * string) :=
  let! blob_ref := fetch1 (λ t, xp_blob_ref <$> export_of (fs_export_id s) t) in
  let! source_export := slift (ok_or PEncode (decode_ref blob_ref)) in
  let! imported_at := smap_err (λ _, PStore) database_now in
  let! report := completeness_report s in
  let! provider := representable (parse_provider PROVIDER) in
  let! name := slift (contract_parser_name (pi_name (fs_parser s))) in
  let! version := slift (contract_parser_version (pi_version (fs_parser s))) in
  let import := AiArchiveImport (fs_archive_id s) provider owner source_export imported_at name version report in
  if import_valid import then
    let! digest := slift (head_digest import) in sret (import, digest)
  else sfail Unrepresentable.

(** ** Candidates *)

Record candidate : Type := Candidate { cand_event : event; cand_digest : string }.

Definition last_emitted (aggregate_id : uuid) (types : list string) (path : list string) (t : atables)
    : option string :=
  r ← head (sort_by (λ a b, cmp b.1 a.1)
        (filter (λ r : N * outbox_row, ft_aggregate_id r.2.1 = aggregate_id ∧ ft_event_type r.2.1 ∈ types)
           (map_to_list (ot_rows (at_outbox t)))));
  sql_path render path (ft_payload r.2.1).

Definition last_emitted_digest (aggregate_id : uuid) (types : list string) (path : list string)
    : tx (option string) := fetch (last_emitted aggregate_id types path).

Definition event_of (p : event_payload wire ref) : tx event := smap_err PEvent (event_of_payload new_uuid p).

(** An addition, an update, or nothing. *)
Definition news (previous : option string) (digest : string) (added updated : event_payload wire ref)
    : tx (list candidate) :=
  match previous with
  | Some hex =>
      if String.eqb hex digest then sret []
      else let! e := event_of updated in sret [Candidate e digest]
  | None => let! e := event_of added in sret [Candidate e digest]
  end.

Definition project_candidate (base : provenance) (r : uuid * project_row) : tx (list candidate) :=
  let! (p, project, digest) := slift (project_fact r base) in
  let! previous := last_emitted_digest r.1 PROJECT_TYPES ["payload"; "content_digest"; "hex"] in
  news previous digest (ProjectAdded p project digest) (ProjectUpdated p project digest).

Definition conversation_candidate (base : provenance) (row : conversation_header) : tx (list candidate) :=
  let! (p, conversation) := conversation_fact row base in
  let! previous := last_emitted_digest (ch_id row) CONVERSATION_TYPES
                     ["payload"; "conversation"; "content_digest"; "hex"] in
  news previous (ac_content_digest conversation) (ConversationAdded p conversation)
    (ConversationUpdated p conversation).

Fixpoint collect {A} (f : A → tx (list candidate)) (rows : list A) : tx (list candidate) :=
  match rows with
  | [] => sret []
  | row :: rest =>
      let! found := f row in
      let! more := collect f rest in
      sret (found ++ more)
  end.

Definition project_rows_where (P : uuid → bool) (t : atables) : list (uuid * project_row) :=
  sort_by (by_external_id prj_external_id)
    (filter (λ r : uuid * project_row, P r.1 = true) (map_to_list (nm_projects (at_normalized t)))).

Definition project_candidates (s : fact_scope) (base : provenance) : tx (list candidate) :=
  let! rows := fetch (λ t, project_rows_where (observed_in_export (fs_export_id s) "project" t) t) in
  collect (project_candidate base) rows.

Definition conversation_candidates (s : fact_scope) (base : provenance) : tx (list candidate) :=
  let! rows := conversation_rows (fs_export_id s) in
  collect (conversation_candidate base) rows.

Definition serialized_len (e : event) : result projection_error N :=
  let? n := ok_or PEncode (envelope_len (ne_envelope e)) in Ok (N.min n u64_max).

Definition fact_key (e : event) (digest : string) : string :=
  ne_event_type e +:+ String colon (ne_aggregate_id e +:+ String colon digest).

Fixpoint enqueue_queue (s : fact_scope) (queue : list candidate) (o : projection_outcome)
    : tx projection_outcome :=
  match queue with
  | [] => sret o
  | c :: rest =>
      let! size := slift (serialized_len (cand_event c)) in
      if (fs_max_event_bytes s <? size)%N then
        enqueue_queue s rest (ProjectionOutcome (po_enqueued o) (N.min (po_too_large o + 1) u32_max))
      else
        let! added := smap_err PEvent (enqueue_normalized_event (cand_event c)
          (OutboxPlacement (Some (fs_account_id s)) (Some (fs_export_id s))
             (Some (fact_key (cand_event c) (cand_digest c))))) in
        enqueue_queue s rest
          (if added : bool then ProjectionOutcome (po_enqueued o + 1) (po_too_large o) else o)
  end.

Definition head_wanted (s : fact_scope) (changed : list candidate) : bool :=
  match fs_head s, changed with
  | WithChangedEntities, [] => false
  | _, _ => true
  end.

Definition project_import_facts (owners : owner_resolver (tenant_ref := string)) (s : fact_scope)
    : tx projection_outcome :=
  let! owner := fetch (λ t, owner_of_account owners (at_accounts t !! fs_account_id s)) in
  match owner with
  | None => sret (ProjectionOutcome 0 0)
  | Some owner =>
      let! (import, digest) := load_import s owner in
      let base := from_import import in
      let! projects := project_candidates s base in
      let! conversations := conversation_candidates s base in
      let changed := projects ++ conversations in
      let! head :=
        if head_wanted s changed
        then let! e := event_of (ArchiveImported import) in sret [Candidate e digest]
        else sret [] in
      enqueue_queue s (head ++ changed) (ProjectionOutcome 0 0)
  end.

(** ** The records a deletion keeps ([reannounce.rs]) *)

Record survivors : Set := Survivors { sv_projects : list uuid; sv_conversations : list uuid }.

Definition no_survivors (s : survivors) : bool :=
  match s with Survivors [] [] => true | _ => false end.

Record deletion : Type := Deletion {
  de_request_id : uuid;
  de_account_id : uuid;
  de_tombstoned_at : wire;
}.

(** The identities of one category with one action, in order. *)
Definition opaque_ids (request_id category action : string) (t : atables) : list string :=
  sort_by (cmp_on (λ s, s))
    ((λ r : (uuid * N) * item_row V, it_opaque_id r.2) <$>
       filter (λ r : (uuid * N) * item_row V,
          r.1.1 = request_id ∧ it_category r.2 = category ∧ it_action r.2 = action)
         (map_to_list (wf_items (at_workflow t)))).

Definition ANNOUNCED_UNDER : list string := ["payload"; "import_provenance"; "ai_archive_id"].

Fixpoint under_deleted (types : list string) (archives : list uuid) (retained : list string)
    : tx (list uuid) :=
  match retained with
  | [] => sret []
  | opaque_id :: rest =>
      let! id := representable (parse_uuid opaque_id) in
      let! latest := last_emitted_digest id types ANNOUNCED_UNDER in
      let names_deleted := match latest ≫= parse_uuid with
                           | Some archive => bool_decide (archive ∈ archives)
                           | None => false
                           end in
      let! more := under_deleted types archives rest in
      sret (if names_deleted then id :: more else more)
  end.

Definition retained_under_deleted (request_id category : string) (types : list string)
    (archives : list uuid) : tx (list uuid) :=
  let! retained := fetch (opaque_ids request_id category "retain_evidenced") in
  under_deleted types archives retained.

Definition find_survivors (request_id : uuid) (archives : list uuid) : tx survivors :=
  let! projects := retained_under_deleted request_id "project" PROJECT_TYPES archives in
  let! conversations := retained_under_deleted request_id "conversation" CONVERSATION_TYPES archives in
  sret (Survivors projects conversations).

Record retained_import : Type := RetainedImport {
  ri_export_id : uuid;
  ri_archive_id : uuid;
  ri_owner : string;
  ri_source_export : blob_ref;
  ri_imported_at : wire;
  ri_parser : option (string * string);
}.

(** The first import fact of an archive. *)
Definition first_announced (archive_id : uuid) (t : atables) : option string :=
  r ← head (sort_by (cmp_on fst)
        (filter (λ r : N * outbox_row, ft_event_type r.2.1 = ARCHIVE_IMPORTED ∧ ft_aggregate_id r.2.1 = archive_id)
           (map_to_list (ot_rows (at_outbox t)))));
  sql_path render ["payload"; "imported_at"] (ft_payload r.2.1).

Definition stamp_of (name version : option string) : option (string * string) :=
  n ← name; v ← version; Some (n, v).

Definition latest_parser (export_id : uuid) (t : atables) : option (string * string) :=
  head (omap (λ r : uuid * run_row, stamp_of (rn_parser_name r.2) (rn_parser_version r.2))
          (runs_of export_id t)).

Definition contract_parser (p : string * string) : result projection_error (string * string) :=
  let? name := contract_parser_name p.1 in
  let? version := contract_parser_version p.2 in
  Ok (name, version).

Definition load_retained (export_id : uuid) (d : deletion) : tx (option retained_import) :=
  let! export := fetch1 (export_of export_id) in
  let archive_id := xp_ai_archive_id export in
  let! owner := smap_err (λ _, PStore) (owner_of_archive archive_id) in
  match owner with
  | None => sret None
  | Some owner =>
      let! announced := fetch (first_announced archive_id) in
      let! run := fetch (latest_parser export_id) in
      let! parser := match run with
                     | Some p => let! p := slift (contract_parser p) in sret (Some p)
                     | None => sret None
                     end in
      let! source_export := slift (ok_or PEncode (decode_ref (xp_blob_ref export))) in
      sret (Some (RetainedImport export_id archive_id owner source_export
                    (default (de_tombstoned_at d) (announced ≫= parse_wire)) parser))
  end.

Definition retained_base (i : retained_import) (stamp : option (string * string))
    : result projection_error provenance :=
  let? (name, version) := match stamp, ri_parser i with
                          | Some stamp, _ => contract_parser stamp
                          | None, Some parser => Ok parser
                          | None, None => Err Unrepresentable
                          end in
  let? provider := ok_or Unrepresentable (parse_provider PROVIDER) in
  Ok (AiArchiveProvenance (ri_archive_id i) provider (ri_owner i) (ri_source_export i)
        (ri_imported_at i) name version).

Definition current_digest (kind : string) (id : uuid) (t : atables) : option string :=
  if String.eqb kind "project" then p ← nm_projects (at_normalized t) !! id; prj_content_digest p
  else c ← nm_conversations (at_normalized t) !! id; cnv_content_digest c.

(** [ORDER BY o.content_digest IS DISTINCT FROM current, e.received_at, e.id]. *)
Definition retained_order (current : option string) (o : option string * (N * uuid)) : bool * (N * uuid) :=
  (negb (bool_decide (o.1 = current)), o.2).

#[local] Instance bool_ord : Ord bool := λ a b,
  match a, b with false, true => Lt | true, false => Gt | _, _ => Eq end.

(** The observations of a record with the arrival of their exports. *)
Definition observers (kind : string) (id : uuid) (t : atables) : list (option string * (N * uuid)) :=
  omap (λ o : observation_key * option string,
    if String.eqb o.1.1.2 kind && String.eqb o.1.2 id then
      e ← ev_exports (at_evidence t) !! o.1.1.1; Some (o.2, (xp_received_at e, o.1.1.1))
    else None) (map_to_list (nm_observations (at_normalized t))).

Definition earliest (kind : string) (id : uuid) (t : atables) : option uuid :=
  (λ o : option string * (N * uuid), o.2.2) <$>
    head (sort_by (cmp_on (retained_order (current_digest kind id t))) (observers kind id t)).

Definition earliest_retained (kind : string) (id : uuid) : tx (option uuid) := fetch (earliest kind id).

Definition reannounce_key (request_id event_type aggregate : string) : string :=
  "reannounce:" +:+ (request_id +:+ String colon (event_type +:+ String colon aggregate)).

Definition enqueue (d : deletion) (i : retained_import) (e : event) (ordinal : N) : tx N :=
  let! rendered := fetch1 (λ _, later (to_wire (de_tombstoned_at d)) ordinal) in
  let! occurred_at := representable (wire_instant rendered) in
  let e := occurring_at occurred_at e in
  let! _ := smap_err PEvent (enqueue_normalized_event e
    (OutboxPlacement (Some (de_account_id d)) (Some (ri_export_id i))
       (Some (reannounce_key (de_request_id d) (ne_event_type e) (ne_aggregate_id e))))) in
  sret (ordinal + 1)%N.

(** One survivor: skipped when no retained export observes it, or when that
    export's archive was never announced. *)
Definition reannounce_one (d : deletion) (kind : string) (id : uuid) (stamp : option (string * string))
    (fact : provenance → tx (event_payload wire ref)) (ordinal : N) : tx N :=
  let! export_id := earliest_retained kind id in
  match export_id with
  | None => sret ordinal
  | Some export_id =>
      let! import := load_retained export_id d in
      match import with
      | None => sret ordinal
      | Some i =>
          let! base := slift (retained_base i stamp) in
          let! payload := fact base in
          let! e := event_of payload in
          enqueue d i e ordinal
      end
  end.

Definition updated_project (r : uuid * project_row) (base : provenance) : tx (event_payload wire ref) :=
  let! (p, project, digest) := slift (project_fact r base) in sret (ProjectUpdated p project digest).

Definition updated_conversation (row : conversation_header) (base : provenance)
    : tx (event_payload wire ref) :=
  let! (p, conversation) := conversation_fact row base in sret (ConversationUpdated p conversation).

Fixpoint reannounce_projects (d : deletion) (rows : list (uuid * project_row)) (ordinal : N) : tx N :=
  match rows with
  | [] => sret ordinal
  | r :: rest =>
      let! ordinal := reannounce_one d "project" r.1 (stamp_of (prj_parser_name r.2) (prj_parser_version r.2))
                        (updated_project r) ordinal in
      reannounce_projects d rest ordinal
  end.

Fixpoint reannounce_conversations (d : deletion) (rows : list conversation_header) (ordinal : N) : tx N :=
  match rows with
  | [] => sret ordinal
  | row :: rest =>
      let! ordinal := reannounce_one d "conversation" (ch_id row)
                        (stamp_of (ch_parser_name row) (ch_parser_version row))
                        (updated_conversation row) ordinal in
      reannounce_conversations d rest ordinal
  end.

Definition reannounce (d : deletion) (s : survivors) : tx unit :=
  let! rows := fetch (project_rows_where (λ id, bool_decide (id ∈ sv_projects s))) in
  let! ordinal := reannounce_projects d rows 0 in
  let! rows := conversation_rows_of (sv_conversations s) in
  let! _ := reannounce_conversations d rows ordinal in
  sret tt.
End projection.

(** ** Laws *)

Section projection_laws.
Context {wire ref : Type} `{Contracts wire ref}.
Context (sha256_hex : string → string) (new_uuid : N → uuid) (parse_uuid : string → option uuid).
Context (render : json → string) (render_instant : N → string).
Context (collate : string → string → comparison) (later : string → N → option string).
Context {V R : Type} (decode_ref : V → option blob_ref).

#[local] Abbreviation atables := (atables V R).
#[local] Abbreviation reading_only c := (∀ Q : atables → atables → Prop, PreOrder Q → stable (inside Q) c).
#[local] Abbreviation find_survivors := (find_survivors parse_uuid render (V := V) (R := R)).
#[local] Abbreviation conversation_fact := (conversation_fact render_instant collate (V := V) (R := R)).
#[local] Abbreviation reannounce :=
  (reannounce sha256_hex new_uuid render render_instant collate later (V := V) (R := R) decode_ref).
#[local] Abbreviation nearest_represented_parent := (nearest_represented_parent (wire := wire) (ref := ref)).

Lemma fetch_inside {A} (f : atables → A) : reading_only (fetch f).
Proof. intros Q ?. apply stable_map_err, inside_reading, _. Qed.

Lemma fetch1_inside {A} (f : atables → option A) : reading_only (fetch1 f).
Proof. intros Q ?. apply stable_map_err, inside_fetch_one, _. Qed.

(** Reads one after another. *)
Ltac reads := repeat first
  [ progress intros
  | apply inside_reading, _ | apply fetch_inside, _ | apply fetch1_inside, _
  | apply stable_ret, _ | apply stable_fail, _ | apply stable_lift, _
  | apply owner_of_archive_inside, _
  | apply stable_bind; [apply _| |] | apply stable_map_err
  | case_match ].

Lemma under_deleted_inside types archives l : reading_only (under_deleted parse_uuid render (V := V) (R := R) types archives l).
Proof.
  intros Q ?. induction l as [|x l IH]; cbn [under_deleted]; [apply stable_ret, _|].
  apply stable_bind; [apply _|apply stable_lift, _|intros id].
  apply stable_bind; [apply _|apply fetch_inside, _|intros latest].
  apply stable_bind; [apply _|exact IH|intros more; apply stable_ret, _].
Qed.

Lemma find_survivors_inside request_id archives : reading_only (find_survivors request_id archives).
Proof.
  intros Q ?. unfold ContractProjection.find_survivors, retained_under_deleted.
  reads; by apply under_deleted_inside.
Qed.

Lemma conversation_fact_inside row base : reading_only (conversation_fact row base).
Proof.
  intros Q ?. unfold ContractProjection.conversation_fact, conversation_messages, message_rows, message_parts, representable.
  reads.
Qed.


(** The facts queued for the survivors of a deletion. *)
Definition repairs (request_id : uuid) (f : fact) : Prop :=
  ft_event_type f ∈ PROJECT_TYPES ++ CONVERSATION_TYPES ∧
  ∃ event_type aggregate, ft_deduplication_key f = Some (reannounce_key request_id event_type aggregate).

Definition is_update (p : event_payload wire ref) : Prop :=
  match p with ProjectUpdated _ _ _ | ConversationUpdated _ _ => True | _ => False end.

Lemma event_of_type p (w : world atables) e w' :
  event_of_payload new_uuid p w = (Ok e, w') → ne_event_type e = event_type_of p.
Proof.
  unfold event_of_payload. case_match; [done|]. destruct (event_parts p) as [[[[a ar] tn] oc] sj].
  intros (e0 & w1 & H1 & [= <- _])%sbind_Ok_inv.
  enough (ne_event_type e0 = event_type_of p) by by destruct sj.
  unfold encode in H1. apply sbind_Ok_inv in H1 as (i & w2 & _ & H1).
  destruct (payload_json p) as [[]|]; try done. destruct producer_ok; [|done]. by injection H1 as <- _.
Qed.

Lemma reannounce_one_inside d kind id stamp fact ordinal :
  (∀ base, reading_only (fact base)) →
  (∀ base w p w', fact base w = (Ok p, w') → is_update p) →
  stable (inside (effect (gained (repairs (de_request_id d)))))
    (reannounce_one new_uuid render later (V := V) (R := R) decode_ref d kind id stamp fact ordinal).
Proof.
  intros Hfact Hup. unfold reannounce_one.
  assert (Hpre : PreOrder (inside (effect (V := V) (R := R) (gained (repairs (de_request_id d)))))) by apply _.
  apply stable_bind; [apply _|apply fetch_inside, _|intros [export_id|]; [|apply stable_ret, _]].
  apply stable_bind; [apply _| |intros [i|]; [|apply stable_ret, _]].
  { unfold load_retained, representable.
    reads. }
  apply stable_bind; [apply _|apply stable_lift, _|intros base].
  intros w r w' [(p & w1 & H1 & Hrun)|(x & H1 & ->)]%sbind_inv; [|exact (Hfact base _ _ _ _ _ H1)].
  etrans; [exact (Hfact base _ _ _ _ _ H1)|]. apply Hup in H1.
  apply sbind_inv in Hrun as [(e & w2 & H2 & Hrun)|(x & H2 & ->)]; unfold event_of in H2;
    [|exact (stable_map_err (inside _) _ _ (event_of_payload_inside new_uuid _ p) _ _ _ H2)].
  etrans; [exact (stable_map_err (inside _) _ _ (event_of_payload_inside new_uuid _ p) _ _ _ H2)|].
  apply smap_err_Ok_inv, event_of_type in H2. revert Hrun. unfold enqueue.
  revert w2 r w'. apply stable_bind; [apply _|apply fetch1_inside, _|intros rendered].
  apply stable_bind; [apply _|apply stable_lift, _|intros at'].
  apply stable_bind; [apply _| |intros; apply stable_ret, _].
  apply stable_map_err. eapply stable_inside_mono; [|apply enqueue_inside].
  intros t t' Ht. eapply effect_mono; [|exact Ht]. intros o o'. apply gained_mono.
  intros f (payload & now & _ & ->). split; [|by eexists _, _].
  cbn. rewrite H2. destruct p; try done; set_solver.
Qed.

Lemma reannounce_inside d s :
  stable (inside (effect (gained (repairs (de_request_id d))))) (reannounce d s).
Proof.
  unfold ContractProjection.reannounce, conversation_rows_of.
  apply stable_bind; [apply _|apply fetch_inside, _|intros projects].
  apply stable_bind; [apply _| |intros ordinal; apply stable_bind; [apply _|apply fetch_inside, _|intros rows]].
  - generalize 0%N. induction projects as [|r l IH]; intros n; cbn [reannounce_projects]; [apply stable_ret, _|].
    apply stable_bind; [apply _| |done]. apply reannounce_one_inside.
    + intros base Q ?. apply stable_bind; [apply _|apply stable_lift, _|intros [[? ?] ?]; apply stable_ret, _].
    + intros base w p w' ([[? ?] ?] & w1 & _ & [= <- _])%sbind_Ok_inv. done.
  - apply stable_bind; [apply _| |intros; apply stable_ret, _]. revert ordinal.
    induction rows as [|r l IH]; intros n; cbn [reannounce_conversations]; [apply stable_ret, _|].
    apply stable_bind; [apply _| |done]. apply reannounce_one_inside.
    + intros base Q ?. apply stable_bind; [apply _|by apply conversation_fact_inside|intros [? ?]; apply stable_ret, _].
    + intros base w p w' ([? ?] & w1 & _ & [= <- _])%sbind_Ok_inv. done.
Qed.

(** ** The nearest represented ancestor *)

Definition is_represented (m : message_header) : bool :=
  negb (is_null (author_role (mh_role m))) && negb (is_null (mh_external_id m)).

(** The rows [l] follow one another from [cursor] by the parent column. *)
Fixpoint chain (by_id : gmap uuid message_header) (cursor : option uuid) (l : list uuid) : Prop :=
  match l with
  | [] => True
  | q :: l => cursor = Some q ∧ match by_id !! q with Some m => chain by_id (mh_parent m) l | None => False end
  end.

Lemma ascend_represented fuel by_id seen q m :
  q ∉ seen → by_id !! q = Some m →
  ascend (wire := wire) (ref := ref) (S fuel) by_id seen (Some q) =
    if is_represented m then mh_external_id m ≫= parse_local_id
    else ascend (wire := wire) (ref := ref) fuel by_id ({[q]} ∪ seen) (mh_parent m).
Proof.
  intros Hq Hm. cbn [ascend]. rewrite decide_False, Hm by done. unfold is_represented. cbn.
  by destruct (author_role (mh_role m)), (mh_external_id m).
Qed.

Lemma unseen_shrinks (by_id : gmap uuid message_header) (seen : gset uuid) q m n :
  q ∉ seen → by_id !! q = Some m → size (dom by_id ∖ seen) <= S n →
  size (dom by_id ∖ ({[q]} ∪ seen)) <= n.
Proof.
  intros Hq Hm Hn. enough (size (dom by_id ∖ ({[q]} ∪ seen)) < size (dom by_id ∖ seen)) by lia.
  apply subset_size. split.
  { intros x. rewrite !elem_of_difference, not_elem_of_union. tauto. }
  intros Hsub.
  assert (q ∈ dom by_id ∖ seen) as Hin by (apply elem_of_difference; split; [by apply elem_of_dom|done]).
  apply Hsub in Hin. apply elem_of_difference in Hin as [_ Hin].
  apply not_elem_of_union in Hin as [?%not_elem_of_singleton _]. done.
Qed.

Lemma ascend_spec fuel by_id : ∀ seen cursor s,
  size (dom by_id ∖ seen) <= fuel →
  ascend (wire := wire) (ref := ref) (S fuel) by_id seen cursor = Some s ↔
  ∃ ps p m, chain by_id cursor (ps ++ [p]) ∧ NoDup (ps ++ [p]) ∧ (∀ q, q ∈ ps ++ [p] → q ∉ seen) ∧
    (∀ q x, q ∈ ps → by_id !! q = Some x → is_represented x = false) ∧
    by_id !! p = Some m ∧ is_represented m = true ∧ mh_external_id m ≫= parse_local_id = Some s.
Proof.
  induction fuel as [|fuel IH]; intros seen cursor s Hn; (destruct cursor as [q|];
    [|split; [done|intros ([|? ?] & ? & ? & [? _] & _); done]]).
  - (* nothing is unseen *)
    assert (∀ q m, by_id !! q = Some m → q ∈ seen) as Hall.
    { intros q' m Hm. apply dec_stable. intros Hq. assert (q' ∈ dom by_id ∖ seen) as Hin.
      { apply elem_of_difference. split; [by apply elem_of_dom|done]. }
      assert (size (dom by_id ∖ seen) = 0) as Hz by lia.
      apply size_empty_inv in Hz. rewrite elem_of_equiv_empty in Hz. by apply (Hz q'). }
    split.
    + cbn [ascend]. destruct (decide (q ∈ seen)); [done|]. destruct (by_id !! q) as [m|] eqn:Hm; [|done].
      by apply Hall in Hm.
    + intros (ps & p & m & _ & _ & Hseen & _ & Hm & _). apply Hall in Hm. destruct (Hseen p); [|done].
      apply elem_of_app. right. by left.
  - destruct (decide (q ∈ seen)) as [Hq|Hq].
    { split; [cbn [ascend]; by rewrite decide_True|].
      intros ([|q' ps] & p & m & [[= ->] _] & _ & Hseen & _); (edestruct Hseen as []; [by left|done]). }
    destruct (by_id !! q) as [m|] eqn:Hm.
    2:{ split; [cbn [ascend]; by rewrite decide_False, Hm|].
        intros ([|q' ps] & p & m & [[= ->] Hc] & _); by rewrite Hm in Hc. }
    rewrite (ascend_represented _ _ _ _ _ Hq Hm). destruct (is_represented m) eqn:Hr.
    + split.
      * intros Hs. exists [], q, m. cbn. rewrite Hm. split_and!; try done;
          [by apply NoDup_singleton|by intros q' ->%list_elem_of_singleton|by intros ? ? ?%not_elem_of_nil].
      * intros ([|q' ps] & p & m' & [[= <-] _] & _ & _ & Hun & Hm' & _ & Hs); [by simplify_eq|].
        rewrite (Hun q m) in Hr; [done|by left|done].
    + rewrite (IH _ _ s) by (by eapply unseen_shrinks). split.
      * intros (ps & p & m' & Hc & Hnd & Hseen & Hun & ? & ? & ?). exists (q :: ps), p, m'. cbn. rewrite Hm.
        split_and!; try done.
        -- apply NoDup_cons. split; [|done]. intros Hin. apply Hseen in Hin. by apply not_elem_of_union in Hin as [?%not_elem_of_singleton _].
        -- intros q' [->|Hin]%elem_of_cons; [done|]. apply Hseen in Hin. by apply not_elem_of_union in Hin as [_ ?].
        -- intros q' x [->|Hin]%elem_of_cons; [by rewrite Hm; intros [= <-]|eauto].
      * intros ([|q' ps] & p & m' & Hc & Hnd & Hseen & Hun & Hm' & Hr' & Hs).
        { destruct Hc as [[= <-] _]. rewrite Hm in Hm'. injection Hm' as ->. congruence. }
        destruct Hc as [[= <-] Hc]. rewrite Hm in Hc. apply NoDup_cons in Hnd as [Hnew Hnd].
        exists ps, p, m'. split_and!; try done.
        -- intros q' Hin. apply not_elem_of_union. split; [|apply Hseen; by right].
           apply not_elem_of_singleton. by intros ->.
        -- intros q' x Hin. apply Hun. by right.
Qed.

(** Re-parenting.  The walk up the parent column ends, whatever the rows say
    - a cycle, a missing parent, a chain through every row - and what it returns
    is the provider identity of the nearest ancestor that is represented: a
    message is given the parent [s] exactly when some chain of distinct
    ancestors leads to a row with a contract role and a provider identity that
    parses to [s], and no row before it on the chain has both. *)
Theorem nearest_represented_parent_exact (row : message_header) (by_id : gmap uuid message_header)
    (s : string) :
  nearest_represented_parent row by_id = Some s ↔
  ∃ ps p m, chain by_id (mh_parent row) (ps ++ [p]) ∧ NoDup (mh_id row :: ps ++ [p]) ∧
    (∀ q x, q ∈ ps → by_id !! q = Some x → is_represented x = false) ∧
    by_id !! p = Some m ∧ is_represented m = true ∧ mh_external_id m ≫= parse_local_id = Some s.
Proof.
  unfold ContractProjection.nearest_represented_parent. rewrite ascend_spec.
  2:{ rewrite <-size_dom. apply subseteq_size, subseteq_difference_l. done. }
  split; intros (ps & p & m & Hc & Hnd & H1 & H2); exists ps, p, m.
  - destruct H2 as (Hun & ? & ? & ?). split_and!; try done. apply NoDup_cons. split; [|done].
    intros Hin. apply H1 in Hin. by apply not_elem_of_singleton in Hin.
  - apply NoDup_cons in Hnd as [Hnew Hnd]. destruct H2 as (? & ? & ?). split_and!; try done.
    by intros q Hq ->%elem_of_singleton.
Qed.
(** *** Projecting an import *)

Context (pg_render : N → string).

#[local] Abbreviation project_import_facts :=
  (project_import_facts sha256_hex new_uuid render pg_render render_instant collate (V := V) (R := R) decode_ref).

Lemma database_now_inside : reading_only (in_outbox (V := V) (R := R) (StreamErasure.database_now parse_wire pg_render)).
Proof.
  intros Q ? w r w' (u & u' & Hu & Ht & Hd & Ho & Et & Ed & Eo)%in_outbox_inv.
  assert (Hs : stable (inside eq) (StreamErasure.database_now (wire := wire) parse_wire pg_render)).
  { unfold StreamErasure.database_now.
    apply stable_bind; [apply _| |intros; apply stable_lift, _].
    apply inside_statement; [apply _|]. by intros o a o' [= _ <-]. }
  apply Hs in Hu as (Hd' & _ & Hu). split_and!; [congruence|done|].
  assert (E : w_tables w' = w_tables w) by (rewrite Et, <-Hu, Ht; by destruct (w_tables w)). by rewrite E.
Qed.

Lemma news_inside previous digest added updated :
  reading_only (news (wire := wire) (ref := ref) new_uuid (V := V) (R := R) previous digest added updated).
Proof.
  intros Q ?. unfold news, event_of. reads; by apply event_of_payload_inside.
Qed.

Lemma collect_inside {A} (f : A → sm (world atables) projection_error (list (candidate (wire := wire) (ref := ref)))) rows :
  (∀ a, reading_only (f a)) → reading_only (collect (V := V) (R := R) f rows).
Proof.
  intros Hf Q ?. induction rows as [|row rows IH]; cbn [collect]; [apply stable_ret, _|].
  apply stable_bind; [apply _|by apply Hf|intros found]. apply stable_bind; [apply _|exact IH|intros; apply stable_ret, _].
Qed.

Lemma load_import_inside s owner :
  reading_only (load_import sha256_hex pg_render (V := V) (R := R) decode_ref s owner).
Proof.
  intros Q ?. unfold load_import, completeness_report, representable.
  reads; by apply database_now_inside.
Qed.

Lemma project_candidates_inside s base :
  reading_only (project_candidates sha256_hex new_uuid render collate (V := V) (R := R) s base).
Proof.
  intros Q ?. apply stable_bind; [apply _|apply fetch_inside, _|intros rows].
  apply collect_inside; [|done]. intros row Q' ?. unfold project_candidate, last_emitted_digest. reads.
  by apply news_inside.
Qed.

Lemma conversation_candidates_inside s base :
  reading_only (conversation_candidates new_uuid render render_instant collate (V := V) (R := R) s base).
Proof.
  intros Q ?. apply stable_bind; [apply _|unfold conversation_rows; apply fetch_inside, _|intros rows].
  apply collect_inside; [|done]. intros row Q' ?.
  apply stable_bind; [apply _|by apply conversation_fact_inside|intros [p c]].
  unfold last_emitted_digest. apply stable_bind; [apply _|apply fetch_inside, _|intros previous].
  by apply news_inside.
Qed.

Lemma enqueue_queue_queues s queue : ∀ o,
  stable (inside queues) (enqueue_queue (wire := wire) (ref := ref) (V := V) (R := R) s queue o).
Proof.
  induction queue as [|c queue IH]; intros o; cbn [enqueue_queue]; [apply stable_ret, _|].
  apply stable_bind; [apply _|apply stable_lift, _|intros size]. case_match; [apply IH|].
  apply stable_bind; [apply _|apply stable_map_err, enqueue_queues|intros added; apply IH].
Qed.

(** Projecting the facts of an import queues events, and changes nothing
    else. *)
Lemma project_import_facts_queues owners s : stable (inside queues) (project_import_facts owners s).
Proof.
  apply stable_bind; [apply _|apply fetch_inside, _|intros [owner|]; [|apply stable_ret, _]].
  apply stable_bind; [apply _|apply load_import_inside, _|intros [import digest]].
  apply stable_bind; [apply _|apply project_candidates_inside, _|intros projects].
  apply stable_bind; [apply _|apply conversation_candidates_inside, _|intros conversations].
  apply stable_bind; [apply _| |intros head; apply enqueue_queue_queues].
  case_match; [|apply stable_ret, _].
  apply stable_bind; [apply _|apply stable_map_err, event_of_payload_inside, _|intros e; apply stable_ret, _].
Qed.
End projection_laws.
