(* ===== verification/PortableExport.v ===== *)
(** * The portable archive ([portable_export.rs])

    A tenant's normalized records and verified asset bytes as one archive:
    its members, their names and texts, the manifest, and where it is
    written. *)

From S2P Require Import Prelude BTree Disk BlobStore Json Std OutboxTable Archive.

#[local] Open Scope result_scope.

(** ** The state of an export *)

Record portable_provenance : Set := PortableProvenance {
  pv_archive_sha256 : string;
  pv_parser_name : string;
  pv_parser_version : string;
  pv_observed_at_rfc3339 : string;
}.

Record portable_project : Set := PortableProject {
  xpj_external_id : string;
  xpj_title : option string;
  xpj_observed_at_rfc3339 : string;
  xpj_payload : json;
}.

Record portable_conversation : Set := PortableConversation {
  xcv_external_id : string;
  xcv_project_external_id : option string;
  xcv_title : option string;
  xcv_observed_at_rfc3339 : string;
  xcv_payload : json;
}.

Inductive portable_asset_availability : Set := AssetVerified | AssetMissing | AssetQuarantined.

#[global] Instance portable_asset_availability_eq_dec : EqDecision portable_asset_availability.
Proof. solve_decision. Defined.

Record portable_asset : Set := PortableAsset {
  xas_external_id : string;
  xas_project_external_id : option string;
  xas_observed_at_rfc3339 : string;
  xas_availability : portable_asset_availability;
  xas_blob : option blob_ref;
  xas_media_type : option string;
}.

Record portable_archive_state : Set := PortableArchiveState {
  xst_account_external_ref : string;
  xst_provenance : portable_provenance;
  xst_projects : list portable_project;
  xst_conversations : list portable_conversation;
  xst_assets : list portable_asset;
}.

Record portable_export_filter : Set := PortableExportFilter {
  xf_account_external_ref : string;
  xf_project_external_id : option string;
  xf_observed_from_rfc3339 : option string;
  xf_observed_to_rfc3339 : option string;
}.

(** [ZE]: the errors of the ZIP crate. *)
Inductive portable_export_error (ZE : Type) : Type :=
| ExportJson | ExportZip (e : ZE) | ExportIo (e : io_error) | MissingVerifiedAssetReference
| ExportBlob (e : blob_store_error) | EmptySelection | InvalidOutputPath | ExportStore.
Arguments ExportJson {ZE}.
Arguments ExportZip {ZE} _.
Arguments ExportIo {ZE} _.
Arguments MissingVerifiedAssetReference {ZE}.
Arguments ExportBlob {ZE} _.
Arguments EmptySelection {ZE}.
Arguments InvalidOutputPath {ZE}.
Arguments ExportStore {ZE}.

(** One file of the archive, ordered by its path and then its bytes. *)
Record member : Set := Member { mb_path : string; mb_bytes : string }.

Definition member_key (m : member) : string * string := (mb_path m, mb_bytes m).

(** The [ZipWriter] of the ZIP crate, over a buffer. *)
Record zip_writer (Z ZE : Type) : Type := ZipWriter {
  zw_new : Z;
  zw_start_file : Z → string → result ZE Z;
  zw_write_all : Z → string → result io_error Z;
  zw_finish : Z → result ZE string;
}.
Arguments ZipWriter {Z ZE} _ _ _ _.
Arguments zw_new {Z ZE} _.
Arguments zw_start_file {Z ZE} _ _ _.
Arguments zw_write_all {Z ZE} _ _ _.
Arguments zw_finish {Z ZE} _ _.

Definition newline : string := String "010"%char "".

(** ** Names *)

Definition is_component (c : ascii) : bool := is_ascii_alphanumeric c || is_char "-"%char c || is_char "_"%char c.

Section portable_export.
(** SHA-256 in hexadecimal, [serde_json::to_vec] of a value. *)
Context (sha256_hex : string → string) (to_vec : json → string).
Context {Z ZE : Type} (zip : zip_writer Z ZE).

#[local] Abbreviation portable_export_error := (portable_export_error ZE).

Definition path_component (external_id : string) : string :=
  let readable := map_chars (λ c, if is_component c then c else "-"%char) "-"%char external_id in
  let suffix := String.substring 0 16 (sha256_hex external_id) in
  readable +:+ "-" +:+ suffix.

Definition availability_name (a : portable_asset_availability) : string :=
  match a with AssetVerified => "verified" | AssetMissing => "missing" | AssetQuarantined => "quarantined" end.

(** ** Values *)

Definition provenance_value (p : portable_provenance) : json :=
  json_map [("archive_sha256", JString (pv_archive_sha256 p)); ("parser_name", JString (pv_parser_name p));
            ("parser_version", JString (pv_parser_version p));
            ("observed_at_rfc3339", JString (pv_observed_at_rfc3339 p))].

Definition filter_value (f : portable_export_filter) : json :=
  json_map [("account_external_ref", JString (xf_account_external_ref f));
            ("project_external_id", json_option JString (xf_project_external_id f));
            ("observed_from_rfc3339", json_option JString (xf_observed_from_rfc3339 f));
            ("observed_to_rfc3339", json_option JString (xf_observed_to_rfc3339 f))].

(** The canonical text of a value, on a line of its own. *)
Definition canonical_json (v : json) : string := to_vec (canonicalize v) +:+ newline.

(** ** Markdown *)

Definition provenance_header (p : portable_provenance) : string :=
  "<!-- provenance: archive-sha256=" +:+ pv_archive_sha256 p +:+ "; parser=" +:+ pv_parser_name p
  +:+ "; parser-version=" +:+ pv_parser_version p +:+ " -->" +:+ newline +:+ newline.

(** [Value::get] of a name: nothing in what is no object. *)
Definition value_get (k : string) (v : json) : option json := l ← as_object v; obj_get k l.

Definition value_array (v : json) : option (list json) := match v with JArray l => Some l | _ => None end.

(** [\n## <name>\n\n<text>\n], of a text of the payload. *)
Definition section_of (name key : string) (payload : json) : string :=
  match value_get key payload ≫= as_str with
  | Some text => newline +:+ "## " +:+ name +:+ newline +:+ newline +:+ text +:+ newline
  | None => ""
  end.

Definition project_markdown (p : portable_project) (provenance : portable_provenance) : string :=
  provenance_header provenance +:+ "# " +:+ default "Untitled project" (xpj_title p) +:+ newline +:+ newline
  +:+ "`project_id`: `" +:+ xpj_external_id p +:+ "`" +:+ newline
  +:+ section_of "Description" "description" (xpj_payload p)
  +:+ section_of "Instructions" "instructions" (xpj_payload p).

Definition part_markdown (part : json) : string :=
  let payload := default JNull (value_get "payload" part) in
  let text := match as_str payload with Some t => Some t | None => value_get "text" payload ≫= as_str end in
  match text with
  | Some text => newline +:+ text +:+ newline
  | None => newline +:+ "```json" +:+ newline +:+ to_vec (canonicalize payload) +:+ newline +:+ "```" +:+ newline
  end.

Definition message_markdown (message : json) : string :=
  let role := default "unknown" (value_get "role" message ≫= as_str) in
  newline +:+ "## " +:+ role +:+ newline +:+
  match value_get "parts" message ≫= value_array with
  | Some parts => String.concat "" (part_markdown <$> parts)
  | None => ""
  end.

Definition messages_markdown (payload : json) : string :=
  match value_get "messages" payload ≫= value_array with
  | Some messages => String.concat "" (message_markdown <$> messages)
  | None => ""
  end.

Definition conversation_markdown (c : portable_conversation) (provenance : portable_provenance) : string :=
  provenance_header provenance +:+ "# " +:+ default "Untitled conversation" (xcv_title c) +:+ newline +:+ newline
  +:+ "`conversation_id`: `" +:+ xcv_external_id c +:+ "`" +:+ newline +:+ newline
  +:+ "`observed_at`: `" +:+ xcv_observed_at_rfc3339 c +:+ "`" +:+ newline
  +:+ messages_markdown (xcv_payload c).

(** ** Members *)

Definition project_value (provenance : portable_provenance) (p : portable_project) : json :=
  json_map [("provenance", provenance_value provenance);
            ("project", json_map [("external_id", JString (xpj_external_id p));
                                  ("title", json_option JString (xpj_title p));
                                  ("payload", canonicalize (xpj_payload p))])].

Definition project_members (provenance : portable_provenance) (p : portable_project) : list member :=
  let component := path_component (xpj_external_id p) in
  [Member ("projects/" +:+ component +:+ ".json") (canonical_json (project_value provenance p));
   Member ("projects/" +:+ component +:+ ".md") (project_markdown p provenance)].

Definition conversation_value (provenance : portable_provenance) (c : portable_conversation) : json :=
  json_map [("provenance", provenance_value provenance);
            ("conversation", json_map [("external_id", JString (xcv_external_id c));
                                       ("project_external_id", json_option JString (xcv_project_external_id c));
                                       ("title", json_option JString (xcv_title c));
                                       ("observed_at_rfc3339", JString (xcv_observed_at_rfc3339 c));
                                       ("payload", canonicalize (xcv_payload c))])].

Definition conversation_members (provenance : portable_provenance) (c : portable_conversation) : list member :=
  let component := path_component (xcv_external_id c) in
  [Member ("conversations/" +:+ component +:+ ".json") (canonical_json (conversation_value provenance c));
   Member ("conversations/" +:+ component +:+ ".md") (conversation_markdown c provenance)].

Definition sort_members : list member → list member := sort_by (cmp_on member_key).

Definition normalized_members (state : portable_archive_state) : list member :=
  let projects := sort_by (cmp_on xpj_external_id) (xst_projects state) in
  let conversations := sort_by (cmp_on xcv_external_id) (xst_conversations state) in
  sort_members ((projects ≫= project_members (xst_provenance state))
                ++ (conversations ≫= conversation_members (xst_provenance state))).

Definition asset_path (a : portable_asset) : string := "assets/" +:+ path_component (xas_external_id a).

(** The first asset of that path decides. *)
Definition member_media_type (path : string) (state : portable_archive_state) : option string :=
  '(_, a) ← list_find (λ a, asset_path a = path) (xst_assets state); xas_media_type a.

Definition member_value (state : portable_archive_state) (m : member) : json :=
  json_map [("path", JString (mb_path m)); ("sha256", JString (sha256_hex (mb_bytes m)));
            ("length_bytes", JNumber (PosInt (N.of_nat (String.length (mb_bytes m)))));
            ("media_type", json_option JString (member_media_type (mb_path m) state));
            ("provenance", provenance_value (xst_provenance state))].

Definition asset_warning (a : portable_asset) : json :=
  json_map [("asset_external_id", JString (xas_external_id a));
            ("availability", JString (availability_name (xas_availability a)))].

Definition manifest_value (state : portable_archive_state) (members : list member)
    (f : option portable_export_filter) : json :=
  json_map [("format", JString "ratatoskr-portable-archive");
            ("account_external_ref", JString (xst_account_external_ref state));
            ("provenance", provenance_value (xst_provenance state));
            ("filters", json_option filter_value f);
            ("members", JArray (member_value state <$> members));
            ("asset_warnings", JArray (asset_warning <$>
               filter (λ a, xas_availability a ≠ AssetVerified) (xst_assets state)))].

Definition manifest_member (state : portable_archive_state) (members : list member)
    (f : option portable_export_filter) : member :=
  Member "manifest.json" (canonical_json (manifest_value state members f)).

(** ** The archive *)

Fixpoint write_members (w : Z) (members : list member) : result portable_export_error Z :=
  match members with
  | [] => Ok w
  | m :: rest =>
      let? w := map_err ExportZip (zw_start_file zip w (mb_path m)) in
      let? w := map_err ExportIo (zw_write_all zip w (mb_bytes m)) in
      write_members w rest
  end.

Definition write_zip (members : list member) : result portable_export_error string :=
  let? w := write_members (zw_new zip) members in
  map_err ExportZip (zw_finish zip w).

(** What the archive holds: the members in order, and the manifest. *)
Definition archive_members (state : portable_archive_state) (members : list member)
    (f : option portable_export_filter) : list member :=
  let members := sort_members members in members ++ [manifest_member state members f].

Definition archive_bytes (state : portable_archive_state) (members : list member)
    (f : option portable_export_filter) : result portable_export_error string :=
  write_zip (archive_members state members f).

Definition export_to_bytes (state : portable_archive_state) : result portable_export_error string :=
  archive_bytes state (normalized_members state) None.

(** The verified assets, read through the blob store. *)
Fixpoint asset_members (blob_store : blob_store) (assets : list portable_asset) (members : list member)
    : sm disk portable_export_error (list member) :=
  match assets with
  | [] => sret members
  | a :: rest =>
      if decide (xas_availability a ≠ AssetVerified) then asset_members blob_store rest members
      else
        let! reference := slift (ok_or MissingVerifiedAssetReference (xas_blob a)) in
        let! source := smap_err ExportBlob (verify sha256_hex blob_store reference) in
        let! bytes := smap_err ExportIo (read_file source) in
        asset_members blob_store rest (members ++ [Member (asset_path a) bytes])
  end.

Definition export_to_bytes_with_assets (state : portable_archive_state) (blob_store : blob_store)
    : sm disk portable_export_error string :=
  let! members := asset_members blob_store (xst_assets state) (normalized_members state) in
  slift (archive_bytes state members None).

(** [Path::parent] and [Path::join], of a path without doubled or trailing
    separators. *)
Definition path_parent (p : string) : option string :=
  if String.eqb p "" || String.eqb p "/" then None
  else match rsplit_once solidus p with
       | Some (dir, _) => Some (if String.eqb dir "" then "/" else dir)
       | None => Some ""
       end.

Definition join_path (dir file : string) : string :=
  if String.eqb dir "" then file else if String.eqb dir "/" then "/" +:+ file else path_join dir file.

(** [part_id] is the name minted for the temporary file. *)
Definition temporary_path (dir part_id : string) : string :=
  join_path dir (".portable-export-" +:+ part_id +:+ ".part").

Definition export_to_path_with_assets (part_id : string) (state : portable_archive_state)
    (blob_store : blob_store) (output : string) : sm disk portable_export_error unit :=
  let! bytes := export_to_bytes_with_assets state blob_store in
  let! parent := slift (ok_or InvalidOutputPath (path_parent output)) in
  let! _ := smap_err ExportIo (create_dir_all parent) in
  let temporary := temporary_path parent part_id in
  let! _ := smap_err ExportIo (write_file temporary bytes) in
  smap_err ExportIo (rename temporary output).

(** ** Selection *)

(** [is_none_or]. *)
Definition none_or {A} (o : option A) (P : A → bool) : bool := match o with Some a => P a | None => true end.

Definition at_least (a b : string) : bool := match cmp a b with Lt => false | _ => true end.

Definition selects (f : portable_export_filter) (project_external_id : option string) (observed_at : string) : bool :=
  none_or (xf_project_external_id f) (λ project, bool_decide (project_external_id = Some project))
  && none_or (xf_observed_from_rfc3339 f) (λ from, at_least observed_at from)
  && none_or (xf_observed_to_rfc3339 f) (λ to, at_least to observed_at).

Definition select_state (state : portable_archive_state) (f : portable_export_filter) : portable_archive_state :=
  PortableArchiveState (xst_account_external_ref state) (xst_provenance state)
    (filter (λ p, selects f (Some (xpj_external_id p)) (xpj_observed_at_rfc3339 p) = true) (xst_projects state))
    (filter (λ c, selects f (xcv_project_external_id c) (xcv_observed_at_rfc3339 c) = true) (xst_conversations state))
    (filter (λ a, selects f (xas_project_external_id a) (xas_observed_at_rfc3339 a) = true) (xst_assets state)).

Definition export_selected_to_bytes (states : list portable_archive_state) (f : portable_export_filter)
    : result portable_export_error string :=
  let? state := ok_or EmptySelection
    (snd <$> list_find (λ s, xst_account_external_ref s = xf_account_external_ref f) states) in
  let selected := select_state state f in
  archive_bytes selected (normalized_members selected) (Some f).
End portable_export.

(** ** Laws *)

#[global] Instance member_key_inj : Inj (=) (=) member_key.
Proof. intros [] [] [= -> ->]. done. Qed.

Lemma sort_members_perm l k : l ≡ₚ k → sort_members l = sort_members k.
Proof. apply (sort_by_canonical member_key). Qed.

Section canonical_laws.
Context (sha256_hex : string → string) (to_vec : json → string).
Context {Z ZE : Type} (zip : zip_writer Z ZE).

#[local] Abbreviation normalized_members := (normalized_members sha256_hex to_vec).

(** The same records, held in another order. *)
Record reordered (state state' : portable_archive_state) : Prop := Reordered {
  ro_account : xst_account_external_ref state' = xst_account_external_ref state;
  ro_provenance : xst_provenance state' = xst_provenance state;
  ro_projects : xst_projects state' ≡ₚ xst_projects state;
  ro_conversations : xst_conversations state' ≡ₚ xst_conversations state;
  ro_assets : xst_assets state' = xst_assets state;
}.

Lemma normalized_members_reordered state state' :
  reordered state state' → normalized_members state' = normalized_members state.
Proof.
  intros [_ Hp Hj Hc _]. unfold PortableExport.normalized_members. rewrite Hp. apply sort_members_perm.
  by rewrite !sort_by_perm, Hj, Hc.
Qed.

Lemma archive_bytes_reordered state state' members f :
  reordered state state' →
  archive_bytes sha256_hex to_vec zip state' members f = archive_bytes sha256_hex to_vec zip state members f.
Proof.
  intros [Ha Hp _ _ Has]. unfold archive_bytes, archive_members, manifest_member, manifest_value, member_value,
    member_media_type. by rewrite Ha, Hp, Has.
Qed.

Lemma select_reordered state state' f : reordered state state' → reordered (select_state state f) (select_state state' f).
Proof. intros [Ha Hp Hj Hc Has]. constructor; cbn; [done..|by rewrite Hj|by rewrite Hc|by rewrite Has]. Qed.

(** C18. The archive does not depend on the order its records were loaded in: the
    bytes of every form of export - all of a state, with its assets, or a
    selection - are those of any reordering of the projects and
    conversations.  (The order of the assets shows in the manifest.) *)
Theorem export_canonical (state state' : portable_archive_state) :
  reordered state state' →
  export_to_bytes sha256_hex to_vec zip state' = export_to_bytes sha256_hex to_vec zip state ∧
  (∀ blobs d, export_to_bytes_with_assets sha256_hex to_vec zip state' blobs d =
              export_to_bytes_with_assets sha256_hex to_vec zip state blobs d) ∧
  (∀ f others, export_selected_to_bytes sha256_hex to_vec zip (state' :: others) f =
               export_selected_to_bytes sha256_hex to_vec zip (state :: others) f).
Proof.
  intros Hr. pose proof (normalized_members_reordered _ _ Hr) as Hm. split_and!.
  - unfold export_to_bytes. by rewrite Hm, (archive_bytes_reordered _ _ _ _ Hr).
  - intros blobs d. unfold export_to_bytes_with_assets. rewrite Hm, (ro_assets _ _ Hr). unfold sbind.
    destruct (asset_members _ _ _ _ d) as [[members|e] d']; [|done]. unfold slift.
    by rewrite (archive_bytes_reordered _ _ _ _ Hr).
  - intros f others. unfold export_selected_to_bytes. cbn [list_find]. rewrite (ro_account _ _ Hr).
    destruct (decide (xst_account_external_ref state = xf_account_external_ref f)); [|done].
    cbn -[select_state PortableExport.normalized_members archive_bytes].
    pose proof (select_reordered _ _ f Hr) as Hs.
    by rewrite (normalized_members_reordered _ _ Hs), (archive_bytes_reordered _ _ _ _ Hs).
Qed.
End canonical_laws.

(** *** Names *)

Section name_laws.
Context (sha256_hex : string → string) (to_vec : json → string).
(** A digest is at least sixteen hexadecimal digits. *)
Context (digits : ∀ s, 16 <= String.length (sha256_hex s) ∧ any_byte (λ c, negb (is_component c)) (sha256_hex s) = false).

#[local] Abbreviation path_component := (path_component sha256_hex).
#[local] Abbreviation component s := (any_byte (λ c, negb (is_component c)) s = false).

Lemma map_chars_component s :
  component (map_chars (λ c, if is_component c then c else "-"%char) "-"%char s).
Proof.
  induction s as [|c s IH]; [done|]. cbn. destruct (is_continuation c); [done|].
  unfold any_byte in *. cbn. rewrite IH, orb_false_r.
  destruct (byte c <? 128)%N; [|done]. by destruct (is_component c) eqn:E; [rewrite E|].
Qed.
Lemma any_byte_substring f n s : any_byte f s = false → any_byte f (String.substring 0 n s) = false.
Proof.
  revert s. induction n as [|n IH]; intros [|c s]; try done. unfold any_byte in *. cbn.
  rewrite !orb_false_iff. intros [? ?]. split; [done|by apply IH].
Qed.

Lemma path_component_spec s : component (path_component s) ∧ path_component s ≠ "".
Proof.
  unfold PortableExport.path_component. rewrite !any_byte_app. rewrite map_chars_component. split.
  - by rewrite any_byte_substring by apply digits.
  - by destruct (map_chars _ _ s).
Qed.

Lemma component_safe s extension :
  component s → s ≠ "" → extension ∈ [""; ".json"; ".md"] → safe_part (s +:+ extension).
Proof.
  intros Hs Hne He. destruct s as [|c s]; [done|].
  assert (Hc : is_component c = true).
  { rewrite any_byte_cons in Hs. apply orb_false_iff in Hs as [Hs _]. by apply negb_false_iff. }
  assert (Hin : ∀ f, (∀ a, is_component a = true → f a = false) → any_byte f extension = false →
    any_byte f (String c s +:+ extension) = false).
  { intros f Hf Hx. rewrite any_byte_app, Hx, orb_false_r. apply any_byte_false. apply any_byte_false in Hs.
    eapply Forall_impl; [exact Hs|]. intros a Ha. apply Hf. by apply negb_false_iff. }
  assert (Hclear : ∀ f, any_byte f "ABCDEFGHIJKLMNOPQRSTUVWXYZabcdefghijklmnopqrstuvwxyz0123456789-_" = false →
    ∀ a, is_component a = true → f a = false).
  { intros f Hf a Ha. apply any_byte_false in Hf. rewrite Forall_forall in Hf. apply Hf.
    revert Ha. destruct a as [[] [] [] [] [] [] [] []]; intros [=]; apply list_elem_of_In; cbn; tauto. }
  rewrite !elem_of_cons, elem_of_nil in He.
  split_and!; try done.
  - intros [= -> _]. done.
  - intros [= -> _]. done.
  - apply Hin; [by apply Hclear|]. destruct He as [->|[->|[->|[]]]]; done.
  - apply Hin; [by apply Hclear|]. destruct He as [->|[->|[->|[]]]]; done.
Qed.

(** The names of the files, by class and identity. *)
Definition file_path (dir external_id extension : string) : string :=
  dir +:+ "/" +:+ path_component external_id +:+ extension.

Lemma file_path_safe dir external_id extension :
  dir ∈ ["projects"; "conversations"; "assets"] → extension ∈ [""; ".json"; ".md"] →
  safe_path (file_path dir external_id extension).
Proof.
  intros Hd He. exists [dir; path_component external_id +:+ extension]. split; [done|]. split; [done|].
  destruct (path_component_spec external_id) as [Hc Hne].
  constructor; [|constructor; [by apply component_safe|constructor]].
  rewrite !elem_of_cons, elem_of_nil in Hd. destruct Hd as [->|[->|[->|[]]]]; by split_and!.
Qed.

(** The first sixteen digits tell the identities in use apart. *)
Definition told_apart (ids : list string) : Prop :=
  ∀ a b, a ∈ ids → b ∈ ids → String.substring 0 16 (sha256_hex a) = String.substring 0 16 (sha256_hex b) → a = b.

Lemma substring_full n s : n <= String.length s → String.length (String.substring 0 n s) = n.
Proof. revert s. induction n as [|n IH]; intros [|c s] Hs; cbn in *; try lia. f_equal. apply IH. lia. Qed.

Lemma length_to_bytes s : length (to_bytes s) = String.length s.
Proof. induction s; cbn; congruence. Qed.

Lemma append_same_length_r a b c d :
  String.length b = String.length d → a +:+ b = c +:+ d → a = c ∧ b = d.
Proof.
  intros Hl Hab. apply (f_equal to_bytes) in Hab. rewrite !to_bytes_app in Hab.
  apply app_inj_2 in Hab as [Ha Hb]; [|by rewrite !length_to_bytes, Hl].
  by apply (inj to_bytes) in Ha, Hb.
Qed.

Lemma path_component_inj ids a b :
  told_apart ids → a ∈ ids → b ∈ ids → path_component a = path_component b → a = b.
Proof.
  intros Ht Ha Hb E. unfold PortableExport.path_component in E. apply (Ht _ _ Ha Hb).
  assert (Hlen : ∀ s, String.length (String.substring 0 16 (sha256_hex s)) = 16).
  { intros s. apply substring_full, digits. }
  rewrite <-!string_app_assoc in E. apply append_same_length_r in E as [_ E]; [done|]. by rewrite !Hlen.
Qed.

#[local] Abbreviation file_path' n := (file_path n.1.1 n.1.2 n.2).

Definition named (n : string * string * string) : Prop :=
  n.1.1 ∈ ["projects"; "conversations"; "assets"] ∧ n.2 ∈ [""; ".json"; ".md"].

Lemma split_extension s extension :
  component s → extension ∈ [""; ".json"; ".md"] →
  split_once "."%char (s +:+ extension) = match extension with String _ r => Some (s, r) | "" => None end.
Proof.
  intros Hs He.
  assert (Hdot : any_byte (is_char "."%char) s = false).
  { apply any_byte_false. apply any_byte_false in Hs. eapply Forall_impl; [exact Hs|]. intros c Hc.
    destruct (is_char "."%char c) eqn:E; [|done]. by apply Ascii.eqb_eq in E as <-. }
  rewrite !elem_of_cons, elem_of_nil in He. destruct He as [->|[->|[->|[]]]].
  - by rewrite string_app_nil_r, (proj2 (split_once_None _ _) Hdot).
  - by apply (split_once_app "."%char s "json").
  - by apply (split_once_app "."%char s "md").
Qed.

Lemma file_path_inj ids n m :
  told_apart ids → n.1.2 ∈ ids → m.1.2 ∈ ids → named n → named m → file_path' n = file_path' m → n = m.
Proof.
  destruct n as [[d a] e], m as [[d' a'] e']. cbn. intros Ht Ha Ha' [Hd He] [Hd' He'] E.
  assert (Hdir : d = d' ∧ path_component a +:+ e = path_component a' +:+ e').
  { unfold file_path in E. cbn in Hd, Hd'. rewrite !elem_of_cons, elem_of_nil in Hd, Hd'.
    destruct Hd as [->|[->|[->|[]]]], Hd' as [->|[->|[->|[]]]]; try discriminate;
      (split; [done|]; by repeat injection E as E). }
  destruct Hdir as [-> Erest]. pose proof (f_equal (split_once "."%char) Erest) as Es.
  rewrite !split_extension in Es by (done || apply path_component_spec). cbn in He, He'.
  rewrite !elem_of_cons, elem_of_nil in He, He'.
  assert (e = e') as ->.
  { destruct He as [->|[->|[->|[]]]], He' as [->|[->|[->|[]]]]; try done; by injection Es. }
  apply append_same_length_r in Erest as [Ec _]; [|done]. by rewrite (path_component_inj _ _ _ Ht Ha Ha' Ec).
Qed.

(** The files an archive of a state holds, with the bytes of [assets]. *)
Definition file_names (state : portable_archive_state) (assets : list portable_asset) : list (string * string * string) :=
  (xst_projects state ≫= λ p, [("projects", xpj_external_id p, ".json"); ("projects", xpj_external_id p, ".md")])
  ++ (xst_conversations state ≫= λ c,
        [("conversations", xcv_external_id c, ".json"); ("conversations", xcv_external_id c, ".md")])
  ++ ((λ a, ("assets", xas_external_id a, "")) <$> assets).

Definition all_ids (state : portable_archive_state) (assets : list portable_asset) : list string :=
  (xpj_external_id <$> xst_projects state) ++ (xcv_external_id <$> xst_conversations state)
  ++ (xas_external_id <$> assets).

Lemma asset_path_file a : asset_path sha256_hex a = file_path' ("assets", xas_external_id a, "").
Proof. unfold asset_path, file_path. cbn. by rewrite string_app_nil_r. Qed.

Lemma fmap_bind {A B C} (g : B → C) (f : A → list B) l : g <$> (l ≫= f) = l ≫= (λ a, g <$> f a).
Proof. induction l as [|a l IH]; [done|]. cbn. by rewrite fmap_app, <-IH. Qed.

Lemma archive_paths state assets extra f :
  mb_path <$> extra = asset_path sha256_hex <$> assets →
  mb_path <$> archive_members sha256_hex to_vec state (normalized_members sha256_hex to_vec state ++ extra) f ≡ₚ
    "manifest.json" :: ((λ n, file_path' n) <$> file_names state assets).
Proof.
  intros He. unfold archive_members. rewrite fmap_app. cbn. rewrite <-Permutation_cons_append. constructor.
  unfold sort_members. rewrite sort_by_perm, fmap_app, He. unfold normalized_members, sort_members, file_names.
  rewrite sort_by_perm, !sort_by_perm, !fmap_app, !fmap_bind, <-app_assoc.
  apply Permutation_app; [done|]. apply Permutation_app; [done|].
  rewrite <-list_fmap_compose. apply reflexive_eq, list_fmap_ext. intros n a _. apply asset_path_file.
Qed.

Lemma elem_of_two {A} (x a b : A) : x ∈ [a; b] ↔ x = a ∨ x = b.
Proof. rewrite !elem_of_cons, elem_of_nil. tauto. Qed.

Lemma file_names_spec state assets n :
  n ∈ file_names state assets → named n ∧ n.1.2 ∈ all_ids state assets.
Proof.
  unfold file_names, all_ids, named. rewrite !elem_of_app, !list_elem_of_bind, !list_elem_of_fmap.
  intros [(p & Hn & Hp)|[(c & Hn & Hc)|(a & -> & Ha)]].
  - apply elem_of_two in Hn as [-> | ->]; cbn; (split; [split; apply list_elem_of_In; cbn; tauto|]); left; eauto.
  - apply elem_of_two in Hn as [-> | ->]; cbn; (split; [split; apply list_elem_of_In; cbn; tauto|]); right; left; eauto.
  - cbn. split; [split; apply list_elem_of_In; cbn; tauto|]. right. right. eauto.
Qed.

Lemma NoDup_pairs {A} (dir : string) (id : A → string) (l : list A) :
  NoDup (id <$> l) → NoDup (l ≫= λ a, [(dir, id a, ".json"); (dir, id a, ".md")]).
Proof.
  induction l as [|a l IH]; [constructor|]. cbn. intros [Ha Hl]%NoDup_cons.
  assert (Hout : ∀ e, (dir, id a, e) ∉ (l ≫= λ a, [(dir, id a, ".json"); (dir, id a, ".md")])).
  { intros e (b & He & Hb)%list_elem_of_bind. apply Ha, list_elem_of_fmap. exists b. split; [|done].
    by apply elem_of_two in He as [[= -> _]|[= -> _]]. }
  constructor; [|constructor; [apply Hout|by apply IH]].
  intros [[=]|Hin]%elem_of_cons. by eapply Hout.
Qed.

Lemma file_names_NoDup state assets :
  NoDup (xpj_external_id <$> xst_projects state) → NoDup (xcv_external_id <$> xst_conversations state) →
  NoDup (xas_external_id <$> assets) → NoDup (file_names state assets).
Proof.
  intros Hp Hc Ha. unfold file_names. apply NoDup_app. split; [by apply NoDup_pairs|]. split.
  - intros n (p & Hn & _)%list_elem_of_bind. rewrite elem_of_app. intros [(c & Hn' & _)%list_elem_of_bind|(a & -> & _)%list_elem_of_fmap].
    + by apply elem_of_two in Hn as [-> | ->]; apply elem_of_two in Hn' as [|].
    + by apply elem_of_two in Hn as [|].
  - apply NoDup_app. split; [by apply NoDup_pairs|]. split.
    + intros n (c & Hn & _)%list_elem_of_bind (a & -> & _)%list_elem_of_fmap. by apply elem_of_two in Hn as [|].
    + revert Ha. induction assets as [|a l IH]; [constructor|]. cbn. intros [Hn Hl]%NoDup_cons.
      constructor; [|by apply IH]. intros (b & [= E] & Hb)%list_elem_of_fmap. apply Hn, list_elem_of_fmap. eauto.
Qed.

(** C17. What is exported can be received.  The paths of an archive - the files of its
    projects and conversations, of the assets it carries, and the manifest -
    are pairwise distinct, and the intake accepts each as it stands: none is
    absolute, climbs, or holds a separator or a colon in a name, whatever the
    provider put in its identities.  It rests on the identities of a class
    being distinct and on sixteen digits of the digest telling them apart. *)
Theorem exported_paths_are_receivable (state : portable_archive_state) (assets : list portable_asset)
    (extra : list member) (f : option portable_export_filter) :
  mb_path <$> extra = asset_path sha256_hex <$> assets →
  NoDup (xpj_external_id <$> xst_projects state) → NoDup (xcv_external_id <$> xst_conversations state) →
  NoDup (xas_external_id <$> assets) → told_apart (all_ids state assets) →
  let paths := mb_path <$> archive_members sha256_hex to_vec state (normalized_members sha256_hex to_vec state ++ extra) f in
  NoDup paths ∧ Forall (λ path, safe_path path ∧ normalize_path path = Ok path) paths.
Proof.
  intros He Hp Hc Ha Ht paths. unfold paths. rewrite (archive_paths _ _ _ f He).
  assert (Hsafe : ∀ path, safe_path path → safe_path path ∧ normalize_path path = Ok path).
  { intros path (parts & Hne & -> & Hs). split; [by exists parts|by apply normalize_safe]. }
  split.
  - constructor.
    + intros (n & E & _)%list_elem_of_fmap. destruct n as [[d id] e]. unfold file_path in E. cbn in E.
      apply (f_equal (split_once "/"%char)) in E.
      rewrite (proj2 (split_once_None "/"%char "manifest.json") eq_refl) in E.
      assert (Hs : ∀ a b, split_once "/"%char (a +:+ String "/" b) ≠ None).
      { intros a b Hn. apply split_once_None in Hn. by rewrite any_byte_app, orb_true_r in Hn. }
      by eapply Hs.
    + apply NoDup_fmap_2_strong; [|by apply file_names_NoDup].
      intros n m [Hn Hni]%file_names_spec [Hm Hmi]%file_names_spec. by apply (file_path_inj (all_ids state assets)).
  - constructor; [by apply (Hsafe "manifest.json"); exists ["manifest.json"]; repeat constructor|].
    apply Forall_fmap, Forall_forall. intros n [[Hd Hx] _]%file_names_spec. apply Hsafe, file_path_safe; done.
Qed.
End name_laws.

(** *** Bytes *)

Section export_laws.
Context (sha256_hex : string → string) (to_vec : json → string).
Context {Z ZE : Type} (zip : zip_writer Z ZE).

#[local] Abbreviation asset_members := (asset_members sha256_hex (ZE := ZE)).
#[local] Abbreviation export_to_bytes_with_assets := (export_to_bytes_with_assets sha256_hex to_vec zip).
#[local] Abbreviation export_to_path_with_assets := (export_to_path_with_assets sha256_hex to_vec zip).

(** Bytes of an asset, as the archive may carry them: those its reference
    names. *)
Definition carries (a : portable_asset) (m : member) : Prop :=
  mb_path m = asset_path sha256_hex a ∧
  ∃ b, xas_blob a = Some b ∧ br_owner_service b = OWNER ∧ sha256_hex (mb_bytes m) = cd_hex (br_digest b) ∧
    N.of_nat (String.length (mb_bytes m)) = br_length_bytes b.

Lemma asset_members_reading s assets members : stable (on_nodes eq) (asset_members s assets members).
Proof.
  revert members. induction assets as [|a assets IH]; intros members; cbn [PortableExport.asset_members]; [apply stable_ret, _|].
  case_decide; [apply IH|]. apply stable_bind; [apply _|apply stable_lift, _|intros b].
  apply stable_bind; [apply _|apply stable_map_err, verify_reading|intros source].
  apply stable_bind; [apply _|apply stable_map_err, read_file_stable, _|intros; apply IH].
Qed.

Lemma asset_members_Ok s assets : ∀ members d members' d',
  asset_members s assets members d = (Ok members', d') →
  ∃ new, members' = members ++ new ∧
    Forall2 carries (filter (λ a, xas_availability a = AssetVerified) assets) new.
Proof.
  induction assets as [|a assets IH]; intros members d members' d' H; cbn [PortableExport.asset_members] in H.
  { injection H as <- _. exists []. by rewrite app_nil_r. }
  destruct (decide (xas_availability a ≠ AssetVerified)) as [Hv|Hv].
  { rewrite filter_cons_False by done. by eapply IH. }
  apply dec_stable in Hv. rewrite filter_cons_True by done.
  apply sbind_Ok_inv in H as (b & d1 & Hb & H). destruct (xas_blob a) as [b0|] eqn:Ha; [|done].
  injection Hb as <- <-. apply sbind_Ok_inv in H as (source & d2 & Hs%smap_err_Ok_inv & H).
  apply verify_Ok in Hs as (Ed & Ho & _ & dir & rem & c & Hhex & _ & _ & Hc & Hsha & Hlen).
  apply sbind_Ok_inv in H as (bytes & d3 & Hr%smap_err_Ok_inv & H).
  apply read_file_Ok in Hr as [_ Hr]. rewrite Ed, Hc in Hr. injection Hr as <-.
  apply IH in H as (new & -> & Hnew). exists (Member (asset_path sha256_hex a) c :: new).
  split; [by rewrite <-app_assoc|]. constructor; [|done]. split; [done|]. by exists b0.
Qed.

Lemma export_with_assets_reading s state : stable (on_nodes eq) (export_to_bytes_with_assets state s).
Proof. apply stable_bind; [apply _|apply asset_members_reading|intros; apply stable_lift, _]. Qed.

(** Only the nodes at [ps] may change. *)
Definition only (ps : list string) (ns ns' : gmap string node) : Prop := ∀ p, p ∉ ps → ns' !! p = ns !! p.

#[export] Instance only_preorder ps : PreOrder (only ps).
Proof. split; [by intros ? ? ?|]. intros a b c H1 H2 p Hp. by rewrite H2, H1. Qed.

Lemma only_insert ps p n ns : p ∈ ps → only ps ns (<[p := n]> ns).
Proof. intros Hp q Hq. apply lookup_insert_ne. by intros ->. Qed.

Lemma create_dir_all_only ps p : p ∈ ps → stable (on_nodes (only ps)) (create_dir_all p).
Proof. intros Hp. apply stable_faulty; [apply _|]. intros ns u ns' H. split_cases; by apply only_insert. Qed.

Lemma write_file_only ps p data : p ∈ ps → stable (on_nodes (only ps)) (write_file p data).
Proof.
  intros Hp. apply stable_bind; [apply _| |intros ?]; (apply stable_faulty; [apply _|]); intros ns u ns' H;
    split_cases; by apply only_insert.
Qed.

Lemma write_file_Ok p data d d' : write_file p data d = (Ok tt, d') → d_nodes d' !! p = Some (NFile data).
Proof.
  intros ([] & d1 & [(? & [=] & _)|(? & _ & H1)]%faulty_cases & [(? & [=] & _)|(? & _ & H2)]%faulty_cases)%sbind_Ok_inv.
  assert (E1 : d_nodes d1 = <[p := NFile ""]> (d_nodes d)) by (destruct (d_nodes d !! p) as [[]|]; congruence).
  rewrite E1, lookup_insert_eq in H2. injection H2 as _ H2. rewrite <-H2. apply lookup_insert_eq.
Qed.

(** A rename replaces the destination, or nothing happens. *)
Lemma rename_cases src dst data d r d' :
  rename src dst d = (r, d') → d_nodes d !! src = Some (NFile data) → src ≠ dst →
  only [src; dst] (d_nodes d) (d_nodes d') ∧
  d_nodes d' !! dst = if is_ok r then Some (NFile data) else d_nodes d !! dst.
Proof.
  intros [(e & -> & ->)|(u & -> & Hop)]%faulty_cases Hs Hne; [done|]. rewrite Hs in Hop.
  assert (E : d_nodes d' = <[dst := NFile data]> (delete src (d_nodes d))) by (destruct (d_nodes d !! dst) as [[]|]; congruence).
  rewrite E. split; [|apply lookup_insert_eq]. intros q Hq. rewrite !not_elem_of_cons in Hq. destruct Hq as (H1 & H2 & _).
  rewrite lookup_insert_ne, lookup_delete_ne by congruence. done.
Qed.

(** Publication: the output is replaced at the end, or stays. *)
Lemma publish_cases parent temporary output bytes d r d' :
  (let! _ := smap_err ExportIo (create_dir_all parent) in
   let! _ := smap_err ExportIo (write_file temporary bytes) in
   smap_err (ExportIo (ZE := ZE)) (rename temporary output)) d = (r, d') →
  output ≠ parent → output ≠ temporary →
  only [parent; temporary; output] (d_nodes d) (d_nodes d') ∧
  d_nodes d' !! output = if is_ok r then Some (NFile bytes) else d_nodes d !! output.
Proof.
  intros Hrun Hp Ht.
  assert (Hc := stable_map_err (on_nodes (only [parent; temporary])) (ExportIo (ZE := ZE)) _
    (create_dir_all_only _ parent (list_elem_of_here _ _))).
  assert (Hw := stable_map_err (on_nodes (only [parent; temporary])) (ExportIo (ZE := ZE)) _
    (write_file_only [parent; temporary] temporary bytes (list_elem_of_further _ _ _ (list_elem_of_here _ _)))).
  assert (Hweak : ∀ ns ns', only [parent; temporary] ns ns' → only [parent; temporary; output] ns ns' ∧ ns' !! output = ns !! output).
  { intros ns ns' H. split; [intros p Hn; apply H|apply H]; [rewrite !not_elem_of_cons in *; tauto|].
    rewrite !not_elem_of_cons. by split_and!; [..|apply not_elem_of_nil]. }
  apply sbind_inv in Hrun as [([] & d1 & H1%Hc & Hrun)|(e & H1%Hc & ->)]; [|by apply Hweak].
  apply sbind_inv in Hrun as [([] & d2 & H2 & Hrun)|(e & H2%Hw & ->)].
  2:{ apply Hweak. by etrans. }
  pose proof (Hw _ _ _ H2) as H2'. apply smap_err_Ok_inv, write_file_Ok in H2.
  destruct (Hweak _ _ (transitivity H1 H2')) as [Hon Hsame].
  unfold smap_err in Hrun. destruct (rename temporary output d2) as [x d3] eqn:Hr.
  assert (Hx : is_ok r = is_ok x ∧ d' = d3) by (destruct x; by injection Hrun as <- <-). destruct Hx as [-> ->].
  apply (rename_cases _ _ bytes) in Hr as [Hon' Hr]; [|done|congruence]. split; [|by rewrite Hr, Hsame].
  intros p Hn. rewrite <-(Hon p Hn). apply Hon'. rewrite !not_elem_of_cons in *. tauto.
Qed.

(** C16. An export is published whole or not at all.  Whatever fails - the blob store,
    the device, the archive writer - a failed export leaves the output as it
    was, and a successful one leaves there the archive of the state's records
    and of the verified assets, each with exactly the bytes its reference
    names.  Nothing else changes but the output's directory and one temporary
    file beside it. *)
Theorem export_published_whole (part_id output : string) (state : portable_archive_state) (s : blob_store)
    (d d' : disk) (r : result (portable_export_error ZE) unit) :
  export_to_path_with_assets part_id state s output d = (r, d') →
  (∀ parent, path_parent output = Some parent → output ≠ parent ∧ output ≠ temporary_path parent part_id) →
  (∀ p, p ≠ output → (∀ parent, path_parent output = Some parent → p ≠ parent ∧ p ≠ temporary_path parent part_id) →
     d_nodes d' !! p = d_nodes d !! p) ∧
  match r with
  | Err _ => d_nodes d' !! output = d_nodes d !! output
  | Ok _ => ∃ bytes new, d_nodes d' !! output = Some (NFile bytes) ∧
      Forall2 carries (filter (λ a, xas_availability a = AssetVerified) (xst_assets state)) new ∧
      archive_bytes sha256_hex to_vec zip state (normalized_members sha256_hex to_vec state ++ new) None = Ok bytes
  end.
Proof.
  intros Hrun Hout. unfold PortableExport.export_to_path_with_assets in Hrun.
  apply sbind_inv in Hrun as [(bytes & d1 & H1 & Hrun)|(e & H1 & ->)];
    pose proof (export_with_assets_reading _ _ _ _ _ H1) as E1; unfold on_nodes in E1; [|by rewrite E1].
  unfold PortableExport.export_to_bytes_with_assets in H1.
  apply sbind_Ok_inv in H1 as (members & d0 & Hm & [= Hz _]). apply asset_members_Ok in Hm as (new & -> & Hnew).
  destruct (path_parent output) as [parent|] eqn:Hp; [|by injection Hrun as <- <-; rewrite E1].
  apply sbind_inv in Hrun as [(q & d2 & [= <- <-] & Hrun)|(e & [=] & _)].
  destruct (Hout _ eq_refl) as [Hop Hot]. apply publish_cases in Hrun as [Hon Ho]; [|done..]. rewrite <-E1 in Hon. split.
  - intros p Hpo Hpp. destruct (Hpp _ eq_refl). apply Hon. rewrite !not_elem_of_cons.
    by split_and!; [..|apply not_elem_of_nil].
  - destruct r; cbn in Ho; [|by rewrite Ho, E1]. by exists bytes, new.
Qed.
End export_laws.

(** ** Instances *)

Module PortableWitness.
Definition sha (s : string) : string := if String.eqb s "../a" then "aaaaaaaaaaaaaaaaaa" else "bbbbbbbbbbbbbbbbbb".
Definition to_vec (_ : json) : string := "{}".
Definition zip : zip_writer string unit :=
  ZipWriter "" (λ w path, Ok (w +:+ path +:+ newline)) (λ w bytes, Ok (w +:+ bytes)) Ok.

Definition provenance : portable_provenance := PortableProvenance "digest" "parser" "1" "now".
Definition project (id : string) : portable_project := PortableProject id None "now" JNull.
Definition conversation (id : string) : portable_conversation := PortableConversation id None None "now" JNull.
Definition reference : blob_ref := BlobRef OWNER (ContentDigest Sha256 "bbbbbbbbbbbbbbbbbb") "text/plain" 3.
Definition asset : portable_asset := PortableAsset "b" None "now" AssetVerified (Some reference) (Some "text/plain").

Definition state : portable_archive_state :=
  PortableArchiveState "account" provenance [project "../a"; project "b"] [conversation "b"] [asset].
Definition turned : portable_archive_state :=
  PortableArchiveState "account" provenance [project "b"; project "../a"] [conversation "b"] [asset].

Lemma export_canonical_witness : export_to_bytes sha to_vec zip turned = export_to_bytes sha to_vec zip state.
Proof. apply (export_canonical sha to_vec zip state turned). constructor; try done. apply perm_swap. Defined.

Lemma exported_paths_are_receivable_witness :
  NoDup (mb_path <$> archive_members sha to_vec state
           (normalized_members sha to_vec state ++ [Member (asset_path sha asset) "xyz"]) None).
Proof.
  apply (exported_paths_are_receivable sha to_vec) with (assets := [asset]).
  - intros s. unfold sha. destruct (String.eqb s "../a"); split; vm_compute; lia || reflexivity.
  - reflexivity.
  - apply (bool_decide_eq_true_1 _). evaluates.
  - apply (bool_decide_eq_true_1 _). evaluates.
  - apply (bool_decide_eq_true_1 _). evaluates.
  - intros a b Ha Hb. unfold all_ids in Ha, Hb. cbn in Ha, Hb. rewrite !elem_of_cons, elem_of_nil in Ha, Hb.
    destruct Ha as [->|[->|[->|[->|[]]]]], Hb as [->|[->|[->|[->|[]]]]]; first [reflexivity|discriminate].
Defined.

Definition blobs : blob_store := BlobStore "/b".
Definition device : disk := Disk {[ object_path blobs "bb" "bbbbbbbbbbbbbbbb" := NFile "xyz" ]} [].
Definition run := export_to_path_with_assets sha to_vec zip "1" state blobs "/out/archive.zip" device.

Lemma export_published_whole_witness :
  ∃ bytes, d_nodes run.2 !! "/out/archive.zip" = Some (NFile bytes) ∧
    d_nodes run.2 !! object_path blobs "bb" "bbbbbbbbbbbbbbbb" = Some (NFile "xyz").
Proof.
  destruct (export_published_whole sha to_vec zip "1" "/out/archive.zip" state blobs device run.2 (Ok tt)) as [Ho Hr].
  - apply (ran_unit run). evaluates.
  - intros parent [= <-]. split; discriminate.
  - destruct Hr as (bytes & new & Hb & _). exists bytes. split; [exact Hb|].
    rewrite Ho; [reflexivity|discriminate|]. intros parent [= <-]. split; discriminate.
Defined.
End PortableWitness.
