(* ===== verification/FixtureAdmission.v ===== *)
(** * Fixture admission ([fixture_admission.rs])

    The read-only gate on candidate parser fixtures: the walk of the tree,
    the scan of each file, the manifest, and the verdict. *)

From S2P Require Import Prelude Disk Json Std Archive.

#[local] Open Scope result_scope.

Definition MAX_FILES : nat := 32.
Definition MAX_FILE_BYTES : N := 1048576.

(** ** The report *)

Inductive fixture_admission_status : Set := FixtureAdmitted | FixtureRejected.

#[global] Instance fixture_admission_status_eq_dec : EqDecision fixture_admission_status.
Proof. solve_decision. Defined.

Record fixture_admission_report : Set := FixtureAdmissionReport {
  fr_case_id : option string;
  fr_status : fixture_admission_status;
  fr_findings : list string;
}.

Record fixture_reviews : Set := FixtureReviews {
  fv_consent : bool;
  fv_license : bool;
  fv_secret_scan : bool;
  fv_personal_data_scan : bool;
  fv_path_safety : bool;
  fv_deterministic_comparison : bool;
  fv_independent_review : bool;
  fv_owner_approval : bool;
}.

Definition all_passed (r : fixture_reviews) : bool :=
  fv_consent r && fv_license r && fv_secret_scan r && fv_personal_data_scan r && fv_path_safety r
  && fv_deterministic_comparison r && fv_independent_review r && fv_owner_approval r.

Record fixture_manifest : Set := FixtureManifest {
  fm_format : string;
  fm_case_id : string;
  fm_acquisition_mode : string;
  fm_schema_id : string;
  fm_private_evidence_record : string;
  fm_fixture : string;
  fm_observed_structure : string;
  fm_expected_structure : string;
  fm_synthetic_only : bool;
  fm_reviews : fixture_reviews;
}.

(** ** Text *)

(** [str::contains]. *)
Fixpoint contains (needle s : string) : bool :=
  starts_with needle s || match s with EmptyString => false | String _ rest => contains needle rest end.

Definition double_quote : ascii := "034"%char.

(** The pieces of [str::split] at white space, double quotes and angle
    brackets: the separator at the head of a text, if any. *)
Definition strip_separator (s : string) : option string :=
  match strip_space s with
  | Some rest => Some rest
  | None =>
      match s with
      | String c rest =>
          if is_char double_quote c || is_char "<"%char c || is_char ">"%char c then Some rest else None
      | EmptyString => None
      end
  end.

Fixpoint pieces (fuel : nat) (current s : string) : list string :=
  match fuel with
  | O => [current]
  | S fuel =>
      match strip_separator s with
      | Some rest => current :: pieces fuel "" rest
      | None =>
          match s with
          | String c rest => pieces fuel (current +:+ String c "") rest
          | EmptyString => [current]
          end
      end
  end.

Definition split_text (s : string) : list string := pieces (S (String.length s)) "" s.

(** [trim_matches] of bytes. *)
Fixpoint drop_while (f : ascii → bool) (l : list ascii) : list ascii :=
  match l with c :: rest => if f c then drop_while f rest else l | [] => [] end.

Definition trim_matches (f : ascii → bool) (s : string) : string :=
  of_bytes (reverse (drop_while f (reverse (drop_while f (to_bytes s))))).

Definition ends_with_char (c : ascii) (s : string) : bool :=
  match last (to_bytes s) with Some d => Ascii.eqb c d | None => false end.

(** A byte of a character that is no ASCII letter or digit and none of
    [@], [.], [-], [_]. *)
Definition around_address (c : ascii) : bool :=
  negb (is_ascii_alphanumeric c) && negb (is_char "@"%char c) && negb (is_char "."%char c)
  && negb (is_char "-"%char c) && negb (is_char "_"%char c).

Definition looks_like_email (value : string) : bool :=
  match split_once "@"%char (trim_matches around_address value) with
  | Some (local, domain) =>
      negb (String.eqb local "") && contains "." domain && negb (starts_with "." domain)
      && negb (ends_with_char "."%char domain)
  | None => false
  end.

Definition identifier_byte (c : ascii) : bool :=
  is_ascii_alphanumeric c || is_char "-"%char c || is_char "_"%char c || is_char "."%char c.

Definition safe_identifier (value : string) : bool :=
  negb (String.eqb value "") && bool_decide (String.length value <= 128)
  && forallb identifier_byte (to_bytes value).

(** ** Paths *)

(** [Path::components] of a Unix path: the segments between separators; an
    empty or [.] segment counts only at the start. *)
Definition segments (p : string) : list string := split_on (is_char solidus) p.

Definition components (p : string) : list string := filter (λ s, s ≠ "" ∧ s ≠ ".") (segments p).

(** Every component is a name. *)
Definition safe_relative_path (p : string) : bool :=
  negb (String.eqb p "") && negb (starts_with "/" p) && negb (bool_decide (head (segments p) = Some "."))
  && negb (existsb (String.eqb "..") (segments p)).

(** [Path::extension] of a file name, in lower case. *)
Definition file_extension (name : string) : string :=
  match rsplit_once "."%char name with
  | Some (stem, extension) =>
      if String.eqb stem "" then "" else if utf8_valid extension then to_ascii_lowercase extension else ""
  | None => ""
  end.

(** ** The candidate

    What the file system answers about the candidate while it is inspected:
    listings and lengths by the components below the candidate, contents by
    the relative path as it is written.  [decode_manifest] and [parse_json]
    are [serde_json::from_slice]. *)

Inductive file_type : Set := TDir | TFile | TSymlink | TSpecial.

#[global] Instance file_type_eq_dec : EqDecision file_type.
Proof. solve_decision. Defined.

Abbreviation path := (list string) (only parsing).

Definition path_text (p : path) : string := join "/" p.

Record candidate : Type := Candidate {
  cd_is_dir : bool;
  cd_read_dir : path → result io_error (list (string * file_type));
  cd_len : path → result io_error N;
  cd_read : string → result io_error string;
}.

Section admission.
Context (decode_manifest : string → option fixture_manifest) (parse_json : string → option json).
Context (c : candidate).

#[local] Abbreviation findings := (list string).

(** *** The tree *)

(** One directory's entries: the directories found are pushed in order. *)
Fixpoint sort_entries (directory : path) (depth : nat) (entries : list (string * file_type))
    (pending : list (path * nat)) (files : list path) (found : findings) : list (path * nat) * list path * findings :=
  match entries with
  | [] => (pending, files, found)
  | (name, kind) :: rest =>
      let entry := directory ++ [name] in
      match kind with
      | TSymlink => sort_entries directory depth rest pending files (found ++ ["symlink_forbidden"])
      | TDir => sort_entries directory depth rest ((entry, S depth) :: pending) files found
      | TSpecial => sort_entries directory depth rest pending files (found ++ ["special_file_forbidden"])
      | TFile => sort_entries directory depth rest pending (files ++ [entry]) found
      end
  end.

(** The loop over the stack; [None] when the fuel is out. *)
Fixpoint walk_tree (fuel : nat) (pending : list (path * nat)) (files : list path) (found : findings)
    : option (result io_error (list path * findings)) :=
  match pending with
  | [] => Some (Ok (files, found))
  | (directory, depth) :: pending =>
      match fuel with
      | O => None
      | S fuel =>
          if 4 <? depth then walk_tree fuel pending files (found ++ ["tree_too_deep"])
          else
            match cd_read_dir c directory with
            | Err e => Some (Err e)
            | Ok entries =>
                let '(pending, files, found) := sort_entries directory depth entries pending files found in
                walk_tree fuel pending files found
            end
      end
  end.

(** The directories of a subtree down to the depth that is refused. *)
Fixpoint tree_size (levels : nat) (directory : path) : nat :=
  match levels with
  | O => 1
  | S levels =>
      match cd_read_dir c directory with
      | Err _ => 1
      | Ok entries =>
          S (sum_list_with (λ e, match e.2 with TDir => tree_size levels (directory ++ [e.1]) | _ => 0 end) entries)
      end
  end.

(** *** Files *)

Definition private_markers : list string :=
  ["sk-"; "bearer "; "account_email"; "owner_email"; "owner_name"; "source_digest"; "original_filename"; "private_path"].

Definition inspect_file (p : path) (found : findings) : result io_error findings :=
  let extension := file_extension (default "" (last p)) in
  if existsb (String.eqb extension) ["zip"; "tar"; "tgz"; "gz"; "7z"]
  then Ok (found ++ ["raw_archive_forbidden"])
  else if negb (existsb (String.eqb extension) ["json"; "md"])
  then Ok (found ++ ["unsupported_candidate_file"])
  else
    let? text := cd_read c (path_text p) in
    if negb (utf8_valid text) then Ok (found ++ ["non_utf8_forbidden"])
    else
      let lower := to_ascii_lowercase text in
      let found := if existsb (λ marker, contains marker lower) private_markers
                   then found ++ ["private_or_secret_value"] else found in
      Ok (if existsb looks_like_email (split_text text) then found ++ ["private_or_secret_value"] else found).

Fixpoint inspect_files (files : list path) (found : findings) : result io_error findings :=
  match files with
  | [] => Ok found
  | p :: rest =>
      let? len := cd_len c p in
      if (MAX_FILE_BYTES <? len)%N then inspect_files rest (found ++ ["file_too_large"])
      else let? found := inspect_file p found in inspect_files rest found
  end.

Definition walk_fuel : nat := S (tree_size 5 []).

Definition inspect_tree (found : findings) : option (result io_error (list path * findings)) :=
  if negb (cd_is_dir c) then Some (Ok ([], found ++ ["candidate_not_directory"]))
  else
    match walk_tree walk_fuel [([], 0)] [] found with
    | None => None
    | Some (Err e) => Some (Err e)
    | Some (Ok (files, found)) =>
        let files := sort_by (cmp_on (λ p, p)) files in
        let found := if MAX_FILES <? length files then found ++ ["too_many_files"] else found in
        Some (let? found := inspect_files files found in Ok (files, found))
    end.

(** *** The manifest *)

Definition read_json (p : string) (found : findings) : result io_error (option json * findings) :=
  match cd_read c p with
  | Ok bytes =>
      match parse_json bytes with
      | Some v => Ok (Some v, found)
      | None => Ok (None, found ++ ["candidate_json_invalid"])
      end
  | Err NotFound => Ok (None, found)
  | Err e => Err e
  end.

Definition require (ok : bool) (finding : string) (found : findings) : findings :=
  if ok then found else found ++ [finding].

Definition known_modes : list string :=
  ["consumer_export"; "edu_export"; "compliance_log"; "manual_conversation_capture"; "legacy_import"].

Definition path_present (files : list path) (p : string) : bool :=
  safe_relative_path p && bool_decide (components p ∈ files).

Definition compare_structures (m : fixture_manifest) (found : findings) : result io_error findings :=
  if safe_relative_path (fm_observed_structure m) && safe_relative_path (fm_expected_structure m) then
    let? (observed, found) := read_json (fm_observed_structure m) found in
    let? (expected, found) := read_json (fm_expected_structure m) found in
    Ok (match observed, expected with
        | Some o, Some e => require (bool_decide (o = e)) "structure_comparison_mismatch" found
        | _, _ => found
        end)
  else Ok found.

Definition inspect_manifest (files : list path) (m : fixture_manifest) (found : findings) : result io_error findings :=
  let found := require (String.eqb (fm_format m) "ratatoskr-owner-derived-fixture") "manifest_format_unsupported" found in
  let found := require (safe_identifier (fm_case_id m) && safe_identifier (fm_schema_id m)
                        && safe_identifier (fm_private_evidence_record m)) "manifest_identifier_invalid" found in
  let found := require (existsb (String.eqb (fm_acquisition_mode m)) known_modes) "acquisition_mode_invalid" found in
  let found := require (fm_synthetic_only m) "source_values_not_minimized" found in
  let found := require (all_passed (fm_reviews m)) "review_or_approval_missing" found in
  let found := foldl (λ found p, require (path_present files p) "manifest_path_unsafe_or_missing" found) found
                 [fm_fixture m; fm_observed_structure m; fm_expected_structure m] in
  let? found := compare_structures m found in
  if safe_relative_path (fm_fixture m) then
    let? (_, found) := read_json (fm_fixture m) found in Ok found
  else Ok found.

(** *** The verdict *)

Definition read_manifest (found : findings) : result io_error (option fixture_manifest * findings) :=
  match cd_read c "manifest.json" with
  | Ok bytes =>
      match decode_manifest bytes with
      | Some m => Ok (Some m, found)
      | None => Ok (None, found ++ ["manifest_invalid"])
      end
  | Err NotFound => Ok (None, found ++ ["manifest_missing"])
  | Err e => Err e
  end.

Definition verdict (case_id : option string) (found : findings) : fixture_admission_report :=
  let found := dedup (sort_by (cmp_on (λ s, s)) found) in
  FixtureAdmissionReport case_id (match found with [] => FixtureAdmitted | _ => FixtureRejected end) found.

Definition inspect : option (result io_error fixture_admission_report) :=
  if negb (cd_is_dir c) then Some (Ok (FixtureAdmissionReport None FixtureRejected ["candidate_not_directory"]))
  else
    match inspect_tree [] with
    | None => None
    | Some (Err e) => Some (Err e)
    | Some (Ok (files, found)) =>
        Some (let? (manifest, found) := read_manifest found in
              let? found := match manifest with
                            | Some m => inspect_manifest files m found
                            | None => Ok found
                            end in
              Ok (verdict (fm_case_id <$> manifest) found))
    end.

(** ** What admission means

    Every entry below a directory, as deep as the walk goes. *)
Fixpoint entries_below (levels : nat) (directory : path) : list (path * file_type) :=
  match levels with
  | O => []
  | S levels =>
      match cd_read_dir c directory with
      | Err _ => []
      | Ok entries =>
          entries ≫= λ e : string * file_type,
            (directory ++ [e.1], e.2)
            :: match e.2 with TDir => entries_below levels (directory ++ [e.1]) | _ => [] end
      end
  end.

Definition files_of (entries : list (path * file_type)) : list path :=
  entries ≫= λ e, match e.2 with TFile => [e.1] | _ => [] end.

(** An entry that may stand in a candidate. *)
Definition entry_allowed (e : path * file_type) : Prop :=
  e.2 = TFile ∨ (e.2 = TDir ∧ length e.1 <= 4).

Record file_allowed (p : path) : Prop := {
  fa_len : ∃ n, cd_len c p = Ok n ∧ (n <= MAX_FILE_BYTES)%N;
  fa_extension : file_extension (default "" (last p)) ∈ ["json"; "md"];
  fa_text : ∃ text, cd_read c (path_text p) = Ok text ∧ utf8_valid text = true
    ∧ Forall (λ marker, contains marker (to_ascii_lowercase text) = false) private_markers
    ∧ Forall (λ piece, looks_like_email piece = false) (split_text text);
}.

Definition is_json (p : string) (v : json) : Prop :=
  ∃ bytes, cd_read c p = Ok bytes ∧ parse_json bytes = Some v.

Record manifest_allowed (files : list path) (m : fixture_manifest) : Prop := {
  ma_format : fm_format m = "ratatoskr-owner-derived-fixture";
  ma_identifiers : Forall (λ s, safe_identifier s = true) [fm_case_id m; fm_schema_id m; fm_private_evidence_record m];
  ma_mode : fm_acquisition_mode m ∈ known_modes;
  ma_synthetic : fm_synthetic_only m = true;
  ma_reviews : all_passed (fm_reviews m) = true;
  ma_paths : Forall (λ p, safe_relative_path p = true ∧ components p ∈ files)
    [fm_fixture m; fm_observed_structure m; fm_expected_structure m];
  ma_json : Forall (λ p, cd_read c p = Err NotFound ∨ ∃ v, is_json p v)
    [fm_fixture m; fm_observed_structure m; fm_expected_structure m];
  ma_equal v w : is_json (fm_observed_structure m) v → is_json (fm_expected_structure m) w → v = w;
}.

Record admissible (m : fixture_manifest) : Prop := {
  ad_directory : cd_is_dir c = true;
  ad_entries : Forall entry_allowed (entries_below 5 []);
  ad_count : length (files_of (entries_below 5 [])) <= MAX_FILES;
  ad_files : Forall file_allowed (files_of (entries_below 5 []));
  ad_manifest : ∃ bytes, cd_read c "manifest.json" = Ok bytes ∧ decode_manifest bytes = Some m;
  ad_allowed : manifest_allowed (files_of (entries_below 5 [])) m;
}.

(** ** The walk *)

Definition subdirectories (directory : path) (depth : nat) (entries : list (string * file_type))
    : list (path * nat) :=
  entries ≫= λ e, match e.2 with TDir => [(directory ++ [e.1], S depth)] | _ => [] end.

Definition plain_files (directory : path) (entries : list (string * file_type)) : list path :=
  entries ≫= λ e, match e.2 with TFile => [directory ++ [e.1]] | _ => [] end.

Definition regular (e : string * file_type) : Prop := e.2 = TDir ∨ e.2 = TFile.

Lemma sort_entries_spec directory depth entries : ∀ pending files found,
  ∃ bad, sort_entries directory depth entries pending files found
    = (reverse (subdirectories directory depth entries) ++ pending,
       files ++ plain_files directory entries, found ++ bad)
  ∧ (bad = [] ↔ Forall regular entries).
Proof.
  induction entries as [|[name kind] rest IH]; intros pending files found.
  { exists []. by rewrite !app_nil_r. }
  setoid_rewrite Forall_cons. destruct kind; simpl.
  - destruct (IH ((directory ++ [name], S depth) :: pending) files found) as (bad & -> & Hbad).
    exists bad. unfold subdirectories. csimpl. rewrite reverse_cons, <-app_assoc.
    rewrite Hbad. unfold regular at 2. simpl. naive_solver.
  - destruct (IH pending (files ++ [directory ++ [name]]) found) as (bad & -> & Hbad).
    exists bad. unfold plain_files. csimpl. rewrite <-app_assoc.
    rewrite Hbad. unfold regular at 2. simpl. naive_solver.
  - destruct (IH pending files (found ++ ["symlink_forbidden"])) as (bad & -> & Hbad).
    exists ("symlink_forbidden" :: bad). rewrite <-app_assoc. split; [done|].
    unfold regular at 1. simpl. naive_solver.
  - destruct (IH pending files (found ++ ["special_file_forbidden"])) as (bad & -> & Hbad).
    exists ("special_file_forbidden" :: bad). rewrite <-app_assoc. split; [done|].
    unfold regular at 1. simpl. naive_solver.
Qed.

(** What waits on the stack, as the walk will find it. *)
Definition waiting_entries (d : path * nat) : list (path * file_type) := entries_below (5 - d.2) d.1.
Definition waiting_size (d : path * nat) : nat := tree_size (5 - d.2) d.1.

Definition on_stack (d : path * nat) : Prop := d.2 = length d.1 ∧ d.2 <= 5.

Definition waiting_clean (d : path * nat) : Prop := d.2 <= 4 ∧ Forall entry_allowed (waiting_entries d).

Lemma tree_size_listed directory depth entries :
  depth <= 4 → cd_read_dir c directory = Ok entries →
  waiting_size (directory, depth) = S (sum_list_with waiting_size (subdirectories directory depth entries)).
Proof.
  intros Hd He. unfold waiting_size at 1. replace (5 - (directory, depth).2) with (S (4 - depth)) by (simpl; lia).
  simpl. rewrite He. f_equal. clear He. unfold subdirectories.
  induction entries as [|[name kind] rest IH]; [done|]. csimpl.
  rewrite sum_list_with_app, <-IH. destruct kind; csimpl; [unfold waiting_size; csimpl|..]; lia.
Qed.

Lemma files_listed directory depth entries :
  depth <= 4 → cd_read_dir c directory = Ok entries →
  files_of (waiting_entries (directory, depth))
  ≡ₚ plain_files directory entries ++ (subdirectories directory depth entries ≫= λ d, files_of (waiting_entries d)).
Proof.
  intros Hd He. unfold waiting_entries at 1. replace (5 - (directory, depth).2) with (S (4 - depth)) by (simpl; lia).
  simpl. rewrite He. clear He. unfold subdirectories, plain_files, files_of.
  induction entries as [|[name kind] rest IH]; [done|]. csimpl.
  rewrite bind_app, IH. destruct kind; csimpl; [|done..].
  apply Permutation_app_swap_app.
Qed.

Lemma clean_listed directory depth entries :
  depth = length directory → depth <= 4 → cd_read_dir c directory = Ok entries →
  waiting_clean (directory, depth)
  ↔ Forall regular entries ∧ Forall waiting_clean (subdirectories directory depth entries).
Proof.
  intros Hl Hd He. unfold waiting_clean at 1, waiting_entries at 1.
  replace (5 - (directory, depth).2) with (S (4 - depth)) by (simpl; lia).
  simpl. rewrite He. clear He. unfold subdirectories.
  assert (Hname : ∀ name, length (directory ++ [name]) = S depth).
  { intros name. rewrite length_app. simpl. lia. }
  enough (Forall entry_allowed (entries ≫= λ e, (directory ++ [e.1], e.2)
      :: match e.2 with TDir => entries_below (4 - depth) (directory ++ [e.1]) | _ => [] end)
    ↔ Forall regular entries ∧ Forall waiting_clean (subdirectories directory depth entries)) by tauto.
  unfold subdirectories.
  induction entries as [|[name kind] rest IH]; [split; [|done]; split; constructor|].
  csimpl. rewrite !Forall_cons, !Forall_app, IH. clear IH.
  destruct kind; csimpl; unfold entry_allowed at 1, regular at 2; csimpl;
    rewrite ?Forall_cons; unfold waiting_clean at 2, waiting_entries; csimpl; rewrite ?Hname;
    intuition (done || lia || congruence).
Qed.

Lemma on_stack_listed directory depth entries :
  on_stack (directory, depth) → depth <= 4 → Forall on_stack (subdirectories directory depth entries).
Proof.
  intros [Hl _] Hd. unfold subdirectories. induction entries as [|[name kind] rest IH]; [constructor|].
  csimpl. destruct kind; [|done..]. csimpl. constructor; [|done]. split; csimpl in *; [|lia].
  rewrite length_app. simpl. lia.
Qed.

Lemma walk_tree_spec fuel : ∀ pending files found,
  Forall on_stack pending → sum_list_with waiting_size pending <= fuel →
  ∃ r, walk_tree fuel pending files found = Some r
    ∧ ∀ files' found', r = Ok (files', found') →
      files' ≡ₚ files ++ (pending ≫= λ d, files_of (waiting_entries d))
      ∧ (found' = [] ↔ found = [] ∧ Forall waiting_clean pending).
Proof.
  induction fuel as [|fuel IH]; intros [|[directory depth] pending] files found Hs Hf.
  1, 3: eexists; split; [done|]; intros ?? [= <- <-]; csimpl; rewrite app_nil_r, Forall_nil; split; [done|tauto].
  { exfalso. csimpl in Hf. unfold waiting_size in Hf at 1. destruct (5 - _); simpl in Hf;
      [|destruct (cd_read_dir c directory)]; lia. }
  apply Forall_cons in Hs as [Hd Hs]. cbn [walk_tree]. case_match eqn:Edeep.
  - apply Nat.ltb_lt in Edeep. csimpl in Hf.
    destruct (IH pending files (found ++ ["tree_too_deep"])) as (r & Hr & Hspec); [done| |].
    { unfold waiting_size in Hf at 1. destruct (5 - _); simpl in Hf; [|destruct (cd_read_dir c directory)]; lia. }
    exists r. split; [done|]. intros files' found' E. destruct (Hspec _ _ E) as [Hp Hi]. csimpl. split.
    + unfold waiting_entries at 1. replace (5 - _) with 0 by (csimpl; lia). done.
    + rewrite Hi, Forall_cons. unfold waiting_clean at 2. csimpl.
      split; [intros [[? ?]%app_eq_nil _]; done|]. intros (_ & [? _] & _). lia.
  - apply Nat.ltb_ge in Edeep. destruct (cd_read_dir c directory) as [entries|e] eqn:Ee.
    2: { eexists. split; [done|]. intros ?? [=]. }
    destruct (sort_entries_spec directory depth entries pending files found) as (bad & -> & Hbad).
    csimpl in Hf. rewrite (tree_size_listed _ _ _ Edeep Ee) in Hf.
    destruct (IH (reverse (subdirectories directory depth entries) ++ pending)
                (files ++ plain_files directory entries) (found ++ bad)) as (r & Hr & Hspec).
    { apply Forall_app. split; [|done]. apply Forall_reverse. by apply on_stack_listed. }
    { rewrite sum_list_with_app, sum_list_with_reverse. lia. }
    exists r. split; [done|]. intros files' found' E. destruct (Hspec _ _ E) as [Hp Hi]. split.
    + rewrite Hp. csimpl. rewrite (files_listed _ _ _ Edeep Ee), bind_app, reverse_Permutation.
      by rewrite !app_assoc.
    + rewrite Hi, Forall_cons, (clean_listed _ _ _ (proj1 Hd) Edeep Ee), <-Hbad, Forall_app.
      rewrite Forall_reverse. split.
      * intros [[? ?]%app_eq_nil ?]. tauto.
      * intros (-> & [-> ?] & ?). tauto.
Qed.

(** ** The stages

    Each stage leaves the findings empty exactly when they were empty and its
    condition holds. *)

Lemma existsb_eqb_elem (x : string) l : existsb (String.eqb x) l = true ↔ x ∈ l.
Proof.
  rewrite existsb_exists. setoid_rewrite String.eqb_eq. setoid_rewrite <-list_elem_of_In. naive_solver.
Qed.

Lemma require_nil ok finding found : require ok finding found = [] ↔ ok = true ∧ found = [].
Proof. destruct ok; simpl; [tauto|]. split; [intros [? ?]%app_eq_nil; done|intros [? _]; done]. Qed.

Lemma snoc_not_nil {A} (l : list A) x (P : Prop) : ¬ P → l ++ [x] = [] ↔ P.
Proof. intros HP. split; [intros [? ?]%app_eq_nil; done|done]. Qed.

Definition content_allowed (p : path) : Prop :=
  file_extension (default "" (last p)) ∈ ["json"; "md"]
  ∧ ∃ text, cd_read c (path_text p) = Ok text ∧ utf8_valid text = true
    ∧ Forall (λ marker, contains marker (to_ascii_lowercase text) = false) private_markers
    ∧ Forall (λ piece, looks_like_email piece = false) (split_text text).

Lemma file_allowed_split p :
  file_allowed p ↔ (∃ n, cd_len c p = Ok n ∧ (n <= MAX_FILE_BYTES)%N) ∧ content_allowed p.
Proof.
  split; [intros [? ? ?]; done|]. intros (? & ? & ?). done.
Qed.

Lemma inspect_file_spec p found found' :
  inspect_file p found = Ok found' → found' = [] ↔ found = [] ∧ content_allowed p.
Proof.
  unfold inspect_file. set (extension := file_extension _).
  case_match eqn:Earchive.
  { intros [= <-]. apply snoc_not_nil. intros (_ & Hext & _). apply existsb_eqb_elem in Earchive.
    enough (extension ∉ ["json"; "md"]) by done.
    clearbody extension. clear -Earchive. set_unfold in Earchive. set_unfold. naive_solver. }
  case_match eqn:Ekind.
  { intros [= <-]. apply snoc_not_nil. intros (_ & Hext%existsb_eqb_elem & _). fold extension in Hext. by rewrite Hext in Ekind. }
  apply negb_false_iff, existsb_eqb_elem in Ekind.
  destruct (cd_read c (path_text p)) as [text|e] eqn:Eread; [|done].
  case_match eqn:Eutf; [|apply negb_false_iff in Eutf].
  { intros [= <-]. apply snoc_not_nil. intros (_ & _ & ? & E & Hutf & _). rewrite Eread in E. simplify_eq. by rewrite Hutf in Eutf. }
  assert (Hc : content_allowed p
    ↔ existsb (λ marker, contains marker (to_ascii_lowercase text)) private_markers = false
      ∧ existsb looks_like_email (split_text text) = false).
  { rewrite !existsb_false. split.
    - intros (_ & text' & E & _ & ? & ?). rewrite Eread in E. by simplify_eq.
    - intros [? ?]. split; [done|]. by exists text. }
  destruct (existsb _ private_markers); [|destruct (existsb looks_like_email _)];
    intros [= <-]; rewrite Hc; [case_match|..]; rewrite ?app_nil; intuition congruence.
Qed.

Lemma inspect_files_spec files : ∀ found found',
  inspect_files files found = Ok found' → found' = [] ↔ found = [] ∧ Forall file_allowed files.
Proof.
  induction files as [|p rest IH]; intros found found'; simpl.
  { intros [= <-]. rewrite Forall_nil. tauto. }
  rewrite Forall_cons, file_allowed_split.
  destruct (cd_len c p) as [n|e]; [|done]. case_match eqn:En; reflect_bools.
  - intros ->%IH. split; [intros [[? ?]%app_eq_nil _]; done|].
    intros (_ & [(? & [= <-] & ?) _] & _). lia.
  - destruct (inspect_file p found) as [middle|] eqn:Ep; [|done].
    intros ->%IH. rewrite (inspect_file_spec _ _ _ Ep).
    assert (∃ m, Ok (E := io_error) n = Ok m ∧ (m <= MAX_FILE_BYTES)%N) by by exists n. tauto.
Qed.

Lemma inspect_tree_ends found : is_Some (inspect_tree found).
Proof.
  unfold inspect_tree. case_match; [by eexists|].
  destruct (walk_tree_spec walk_fuel [([], 0)] [] found) as (r & -> & _).
  { repeat constructor; simpl; lia. }
  { unfold walk_fuel, waiting_size. simpl. lia. }
  destruct r as [[files ?]|]; by eexists.
Qed.

Lemma inspect_tree_spec found files found' :
  cd_is_dir c = true → inspect_tree found = Some (Ok (files, found')) →
  files ≡ₚ files_of (entries_below 5 [])
  ∧ (found' = [] ↔ found = [] ∧ Forall entry_allowed (entries_below 5 [])
      ∧ length (files_of (entries_below 5 [])) <= MAX_FILES
      ∧ Forall file_allowed (files_of (entries_below 5 []))).
Proof.
  intros Hdir. unfold inspect_tree. rewrite Hdir. cbn [negb].
  destruct (walk_tree_spec walk_fuel [([], 0)] [] found) as (r & -> & Hspec).
  { repeat constructor; simpl; lia. }
  { unfold walk_fuel, waiting_size. simpl. lia. }
  destruct r as [[walked middle]|]; [|done]. destruct (Hspec _ _ eq_refl) as [Hp Hi]. clear Hspec.
  csimpl in Hp. rewrite app_nil_r in Hp. change (waiting_entries ([], 0)) with (entries_below 5 []) in Hp.
  assert (Hs : sort_by (cmp_on (λ p, p)) walked ≡ₚ files_of (entries_below 5 [])) by by rewrite sort_by_perm.
  set (sorted := sort_by _ walked) in *. clearbody sorted.
  destruct (inspect_files _ _) as [after|] eqn:Ef; [|done]. intros [= <- <-]. split; [done|].
  rewrite (inspect_files_spec _ _ _ Ef), <-Hs. clear Ef.
  assert (Hm : middle = [] ↔ found = [] ∧ Forall entry_allowed (entries_below 5 [])).
  { rewrite Hi, Forall_singleton. unfold waiting_clean. csimpl.
    change (waiting_entries ([], 0)) with (entries_below 5 []). split; [tauto|]. intros [? ?]. repeat split; [done|lia|done]. }
  case_match eqn:Ec; [apply Nat.ltb_lt in Ec|apply Nat.ltb_ge in Ec].
  - split; [intros [[? ?]%app_eq_nil _]; done|]. intros (_ & _ & ? & _). lia.
  - rewrite Hm. tauto.
Qed.

Lemma read_json_spec p found v found' :
  read_json p found = Ok (v, found') →
  (found' = [] ↔ found = [] ∧ (cd_read c p = Err NotFound ∨ ∃ w, is_json p w))
  ∧ (∀ w, v = Some w ↔ is_json p w).
Proof.
  unfold read_json, is_json. destruct (cd_read c p) as [bytes|[]] eqn:Er; [destruct (parse_json bytes) as [w|] eqn:E|..];
    intros [= <- <-]; (split; [|intros u; split]); try done.
  - split; [intros ->; split; [done|right; by exists w, bytes]|tauto].
  - intros [= <-]. by exists bytes.
  - intros (? & [= <-] & ?). congruence.
  - apply snoc_not_nil. intros [_ [?|(? & ? & [= <-] & ?)]]; congruence.
  - intros (? & [= <-] & ?). congruence.
  - tauto.
  - intros (? & ? & ?). done.
Qed.

Lemma compare_structures_spec m found found' :
  safe_relative_path (fm_observed_structure m) = true → safe_relative_path (fm_expected_structure m) = true →
  compare_structures m found = Ok found' →
  found' = [] ↔ found = []
    ∧ (cd_read c (fm_observed_structure m) = Err NotFound ∨ ∃ v, is_json (fm_observed_structure m) v)
    ∧ (cd_read c (fm_expected_structure m) = Err NotFound ∨ ∃ v, is_json (fm_expected_structure m) v)
    ∧ (∀ v w, is_json (fm_observed_structure m) v → is_json (fm_expected_structure m) w → v = w).
Proof.
  intros Ho He. unfold compare_structures. rewrite Ho, He. simpl.
  destruct (read_json (fm_observed_structure m) found) as [[observed middle]|] eqn:Eo; [|done].
  destruct (read_json (fm_expected_structure m) middle) as [[expected after]|] eqn:Ee; [|done].
  apply read_json_spec in Eo as [Ho1 Ho2], Ee as [He1 He2]. intros [= <-].
  assert (Heq : (∀ v w, is_json (fm_observed_structure m) v → is_json (fm_expected_structure m) w → v = w)
    ↔ ∀ v w, observed = Some v → expected = Some w → v = w).
  { by setoid_rewrite Ho2; setoid_rewrite He2. }
  rewrite Heq. destruct observed as [o|], expected as [e|]; rewrite ?require_nil, ?bool_decide_eq_true, He1, Ho1.
  { assert ((∀ v w, Some o = Some v → Some e = Some w → v = w) ↔ o = e) as ->; [|tauto].
    split; [eauto|]. by intros -> v w [= <-] [= <-]. }
  all: split; [intros ([? ?] & ?)|tauto]; repeat split; try done.
Qed.

Lemma foldl_require_nil {A} (f : A → bool) finding l : ∀ found,
  foldl (λ found x, require (f x) finding found) found l = [] ↔ found = [] ∧ Forall (λ x, f x = true) l.
Proof.
  induction l as [|x l IH]; intros found; simpl; [rewrite Forall_nil; tauto|].
  rewrite IH, require_nil, Forall_cons. tauto.
Qed.

Lemma path_present_spec files p : path_present files p = true ↔ safe_relative_path p = true ∧ components p ∈ files.
Proof. unfold path_present. by rewrite andb_true_iff, bool_decide_eq_true. Qed.

Lemma inspect_manifest_spec files m found found' :
  inspect_manifest files m found = Ok found' → found' = [] ↔ found = [] ∧ manifest_allowed files m.
Proof.
  unfold inspect_manifest. set (checked := foldl _ _ _).
  assert (Hc : checked = [] ↔ found = []
    ∧ String.eqb (fm_format m) "ratatoskr-owner-derived-fixture" = true
    ∧ Forall (λ s, safe_identifier s = true) [fm_case_id m; fm_schema_id m; fm_private_evidence_record m]
    ∧ fm_acquisition_mode m ∈ known_modes ∧ fm_synthetic_only m = true ∧ all_passed (fm_reviews m) = true
    ∧ Forall (λ p, safe_relative_path p = true ∧ components p ∈ files)
        [fm_fixture m; fm_observed_structure m; fm_expected_structure m]).
  { subst checked. rewrite foldl_require_nil, !require_nil, existsb_eqb_elem, !andb_true_iff.
    rewrite !Forall_cons, !Forall_nil, !path_present_spec. tauto. }
  clearbody checked. destruct (compare_structures m checked) as [middle|] eqn:Em; [|done]. intros Hlast.
  assert (Hmiddle : middle = [] → checked = []).
  { destruct (safe_relative_path (fm_observed_structure m)) eqn:Eo; [|unfold compare_structures in Em];
      [destruct (safe_relative_path (fm_expected_structure m)) eqn:Ee; [|unfold compare_structures in Em]|].
    - intros Hm. by apply (compare_structures_spec m _ _ Eo Ee Em).
    - rewrite Eo, Ee in Em. by simplify_eq/=.
    - rewrite Eo in Em. by simplify_eq/=. }
  assert (Hfinal : found' = [] ↔ middle = [] ∧ (safe_relative_path (fm_fixture m) = true →
    cd_read c (fm_fixture m) = Err NotFound ∨ ∃ v, is_json (fm_fixture m) v)).
  { destruct (safe_relative_path (fm_fixture m)); [|simplify_eq; intuition done].
    destruct (read_json (fm_fixture m) middle) as [[v after]|] eqn:Er; [|done].
    apply read_json_spec in Er as [Er _]. simplify_eq. rewrite Er. intuition done. }
  rewrite Hfinal. split.
  - intros [Hm Hf]. specialize (Hmiddle Hm). apply Hc in Hmiddle as (-> & Hformat & Hids & Hmode & Hsyn & Hrev & Hpaths).
    split; [done|]. pose proof Hpaths as Hpaths'. rewrite !Forall_cons in Hpaths'.
    destruct Hpaths' as ([Hs1 _] & [Hs2 _] & [Hs3 _] & _).
    apply (compare_structures_spec m) in Em as [Em _]; [|done..]. destruct (Em Hm) as (_ & ? & ? & ?).
    constructor; [by apply String.eqb_eq|done..| |done]. rewrite !Forall_cons, Forall_nil. auto.
  - intros [-> [Hformat Hids Hmode Hsyn Hrev Hpaths Hjson Heq]].
    rewrite !Forall_cons in Hjson. destruct Hjson as (Hj1 & Hj2 & Hj3 & _). split; [|done].
    pose proof Hpaths as Hpaths'. rewrite !Forall_cons in Hpaths'. destruct Hpaths' as (_ & [Hs2 _] & [Hs3 _] & _).
    apply (compare_structures_spec m _ _ Hs2 Hs3 Em). repeat split; try done.
    apply Hc. repeat split; try done. by apply String.eqb_eq.
Qed.

Lemma verdict_spec case_id found :
  let r := verdict case_id found in
  StronglySorted (λ a b, cmp a b = Lt) (fr_findings r)
  ∧ (fr_status r = FixtureAdmitted ↔ fr_findings r = [])
  ∧ (fr_findings r = [] ↔ found = []).
Proof.
  simpl. split; [|split].
  - apply dedup_sorted, (sort_by_sorted (λ s : string, s)).
  - by case_match.
  - split; [|by intros ->]. intros Hnil. apply elem_of_nil_inv. intros f Hf.
    rewrite <-(sort_by_perm (cmp_on (λ s, s)) found), <-(proj1 (dedup_spec _)), Hnil in Hf.
    by apply elem_of_nil in Hf.
Qed.

Lemma read_manifest_spec found manifest found' :
  read_manifest found = Ok (manifest, found') →
  (manifest = None → found' ≠ [])
  ∧ (∀ m, manifest = Some m ↔ ∃ bytes, cd_read c "manifest.json" = Ok bytes ∧ decode_manifest bytes = Some m)
  ∧ (is_Some manifest → found' = found).
Proof.
  unfold read_manifest. destruct (cd_read c "manifest.json") as [bytes|[]];
    [destruct (decode_manifest bytes) as [m|] eqn:Ed|..]; intros [= <- <-].
  - split; [done|]. split; [|done]. intros u. split; [intros [= <-]; by exists bytes|].
    intros (? & [= <-] & ?). congruence.
  - split; [by intros _ [? ?]%app_eq_nil|]. split; [|by intros [? [=]]]. intros u. split; [done|].
    intros (? & [= <-] & ?). congruence.
  - split; [by intros _ [? ?]%app_eq_nil|]. split; [|by intros [? [=]]]. intros u. split; [done|].
    by intros (? & ? & ?).
Qed.

(** C20. The inspection always ends with an answer: the walk over the stack of
    directories visits every directory at most once and refuses to descend
    past the fourth level, so the fuel computed from the candidate is never
    used up. *)
Theorem inspection_ends : is_Some inspect.
Proof.
  unfold inspect. case_match; [by eexists|].
  destruct (inspect_tree_ends []) as [[[files found]|e] ->]; by eexists.
Qed.

End admission.

Module FixtureWitness.
Definition passed : fixture_reviews := FixtureReviews true true true true true true true true.

(** A manifest decoder and a JSON parser of one document each. *)
Definition decode_manifest (s : string) : option fixture_manifest :=
  if String.eqb s "M" then
    Some (FixtureManifest "ratatoskr-owner-derived-fixture" "case-1" "edu_export" "schema.v1" "evidence_1"
            "case/fixture.json" "case/./observed.json" "expected.json" true passed)
  else None.

Definition parse_json (s : string) : option json := if String.eqb s "{}" then Some (JObject []) else None.

Definition contents : gmap string string :=
  {[ "manifest.json" := "M"; "case/fixture.json" := "{}"; "case/observed.json" := "{}";
     "case/./observed.json" := "{}"; "expected.json" := "{}"; "README.md" := "a synthetic case" ]}.

Definition fixture : candidate :=
  Candidate true
    (λ p, match p with
          | [] => Ok [("README.md", TFile); ("case", TDir); ("manifest.json", TFile); ("expected.json", TFile)]
          | ["case"] => Ok [("observed.json", TFile); ("fixture.json", TFile)]
          | _ => Err NotFound
          end)
    (λ _, Ok 16%N)
    (λ p, match contents !! p with Some s => Ok s | None => Err NotFound end).


(** What the scan for addresses takes for one, and what it misses: an address
    that ends a sentence keeps the full stop, and is passed. *)
Example addresses :
  looks_like_email <$> split_text "Ask <jane@example.org>, or jane@example.org. Not @home"
  = [false; false; true; false; false; false; false; false].
Proof. reflexivity. Qed.
End FixtureWitness.
