(* ===== verification/Reparse.v ===== *)
(** * Replay of preserved archives ([reparse.rs])

    The comparison of a newer parser's records with the ones an export
    presents, the plan, and its application: the writers here are also the
    initial import's. *)

From S2P Require Import Prelude BTree Disk BlobStore Archive Registry Json Parser Digest Principals Postgres.
From S2P Require Import OutboxTable BlobProtocol ArchiveTables NormalizedStore ArchiveEvents ContractProjection.

#[local] Open Scope result_scope.

(** ** The report *)

Inductive reparse_change_kind : Set := Added | Changed | Unchanged | ProposedRemoval.

#[global] Instance reparse_change_kind_eq_dec : EqDecision reparse_change_kind.
Proof. solve_decision. Defined.

Record reparse_change : Set := ReparseChange {
  rc_subject_kind : string;
  rc_subject_id : string;
  rc_kind : reparse_change_kind;
}.

#[global] Instance reparse_change_eq_dec : EqDecision reparse_change.
Proof. solve_decision. Defined.

Record reparse_warning : Set := ReparseWarning {
  rw_code : string;
  rw_subject_id : option string;
}.

#[global] Instance reparse_warning_eq_dec : EqDecision reparse_warning.
Proof. solve_decision. Defined.

Record reparse_report : Set := ReparseReport {
  rpt_archive_id : uuid;
  rpt_target_parser : parser_id;
  rpt_raw_digest : string;
  rpt_changes : list reparse_change;
  rpt_warnings : list reparse_warning;
  rpt_event_subjects : list string;
  rpt_completeness : string;
}.

#[global] Instance reparse_report_eq_dec : EqDecision reparse_report.
Proof. solve_decision. Defined.

Record reparse_plan : Type := ReparsePlan {
  rpl_report : reparse_report;
  rpl_registry_fingerprint : string;
  rpl_input_projection_fingerprint : string;
  rpl_tenant_id : uuid;
  rpl_export_id : uuid;
  rpl_raw_ref : blob_ref;
  rpl_inventory : archive_inventory;
  rpl_artifacts : list parser_artifact_evidence;
  rpl_parsed : parsed_conversations;
}.

Inductive reparse_error : Set :=
| RpConflict | RpStore | RpIntake (e : archive_intake_error) | RpParser (e : parser_execution_error)
| RpEncode | RpBlob (e : blob_store_error) | RpReport | RpProjection (e : projection_error)
| RpBlobUnavailable.

#[global] Instance parser_execution_error_eq_dec : EqDecision parser_execution_error.
Proof. solve_decision. Defined.

(** [From<VersionError>] and [From<RegistrationError>]. *)
Definition reparse_error_of_version (e : version_error) : reparse_error :=
  match e with VStore => RpStore | VEncode => RpEncode end.

Definition reparse_error_of_registration (e : registration_error) : reparse_error :=
  match e with RegDatabase _ => RpStore | RegUnavailable => RpBlobUnavailable end.

(** [ReparseEngine]: the pool is the world. *)
Record reparse_engine (X : Type) : Type := ReparseEngine {
  re_blobs : blob_store;
  re_registry : list (registered_parser X);
  re_limits : archive_limits;
  re_owners : owner_resolver (tenant_ref := string);
  re_max_event_bytes : N;
}.
Arguments ReparseEngine {X} _ _ _ _ _.
Arguments re_blobs {X} _.
Arguments re_registry {X} _.
Arguments re_limits {X} _.
Arguments re_owners {X} _.
Arguments re_max_event_bytes {X} _.

(** ** The comparison

    [CurrentConversation] has one field, the digest: [current] maps the
    provider's ids to it. *)
Abbreviation projection := (list (string * string)) (only parsing).

Section compare.
Context (to_string : json → string) (sha256_hex : string → string).

Definition parsed_digests (parsed : parsed_conversations) : projection :=
  bt_of_list ((λ c, (pc_external_id c, conversation_digest to_string sha256_hex c)) <$> pcs_conversations parsed).

Definition change_kind (existing : option string) (digest : string) : reparse_change_kind :=
  match existing with
  | None => Added
  | Some held => if String.eqb held digest then Unchanged else Changed
  end.

Definition subject_of (kind : reparse_change_kind) : list string :=
  match kind with
  | Added => ["ai_archive.conversation.added.v1"]
  | Changed => ["ai_archive.conversation.updated.v1"]
  | _ => []
  end.

(** The changes of what was read, and what was not. *)
Definition evidenced (current digests : projection) : list reparse_change :=
  (λ d, ReparseChange "conversation" d.1 (change_kind (bt_get d.1 current) d.2)) <$> digests.

Definition omitted (current digests : projection) : list string :=
  filter (λ id, bt_get id digests = None) (bt_keys current).

Definition removal (id : string) : reparse_change := ReparseChange "conversation" id ProposedRemoval.

Definition compare (archive_id : uuid) (target_parser : parser_id) (raw_digest : string)
    (current : projection) (parsed : parsed_conversations) : reparse_report :=
  let digests := parsed_digests parsed in
  let changes := evidenced current digests ++ (removal <$> omitted current digests) in
  let warnings := (λ id, ReparseWarning "coverage_omission" (Some id)) <$> omitted current digests in
  let event_subjects := evidenced current digests ≫= λ c, subject_of (rc_kind c) in
  ReparseReport archive_id target_parser raw_digest
    (sort_by (cmp_on (λ c, (rc_subject_kind c, rc_subject_id c))) changes)
    (sort_by (cmp_on (λ w, (rw_code w, rw_subject_id w))) warnings)
    (sort_by (cmp_on (λ s, s)) event_subjects)
    "structurally_partial".

(** ** Fingerprints *)

Definition projection_fingerprint (current : projection) : string :=
  sha256_hex (to_string (JArray ((λ c : string * string, JArray [JString c.1; JString c.2]) <$> current))).

Definition parser_fingerprint (parsers : list parser_id) : string :=
  sha256_hex (to_string (JArray
    ((λ p, JObject [("name", JString (pi_name p)); ("version", JString (pi_version p))]) <$> parsers))).
End compare.

Section engine.
Context {wire ref : Type} `{Contracts wire ref}.
Context (to_string : json → string) (sha256_hex : string → string) (media_type_ok : string → bool).
Context (cp437 : ascii → string) (zip_at : gmap string node → string → zip_source).
(** [Read::read_to_end] on an entry of the ZIP package: its bytes. *)
Context (read_to_end : zip_entry → option string).
Context (new_uuid : N → uuid) (render : json → string) (pg_render render_instant : N → string).
Context (collate : string → string → comparison) (to_timestamp : N → N).
(** The derived [Serialize] and [Deserialize] of what is stored. *)
Context {V R : Type} (decode_ref : V → option blob_ref) (encode_ref : blob_ref → option V).
Context (encode_project : project_version → option json).
Context (encode_conversation : conversation_version → option json).
Context (encode_report : reparse_report → option json) (decode_report : json → option reparse_report).
(** The compiled parsers; the names their stores mint are given to them. *)
Context {X : Type} (executor : X → parser_execution_input → list string →
  sm disk parser_execution_error parsed_conversations).

#[local] Abbreviation atables := (atables V R).
#[local] Abbreviation sql A := (atables → result sql_error (A * atables)).
#[local] Abbreviation tx := (sm (world atables) reparse_error).
#[local] Abbreviation engine := (reparse_engine X).

Definition store_err {A} (c : sm (world atables) sql_error A) : tx A := smap_err (λ _, RpStore) c.

(** A query on the pool. *)
Definition query {A} (f : atables → A) : tx A := store_err (auto (reading f)).

(** A deletion of the tenant is open. *)
Definition blocked (tenant_id : uuid) (t : atables) : bool :=
  existsb (λ r : uuid * request_row V R,
    String.eqb (rq_tenant_id r.2) tenant_id && negb (String.eqb (rq_status r.2) "completed"))
    (map_to_list (wf_requests (at_workflow t))).

Definition privacy_blocked (tenant_id : uuid) : tx bool := query (blocked tenant_id).

(** The spelling [name@version] of the parser that last read an export;
    between equal instants, which SQL leaves open, the first run stays. *)
Definition observed_stamps (export_id : uuid) (t : atables) : list (string * N) :=
  omap (λ r : uuid * run_row,
      match rn_parser_name r.2, rn_parser_version r.2 with
      | Some name, Some version =>
          if bool_decide (rn_export_id r.2 = Some export_id)
          then Some (name +:+ "@" +:+ version, rn_started_at r.2) else None
      | _, _ => None
      end) (rows_by_key (ev_import_runs (at_evidence t)))
  ++ omap (λ r : uuid * reparse_row,
      if String.eqb (rr_export_id r.2) export_id && existsb (String.eqb (rr_status r.2)) ["applied"; "unchanged"]
      then Some (rr_parser_name r.2 +:+ "@" +:+ rr_parser_version r.2,
                 default (rr_started_at r.2) (rr_completed_at r.2))
      else None) (rows_by_key (ev_reparse_runs (at_evidence t))).

Definition current_parser (export_id : uuid) (t : atables) : string :=
  from_option fst "" (head (sort_by (λ a b : string * N, cmp b.2 a.2) (observed_stamps export_id t))).

Definition spelled_parser (p : parser_id) : string := pi_name p +:+ "@" +:+ pi_version p.

Definition select_export (tenant_id archive_id : uuid) (t : atables)
    : option (uuid * archive_export V * string) :=
  (λ r : uuid * archive_export V, (r.1, r.2, current_parser r.1 t)) <$>
    find (λ r : uuid * archive_export V,
      String.eqb (xp_account_id r.2) tenant_id && String.eqb (xp_ai_archive_id r.2) archive_id)
      (rows_by_key (ev_exports (at_evidence t))).

(** [Iterator::position]. *)
Definition position {A} (f : A → bool) (l : list A) : option nat := fst <$> list_find (λ a, f a = true) l.

(** ** Reading the archive *)

Definition read_artifact (entry : archive_entry) (zipped : option zip_entry)
    : result reparse_error (option parser_artifact_evidence) :=
  match ae_kind entry with
  | Directory => Ok None
  | kind =>
      let? zipped := ok_or RpConflict zipped in
      let? bytes := ok_or RpConflict (read_to_end zipped) in
      if N.eqb (N.of_nat (String.length bytes)) (ae_decompressed_bytes entry)
      then Ok (Some (ParserArtifactEvidence (ae_path entry) bytes (bool_decide (kind = Html ∨ kind = Media))))
      else Err RpConflict
  end.

Fixpoint read_entries (entries : list archive_entry) (zipped : list (option zip_entry))
    : result reparse_error (list parser_artifact_evidence) :=
  match entries with
  | [] => Ok []
  | entry :: entries =>
      let? one := read_artifact entry (mjoin (head zipped)) in
      let? rest := read_entries entries (tail zipped) in
      Ok (match one with Some artifact => artifact :: rest | None => rest end)
  end.

Definition read_artifacts (blobs : blob_store) (raw : blob_ref) (inventory : archive_inventory)
    : tx (list parser_artifact_evidence) :=
  let! path := smap_err RpBlob (with_disk (verify sha256_hex blobs raw)) in
  λ w, (match zip_at (d_nodes (w_disk w)) path with
        | ZipSource zipped => read_entries (ai_entries inventory) zipped
        | _ => Err RpConflict
        end, w).

(** What the export presents: the digest of each conversation, by the
    provider's id. *)
Definition presented_digests (export_id : uuid) (t : atables) : projection :=
  bt_of_list (omap (λ r : uuid * conversation_row,
    (λ digest, (cnv_external_id r.2, default "" digest)) <$>
      (nm_observations (at_normalized t) !! (export_id, CONVERSATION, r.1)))
    (rows_by_key (nm_conversations (at_normalized t)))).

Definition current_projection (export_id : uuid) : tx projection := query (presented_digests export_id).

Definition run_parser (x : X) (input : parser_execution_input) (ids : list string) : tx parsed_conversations :=
  smap_err RpParser (with_disk (executor x input ids)).

Fixpoint mint_names (n : nat) : tx (list string) :=
  match n with
  | O => sret []
  | S n => let! id := mint in let! rest := mint_names n in sret (pretty id :: rest)
  end.

(** Select, read and parse: the common part of [plan] and
    [build_initial_plan]. *)
Definition parse_raw (e : engine) (raw : blob_ref) (inventory : archive_inventory) (mode : acquisition_mode)
    (target : parser_id) : tx (list parser_artifact_evidence * parsed_conversations) :=
  let! compiled := slift (ok_or RpConflict (find_exact (re_registry e) target inventory mode)) in
  let! artifacts := read_artifacts (re_blobs e) raw inventory in
  let! ids := mint_names (length artifacts) in
  let! parsed := run_parser (cp_executor compiled)
                   (ParserExecutionInput inventory artifacts raw (re_blobs e)) ids in
  if bool_decide (pcs_parser parsed = target) then sret (artifacts, parsed) else sfail RpConflict.

Definition inspect_raw (e : engine) (raw : blob_ref) : tx archive_inventory :=
  smap_err RpIntake (with_disk (inspect cp437 zip_at sha256_hex (re_blobs e) (re_limits e) raw)).

(** ** Planning *)

Definition plan (e : engine) (tenant_id archive_id : uuid) (target : parser_id) : tx reparse_plan :=
  let! blocked := privacy_blocked tenant_id in
  if blocked : bool then sfail RpConflict
  else
    let! row := query (select_export tenant_id archive_id) in
    let! (export_id, export, current_stamp) := slift (ok_or RpConflict row) in
    let! raw := slift (ok_or RpEncode (decode_ref (xp_blob_ref export))) in
    let! _ := smap_err RpBlob (with_disk (verify sha256_hex (re_blobs e) raw)) in
    let! mode := slift (ok_or RpConflict (mode_parse (xp_acquisition_mode export))) in
    let! inventory := inspect_raw e raw in
    let compatible := compatible_versions (re_registry e) inventory mode in
    let! current_index := slift (ok_or RpConflict
      (position (λ p, String.eqb (spelled_parser p) current_stamp) compatible)) in
    let! target_index := slift (ok_or RpConflict (position (λ p, bool_decide (p = target)) compatible)) in
    if target_index <=? current_index then sfail RpConflict
    else
      let! (artifacts, parsed) := parse_raw e raw inventory mode target in
      let! current := current_projection export_id in
      sret (ReparsePlan
        (compare to_string sha256_hex archive_id target (cd_hex (br_digest raw)) current parsed)
        (parser_fingerprint to_string sha256_hex compatible)
        (projection_fingerprint to_string sha256_hex current)
        tenant_id export_id raw inventory artifacts parsed).

(** ** Persisting: shared with the initial import *)

(** [INSERT ... ON CONFLICT (export_id, artifact_ordinal) DO NOTHING]. *)
Definition insert_artifact (id : uuid) (row : artifact_row V) : sql unit :=
  writing (λ t,
    let artifacts := ev_artifacts (at_evidence t) in
    if existsb (λ r : uuid * artifact_row V,
         String.eqb (ar_export_id r.2) (ar_export_id row) && N.eqb (ar_ordinal r.2) (ar_ordinal row))
         (map_to_list artifacts)
    then Some (tt, t)
    else match artifacts !! id with
         | Some _ => None
         | None => Some (tt, on_evidence (on_artifacts <[id := row]>) t)
         end).

Fixpoint insert_artifacts (export_id : uuid) (ordinal : N) (references : list blob_ref) : tx unit :=
  match references with
  | [] => sret tt
  | reference :: rest =>
      if (i32_max <? ordinal)%N then sfail RpConflict
      else
        let! id := mint in
        let! encoded := slift (ok_or RpEncode (encode_ref reference)) in
        if (i64_max <? br_length_bytes reference)%N then sfail RpConflict
        else
          let! _ := store_err (statement (insert_artifact (new_uuid id)
            (ArtifactRow export_id ordinal "entry" encoded (cd_hex (br_digest reference))
               (br_length_bytes reference)))) in
          insert_artifacts export_id (ordinal + 1) rest
  end.

Definition registrations (references : list blob_ref) (artifacts : list parser_artifact_evidence)
    : list registration :=
  (λ ra : blob_ref * parser_artifact_evidence, Registration ra.1 (Memory (pe_bytes ra.2)))
    <$> zip references artifacts.

Definition persist_artifacts (blobs : blob_store) (plan : reparse_plan) (references : list blob_ref) : tx unit :=
  let! _ := smap_err reparse_error_of_registration
    (register_blobs sha256_hex media_type_ok blobs (registrations references (rpl_artifacts plan))) in
  insert_artifacts (rpl_export_id plan) 0 references.

Definition conversation_with (account_id : uuid) (external_id : string) (n : normalized V)
    : option (uuid * conversation_row) :=
  find (λ r : uuid * conversation_row,
    bool_decide (cnv_account_id r.2 = Some account_id) && String.eqb (cnv_external_id r.2) external_id)
    (map_to_list (nm_conversations n)).

(** [INSERT ... ON CONFLICT (account_id, external_id) DO UPDATE SET updated_at
    = now() RETURNING id, content_digest]. *)
Definition upsert_conversation (new_id account_id : uuid) (external_id : string) : sql (uuid * option string) :=
  writing (λ t,
    match conversation_with account_id external_id (at_normalized t) with
    | Some (id, row) => Some ((id, cnv_content_digest row), t)
    | None =>
        match nm_conversations (at_normalized t) !! new_id with
        | Some _ => None
        | None => Some ((new_id, None), on_normalized (on_conversations
            <[new_id := ConversationRow None (Some account_id) external_id None None None None None
                          None None None]>) t)
        end
    end).

Definition seen_again (export_id : uuid) (c : conversation_row) : conversation_row :=
  ConversationRow (cnv_project_id c) (cnv_account_id c) (cnv_external_id c) (cnv_title c)
    (Some (default export_id (cnv_first_seen_export c))) (Some export_id) (cnv_provider_created_at c)
    (cnv_provider_updated_at c) (cnv_parser_name c) (cnv_parser_version c) (cnv_content_digest c).

(** The messages of the conversation that the export presented, observed. *)
Definition observe_messages (export_id conversation_id : uuid) (presented : list string) (n : normalized V)
    : normalized V :=
  on_observations (λ o, foldr (λ id o, insert_new (export_id, "message", id) None o) o
    (omap (λ r : uuid * message_row,
       if String.eqb (ms_conversation_id r.2) conversation_id
          && match ms_external_id r.2 with Some x => existsb (String.eqb x) presented | None => false end
       then Some r.1 else None) (map_to_list (nm_messages n)))) n.

Definition read_again (export_id conversation_id : uuid) (parsed : parsed_conversation) : tx unit :=
  let! _ := store_err (statement (update_conversation conversation_id (seen_again export_id))) in
  store_err (statement (write (on_normalized
    (observe_messages export_id conversation_id (pm_external_id <$> pc_messages parsed))))).

Definition persist_conversation (plan : reparse_plan) (projects : list (string * uuid))
    (parsed : parsed_conversation) : tx unit :=
  let digest := conversation_digest to_string sha256_hex parsed in
  let export_id := rpl_export_id plan in
  let parser := rpt_target_parser (rpl_report plan) in
  let! new_id := mint in
  let! (id, held) := store_err (statement
    (upsert_conversation (new_uuid new_id) (rpl_tenant_id plan) (pc_external_id parsed))) in
  let! _ := store_err (observe export_id CONVERSATION id digest) in
  if bool_decide (held = Some digest) then read_again export_id id parsed
  else
    let! _ := store_err (append_revision render new_uuid id export_id digest (pi_name parser, pi_version parser)) in
    let! _ := smap_err reparse_error_of_version (keep_conversation_version encode_conversation id digest
      (ConversationVersion parsed (project_external_id_of (rpl_parsed plan) (pc_external_id parsed))
         (pi_name parser) (pi_version parser))) in
    store_err (persist_conversation_detail new_uuid to_timestamp export_id id
      (project_of_conversation (rpl_parsed plan) projects (pc_external_id parsed)) parsed parser).

Fixpoint persist_conversations (plan : reparse_plan) (projects : list (string * uuid))
    (conversations : list parsed_conversation) : tx unit :=
  match conversations with
  | [] => sret tt
  | c :: rest =>
      let! _ := persist_conversation plan projects c in persist_conversations plan projects rest
  end.

Definition persist_projection (plan : reparse_plan) : tx unit :=
  let! projects := smap_err reparse_error_of_version
    (persist_projects to_string sha256_hex encode_project new_uuid (rpl_tenant_id plan) (rpl_export_id plan)
       (rpl_parsed plan) (rpt_target_parser (rpl_report plan))) in
  persist_conversations plan projects (pcs_conversations (rpl_parsed plan)).

(** ** Applying *)

Definition of_plan (plan : reparse_plan) (r : reparse_row) : bool :=
  String.eqb (rr_export_id r) (rpl_export_id plan)
  && String.eqb (rr_parser_name r) (pi_name (rpt_target_parser (rpl_report plan)))
  && String.eqb (rr_parser_version r) (pi_version (rpt_target_parser (rpl_report plan)))
  && String.eqb (rr_raw_sha256_hex r) (rpt_raw_digest (rpl_report plan))
  && String.eqb (rr_registry_fingerprint r) (rpl_registry_fingerprint plan)
  && String.eqb (rr_input_projection_fingerprint r) (rpl_input_projection_fingerprint plan).

Definition prior (plan : reparse_plan) (t : atables) : option json :=
  (λ r : uuid * reparse_row, rr_report r.2) <$>
    find (λ r : uuid * reparse_row, String.eqb (rr_tenant_id r.2) (rpl_tenant_id plan) && of_plan plan r.2)
      (rows_by_key (ev_reparse_runs (at_evidence t))).

Definition decoded (stored : option json) : result reparse_error (option reparse_report) :=
  match stored with
  | None => Ok None
  | Some v => let? report := ok_or RpEncode (decode_report v) in Ok (Some report)
  end.

Definition prior_report (plan : reparse_plan) : tx (option reparse_report) :=
  let! stored := query (prior plan) in slift (decoded stored).

Definition prior_report_in_transaction (plan : reparse_plan) : tx (option reparse_report) :=
  let! stored := store_err (statement (reading (prior plan))) in slift (decoded stored).

Definition acquisition_mode_for_export (export_id : uuid) : tx acquisition_mode :=
  let! mode := store_err (auto (fetch_one (λ t, xp_acquisition_mode <$> ev_exports (at_evidence t) !! export_id))) in
  slift (ok_or RpConflict (mode_parse mode)).

(** The primary key and [reparse_execution_identity_unique]. *)
Definition insert_reparse_run (id : uuid) (plan : reparse_plan) (report : json) : sql unit :=
  writing (λ t,
    let runs := ev_reparse_runs (at_evidence t) in
    let now := ot_now (at_outbox t) in
    if bool_decide (is_Some (runs !! id)) || existsb (λ r : uuid * reparse_row, of_plan plan r.2) (map_to_list runs)
    then None
    else Some (tt, on_evidence (on_reparse_runs <[id := ReparseRow (rpl_tenant_id plan) (rpl_export_id plan)
           (pi_name (rpt_target_parser (rpl_report plan))) (pi_version (rpt_target_parser (rpl_report plan)))
           (rpt_raw_digest (rpl_report plan)) (rpl_registry_fingerprint plan)
           (rpl_input_projection_fingerprint plan) "applied" report now (Some now)]>) t)).

Fixpoint store_artifacts (blobs : blob_store) (artifacts : list parser_artifact_evidence) : tx (list blob_ref) :=
  match artifacts with
  | [] => sret []
  | artifact :: rest =>
      let! reference := smap_err RpBlob (store_minted sha256_hex media_type_ok blobs
        "application/octet-stream" [Some (pe_bytes artifact)]) in
      let! references := store_artifacts blobs rest in
      sret (reference :: references)
  end.

Definition scope_of (e : engine) (plan : reparse_plan) (head : head_policy) (parser : parser_id) : fact_scope :=
  FactScope (rpt_archive_id (rpl_report plan)) (rpl_export_id plan) (rpl_tenant_id plan) parser head
    (re_max_event_bytes e).

Definition project_facts (e : engine) (s : fact_scope) : tx projection_outcome :=
  smap_err RpProjection
    (project_import_facts sha256_hex new_uuid render pg_render render_instant collate decode_ref (re_owners e) s).

(** The body of the transaction.  Where the code rolls back on a prior report,
    nothing was written: committing leaves the same tables. *)
Definition apply_body (e : engine) (plan : reparse_plan) (stored : list blob_ref) : tx reparse_report :=
  let! _ := store_err (take_lock (rpl_tenant_id plan)) in
  let! prior := prior_report_in_transaction plan in
  match prior with
  | Some report => sret report
  | None =>
      let! run_id := mint in
      let! report := slift (ok_or RpEncode (encode_report (rpl_report plan))) in
      let! _ := store_err (statement (insert_reparse_run (new_uuid run_id) plan report)) in
      let! _ := persist_artifacts (re_blobs e) plan stored in
      let! _ := persist_projection plan in
      let! _ := project_facts e (scope_of e plan WithChangedEntities (rpt_target_parser (rpl_report plan))) in
      sret (rpl_report plan)
  end.

(** What is compared before anything is stored. *)
Definition still_current (e : engine) (plan : reparse_plan) : tx unit :=
  let! current := current_projection (rpl_export_id plan) in
  if negb (String.eqb (projection_fingerprint to_string sha256_hex current) (rpl_input_projection_fingerprint plan))
  then sfail RpConflict
  else
    let! mode := acquisition_mode_for_export (rpl_export_id plan) in
    let compatible := compatible_versions (re_registry e) (rpl_inventory plan) mode in
    if negb (String.eqb (parser_fingerprint to_string sha256_hex compatible) (rpl_registry_fingerprint plan))
    then sfail RpConflict
    else
      let! stored := query (λ t, x ← ev_exports (at_evidence t) !! rpl_export_id plan;
        if String.eqb (xp_account_id x) (rpl_tenant_id plan) then Some (xp_blob_ref x) else None) in
      let! raw := slift (ok_or RpConflict stored) in
      let! raw := slift (ok_or RpEncode (decode_ref raw)) in
      if bool_decide (br_digest raw = br_digest (rpl_raw_ref plan)) then
        let! _ := smap_err RpBlob (with_disk (verify sha256_hex (re_blobs e) raw)) in sret tt
      else sfail RpConflict.

Definition apply (e : engine) (plan : reparse_plan) : tx reparse_report :=
  let! blocked := privacy_blocked (rpl_tenant_id plan) in
  if blocked : bool then sfail RpConflict
  else
    let! prior := prior_report plan in
    match prior with
    | Some report => sret report
    | None =>
        let! _ := still_current e plan in
        let! stored := store_artifacts (re_blobs e) (rpl_artifacts plan) in
        transaction (λ _, RpStore) (apply_body e plan stored)
    end.
End engine.

(** ** What only reads *)

Section reading_laws.
Context (to_string : json → string) (sha256_hex : string → string) (media_type_ok : string → bool).
Context (cp437 : ascii → string) (zip_at : gmap string node → string → zip_source).
Context (read_to_end : zip_entry → option string).
Context {V R : Type} (decode_ref : V → option blob_ref).
Context {X : Type} (executor : X → parser_execution_input → list string →
  sm disk parser_execution_error parsed_conversations).

#[local] Abbreviation atables := (atables V R).
#[local] Abbreviation replan := (plan to_string sha256_hex cp437 zip_at read_to_end (R := R) decode_ref executor).

(** Nobody else is at work, and no row is written. *)
Definition reads_rows (w w' : world atables) : Prop :=
  w_others w = [] → w_others w' = [] ∧ w_tables w' = w_tables w.

#[export] Instance reads_rows_preorder : PreOrder reads_rows.
Proof. split; [by split|]. intros a b c Hab Hbc [Ho Et]%Hab. destruct (Hbc Ho). split; congruence. Qed.

Lemma auto_reads_rows {A} (f : atables → A) : stable reads_rows (auto (reading f)).
Proof.
  intros w r w' Hrun Ho. unfold auto, reading in Hrun. rewrite (alone _ Ho) in Hrun.
  destruct (next_fault w); injection Hrun as _ <-; by split.
Qed.

Lemma disk_reads_rows {E A} (c : sm disk E A) : stable reads_rows (with_disk (T := atables) c).
Proof. intros w r w' Hrun Ho. unfold with_disk in Hrun. destruct (c _) as [x d]. by injection Hrun as _ <-. Qed.

Lemma mint_reads_rows {E} : stable reads_rows (mint (E := E)).
Proof. by intros w r w' [= _ <-] Ho. Qed.

Lemma mint_names_reads_rows n : stable reads_rows (mint_names (V := V) (R := R) n).
Proof.
  induction n as [|n IH]; [apply stable_ret, _|].
  apply stable_bind; [apply _|apply mint_reads_rows|intros id].
  apply stable_bind; [apply _|exact IH|intros; apply stable_ret, _].
Qed.

Lemma parse_raw_reads_rows (e : reparse_engine X) raw inventory mode target :
  stable reads_rows (parse_raw sha256_hex zip_at read_to_end (V := V) (R := R) executor e raw inventory mode target).
Proof.
  apply stable_bind; [apply _|apply stable_lift, _|intros compiled].
  apply stable_bind; [apply _| |intros artifacts].
  { apply stable_bind; [apply _|apply stable_map_err, disk_reads_rows|intros path]. by intros w r w' [= _ <-]. }
  apply stable_bind; [apply _|apply mint_names_reads_rows|intros ids].
  apply stable_bind; [apply _|apply stable_map_err, disk_reads_rows|intros parsed].
  case_bool_decide; [apply stable_ret, _|apply stable_fail, _].
Qed.

Lemma plan_reads_rows (e : reparse_engine X) tenant_id archive_id target :
  stable reads_rows (replan e tenant_id archive_id target).
Proof.
  apply stable_bind; [apply _|apply stable_map_err, auto_reads_rows|intros []; [apply stable_fail, _|]].
  apply stable_bind; [apply _|apply stable_map_err, auto_reads_rows|intros row].
  apply stable_bind; [apply _|apply stable_lift, _|intros [[export_id export] stamp]].
  apply stable_bind; [apply _|apply stable_lift, _|intros raw].
  apply stable_bind; [apply _|apply stable_map_err, disk_reads_rows|intros _].
  apply stable_bind; [apply _|apply stable_lift, _|intros mode].
  apply stable_bind; [apply _|apply stable_map_err, disk_reads_rows|intros inventory].
  apply stable_bind; [apply _|apply stable_lift, _|intros current_index].
  apply stable_bind; [apply _|apply stable_lift, _|intros target_index].
  case_match; [apply stable_fail, _|].
  apply stable_bind; [apply _|apply parse_raw_reads_rows|intros [artifacts parsed]].
  apply stable_bind; [apply _|apply stable_map_err, auto_reads_rows|intros current; apply stable_ret, _].
Qed.

Lemma store_artifacts_reads_rows s l :
  stable reads_rows (store_artifacts sha256_hex media_type_ok (V := V) (R := R) s l).
Proof.
  induction l as [|a l IH]; [apply stable_ret, _|].
  apply stable_bind; [apply _| |intros b; apply stable_bind; [apply _|exact IH|intros; apply stable_ret, _]].
  apply stable_map_err, stable_bind; [apply _|apply mint_reads_rows|intros id; apply disk_reads_rows].
Qed.
End reading_laws.

(** ** Laws of the comparison *)

Section compare_laws.
Context (to_string : json → string) (sha256_hex : string → string).

#[local] Abbreviation parsed_digests := (parsed_digests to_string sha256_hex).
#[local] Abbreviation compare := (compare to_string sha256_hex).
#[local] Abbreviation conversation_digest := (conversation_digest to_string sha256_hex).

(** What a parser read of a conversation: of repeated ids, the last. *)
Definition read_of (parsed : parsed_conversations) (id : string) : option parsed_conversation :=
  last (filter (λ c, pc_external_id c = id) (pcs_conversations parsed)).

Lemma parsed_digests_get id parsed : bt_get id (parsed_digests parsed) = conversation_digest <$> read_of parsed id.
Proof.
  unfold Reparse.parsed_digests, read_of.
  induction (pcs_conversations parsed) as [|c l IH] using rev_ind; [done|].
  rewrite fmap_app, filter_app. csimpl.
  rewrite bt_of_list_snoc, (bt_get_insert _ _ _ _), IH by apply bt_of_list_wf.
  rewrite filter_cons, filter_nil. case_decide; [by rewrite last_snoc|by rewrite app_nil_r].
Qed.

Definition verdict_of (read : option parsed_conversation) (held : option string) (kind : reparse_change_kind) : Prop :=
  match read, held with
  | None, None => False
  | None, Some _ => kind = ProposedRemoval
  | Some _, None => kind = Added
  | Some c, Some digest => kind = if decide (digest = conversation_digest c) then Unchanged else Changed
  end.

Lemma sort_by_conversations (l : list reparse_change) :
  Forall (λ c, rc_subject_kind c = "conversation") l → NoDup (rc_subject_id <$> l) →
  StronglySorted (λ a b, cmp (rc_subject_id a) (rc_subject_id b) = Lt)
    (sort_by (cmp_on (λ c, (rc_subject_kind c, rc_subject_id c))) l).
Proof.
  intros Hk Hnd.
  pose proof (sort_by_strict (λ c, (rc_subject_kind c, rc_subject_id c)) l) as Hs.
  assert (Hk' : Forall (λ c, rc_subject_kind c = "conversation")
    (sort_by (cmp_on (λ c, (rc_subject_kind c, rc_subject_id c))) l)) by by rewrite sort_by_perm.
  assert (Hnd' : NoDup ((λ c, (rc_subject_kind c, rc_subject_id c)) <$> l)).
  { eapply (NoDup_fmap_1 snd). by rewrite <-list_fmap_compose. }
  specialize (Hs Hnd').
  induction Hs as [|c k _ IH Hc]; [constructor|]. apply Forall_cons in Hk' as [Ek Hk']. constructor; [auto|].
  apply Forall_forall. intros d Hd. eapply Forall_forall in Hc; [|exact Hd]. eapply Forall_forall in Hk'; [|exact Hd].
  cbn in *. rewrite cmp_pair, Ek, Hk', cmp_refl in Hc. done.
Qed.

Section one.
Context (current : projection) (parsed : parsed_conversations).
Context (Hcur : bt_wf current).

#[local] Abbreviation evidenced := (evidenced current (parsed_digests parsed)).
#[local] Abbreviation omitted := (omitted current (parsed_digests parsed)).
#[local] Abbreviation changes := (evidenced ++ (removal <$> omitted)).

Lemma evidenced_elem c :
  c ∈ evidenced ↔ ∃ id p, read_of parsed id = Some p ∧
    c = ReparseChange "conversation" id (change_kind (bt_get id current) (conversation_digest p)).
Proof.
  unfold Reparse.evidenced. rewrite list_elem_of_fmap. split.
  - intros ([k d] & -> & Hd). apply bt_get_elem in Hd; [|apply bt_of_list_wf].
    rewrite parsed_digests_get in Hd. apply fmap_Some in Hd as (p & ? & ->). by exists k, p.
  - intros (id & p & Hp & ->). exists (id, conversation_digest p). split; [done|].
    apply bt_get_elem; [apply bt_of_list_wf|]. by rewrite parsed_digests_get, Hp.
Qed.

Lemma omitted_elem id : id ∈ omitted ↔ read_of parsed id = None ∧ is_Some (bt_get id current).
Proof.
  unfold Reparse.omitted. by rewrite list_elem_of_filter, bt_keys_get, parsed_digests_get, fmap_None.
Qed.

Lemma changes_elem id kind :
  ReparseChange "conversation" id kind ∈ changes ↔ verdict_of (read_of parsed id) (bt_get id current) kind.
Proof.
  rewrite elem_of_app, evidenced_elem, list_elem_of_fmap. setoid_rewrite omitted_elem.
  unfold verdict_of, change_kind, removal. split.
  - intros [(id' & p & Hp & [= -> ->])|(id' & [= -> ->] & Hn & [held Hh])].
    + rewrite Hp. destruct (bt_get id' current); [|done].
      destruct (String.eqb_spec s (conversation_digest p)); by case_decide.
    + by rewrite Hn, Hh.
  - destruct (read_of parsed id) as [p|] eqn:Hp, (bt_get id current) as [held|] eqn:Hh; [..|done].
    + intros ->. left. exists id, p. rewrite Hh. split; [done|].
      destruct (String.eqb_spec held (conversation_digest p)); by case_decide.
    + intros ->. left. exists id, p. by rewrite Hh.
    + intros ->. right. exists id. rewrite Hp, Hh. by split_and!.
Qed.

Lemma changes_conversations : Forall (λ c, rc_subject_kind c = "conversation") changes.
Proof.
  apply Forall_forall.
  intros c [(? & ? & _ & ->)%evidenced_elem|(? & -> & _)%list_elem_of_fmap]%elem_of_app; done.
Qed.

Lemma changes_NoDup : NoDup (rc_subject_id <$> changes).
Proof.
  rewrite fmap_app. apply NoDup_app. split_and!.
  - unfold Reparse.evidenced. rewrite <-list_fmap_compose. apply bt_keys_NoDup, bt_of_list_wf.
  - intros id (a & -> & (k & p & Hp & ->)%evidenced_elem)%list_elem_of_fmap
      (b & Eb & (k' & -> & [Hn _]%omitted_elem)%list_elem_of_fmap)%list_elem_of_fmap.
    cbn in Eb. congruence.
  - rewrite <-list_fmap_compose. unfold removal. cbn. rewrite list_fmap_id. by apply NoDup_filter, bt_keys_NoDup.
Qed.
End one.

(** C23. The comparison is exact.  For every conversation the target parser read
    or the export presents there is one change and no other: added, changed or
    unchanged by the digest of what was read last under its id, proposed for
    removal when it was not read; the changes are in the order of the ids.
    There is one warning per proposed removal and no other, and one announced
    subject per addition and change. *)
Theorem compare_exact (archive_id : uuid) (target : parser_id) (raw : string) (current : projection)
    (parsed : parsed_conversations) :
  bt_wf current →
  let r := compare archive_id target raw current parsed in
  (∀ id kind, ReparseChange "conversation" id kind ∈ rpt_changes r
     ↔ verdict_of (read_of parsed id) (bt_get id current) kind) ∧
  (∀ c, c ∈ rpt_changes r → rc_subject_kind c = "conversation") ∧
  StronglySorted (λ a b, cmp (rc_subject_id a) (rc_subject_id b) = Lt) (rpt_changes r) ∧
  (∀ w, w ∈ rpt_warnings r ↔ ∃ id, w = ReparseWarning "coverage_omission" (Some id) ∧
     ReparseChange "conversation" id ProposedRemoval ∈ rpt_changes r) ∧
  rpt_event_subjects r ≡ₚ rpt_changes r ≫= λ c, subject_of (rc_kind c).
Proof.
  intros Hcur. unfold Reparse.compare. cbv zeta. cbn [rpt_changes rpt_warnings rpt_event_subjects].
  pose proof (changes_conversations current parsed) as Hkind.
  split; [intros; rewrite elem_of_sort_by; by apply changes_elem|].
  split; [intros c; rewrite elem_of_sort_by; by apply (proj1 (Forall_forall _ _) Hkind)|]. split; [|split].
  - apply sort_by_conversations; [done|by apply changes_NoDup].
  - intros w. rewrite elem_of_sort_by, list_elem_of_fmap. setoid_rewrite elem_of_sort_by.
    split; intros (id & -> & Hid); exists id; (split; [done|]).
    + apply elem_of_app. right. by apply (list_elem_of_fmap_2 removal).
    + apply changes_elem in Hid; [|done]. apply omitted_elem; [done|]. unfold verdict_of in Hid.
      destruct (read_of parsed id), (bt_get id current); try done. by case_decide.
  - rewrite !sort_by_perm, bind_app. rewrite <-(app_nil_r (_ ≫= _)) at 1. f_equiv.
    clear. induction (omitted current (parsed_digests parsed)) as [|id l IH]; [done|exact IH].
Qed.
End compare_laws.

(** ** Laws of the application *)

Section replay.
Context {V R : Type}.

#[local] Abbreviation atables := (atables V R).

(** What the transaction of a replay changes: records accrue, artifacts and
    runs of replays are added, events are queued; a new artifact satisfies
    [K], a new run [J].  Everything else is as before. *)
Record replay (K : artifact_row V → Prop) (J : reparse_row → Prop) (t t' : atables) : Prop := Replay {
  ry_rest : t' = on_announced (λ _, at_announced t') (on_outbox (λ _, at_outbox t')
    (on_normalized (λ _, at_normalized t') (on_evidence (λ e,
      on_artifacts (λ _, ev_artifacts (at_evidence t')) (on_reparse_runs (λ _, ev_reparse_runs (at_evidence t')) e)) t)));
  ry_normalized : accretion (at_normalized t) (at_normalized t');
  ry_outbox : gained (λ _, True) (at_outbox t) (at_outbox t');
  ry_announced : at_announced t ⊆ at_announced t';
  ry_runs : ev_reparse_runs (at_evidence t) ⊆ ev_reparse_runs (at_evidence t');
  ry_artifacts : ev_artifacts (at_evidence t) ⊆ ev_artifacts (at_evidence t');
  ry_new id a : ev_artifacts (at_evidence t') !! id = Some a → ev_artifacts (at_evidence t) !! id = Some a ∨ K a;
  ry_new_runs id r :
    ev_reparse_runs (at_evidence t') !! id = Some r → ev_reparse_runs (at_evidence t) !! id = Some r ∨ J r;
}.

#[export] Instance replay_preorder K J : PreOrder (replay K J).
Proof.
  split.
  - intros t. split; auto; try reflexivity. by destruct t as [? [] ? ? ? ? ?].
  - intros a b c [Eb ? ? ? ? ? Hn Hr] [Ec ? ? ? ? ? Hn' Hr']. split; [|by etrans..| |].
    + rewrite Ec, Eb. by destruct a as [? [] ? ? ? ? ?].
    + intros id x [?%Hn|?]%Hn'; auto.
    + intros id x [?%Hr|?]%Hr'; auto.
Qed.

Lemma replay_mono (K K' : artifact_row V → Prop) (J J' : reparse_row → Prop) t t' :
  (∀ a, K a → K' a) → (∀ r, J r → J' r) → replay K J t t' → replay K' J' t t'.
Proof. intros HK HJ [? ? ? ? ? ? Hn Hr]. split; auto; [intros id a [?|?]%Hn|intros id r [?|?]%Hr]; auto. Qed.

Lemma accrete_replay K J (t t' : atables) : accrete t t' → replay K J t t'.
Proof.
  intros [Et Hn]. rewrite Et. split; auto; try reflexivity. by destruct t as [? [] ? ? ? ? ?].
Qed.

Lemma queues_replay K J (t t' : atables) : queues t t' → replay K J t t'.
Proof.
  intros [Et Ho Ha]. rewrite Et. split; auto; try reflexivity. by destruct t as [? [] ? ? ? ? ?].
Qed.

Lemma insert_artifact_replay (K : artifact_row V → Prop) J id row :
  K row → stable (inside (replay K J)) (statement (insert_artifact (R := R) id row)).
Proof.
  intros HK. apply inside_writing; [apply _|]. intros t [] t' Hw. cbv zeta in Hw.
  case_match; [injection Hw as <-; reflexivity|]. case_match eqn:En; [done|]. injection Hw as <-.
  split; auto; try reflexivity.
  - by apply insert_subseteq.
  - intros i a. cbn. rewrite lookup_insert_Some. intros [[_ <-]|[_ ?]]; auto.
Qed.

(** The row of a plan's replay. *)
Definition run_of (plan : reparse_plan) (report : json) (now : N) : reparse_row :=
  ReparseRow (rpl_tenant_id plan) (rpl_export_id plan)
    (pi_name (rpt_target_parser (rpl_report plan))) (pi_version (rpt_target_parser (rpl_report plan)))
    (rpt_raw_digest (rpl_report plan)) (rpl_registry_fingerprint plan)
    (rpl_input_projection_fingerprint plan) "applied" report now (Some now).

Lemma insert_reparse_run_replay K (J : reparse_row → Prop) id plan report :
  (∀ now, J (run_of plan report now)) →
  stable (inside (replay K J)) (statement (insert_reparse_run (V := V) (R := R) id plan report)).
Proof.
  intros HJ. apply inside_writing; [apply _|]. intros t [] t' Hw. cbv zeta in Hw.
  destruct (bool_decide _ || _) eqn:E; [done|]. injection Hw as <-.
  apply orb_false_iff in E as [En%bool_decide_eq_false _].
  split; auto; try reflexivity; [apply insert_subseteq; by apply eq_None_not_Some|].
  intros i r. cbn. rewrite lookup_insert_Some. intros [[_ <-]|[_ ?]]; [right; apply HJ|by left].
Qed.

(** The same of a world: objects are added. *)
Context (sha256_hex : string → string).

Record replaying (K : artifact_row V → Prop) (J : reparse_row → Prop) (s : blob_store) (w w' : world atables) : Prop := Replaying {
  wr_others : w_others w' = w_others w;
  wr_kept : objects_kept s (d_nodes (w_disk w)) (d_nodes (w_disk w'));
  wr_wf : store_wf sha256_hex s (d_nodes (w_disk w)) → store_wf sha256_hex s (d_nodes (w_disk w'));
  wr_tables : replay K J (w_tables w) (w_tables w');
}.

#[export] Instance replaying_preorder K J s : PreOrder (replaying K J s).
Proof.
  split; [intros w; split; auto; reflexivity|].
  intros a b c [] []. split; [congruence|by etrans|auto|by etrans].
Qed.

Lemma inside_replaying K J s {E A} (c : sm (world atables) E A) :
  stable (inside (replay K J)) c → stable (replaying K J s) c.
Proof. intros Hc w r w' (Hd & Ho & Hr)%Hc. split; [done|by rewrite Hd|by rewrite Hd|done]. Qed.

Lemma grows_replaying K J s {E A} (c : sm (world atables) E A) :
  stable (grows sha256_hex s) c → stable (replaying K J s) c.
Proof. intros Hc w r w' [Ht ? ? ?]%Hc. split; auto. by rewrite Ht. Qed.
End replay.

Section apply_laws.
Context {wire ref : Type} `{Contracts wire ref}.
Context (to_string : json → string) (sha256_hex : string → string) (media_type_ok : string → bool).
Context (new_uuid : N → uuid) (render : json → string) (pg_render render_instant : N → string).
Context (collate : string → string → comparison) (to_timestamp : N → N).
Context {V R : Type} (decode_ref : V → option blob_ref) (encode_ref : blob_ref → option V).
Context (encode_project : project_version → option json).
Context (encode_conversation : conversation_version → option json).
Context (encode_report : reparse_report → option json) (decode_report : json → option reparse_report).
Context {X : Type}.

#[local] Abbreviation atables := (atables V R).
#[local] Abbreviation replaying := (replaying (V := V) (R := R) sha256_hex).
#[local] Abbreviation store_artifacts := (store_artifacts sha256_hex media_type_ok (V := V) (R := R)).
#[local] Abbreviation insert_artifacts := (insert_artifacts new_uuid (V := V) (R := R) encode_ref).
#[local] Abbreviation persist_artifacts := (persist_artifacts sha256_hex media_type_ok new_uuid (V := V) (R := R) encode_ref).
#[local] Abbreviation persist_conversation :=
  (persist_conversation to_string sha256_hex new_uuid render to_timestamp (V := V) (R := R) encode_conversation).
#[local] Abbreviation persist_projection :=
  (persist_projection to_string sha256_hex new_uuid render to_timestamp (V := V) (R := R) encode_project encode_conversation).
#[local] Abbreviation apply_body :=
  (apply_body to_string sha256_hex media_type_ok new_uuid render pg_render render_instant collate to_timestamp
     (V := V) (R := R) decode_ref encode_ref encode_project encode_conversation encode_report decode_report (X := X)).
#[local] Abbreviation apply :=
  (apply to_string sha256_hex media_type_ok new_uuid render pg_render render_instant collate to_timestamp
     (V := V) (R := R) decode_ref encode_ref encode_project encode_conversation encode_report decode_report (X := X)).

(** *** The records *)

Lemma conversation_with_Some account_id external_id (n : normalized V) id row :
  conversation_with account_id external_id n = Some (id, row) → nm_conversations n !! id = Some row.
Proof. by intros [? _]%find_rows. Qed.

Lemma upsert_conversation_accrete new_id account_id external_id :
  stable (inside accrete) (statement (upsert_conversation (V := V) (R := R) new_id account_id external_id)).
Proof.
  apply inside_writing; [apply _|]. intros t a t' Hw.
  destruct (conversation_with _ _ _) as [[id row]|]; [injection Hw as _ <-; reflexivity|].
  destruct (nm_conversations _ !! _) eqn:En; [done|]. injection Hw as _ <-.
  apply accrete_on. split; auto; try reflexivity. apply rows_kept_insert; [apply _|]. cbn. congruence.
Qed.

Lemma observe_messages_accretion export_id conversation_id presented (n : normalized V) :
  accretion n (observe_messages export_id conversation_id presented n).
Proof.
  split; auto; try reflexivity. cbn. intros k. generalize (nm_observations n). intros o Ho.
  induction (omap _ _) as [|id l IH]; cbn; [done|]. destruct IH as [x Hx]. exists x.
  by eapply lookup_weaken, insert_new_subseteq.
Qed.

Lemma read_again_accrete export_id conversation_id parsed :
  stable (inside accrete) (read_again (V := V) (R := R) export_id conversation_id parsed).
Proof.
  apply stable_bind; [apply _|apply stable_map_err, detailed_accrete, update_conversation_inside|intros _].
  - intros c. split; [done|]. split; [done|]. intros x Hx. cbn. by rewrite Hx.
  - apply stable_map_err, inside_write; [apply _|]. intros t. apply accrete_on, observe_messages_accretion.
Qed.

Lemma persist_conversation_accrete plan projects parsed :
  stable (inside accrete) (persist_conversation plan projects parsed).
Proof.
  apply stable_bind; [apply _|apply inside_mint, _|intros new_id].
  apply stable_bind; [apply _|apply stable_map_err, upsert_conversation_accrete|intros [id held]].
  apply stable_bind; [apply _|apply stable_map_err, observe_accrete|intros _].
  case_bool_decide; [apply read_again_accrete|].
  apply stable_bind; [apply _|apply stable_map_err, detailed_accrete, append_revision_inside|intros _].
  apply stable_bind; [apply _|apply stable_map_err, keep_conversation_version_accrete|intros _].
  apply stable_map_err, detailed_accrete, persist_conversation_detail_inside.
Qed.

Lemma persist_projection_accrete plan : stable (inside accrete) (persist_projection plan).
Proof.
  apply stable_bind; [apply _|apply stable_map_err, persist_projects_accrete|intros projects].
  induction (pcs_conversations (rpl_parsed plan)) as [|c rest IH]; [apply stable_ret, _|].
  apply stable_bind; [apply _|apply persist_conversation_accrete|intros _; exact IH].
Qed.

Lemma stable_bind_lift {S E A B} (Q : S → S → Prop) `{!PreOrder Q} (x : result E A) (k : A → sm S E B) :
  (∀ a, x = Ok a → stable Q (k a)) → stable Q (sbind (slift x) k).
Proof.
  intros Hk s r s'. unfold sbind, slift. destruct x as [a|e]; [by apply Hk|]. intros [= <- <-]. reflexivity.
Qed.

(** *** The artifacts *)

(** A row of the plan's export for one of the references. *)
Definition row_for (plan : reparse_plan) (references : list blob_ref) (a : artifact_row V) : Prop :=
  ar_export_id a = rpl_export_id plan ∧ ∃ b, b ∈ references ∧ encode_ref b = Some (ar_blob_ref a) ∧
    ar_sha256_hex a = cd_hex (br_digest b).

Lemma insert_artifacts_replay plan references J l : ∀ ordinal,
  l ⊆ references →
  stable (inside (replay (row_for plan references) J)) (insert_artifacts (rpl_export_id plan) ordinal l).
Proof.
  induction l as [|b l IH]; intros ordinal Hl; cbn [Reparse.insert_artifacts]; [apply stable_ret, _|].
  apply list_subseteq_cons_iff in Hl as [Hb Hl]. case_match; [apply stable_fail, _|].
  apply stable_bind; [apply _|apply inside_mint, _|intros id].
  apply stable_bind_lift; [apply _|intros encoded Eb]. case_match; [apply stable_fail, _|].
  apply stable_bind; [apply _| |intros _; by apply IH].
  apply stable_map_err, insert_artifact_replay. split; [done|]. exists b. split_and!; [done| |done].
  by destruct (encode_ref b); simplify_eq/=.
Qed.

Lemma persist_artifacts_replaying s plan references J :
  stable (replaying (row_for plan references) J s) (persist_artifacts s plan references).
Proof.
  apply stable_bind; [apply _|apply stable_map_err, grows_replaying, register_blobs_grows|intros _].
  by apply inside_replaying, insert_artifacts_replay.
Qed.

Lemma registrations_references references artifacts :
  length references = length artifacts →
  rg_reference <$> registrations references artifacts = references.
Proof.
  intros Hl. unfold registrations. rewrite <-list_fmap_compose. cbn. by apply fst_zip, Nat.eq_le_incl.
Qed.

(** *** The transaction *)

(** The tail of the body, once the run is recorded. *)
Lemma apply_tail_replaying (e : reparse_engine X) plan stored J (s : fact_scope) :
  stable (replaying (row_for plan stored) J (re_blobs e))
    (let! _ := persist_artifacts (re_blobs e) plan stored in
     let! _ := persist_projection plan in
     let! _ := project_facts sha256_hex new_uuid render pg_render render_instant collate (V := V) (R := R)
                 decode_ref e s in
     sret (rpl_report plan)).
Proof.
  apply stable_bind; [apply _|apply persist_artifacts_replaying|intros _].
  apply stable_bind; [apply _| |intros _].
  { eapply inside_replaying, stable_inside_mono, persist_projection_accrete. intros t t'. apply accrete_replay. }
  apply stable_bind; [apply _| |intros _; apply stable_ret, _].
  eapply inside_replaying, stable_inside_mono, stable_map_err, project_import_facts_queues.
  intros t t'. apply queues_replay.
Qed.

Definition is_run_of (plan : reparse_plan) (r : reparse_row) : Prop :=
  ∃ report now, encode_report (rpl_report plan) = Some report ∧ r = run_of plan report now.

Lemma apply_body_replaying (e : reparse_engine X) plan stored :
  stable (replaying (row_for plan stored) (is_run_of plan) (re_blobs e)) (apply_body e plan stored).
Proof.
  apply stable_bind; [apply _|apply stable_map_err, grows_replaying, take_lock_grows|intros _].
  apply stable_bind; [apply _| |intros [report|]; [apply stable_ret, _|]].
  { apply stable_bind; [apply _|apply stable_map_err, inside_replaying, inside_reading, _|intros; apply stable_lift, _]. }
  apply stable_bind; [apply _|apply inside_replaying, inside_mint, _|intros run_id].
  apply stable_bind_lift; [apply _|intros report Hr].
  apply stable_bind; [apply _| |intros _; apply apply_tail_replaying].
  apply stable_map_err, inside_replaying, insert_reparse_run_replay. intros now. exists report, now.
  split; [|done]. by destruct (encode_report _); simplify_eq/=.
Qed.

(** *** The application *)

Lemma store_artifacts_Ok s l : ∀ w refs w',
  store_artifacts s l w = (Ok refs, w') →
  Forall2 (λ a b, cd_hex (br_digest b) = sha256_hex (pe_bytes a)) l refs.
Proof.
  induction l as [|a l IH]; intros w refs w' Hrun; cbn [Reparse.store_artifacts] in Hrun; [by injection Hrun as <- _|].
  apply sbind_Ok_inv in Hrun as (b & w1 & Hb%smap_err_Ok_inv & Hrun).
  apply sbind_Ok_inv in Hrun as (rest & w2 & Hrest%IH & [= <- _]). constructor; [|done].
  apply sbind_Ok_inv in Hb as (id & w0 & _ & Hb). unfold with_disk in Hb.
  destruct (store _ _ _ _ _ _ _) as [x d] eqn:E. injection Hb as -> _.
  apply store_effect in E as (_ & _ & Hb). destruct (Hb _ eq_refl) as (chunks & Hc & ->). cbn.
  destruct chunks as [|c [|]]; try done. injection Hc as ->. unfold concat_bytes. cbn. by rewrite ?append_nil_r.
Qed.

(** A row for bytes the plan read out of the archive. *)
Definition artifact_of (plan : reparse_plan) (a : artifact_row V) : Prop :=
  ar_export_id a = rpl_export_id plan ∧ ∃ x b, x ∈ rpl_artifacts plan ∧
    ar_sha256_hex a = sha256_hex (pe_bytes x) ∧ encode_ref b = Some (ar_blob_ref a) ∧
    cd_hex (br_digest b) = sha256_hex (pe_bytes x).

Lemma row_for_artifact plan stored a :
  Forall2 (λ a b, cd_hex (br_digest b) = sha256_hex (pe_bytes a)) (rpl_artifacts plan) stored →
  row_for plan stored a → artifact_of plan a.
Proof.
  intros Hall (He & b & Hb & Henc & Hsha). split; [done|].
  apply list_elem_of_lookup in Hb as (i & Hb). eapply Forall2_lookup_r in Hb as (x & Hx & Hd); [|exact Hall].
  exists x, b. split_and!; [by eapply list_elem_of_lookup_2|congruence|done|done].
Qed.

(** What an application may do to the disk and the tables. *)
Definition retention (s : blob_store) (plan : reparse_plan) (x y : snap atables) : Prop :=
  objects_kept s x.1 y.1 ∧ replay (artifact_of plan) (is_run_of plan) x.2 y.2.

#[export] Instance retention_preorder s plan : PreOrder (retention s plan).
Proof. split; [by split|]. intros a b c [] []. split; by etrans. Qed.

Lemma query_retains Q `{!PreOrder Q} {A} (f : atables → A) : stable (respects Q) (query f).
Proof. apply stable_map_err, stable_auto; [done|]. by intros ns t a t' [= _ <-]. Qed.

Lemma reading_disk_retains Q `{!PreOrder Q} {A} (c : sm disk blob_store_error A) :
  stable (on_nodes eq) c → stable (respects Q) (smap_err RpBlob (with_disk (T := atables) c)).
Proof.
  intros Hc. apply stable_map_err, stable_with_disk. intros d r d' t Hd%Hc.
  unfold on_nodes in Hd. rewrite Hd. reflexivity.
Qed.

Lemma still_current_retains Q `{!PreOrder Q} (e : reparse_engine X) plan :
  stable (respects Q) (still_current to_string sha256_hex (V := V) (R := R) decode_ref e plan).
Proof.
  apply stable_bind; [apply _|apply query_retains, _|intros current]. case_match; [apply stable_fail, _|].
  apply stable_bind; [apply _| |intros mode].
  { apply stable_bind; [apply _| |intros; apply stable_lift, _].
    apply stable_map_err, stable_auto; [done|]. intros ns t a t'. unfold fetch_one. by case_match; intros [= _ <-]. }
  cbv zeta. case_match; [apply stable_fail, _|].
  apply stable_bind; [apply _|apply query_retains, _|intros stored].
  apply stable_bind; [apply _|apply stable_lift, _|intros raw].
  apply stable_bind; [apply _|apply stable_lift, _|intros raw']. case_match; [|apply stable_fail, _].
  apply stable_bind; [apply _|apply reading_disk_retains, verify_reading; done|intros; apply stable_ret, _].
Qed.

(** Whatever the others do, as long as [Q] allows what a replay does. *)
Section along.
Context (Q : snap atables → snap atables → Prop) `{!PreOrder Q}.

Lemma store_artifacts_along s plan l :
  (∀ x y, retention s plan x y → Q x y) → stable (respects Q) (store_artifacts s l).
Proof.
  intros HQ. induction l as [|a l IH]; cbn [Reparse.store_artifacts]; [apply stable_ret, _|].
  apply stable_bind; [apply _| |intros b; apply stable_bind; [apply _|exact IH|intros; apply stable_ret, _]].
  apply stable_map_err, stable_bind; [apply _|apply stable_mint, _|intros id].
  apply stable_with_disk. intros d r d' t (Hk & _)%store_effect. by apply HQ.
Qed.

Lemma apply_along (e : reparse_engine X) plan :
  (∀ x y, retention (re_blobs e) plan x y → Q x y) → stable (respects Q) (apply e plan).
Proof.
  intros HQ. apply stable_bind; [apply _|apply query_retains, _|intros []; [apply stable_fail, _|]].
  apply stable_bind; [apply _| |intros [report|]; [apply stable_ret, _|]].
  { apply stable_bind; [apply _|apply query_retains, _|intros; apply stable_lift, _]. }
  apply stable_bind; [apply _|apply still_current_retains, _|intros _].
  intros w r w' Hrun. apply sbind_inv in Hrun as [(stored & w1 & H1 & Hrun)|(err & H1 & ->)];
    pose proof (store_artifacts_along _ plan _ HQ _ _ _ H1) as Hs; [|exact Hs].
  apply store_artifacts_Ok in H1. etrans; [exact Hs|]. revert Hrun. apply stable_transaction; [apply _|].
  intros v x v' [Ho Hk _ Ht]%apply_body_replaying. split; [done|]. split; [apply HQ; by split|].
  intros _. apply HQ. split; [done|]. eapply replay_mono; [..|exact Ht]; [|done]. intros a. by apply row_for_artifact.
Qed.
End along.

(** C21. A replay takes nothing away.  Whatever [apply] answers, every object of
    the store is still there, every export, import run, report and operation
    is as it was, no project, conversation or message is lost or becomes
    another, nor do they forget which export saw them first; content parts,
    revisions, relations, assets and observations stay; what it adds are rows
    for bytes it read out of this archive, named by their digest, the row of
    this very plan, and queued events.  This holds of every failure of the
    database and the disk, and along with any other process that keeps to the
    same. *)
Theorem apply_retains (e : reparse_engine X) (plan : reparse_plan) (w w' : world atables)
    (r : result reparse_error reparse_report) :
  apply e plan w = (r, w') → others_ok (retention (re_blobs e) plan) w →
  retention (re_blobs e) plan (w_snap w) (w_snap w').
Proof. intros Hrun Hw. by apply (apply_along (retention (re_blobs e) plan) e plan (λ _ _, id) _ _ _ Hrun). Qed.

(** *** Settling *)

Lemma query_alone {A} (f : atables → A) w r w' :
  query f w = (r, w') → w_others w = [] →
  (r = Ok (f (w_tables w)) ∨ r = Err RpStore) ∧
  w_tables w' = w_tables w ∧ w_disk w' = w_disk w ∧ w_others w' = [].
Proof.
  unfold query, store_err, smap_err, auto, reading. intros Hrun Hw. rewrite (alone _ Hw) in Hrun.
  destruct (next_fault w); injection Hrun as <- <-; cbn; auto.
Qed.

Lemma decoded_prior plan (w : world atables) r w' :
  prior_report decode_report plan w = (r, w') → w_others w = [] →
  (r = decoded decode_report (prior plan (w_tables w)) ∨ r = Err RpStore) ∧
  w_tables w' = w_tables w ∧ w_disk w' = w_disk w ∧ w_others w' = [].
Proof.
  unfold prior_report, sbind. intros Hrun Hw. destruct (query _ w) as [x v] eqn:E.
  apply query_alone in E as (Hx & Hv); [|done]. destruct Hx as [->| ->]; injection Hrun as <- <-; auto.
Qed.

(** The run of the plan is on record with the report, and no deletion is
    open. *)
Definition recorded (plan : reparse_plan) (report : reparse_report) (t : atables) : Prop :=
  blocked (rpl_tenant_id plan) t = false ∧
  decoded decode_report (prior plan t) = Ok (Some report).

Lemma recorded_apply (e : reparse_engine X) plan report w r w' :
  recorded plan report (w_tables w) → apply e plan w = (r, w') → w_others w = [] →
  (r = Ok report ∨ r = Err RpStore) ∧ w_tables w' = w_tables w ∧ w_disk w' = w_disk w.
Proof.
  intros [Hb Hp] Hrun Hw. unfold Reparse.apply, sbind in Hrun.
  destruct (privacy_blocked _ w) as [x v] eqn:E1. apply query_alone in E1 as (Hx & Ht & Hd & Ho); [|done].
  destruct Hx as [->| ->]; [|by injection Hrun as <- <-; auto]. rewrite Hb in Hrun.
  destruct (prior_report _ _ v) as [y u] eqn:E2. apply decoded_prior in E2 as (Hy & Ht' & Hd' & Ho'); [|done].
  rewrite Ht, Hp in Hy. destruct Hy as [->| ->]; injection Hrun as <- <-; (split; [auto|]); split; congruence.
Qed.

Lemma prior_of_unique plan report (t : atables) :
  (∃ id r, ev_reparse_runs (at_evidence t) !! id = Some r ∧ rr_tenant_id r = rpl_tenant_id plan ∧
     of_plan plan r = true) →
  (∀ id r, ev_reparse_runs (at_evidence t) !! id = Some r → of_plan plan r = true → rr_report r = report) →
  prior plan t = Some report.
Proof.
  intros (id & r & Hr & Ht & Hp) Hu. unfold prior.
  destruct (find _ _) as [[i x]|] eqn:E; cbn.
  - apply find_some in E as [Hin Hx]. apply andb_true_iff in Hx as [_ Hx]. f_equal. apply (Hu i); [|done].
    apply list_elem_of_In in Hin. unfold rows_by_key in Hin. by rewrite elem_of_sort_by, elem_of_map_to_list in Hin.
  - assert (Hin : In (id, r) (rows_by_key (ev_reparse_runs (at_evidence t)))).
    { apply list_elem_of_In. unfold rows_by_key. by rewrite elem_of_sort_by, elem_of_map_to_list. }
    eapply find_none in Hin; [|exact E]. cbn in Hin. by rewrite Ht, String.eqb_refl, Hp in Hin.
Qed.

Lemma insert_reparse_run_Ok id plan report w w' :
  statement (insert_reparse_run (V := V) (R := R) id plan report) w = (Ok tt, w') →
  at_workflow (w_tables w') = at_workflow (w_tables w) ∧ prior plan (w_tables w') = Some report ∧
  ∀ t : atables, ev_reparse_runs (at_evidence t) = ev_reparse_runs (at_evidence (w_tables w')) → prior plan t = Some report.
Proof.
  intros [Hw _]%statement_writing_Ok. cbv zeta in Hw. destruct (bool_decide _ || _) eqn:E; [done|]. injection Hw as Hw.
  apply orb_false_iff in E as [_ Hnone]. apply existsb_false in Hnone. set (row := ReparseRow _ _ _ _ _ _ _ _ _ _ _) in Hw.
  assert (Hall : ∀ t : atables, ev_reparse_runs (at_evidence t) = ev_reparse_runs (at_evidence (w_tables w')) →
    prior plan t = Some report).
  { intros t Ht. apply prior_of_unique; rewrite Ht, <-Hw; cbn.
    - exists id, row. rewrite lookup_insert_eq. split; [done|]. split; [done|].
      unfold of_plan. cbn. by rewrite !String.eqb_refl.
    - intros i r. rewrite lookup_insert_Some. intros [[_ <-]|[_ Hr]]; [done|]. intros Hp.
      eapply Forall_forall in Hnone; [|apply elem_of_map_to_list; exact Hr]. cbn in Hnone. congruence. }
  split; [by rewrite <-Hw|]. split; [by apply Hall|exact Hall].
Qed.

(** A new artifact's bytes are in the store. *)
Definition artifacts_present (s : blob_store) (w w' : world atables) : Prop :=
  ∀ id a, ev_artifacts (at_evidence (w_tables w')) !! id = Some a →
    ev_artifacts (at_evidence (w_tables w)) !! id = Some a ∨
    ∃ b, encode_ref b = Some (ar_blob_ref a) ∧ present sha256_hex s b (d_nodes (w_disk w')).

Context (encode_decode : ∀ report v, encode_report report = Some v → decode_report v = Some report).

Lemma replay_workflow K J (t t' : atables) : replay K J t t' → at_workflow t' = at_workflow t.
Proof. intros Hr. by rewrite (ry_rest _ _ _ _ Hr). Qed.

Lemma replay_runs K (t t' : atables) :
  replay K (λ _, False) t t' → ev_reparse_runs (at_evidence t') = ev_reparse_runs (at_evidence t).
Proof.
  intros Ht. apply map_eq. intros id. apply option_eq. intros r. split.
  - by intros [?|[]]%(ry_new_runs _ _ _ _ Ht).
  - intros Hr. eapply lookup_weaken; [exact Hr|]. apply (ry_runs _ _ _ _ Ht).
Qed.

(** The tail answers the plan's report, with the bytes it puts on record. *)
Lemma apply_tail_Ok (e : reparse_engine X) plan stored (s : fact_scope) w report w' :
  (let! _ := persist_artifacts (re_blobs e) plan stored in
   let! _ := persist_projection plan in
   let! _ := project_facts sha256_hex new_uuid render pg_render render_instant collate (V := V) (R := R)
               decode_ref e s in
   sret (rpl_report plan)) w = (Ok report, w') →
  report = rpl_report plan ∧
  (length stored = length (rpl_artifacts plan) → store_wf sha256_hex (re_blobs e) (d_nodes (w_disk w)) →
   artifacts_present (re_blobs e) w w').
Proof.
  intros Hrun. pose proof (apply_tail_replaying e plan stored (λ _, False) s _ _ _ Hrun) as [_ _ _ Ht].
  apply sbind_Ok_inv in Hrun as ([] & w1 & H1 & Hrun). split.
  { apply sbind_Ok_inv in Hrun as ([] & w2 & _ & Hrun). apply sbind_Ok_inv in Hrun as (o & w3 & _ & Hrun).
    by injection Hrun. }
  intros Hl Hwf. apply sbind_Ok_inv in H1 as ([] & w0 & H0%smap_err_Ok_inv & H1).
  pose proof (insert_artifacts_replay plan stored (λ _, False) stored 0 (reflexivity _) _ _ _ H1) as (Hd & _ & _).
  apply register_blobs_Ok in H0; [|done].
  assert (Hp : Forall (λ b, present sha256_hex (re_blobs e) b (d_nodes (w_disk w0))) stored).
  { rewrite <-(registrations_references stored (rpl_artifacts plan)) by done. apply Forall_fmap.
    eapply Forall_impl; [exact H0|]. done. }
  assert (Hk : objects_kept (re_blobs e) (d_nodes (w_disk w0)) (d_nodes (w_disk w'))).
  { rewrite <-Hd. apply (inside_replaying sha256_hex (row_for plan stored) (λ _, False) (re_blobs e)) in Hrun
      as [_ Hk _ _]; [exact Hk|].
    apply stable_bind; [apply _| |intros _; apply stable_bind; [apply _| |intros _; apply stable_ret, _]].
    - eapply stable_inside_mono, persist_projection_accrete. intros t t'. apply accrete_replay.
    - eapply stable_inside_mono, stable_map_err, project_import_facts_queues. intros t t'. apply queues_replay. }
  intros id a Ha. destruct (ry_new _ _ _ _ Ht id a Ha) as [?|(_ & b & Hb & Henc & _)]; [by left|].
  right. exists b. split; [done|]. eapply present_kept; [exact Hk|]. by eapply Forall_forall in Hb; [|exact Hp].
Qed.

Lemma prior_in_transaction_Ok plan w answer w' :
  prior_report_in_transaction decode_report plan w = (Ok answer, w') →
  decoded decode_report (prior (V := V) (R := R) plan (w_tables w)) = Ok answer ∧
  w_tables w' = w_tables w ∧ w_disk w' = w_disk w.
Proof.
  intros (found & w1 & Hf%smap_err_Ok_inv & Hd)%sbind_Ok_inv. injection Hd as Hd <-.
  pose proof (inside_reading eq (prior (V := V) (R := R) plan) _ _ _ Hf) as (? & _ & _).
  apply statement_reading_Ok in Hf as [-> Ht]. done.
Qed.

Lemma slift_ok_or_Ok {S E A} (e : E) (o : option A) (s : S) a s' :
  slift (ok_or e o) s = (Ok a, s') → o = Some a ∧ s' = s.
Proof. destruct o; by intros [= -> ->]. Qed.

(** A run newly recorded is the answer to the next application. *)
Lemma apply_body_Ok (e : reparse_engine X) plan stored w report w' :
  apply_body e plan stored w = (Ok report, w') →
  decoded decode_report (prior plan (w_tables w')) = Ok (Some report) ∧
  (length stored = length (rpl_artifacts plan) → store_wf sha256_hex (re_blobs e) (d_nodes (w_disk w)) →
   artifacts_present (re_blobs e) w w').
Proof.
  intros Hrun. apply sbind_Ok_inv in Hrun as ([] & w1 & H1%smap_err_Ok_inv & Hrun).
  apply (take_lock_grows sha256_hex (re_blobs e)) in H1 as [Et1 _ _ Hwf1].
  apply sbind_Ok_inv in Hrun as (answer & w2 & (Ha & Et2 & Ed2)%prior_in_transaction_Ok & Hrun).
  destruct answer as [known|].
  { injection Hrun as <- <-. rewrite Et2. split; [done|]. intros _ _ id a. rewrite Et2, Et1. auto. }
  apply sbind_Ok_inv in Hrun as (n & w3 & [= <- <-] & Hrun).
  apply sbind_Ok_inv in Hrun as (v & w4 & [Hv ->]%slift_ok_or_Ok & Hrun).
  apply sbind_Ok_inv in Hrun as ([] & w5 & H5%smap_err_Ok_inv & Hrun).
  pose proof (insert_reparse_run_replay (λ _, False) (λ _, True) _ plan v (λ _, I) _ _ _ H5) as (Ed5 & _ & Hr5).
  pose proof (insert_reparse_run_Ok _ _ _ _ _ H5) as (_ & _ & Hprior).
  pose proof (apply_tail_replaying e plan stored (λ _, False) _ _ _ _ Hrun) as [_ _ _ Hr%replay_runs].
  apply apply_tail_Ok in Hrun as [-> Hart]. split.
  - rewrite (Hprior _ Hr). unfold decoded. by rewrite (encode_decode _ _ Hv).
  - intros Hl Hwf id a Hid. apply Hart in Hid as [Hid|?]; [left|by right|done|].
    + apply (ry_new _ _ _ _ Hr5) in Hid as [Hid|[]]. by rewrite <-Et1, <-Et2.
    + rewrite Ed5. cbn. rewrite Ed2. auto.
Qed.

(** The plan's run is on record. *)
Definition run_known (plan : reparse_plan) (t : atables) : Prop :=
  ∃ id r, ev_reparse_runs (at_evidence t) !! id = Some r ∧ rr_tenant_id r = rpl_tenant_id plan ∧ of_plan plan r = true.

Lemma decoded_run_known plan report (t : atables) :
  decoded decode_report (prior plan t) = Ok (Some report) → run_known plan t.
Proof.
  unfold prior. destruct (find _ _) as [[id r]|] eqn:E; [|done]. intros _.
  apply find_some in E as [Hin [Ht Hp]%andb_true_iff]. exists id, r. split; [|split; [by apply String.eqb_eq|done]].
  apply list_elem_of_In in Hin. unfold rows_by_key in Hin. by rewrite elem_of_sort_by, elem_of_map_to_list in Hin.
Qed.

(** An answered replay is on record, whoever else is at work. *)
Lemma apply_run_known (e : reparse_engine X) plan w report w' :
  apply e plan w = (Ok report, w') → run_known plan (w_tables w').
Proof.
  intros (b & w1 & _ & Hrun)%sbind_Ok_inv. destruct b; [done|].
  apply sbind_Ok_inv in Hrun as (known & w2 & H2 & Hrun). destruct known as [known|].
  - injection Hrun as <- <-. apply sbind_Ok_inv in H2 as (stored & w3 & H3%smap_err_Ok_inv & H2).
    injection H2 as H2 <-. apply auto_Ok_inv in H3. injection H3 as <- Ht.
    apply (decoded_run_known plan known). by rewrite <-Ht.
  - apply sbind_Ok_inv in Hrun as ([] & w3 & _ & Hrun). apply sbind_Ok_inv in Hrun as (stored & w4 & _ & Hrun).
    apply transaction_Ok_inv in Hrun as (u & [Hd _]%apply_body_Ok & Ht & _). apply (decoded_run_known plan report).
    by rewrite Ht.
Qed.

(** What comes before the transaction, when nobody else works: objects are
    added, the tables are only read. *)
Record storing (s : blob_store) (w w' : world atables) : Prop := Storing {
  sg_alone : w_others w' = [];
  sg_tables : w_tables w' = w_tables w;
  sg_kept : objects_kept s (d_nodes (w_disk w)) (d_nodes (w_disk w'));
  sg_wf : store_wf sha256_hex s (d_nodes (w_disk w)) → store_wf sha256_hex s (d_nodes (w_disk w'));
}.

Definition only_stores (s : blob_store) (w w' : world atables) : Prop := w_others w = [] → storing s w w'.

#[export] Instance only_stores_preorder s : PreOrder (only_stores s).
Proof.
  split; [by split|]. intros a b c Hab Hbc Ho. destruct (Hab Ho) as [Ho' ? ? ?]. destruct (Hbc Ho') as [].
  split; [done|congruence|by etrans|auto].
Qed.

Lemma query_only_stores s {A} (f : atables → A) : stable (only_stores s) (query f).
Proof.
  intros w r w' Hrun Ho. destruct (query_alone _ _ _ _ Hrun Ho) as (_ & Ht & Hd & ?).
  split; [done|done|by rewrite Hd..].
Qed.

Lemma disk_only_stores s {A} (c : sm disk blob_store_error A) :
  stable (on_nodes eq) c → stable (only_stores s) (smap_err RpBlob (with_disk (T := atables) c)).
Proof.
  intros Hc. apply stable_map_err. intros w r w' Hrun Ho. unfold with_disk in Hrun.
  destruct (c (w_disk w)) as [x d] eqn:E. injection Hrun as _ <-. apply Hc in E. unfold on_nodes in E.
  split; [done|done|by cbn; rewrite E..].
Qed.

Lemma still_current_only_stores (e : reparse_engine X) plan :
  stable (only_stores (re_blobs e)) (still_current to_string sha256_hex (V := V) (R := R) decode_ref e plan).
Proof.
  apply stable_bind; [apply _|apply query_only_stores|intros current]. case_match; [apply stable_fail, _|].
  apply stable_bind; [apply _| |intros mode].
  { apply stable_bind; [apply _| |intros; apply stable_lift, _].
    apply stable_map_err. intros w r w' Hrun Ho. unfold auto in Hrun. rewrite (alone _ Ho) in Hrun.
    unfold fetch_one in Hrun. destruct (next_fault w); repeat case_match; simplify_eq; by split. }
  cbv zeta. case_match; [apply stable_fail, _|].
  apply stable_bind; [apply _|apply query_only_stores|intros stored].
  apply stable_bind; [apply _|apply stable_lift, _|intros raw].
  apply stable_bind; [apply _|apply stable_lift, _|intros raw']. case_match; [|apply stable_fail, _].
  apply stable_bind; [apply _|apply disk_only_stores, verify_reading; done|intros; apply stable_ret, _].
Qed.

Lemma store_artifacts_only_stores s l : stable (only_stores s) (store_artifacts s l).
Proof.
  induction l as [|a l IH]; cbn [Reparse.store_artifacts]; [apply stable_ret, _|].
  apply stable_bind; [apply _| |intros b; apply stable_bind; [apply _|exact IH|intros; apply stable_ret, _]].
  apply stable_map_err. intros w r w' [Ht Ho ? ?]%(store_minted_grows sha256_hex) Hw.
  split; [congruence|done|done|done].
Qed.

(** C22. A replay settles.  Once [apply] has answered with a report, and nobody
    else worked meanwhile, the bytes of every artifact row it added are in the
    store under the recorded digest, and the same plan applied again, at any
    later time and whatever fails then, answers the same report or a database
    error and changes neither the tables nor the disk. *)
Theorem apply_settles (e : reparse_engine X) (plan : reparse_plan) (w w' : world atables) (report : reparse_report) :
  apply e plan w = (Ok report, w') → w_others w = [] → store_wf sha256_hex (re_blobs e) (d_nodes (w_disk w)) →
  artifacts_present (re_blobs e) w w' ∧
  ∀ later r later', w_tables later = w_tables w' → w_others later = [] → apply e plan later = (r, later') →
    (r = Ok report ∨ r = Err RpStore) ∧ w_tables later' = w_tables later ∧ w_disk later' = w_disk later.
Proof.
  intros Hrun Ho Hwf. enough (Hdone : recorded plan report (w_tables w') ∧ artifacts_present (re_blobs e) w w').
  { destruct Hdone as [Hrec Hart]. split; [done|]. intros later r later' Ht Hl Hagain.
    eapply recorded_apply; [by rewrite Ht|done|done]. }
  apply sbind_Ok_inv in Hrun as (b & w1 & H1 & Hrun). apply query_alone in H1 as (Hb & Et1 & Ed1 & Ho1); [|done].
  destruct Hb as [Hb|]; [|done]. injection Hb as ->. destruct (blocked _ _) eqn:Hb; [done|].
  apply sbind_Ok_inv in Hrun as (known & w2 & H2 & Hrun). apply decoded_prior in H2 as (Hk & Et2 & Ed2 & Ho2); [|done].
  destruct Hk as [Hk|]; [|done]. destruct known as [known|].
  { injection Hrun as <- <-. split; [split|]; [by rewrite Et2, Et1|by rewrite Et2|].
    intros id a. rewrite Et2, Et1. auto. }
  apply sbind_Ok_inv in Hrun as ([] & w3 & H3%still_current_only_stores & Hrun).
  destruct (H3 Ho2) as [Ho3 Et3 _ Hwf3]. apply sbind_Ok_inv in Hrun as (stored & w4 & H4 & Hrun).
  pose proof (store_artifacts_Ok _ _ _ _ _ H4) as Hl%Forall2_length. apply store_artifacts_only_stores in H4.
  destruct (H4 Ho3) as [Ho4 Et4 _ Hwf4].
  apply transaction_Ok_inv in Hrun as (u & Hbody & Et5 & Ed5 & _). rewrite (alone _ Ho4) in Hbody.
  pose proof (apply_body_replaying _ _ _ _ _ _ Hbody) as [_ _ _ Hr%replay_workflow].
  apply apply_body_Ok in Hbody as [Hrec Hart]. specialize (Hart (eq_sym Hl)). cbn in Hart.
  rewrite Ed1 in Ed2. specialize (Hart (Hwf4 (Hwf3 ltac:(by rewrite Ed2)))).
  cbn in Hr. unfold recorded, artifacts_present, blocked in *. rewrite Et5, Ed5. split; [split|].
  - by rewrite Hr, Et4, Et3, Et2, Et1.
  - done.
  - intros id a Hid. apply Hart in Hid. cbn in Hid. by rewrite Et4, Et3, Et2, Et1 in Hid.
Qed.
End apply_laws.

(** ** Closed examples *)

Module ReparseWitness.
Definition fake_sha (content : string) : string := "ab" +:+ content.
Definition to_string (v : json) : string :=
  match v with JArray l => "list of " +:+ pretty (length l) | _ => "document" end.
Definition target : parser_id := ParserId "new" "2".

Definition read (external_id : string) : parsed_conversation :=
  ParsedConversation external_id (Some "title") None None JNull [].
Definition parsed : parsed_conversations := ParsedConversations "schema" target [read "one"; read "two"] [] [] [] [].
Definition current : projection := [("two", "other"); ("zero", "gone")].

Lemma compare_exact_witness :
  let r := compare to_string fake_sha "archive" target "raw" current parsed in
  ReparseChange "conversation" "one" Added ∈ rpt_changes r ∧
  ReparseChange "conversation" "two" Changed ∈ rpt_changes r ∧
  ReparseChange "conversation" "zero" ProposedRemoval ∈ rpt_changes r.
Proof.
  destruct (compare_exact to_string fake_sha "archive" target "raw" current parsed) as [Hc _];
    [repeat constructor|].
  split; [|split]; apply Hc; reflexivity.
Defined.

(** An archive of one export, presenting one conversation; the bytes of its
    package are in the store. *)
Definition blobs : blob_store := BlobStore "/b".
Definition package : blob_ref := BlobRef OWNER (ContentDigest Sha256 "abzip") "application/zip" 3.

Definition archive : atables blob_ref unit :=
  ATables {[ "tenant" := Some "account" ]}
    (Evidence {[ "x1" := ArchiveExport "a1" "tenant" "consumer_export" package 10 ]} ∅
       {[ "i1" := RunRow (Some "x1") (Some "old") (Some "1") (Some "schema") "completed" 10 (Some 20%N) ]}
       {[ "r1" := ReportRow "i1" "complete" (JObject []) (JArray []) (JArray []) 0 0 ]} ∅ ∅ ∅ ∅)
    (Normalized ∅ {[ "c1" := ConversationRow None (Some "tenant") "zero" None (Some "x1") (Some "x1") None None None None
                               (Some "gone") ]} ∅ ∅ ∅ ∅ ∅
       {[ ("x1", "conversation", "c1") := Some "gone" ]} ∅)
    (Workflow ∅ ∅ ∅) ∅ (OTables ∅ 1 100 ∅) ∅.

Definition start : world (atables blob_ref unit) :=
  World (Disk {[ object_path blobs "ab" "zip" := NFile "zip" ]} []) (Database archive [] [] [] []) 7.

Definition engine : reparse_engine unit :=
  ReparseEngine blobs [] (ArchiveLimits 9 9 9 9 9) (OwnerResolver {[ "account" := "alice" ]}) 1000.

Definition inventory : archive_inventory := ArchiveInventory [] 0 0 ∅.

Definition the_plan : reparse_plan :=
  let presented := presented_digests "x1" archive in
  ReparsePlan (compare to_string fake_sha "a1" target "abzip" presented parsed)
    (parser_fingerprint to_string fake_sha []) (projection_fingerprint to_string fake_sha presented)
    "tenant" "x1" package inventory [ParserArtifactEvidence "a.json" "txt" false] parsed.

#[local] Existing Instance ContractsWitness.contracts.

Definition write_report (r : reparse_report) : option json :=
  if bool_decide (r = rpl_report the_plan) then Some (JString "report") else None.
Definition read_report (_ : json) : option reparse_report := Some (rpl_report the_plan).

Lemma written_read report v : write_report report = Some v → read_report v = Some report.
Proof. unfold write_report. case_bool_decide; [by subst|done]. Qed.

Definition run : world (atables blob_ref unit) → result reparse_error reparse_report * world (atables blob_ref unit) :=
  apply to_string fake_sha (λ _, true) pretty to_string pretty pretty String.compare (λ n, n)
    Some Some (λ _, Some JNull) (λ _, Some JNull) write_report read_report engine the_plan.

Definition settled : result reparse_error reparse_report * world (atables blob_ref unit) := run start.
Definition shown : reparse_report := value_or (rpl_report the_plan) settled.1.

Lemma settled_Ok : run start = (Ok shown, settled.2).
Proof. apply ran. evaluates. Qed.

Lemma settled_alone : w_others settled.2 = [].
Proof.
  assert (H : match w_others settled.2 with [] => true | _ => false end = true) by evaluates.
  by destruct (w_others settled.2).
Qed.

Lemma start_wf : store_wf fake_sha blobs (d_nodes (w_disk start)).
Proof.
  intros dir rem n Hdir Hn. cbn in Hn. apply lookup_singleton_Some in Hn as [Heq <-]. exists "zip". split; [done|].
  apply object_path_inj in Heq as [<- <-]; done.
Qed.

Lemma replayed_rows {V R} K J (t t' : atables V R) :
  replay K J t t' → ev_exports (at_evidence t') = ev_exports (at_evidence t) ∧
  rows_kept same_conversation (nm_conversations (at_normalized t)) (nm_conversations (at_normalized t')).
Proof. intros [Et [] _ _ _ _ _ _]. split; [|done]. by rewrite Et. Qed.

Lemma apply_retains_witness :
  ev_exports (at_evidence (w_tables settled.2)) = ev_exports (at_evidence (w_tables start)) ∧
  rows_kept same_conversation (nm_conversations (at_normalized (w_tables start)))
    (nm_conversations (at_normalized (w_tables settled.2))).
Proof.
  destruct (apply_retains to_string fake_sha (λ _, true) pretty to_string pretty pretty String.compare (λ n, n)
    Some Some (λ _, Some JNull) (λ _, Some JNull) write_report read_report engine the_plan start settled.2 (Ok shown)) as [_ Hr];
    [exact settled_Ok|constructor|].
  apply (replayed_rows _ _ _ _ Hr).
Defined.

Lemma apply_settles_witness :
  w_disk (run settled.2).2 = w_disk settled.2 ∧
  bool_decide (ev_artifacts (at_evidence (w_tables settled.2)) = ∅) = false ∧
  ∀ id a, ev_artifacts (at_evidence (w_tables settled.2)) !! id = Some a →
    present fake_sha blobs (ar_blob_ref a) (d_nodes (w_disk settled.2)).
Proof.
  destruct (apply_settles to_string fake_sha (λ _, true) pretty to_string pretty pretty String.compare (λ n, n)
    Some Some (λ _, Some JNull) (λ _, Some JNull) write_report read_report written_read engine the_plan start settled.2 shown)
    as [Hart Hlater]; [exact settled_Ok|reflexivity|exact start_wf|].
  split; [|split].
  - by apply (Hlater settled.2 (run settled.2).1 (run settled.2).2);
      [reflexivity|exact settled_alone|exact (surjective_pairing (run settled.2))].
  - apply negb_true_iff. evaluates.
  - intros id a [Ha|(b & [= <-] & Hb)]%Hart; [|exact Hb]. discriminate Ha.
Defined.
End ReparseWitness.
