(* ===== verification/ParserMigration.v ===== *)
(** * Moving a tenant's archives to one parser ([parser_migration.rs])

    A plan classifies every export of a tenant, in the order of the archives;
    an application replays the eligible ones one by one ([Reparse.apply]),
    keeps the outcome of each, whatever it was, and stores one report under
    the operator's operation, which later applications answer. *)

From S2P Require Import Prelude BTree Disk BlobStore Archive Registry Json Parser Digest Principals Postgres.
From S2P Require Import OutboxTable BlobProtocol ArchiveTables NormalizedStore ArchiveEvents ContractProjection Reparse.

#[local] Open Scope result_scope.

(** [ParserMigrationEntryStatus]. *)
Inductive entry_status : Set :=
| Eligible | AlreadyCurrent | Unsupported | RawMissing | PrivacyBlocked | FailedInspection
| EntryApplied | EntryUnchanged | EntryFailed.

#[global] Instance entry_status_eq_dec : EqDecision entry_status.
Proof. solve_decision. Defined.

Definition status_key (s : entry_status) : string :=
  match s with
  | Eligible => "eligible"
  | AlreadyCurrent => "already_current"
  | Unsupported => "unsupported"
  | RawMissing => "raw_missing"
  | PrivacyBlocked => "privacy_blocked"
  | FailedInspection => "failed_inspection"
  | EntryApplied => "applied"
  | EntryUnchanged => "unchanged"
  | EntryFailed => "failed"
  end.

(** [ParserMigrationEntry], [ParserMigrationStatus], [ParserMigrationReport]. *)
Record migration_entry : Set := MigrationEntry {
  me_archive_id : uuid;
  me_status : entry_status;
}.

#[global] Instance migration_entry_eq_dec : EqDecision migration_entry.
Proof. solve_decision. Defined.

Inductive migration_status : Set := Planned | MigrationCompleted | MigrationPartial.

#[global] Instance migration_status_eq_dec : EqDecision migration_status.
Proof. solve_decision. Defined.

Record migration_report : Set := MigrationReport {
  mr_operation_id : uuid;
  mr_tenant_id : uuid;
  mr_target_parser : parser_id;
  mr_status : migration_status;
  mr_entries : list migration_entry;
  mr_totals : list (string * N);
}.

#[global] Instance migration_report_eq_dec : EqDecision migration_report.
Proof. solve_decision. Defined.

(** [*totals.entry(key).or_insert(0) += 1] for each entry. *)
Definition count_entry (totals : list (string * N)) (e : migration_entry) : list (string * N) :=
  bt_upd (status_key (me_status e)) (λ n, (default 0 n + 1)%N) totals.

Definition totals (entries : list migration_entry) : list (string * N) := foldl count_entry [] entries.

Definition sort_entries_by_archive (entries : list migration_entry) : list migration_entry :=
  sort_by (cmp_on me_archive_id) entries.

Definition planned_report (operation_id tenant_id : uuid) (target : parser_id) (entries : list migration_entry)
    : migration_report :=
  let entries := sort_entries_by_archive entries in
  MigrationReport operation_id tenant_id target Planned entries (totals entries).

Definition finished_report (operation_id tenant_id : uuid) (target : parser_id) (entries : list migration_entry)
    : migration_report :=
  let entries := sort_entries_by_archive entries in
  let status := if existsb (λ e, bool_decide (me_status e = EntryFailed)) entries
                then MigrationPartial else MigrationCompleted in
  MigrationReport operation_id tenant_id target status entries (totals entries).

(** The stored spelling of a report's status. *)
Definition status_column (s : migration_status) : string :=
  match s with MigrationPartial => "partial" | MigrationCompleted => "completed" | Planned => "planned" end.

Record migration_plan : Type := MigrationPlan {
  mp_report : migration_report;
  mp_eligible : list (uuid * reparse_plan);
}.

Inductive migration_error : Set := MStore | MEncode.

(** What a planning failure of one archive is reported as. *)
Definition refusal_status (e : reparse_error) : entry_status :=
  match e with
  | RpBlob _ => RawMissing
  | RpIntake _ | RpParser _ => FailedInspection
  | _ => Unsupported
  end.

(** The archive's records did not change. *)
Definition kept_as_read (c : reparse_change) : bool :=
  match rc_kind c with Reparse.Unchanged | ProposedRemoval => true | _ => false end.

(** What a replay's outcome is reported as. *)
Definition outcome_status (r : result reparse_error reparse_report) : entry_status :=
  match r with
  | Ok report => if forallb kept_as_read (rpt_changes report) then EntryUnchanged else EntryApplied
  | Err _ => EntryFailed
  end.

Section engine.
Context {wire ref : Type} `{Contracts wire ref}.
Context (to_string : json → string) (sha256_hex : string → string) (media_type_ok : string → bool).
Context (cp437 : ascii → string) (zip_at : gmap string node → string → zip_source).
Context (read_to_end : zip_entry → option string).
Context (new_uuid : N → uuid) (render : json → string) (pg_render render_instant : N → string).
Context (collate : string → string → comparison) (to_timestamp : N → N).
Context {V R : Type} (decode_ref : V → option blob_ref) (encode_ref : blob_ref → option V).
Context (encode_project : project_version → option json).
Context (encode_conversation : conversation_version → option json).
Context (encode_report : reparse_report → option json) (decode_report : json → option reparse_report).
(** The derived [Serialize] and [Deserialize] of the migration report. *)
Context (encode_migration : migration_report → option json) (decode_migration : json → option migration_report).
Context {X : Type} (executor : X → parser_execution_input → list string →
  sm disk parser_execution_error parsed_conversations).

#[local] Abbreviation atables := (atables V R).
#[local] Abbreviation tx := (sm (world atables) migration_error).
#[local] Abbreviation replan :=
  (Reparse.plan to_string sha256_hex cp437 zip_at read_to_end (R := R) decode_ref executor).
#[local] Abbreviation replay_plan :=
  (Reparse.apply to_string sha256_hex media_type_ok new_uuid render pg_render render_instant collate to_timestamp
     (R := R) decode_ref encode_ref encode_project encode_conversation encode_report decode_report).

Definition migration_query {A} (f : atables → A) : tx A := smap_err (λ _, MStore) (auto (reading f)).

(** The tenant's archives in order, with the parser that last read each. *)
Definition tenant_exports (tenant_id : uuid) (t : atables) : list (uuid * string) :=
  (λ r : uuid * archive_export V, (xp_ai_archive_id r.2, current_parser r.1 t)) <$>
    sort_by (cmp_on (λ r : uuid * archive_export V, xp_ai_archive_id r.2))
      (filter (λ r : uuid * archive_export V, xp_account_id r.2 = tenant_id) (rows_by_key (ev_exports (at_evidence t)))).

(** One round of the loop in [plan]. *)
Definition classify_row (e : reparse_engine X) (tenant_id : uuid) (target : parser_id) (privacy_blocked : bool)
    (row : uuid * string) : tx (entry_status * option reparse_plan) :=
  if privacy_blocked then sret (PrivacyBlocked, None)
  else if String.eqb row.2 (spelled_parser target) then sret (AlreadyCurrent, None)
  else
    let! planned := stry (replan e tenant_id row.1 target) in
    sret (match planned with
          | Ok plan => (Eligible, Some plan)
          | Err error => (refusal_status error, None)
          end).

Fixpoint classify_rows (e : reparse_engine X) (tenant_id : uuid) (target : parser_id) (privacy_blocked : bool)
    (rows : list (uuid * string)) (eligible : list (uuid * reparse_plan))
    : tx (list migration_entry * list (uuid * reparse_plan)) :=
  match rows with
  | [] => sret ([], eligible)
  | row :: rows =>
      let! (status, plan) := classify_row e tenant_id target privacy_blocked row in
      let eligible := match plan with Some plan => bt_insert row.1 plan eligible | None => eligible end in
      let! (entries, eligible) := classify_rows e tenant_id target privacy_blocked rows eligible in
      sret (MigrationEntry row.1 status :: entries, eligible)
  end.

Definition migration_plan_for (e : reparse_engine X) (operation_id tenant_id : uuid) (target : parser_id)
    : tx migration_plan :=
  let! privacy_blocked := migration_query (blocked tenant_id) in
  let! rows := migration_query (tenant_exports tenant_id) in
  let! (entries, eligible) := classify_rows e tenant_id target privacy_blocked rows [] in
  sret (MigrationPlan (planned_report operation_id tenant_id target entries) eligible).

(** One round of the loop in [apply]. *)
Definition apply_archive (e : reparse_engine X) (eligible : list (uuid * reparse_plan)) (entry : migration_entry)
    : tx migration_entry :=
  if bool_decide (me_status entry = Eligible) then
    match bt_get (me_archive_id entry) eligible with
    | None => sret (MigrationEntry (me_archive_id entry) EntryFailed)
    | Some plan =>
        let! outcome := stry (replay_plan e plan) in
        sret (MigrationEntry (me_archive_id entry) (outcome_status outcome))
    end
  else sret entry.

Fixpoint apply_archives (e : reparse_engine X) (eligible : list (uuid * reparse_plan)) (entries : list migration_entry)
    : tx (list migration_entry) :=
  match entries with
  | [] => sret []
  | entry :: entries =>
      let! entry := apply_archive e eligible entry in
      let! entries := apply_archives e eligible entries in
      sret (entry :: entries)
  end.

(** [ON CONFLICT (tenant_id, operation_key) DO NOTHING]. *)
Definition insert_migration (report : migration_report) (encoded : json) : atables → result sql_error (unit * atables) :=
  write (on_evidence (on_migrations (λ rows,
    match rows !! (mr_tenant_id report, mr_operation_id report) with
    | Some _ => rows
    | None => <[(mr_tenant_id report, mr_operation_id report) :=
        MigrationRow (pi_name (mr_target_parser report)) (pi_version (mr_target_parser report))
          (status_column (mr_status report)) encoded]> rows
    end))).

Definition stored_migration (tenant_id operation_id : uuid) (t : atables) : option json :=
  mg_report <$> ev_migrations (at_evidence t) !! (tenant_id, operation_id).

Definition decoded_migration (stored : option json) : result migration_error (option migration_report) :=
  match stored with
  | None => Ok None
  | Some v => let? report := ok_or MEncode (decode_migration v) in Ok (Some report)
  end.

Definition prior_migration (tenant_id operation_id : uuid) : tx (option migration_report) :=
  let! stored := migration_query (stored_migration tenant_id operation_id) in slift (decoded_migration stored).

Definition migration_apply (e : reparse_engine X) (plan : migration_plan) : tx migration_report :=
  let report := mp_report plan in
  let! prior := prior_migration (mr_tenant_id report) (mr_operation_id report) in
  match prior with
  | Some known => sret known
  | None =>
      let! entries := apply_archives e (mp_eligible plan) (mr_entries report) in
      let report := finished_report (mr_operation_id report) (mr_tenant_id report) (mr_target_parser report) entries in
      let! _ := mint in
      let! encoded := slift (ok_or MEncode (encode_migration report)) in
      let! _ := smap_err (λ _, MStore) (auto (insert_migration report encoded)) in
      let! stored := prior_migration (mr_tenant_id report) (mr_operation_id report) in
      slift (ok_or MStore stored)
  end.
End engine.

(** ** Laws of the report *)

(** How many entries have a status. *)
Definition entries_with (s : entry_status) (entries : list migration_entry) : nat :=
  length (filter (λ e, me_status e = s) entries).

Lemma status_key_inj s s' : status_key s = status_key s' → s = s'.
Proof. by destruct s, s'. Qed.

Lemma totals_snoc entries e : totals (entries ++ [e]) = count_entry (totals entries) e.
Proof. unfold totals. by rewrite foldl_app. Qed.

Lemma totals_wf entries : bt_wf (totals entries).
Proof.
  induction entries as [|e entries IH] using rev_ind; [constructor|]. rewrite totals_snoc. by apply bt_upd_wf.
Qed.

Lemma entries_with_snoc s entries e :
  entries_with s (entries ++ [e]) = entries_with s entries + (if bool_decide (me_status e = s) then 1 else 0).
Proof.
  unfold entries_with. rewrite filter_app, length_app, filter_cons, filter_nil.
  case_decide; case_bool_decide; done.
Qed.

(** Each status is counted, and nothing else is. *)
Lemma totals_count entries s :
  bt_get (status_key s) (totals entries) =
  (if bool_decide (entries_with s entries = 0) then None else Some (N.of_nat (entries_with s entries))).
Proof.
  induction entries as [|e entries IH] using rev_ind; [done|].
  rewrite totals_snoc, entries_with_snoc. unfold count_entry. rewrite (bt_get_upd (K := string) _ _ _ _ (totals_wf _)).
  destruct (decide (status_key (me_status e) = status_key s)) as [Es|Es].
  - apply status_key_inj in Es as <-. rewrite IH, (bool_decide_eq_true_2 (me_status e = _)) by done.
    rewrite (bool_decide_eq_false_2 (_ + 1 = 0)) by lia. case_bool_decide; cbn; f_equal; lia.
  - rewrite (bool_decide_eq_false_2 (me_status e = s)) by congruence. by rewrite Nat.add_0_r.
Qed.

Lemma totals_keys entries k : is_Some (bt_get k (totals entries)) → ∃ e, e ∈ entries ∧ k = status_key (me_status e).
Proof.
  induction entries as [|e entries IH] using rev_ind; [by intros [? [=]]|].
  rewrite totals_snoc. unfold count_entry. rewrite (bt_get_upd (K := string) _ _ _ _ (totals_wf _)).
  case_decide as E; [intros _; exists e; set_solver|]. intros (e' & ? & ?)%IH. exists e'. set_solver.
Qed.

(** What a finished report says of the entries it was given. *)
Definition tells (entries : list migration_entry) (report : migration_report) : Prop :=
  mr_entries report ≡ₚ entries ∧
  StronglySorted (λ a b, cmp (me_archive_id a) (me_archive_id b) ≠ Gt) (mr_entries report) ∧
  (mr_status report = MigrationPartial ↔ ∃ e, e ∈ entries ∧ me_status e = EntryFailed) ∧
  (∀ s, bt_get (status_key s) (mr_totals report) =
     (if bool_decide (entries_with s entries = 0) then None else Some (N.of_nat (entries_with s entries)))) ∧
  (∀ k, is_Some (bt_get k (mr_totals report)) → ∃ e, e ∈ entries ∧ k = status_key (me_status e)).

#[export] Instance entries_with_perm s : Proper ((≡ₚ) ==> eq) (entries_with s).
Proof. intros l k Hlk. unfold entries_with. by rewrite Hlk. Qed.

Lemma finished_tells operation_id tenant_id target entries :
  tells entries (finished_report operation_id tenant_id target entries).
Proof.
  pose proof (sort_by_perm (cmp_on me_archive_id) entries) as Hp. unfold finished_report, sort_entries_by_archive.
  split_and!; cbn [mr_entries mr_status mr_totals].
  - done.
  - apply sort_by_sorted.
  - destruct (existsb _ _) eqn:E.
    + apply existsb_exists in E as (e & Hin%list_elem_of_In & He%bool_decide_eq_true).
      rewrite elem_of_sort_by in Hin. split; [by exists e|done].
    + split; [done|]. intros (e & Hin & He). apply existsb_false in E. eapply Forall_forall in E; [|by apply elem_of_sort_by].
      by apply bool_decide_eq_false in E.
  - intros s. by rewrite totals_count, (entries_with_perm s _ _ Hp).
  - intros k (e & He & ->)%totals_keys. rewrite elem_of_sort_by in He. by exists e.
Qed.

(** ** Laws of the application *)

Section laws.
Context {wire ref : Type} `{Contracts wire ref}.
Context (to_string : json → string) (sha256_hex : string → string) (media_type_ok : string → bool).
Context (new_uuid : N → uuid) (render : json → string) (pg_render render_instant : N → string).
Context (collate : string → string → comparison) (to_timestamp : N → N).
Context {V R : Type} (decode_ref : V → option blob_ref) (encode_ref : blob_ref → option V).
Context (encode_project : project_version → option json).
Context (encode_conversation : conversation_version → option json).
Context (encode_report : reparse_report → option json) (decode_report : json → option reparse_report).
Context (encode_migration : migration_report → option json) (decode_migration : json → option migration_report).
Context {X : Type}.

#[local] Abbreviation atables := (atables V R).
#[local] Abbreviation migration_apply :=
  (migration_apply to_string sha256_hex media_type_ok new_uuid render pg_render render_instant collate to_timestamp
     (V := V) (R := R) decode_ref encode_ref encode_project encode_conversation encode_report decode_report
     encode_migration decode_migration (X := X)).
#[local] Abbreviation apply_archive :=
  (apply_archive to_string sha256_hex media_type_ok new_uuid render pg_render render_instant collate to_timestamp
     (V := V) (R := R) decode_ref encode_ref encode_project encode_conversation encode_report decode_report (X := X)).
#[local] Abbreviation apply_archives :=
  (apply_archives to_string sha256_hex media_type_ok new_uuid render pg_render render_instant collate to_timestamp
     (V := V) (R := R) decode_ref encode_ref encode_project encode_conversation encode_report decode_report (X := X)).

(** Replays stay on record, and the migration reports are as they were. *)
Definition replays_kept (x y : snap atables) : Prop :=
  ev_reparse_runs (at_evidence x.2) ⊆ ev_reparse_runs (at_evidence y.2) ∧
  ev_migrations (at_evidence y.2) = ev_migrations (at_evidence x.2).

#[export] Instance replays_kept_preorder : PreOrder replays_kept.
Proof. split; [by split|]. intros a b c [? ?] [? ?]. split; [by etrans|congruence]. Qed.

Lemma retention_replays s plan x y :
  retention sha256_hex encode_ref encode_report s plan x y → replays_kept x y.
Proof. intros [_ Hr]. split; [exact (ry_runs _ _ _ _ Hr)|]. by rewrite (ry_rest _ _ _ _ Hr). Qed.

Lemma apply_archive_keeps (e : reparse_engine X) eligible entry :
  stable (respects replays_kept) (apply_archive e eligible entry).
Proof.
  unfold ParserMigration.apply_archive. case_bool_decide; [|apply stable_ret, _]. case_match; [|apply stable_ret, _].
  apply stable_bind; [apply _| |intros; apply stable_ret, _].
  apply stable_try. eapply apply_along; [apply _|]. apply retention_replays.
Qed.

Lemma apply_archives_keeps (e : reparse_engine X) eligible entries :
  stable (respects replays_kept) (apply_archives e eligible entries).
Proof.
  induction entries as [|entry entries IH]; [apply stable_ret, _|].
  apply stable_bind; [apply _|apply apply_archive_keeps|intros after].
  apply stable_bind; [apply _|exact IH|intros; apply stable_ret, _].
Qed.

Lemma run_known_kept plan (t t' : atables) :
  ev_reparse_runs (at_evidence t) ⊆ ev_reparse_runs (at_evidence t') → run_known plan t → run_known plan t'.
Proof. intros Hr (id & r & Hid & Hrest). exists id, r. split; [|done]. by eapply lookup_weaken. Qed.

(** What became of an entry: the others are kept, an eligible one failed or
    has its replay on record. *)
Definition settled_as (eligible : list (uuid * reparse_plan)) (t : atables) (before after : migration_entry) : Prop :=
  me_archive_id after = me_archive_id before ∧
  (me_status before ≠ Eligible → me_status after = me_status before) ∧
  (me_status before = Eligible →
     me_status after = EntryFailed ∨
     (me_status after = EntryApplied ∨ me_status after = EntryUnchanged) ∧
     ∃ plan, bt_get (me_archive_id before) eligible = Some plan ∧ run_known plan t).

Lemma settled_as_kept eligible (t t' : atables) before after :
  ev_reparse_runs (at_evidence t) ⊆ ev_reparse_runs (at_evidence t') →
  settled_as eligible t before after → settled_as eligible t' before after.
Proof.
  intros Hk (Hid & Hn & He). split; [done|]. split; [done|]. intros [?|(? & plan & ? & ?)]%He; [by left|right].
  split; [done|]. exists plan. split; [done|]. by eapply run_known_kept.
Qed.

Context (encode_decode : ∀ report v, encode_report report = Some v → decode_report v = Some report).

Lemma apply_archive_settles (e : reparse_engine X) eligible entry w after w' :
  apply_archive e eligible entry w = (Ok after, w') → settled_as eligible (w_tables w') entry after.
Proof.
  unfold ParserMigration.apply_archive. case_bool_decide as Hs.
  - destruct (bt_get _ _) as [plan|] eqn:Hp.
    + intros (outcome & w1 & Hrun & [= <- <-])%sbind_Ok_inv. split; [done|]. split; [done|]. intros _.
      unfold stry in Hrun. destruct (Reparse.apply _ _ _ _ _ _ _ _ _ _ _ _ _ _ _ e plan w) as [x v] eqn:E.
      injection Hrun as <- <-. destruct x as [report|err]; [right|by left]. cbn. split; [by case_match; auto|].
      exists plan. split; [done|]. by eapply apply_run_known.
    + intros [= <- <-]. split; [done|]. split; [done|]. by left.
  - intros [= <- <-]. by split_and!.
Qed.

Lemma apply_archives_settle (e : reparse_engine X) eligible entries : ∀ w after w',
  apply_archives e eligible entries w = (Ok after, w') → others_ok replays_kept w →
  Forall2 (settled_as eligible (w_tables w')) entries after.
Proof.
  induction entries as [|entry entries IH]; cbn [ParserMigration.apply_archives]; intros w after w' Hrun Ho.
  { injection Hrun as <- <-. constructor. }
  apply sbind_Ok_inv in Hrun as (one & w1 & H1 & Hrun). apply sbind_Ok_inv in Hrun as (rest & w2 & H2 & [= <- <-]).
  destruct (apply_archive_keeps _ _ _ _ _ _ H1 Ho) as [Ho1 _].
  destruct (apply_archives_keeps _ _ _ _ _ _ H2 Ho1) as [_ [Hk _]]. constructor; [|by eapply IH].
  eapply (settled_as_kept _ _ _ _ _ Hk). by eapply apply_archive_settles.
Qed.

(** *** The stored report *)

Lemma migration_query_Ok {A} (f : atables → A) w a w' :
  migration_query f w = (Ok a, w') → a = f (w_tables w') ∧ w_tables w' = w_tables (interfere w).
Proof. intros [= <- Ht]%smap_err_Ok_inv%auto_Ok_inv. by rewrite <-Ht. Qed.

Lemma prior_migration_Ok tenant_id operation_id w answer w' :
  prior_migration decode_migration tenant_id operation_id w = (Ok answer, w') →
  decoded_migration decode_migration (stored_migration (V := V) (R := R) tenant_id operation_id (w_tables w')) = Ok answer ∧
  w_tables w' = w_tables (interfere w).
Proof. intros (stored & w1 & [-> Ht]%migration_query_Ok & [= <- <-])%sbind_Ok_inv. by rewrite Ht. Qed.

Lemma prior_migration_keeps tenant_id operation_id :
  stable (respects replays_kept) (prior_migration (V := V) (R := R) decode_migration tenant_id operation_id).
Proof.
  apply stable_bind; [apply _| |intros; apply stable_lift, _]. apply stable_map_err, stable_auto; [apply _|].
  by intros ns t a t' [= _ <-].
Qed.

Context (encode_decode_migration : ∀ report v, encode_migration report = Some v → decode_migration v = Some report).

Lemma auto_others {A} (op : atables → result sql_error (A * atables)) w r w' :
  auto op w = (r, w') → w_others w' = w_others (interfere w).
Proof. unfold auto. set (v := interfere w). destruct (next_fault v), (op (w_tables v)) as [[a t]|e]; by intros [= _ <-]. Qed.

(** Storing a report nobody else stores, and reading it back. *)
Lemma store_migration_Ok (report answer : migration_report) w w' :
  (let! encoded := slift (ok_or MEncode (encode_migration report)) in
   let! _ := smap_err (λ _, MStore) (auto (insert_migration report encoded)) in
   let! stored := prior_migration (V := V) (R := R) decode_migration (mr_tenant_id report) (mr_operation_id report) in
   slift (ok_or MStore stored)) w = (Ok answer, w') →
  others_ok replays_kept w → stored_migration (mr_tenant_id report) (mr_operation_id report) (w_tables w) = None →
  answer = report ∧ ev_reparse_runs (at_evidence (w_tables w)) ⊆ ev_reparse_runs (at_evidence (w_tables w')) ∧
  decoded_migration decode_migration
    (stored_migration (mr_tenant_id report) (mr_operation_id report) (w_tables w')) = Ok (Some report).
Proof.
  intros Hrun Ho Hnone. apply sbind_Ok_inv in Hrun as (encoded & w1 & [Henc ->]%slift_ok_or_Ok & Hrun).
  apply sbind_Ok_inv in Hrun as ([] & w2 & H2%smap_err_Ok_inv & Hrun).
  pose proof (auto_others _ _ _ _ H2) as Ho2. apply auto_Ok_inv in H2.
  unfold insert_migration, write, writing in H2. case_match; [|done]. injection H2 as H2.
  destruct (interfere_respects replays_kept w Ho) as [Hov [Hrv Hmv]]. set (v := interfere w) in *. cbn in Hrv, Hmv.
  apply sbind_Ok_inv in Hrun as (stored & w3 & H3 & [-> ->]%slift_ok_or_Ok).
  assert (Ho2' : others_ok replays_kept w2) by (unfold others_ok; by rewrite Ho2).
  destruct (prior_migration_keeps _ _ _ _ _ H3 Ho2') as [_ [Hr3 Hm3]]. apply prior_migration_Ok in H3 as [H3 _].
  cbn in Hr3, Hm3.
  assert (Ha : answer = report); [|subst answer; split_and!; [done| |exact H3]].
  - unfold stored_migration in H3, Hnone. rewrite Hm3, <-H2 in H3. cbn in H3. rewrite Hmv in H3.
    apply fmap_None in Hnone. rewrite Hnone in H3. rewrite lookup_insert_eq in H3. cbn in H3.
    rewrite (encode_decode_migration _ _ Henc) in H3. by injection H3.
  - etrans; [exact Hrv|]. etrans; [|exact Hr3]. by rewrite <-H2.
Qed.


(** The stored report is what a later application reads first. *)
Lemma answered_is_stored (e : reparse_engine X) plan w report w' :
  migration_apply e plan w = (Ok report, w') →
  decoded_migration decode_migration
    (stored_migration (mr_tenant_id (mp_report plan)) (mr_operation_id (mp_report plan)) (w_tables w')) =
    Ok (Some report).
Proof.
  intros (known & w1 & H1 & Hrun)%sbind_Ok_inv. destruct known as [known|].
  { injection Hrun as <- <-. by apply prior_migration_Ok in H1 as [? _]. }
  apply sbind_Ok_inv in Hrun as (entries & w2 & _ & Hrun). apply sbind_Ok_inv in Hrun as (n & w3 & _ & Hrun).
  apply sbind_Ok_inv in Hrun as (encoded & w4 & _ & Hrun). apply sbind_Ok_inv in Hrun as ([] & w5 & _ & Hrun).
  apply sbind_Ok_inv in Hrun as (stored & w6 & H6 & [-> ->]%slift_ok_or_Ok). by apply prior_migration_Ok in H6 as [? _].
Qed.

(** An operation is answered once.  After an application of an operation was
    answered, every later application of that operation, whatever plan it
    brings and whatever others do that keeps the stored report, gives the same
    report or a database error, and itself changes nothing: no replay is run
    again. *)
Theorem migration_settles (e e' : reparse_engine X) (plan again : migration_plan) (w w' later later' : world atables)
    (report : migration_report) (r : result migration_error migration_report) :
  migration_apply e plan w = (Ok report, w') →
  mr_tenant_id (mp_report again) = mr_tenant_id (mp_report plan) →
  mr_operation_id (mp_report again) = mr_operation_id (mp_report plan) →
  ev_migrations (at_evidence (w_tables w')) ⊆ ev_migrations (at_evidence (w_tables (interfere later))) →
  migration_apply e' again later = (r, later') →
  (r = Ok report ∨ r = Err MStore) ∧ w_snap later' = w_snap (interfere later).
Proof.
  intros Hstored%answered_is_stored Ht Hop Hsub Hagain. rewrite <-Ht, <-Hop in Hstored.
  assert (Hstill : decoded_migration decode_migration (stored_migration (mr_tenant_id (mp_report again))
    (mr_operation_id (mp_report again)) (w_tables (interfere later))) = Ok (Some report)).
  { unfold stored_migration in *. destruct (_ !! _) as [row|] eqn:E in Hstored; [|done].
    by rewrite (lookup_weaken _ _ _ _ E Hsub). }
  unfold ParserMigration.migration_apply, prior_migration, migration_query, sbind, smap_err, auto, reading in Hagain.
  destruct (next_fault (interfere later)); cbn in Hagain; [|injection Hagain as <- <-; by split; [right|]..].
  rewrite Hstill in Hagain. injection Hagain as <- <-. by split; [left|].
Qed.
End laws.

(** ** Laws of the plan *)

Section plan_laws.
Context (to_string : json → string) (sha256_hex : string → string).
Context (cp437 : ascii → string) (zip_at : gmap string node → string → zip_source).
Context (read_to_end : zip_entry → option string).
Context {V R : Type} (decode_ref : V → option blob_ref).
Context {X : Type} (executor : X → parser_execution_input → list string →
  sm disk parser_execution_error parsed_conversations).

#[local] Abbreviation atables := (atables V R).
#[local] Abbreviation classify_row :=
  (classify_row to_string sha256_hex cp437 zip_at read_to_end (R := R) decode_ref executor).
#[local] Abbreviation classify_rows :=
  (classify_rows to_string sha256_hex cp437 zip_at read_to_end (R := R) decode_ref executor).
#[local] Abbreviation migration_plan_for :=
  (migration_plan_for to_string sha256_hex cp437 zip_at read_to_end (R := R) decode_ref executor).

(** The class of one archive. *)
Definition class_of (privacy_blocked : bool) (target : parser_id) (row : uuid * string) (s : entry_status) : Prop :=
  if privacy_blocked then s = PrivacyBlocked
  else if bool_decide (row.2 = spelled_parser target) then s = AlreadyCurrent
  else s ∈ [Eligible; Unsupported; RawMissing; FailedInspection].

Definition eligible_in (entries : list migration_entry) (id : uuid) : Prop :=
  ∃ entry, entry ∈ entries ∧ me_archive_id entry = id ∧ me_status entry = Eligible.

Lemma eligible_in_cons entry entries id :
  eligible_in (entry :: entries) id ↔ (me_archive_id entry = id ∧ me_status entry = Eligible) ∨ eligible_in entries id.
Proof. unfold eligible_in. setoid_rewrite elem_of_cons. naive_solver. Qed.

Lemma classify_row_reads_rows (e : reparse_engine X) tenant_id target privacy_blocked row :
  stable reads_rows (classify_row e tenant_id target privacy_blocked row).
Proof.
  unfold ParserMigration.classify_row. case_match; [apply stable_ret, _|]. case_match; [apply stable_ret, _|].
  apply stable_bind; [apply _|apply stable_try, plan_reads_rows|intros; apply stable_ret, _].
Qed.

Lemma classify_row_Ok (e : reparse_engine X) tenant_id target privacy_blocked row w status plan w' :
  classify_row e tenant_id target privacy_blocked row w = (Ok (status, plan), w') →
  class_of privacy_blocked target row status ∧ (is_Some plan ↔ status = Eligible).
Proof.
  unfold ParserMigration.classify_row, class_of. destruct privacy_blocked.
  { intros [= <- <- _]. split; [done|]. by split; [intros [? [=]]|]. }
  destruct (String.eqb_spec row.2 (spelled_parser target)) as [E|E].
  { rewrite bool_decide_eq_true_2 by done. intros [= <- <- _]. split; [done|]. by split; [intros [? [=]]|]. }
  rewrite bool_decide_eq_false_2 by done. intros (planned & w1 & _ & Hret)%sbind_Ok_inv.
  destruct planned as [p|err]; injection Hret as <- <- _.
  - split; [set_solver|]. by split; [|eexists].
  - split; [destruct err; cbn; set_solver|]. split; [by intros [? [=]]|by destruct err].
Qed.

Lemma classify_rows_Ok (e : reparse_engine X) tenant_id target privacy_blocked rows : ∀ eligible w entries eligible' w',
  classify_rows e tenant_id target privacy_blocked rows eligible w = (Ok (entries, eligible'), w') → bt_wf eligible →
  Forall2 (λ row entry, me_archive_id entry = row.1 ∧ class_of privacy_blocked target row (me_status entry)) rows entries ∧
  bt_wf eligible' ∧ ∀ id, is_Some (bt_get id eligible') ↔ eligible_in entries id ∨ is_Some (bt_get id eligible).
Proof.
  induction rows as [|row rows IH]; intros eligible w entries eligible' w' Hrun Hwf.
  { injection Hrun as <- <- _. split; [constructor|]. split; [done|]. intros id. split; [auto|]. by intros [(? & ?%elem_of_nil & _)|?]. }
  apply sbind_Ok_inv in Hrun as ([status plan] & w1 & [Hc Hp]%classify_row_Ok & Hrun).
  apply sbind_Ok_inv in Hrun as ([entries1 eligible1] & w2 & H2 & [= <- <- _]).
  apply IH in H2 as (Hall & Hwf' & Hel); [|case_match; [by apply bt_insert_wf|done]].
  split; [by constructor|]. split; [done|]. intros id. rewrite Hel, eligible_in_cons. cbn [me_archive_id me_status].
  destruct plan as [plan|].
  - assert (status = Eligible) as -> by (by apply Hp; eexists). unfold bt_insert. rewrite (bt_get_upd (K := string) _ _ _ _ Hwf).
    case_decide as Ed; [|naive_solver]. subst. split; [intros _; by left; left|intros _; right; by eexists].
  - assert (status ≠ Eligible) by (intros Es; by apply Hp in Es as [? [=]]). naive_solver.
Qed.

Lemma classify_rows_reads_rows (e : reparse_engine X) tenant_id target privacy_blocked rows : ∀ eligible,
  stable reads_rows (classify_rows e tenant_id target privacy_blocked rows eligible).
Proof.
  induction rows as [|row rows IH]; intros eligible; [apply stable_ret, _|].
  apply stable_bind; [apply _|apply classify_row_reads_rows|intros [status plan]].
  apply stable_bind; [apply _|apply IH|intros [entries el]; apply stable_ret, _].
Qed.

End plan_laws.

(** ** Closed examples *)

Module MigrationWitness.
Import ReparseWitness.
#[local] Existing Instance ContractsWitness.contracts.

Definition operation : uuid := "op".
Definition entries : list migration_entry := [MigrationEntry "a2" RawMissing; MigrationEntry "a1" Eligible].
Definition batch : migration_plan := MigrationPlan (planned_report operation "tenant" target entries) [("a1", the_plan)].

(** One report is written and read. *)
Definition kept_report : migration_report :=
  finished_report operation "tenant" target [MigrationEntry "a1" EntryApplied; MigrationEntry "a2" RawMissing].
Definition write_migration (r : migration_report) : option json :=
  if bool_decide (r = kept_report) then Some (JString "migration") else None.
Definition read_migration (_ : json) : option migration_report := Some kept_report.

Lemma migration_read_back report v : write_migration report = Some v → read_migration v = Some report.
Proof. unfold write_migration. case_bool_decide; [by subst|done]. Qed.

Definition migrate : migration_plan → world (atables blob_ref unit) →
    result migration_error migration_report * world (atables blob_ref unit) :=
  migration_apply to_string fake_sha (λ _, true) pretty to_string pretty pretty String.compare (λ n, n)
    Some Some (λ _, Some JNull) (λ _, Some JNull) write_report read_report write_migration read_migration engine.

Definition migrated := migrate batch start.
Definition answered : migration_report := value_or kept_report migrated.1.

Lemma migrated_Ok : migrate batch start = (Ok answered, migrated.2).
Proof. apply ran. evaluates. Qed.


(** Another plan for the same operation. *)
Definition nothing_to_do : migration_plan := MigrationPlan (planned_report operation "tenant" target []) [].

Lemma migration_settles_witness :
  (migrate nothing_to_do migrated.2).1 = Ok answered ∨ (migrate nothing_to_do migrated.2).1 = Err MStore.
Proof.
  apply (migration_settles to_string fake_sha (λ _, true) pretty to_string pretty pretty String.compare (λ n, n)
    Some Some (λ _, Some JNull) (λ _, Some JNull) write_report read_report write_migration read_migration
    engine engine batch nothing_to_do start migrated.2 migrated.2 (migrate nothing_to_do migrated.2).2 answered).
  - exact migrated_Ok.
  - reflexivity.
  - reflexivity.
  - unfold interfere. case_match eqn:Eo; [reflexivity|]. exfalso.
    assert (Ha : match w_others migrated.2 with [] => true | _ => false end = true) by evaluates. by rewrite Eo in Ha.
  - exact (surjective_pairing _).
Defined.

Definition planning := migration_plan_for to_string fake_sha (λ _, "?") (λ _ _, NotAnArchive) (λ _, None)
  (R := unit) Some (λ (_ : unit) _ _, sfail Storage) engine operation "tenant" target start.
Definition planned_batch : migration_plan := value_or batch planning.1.

End MigrationWitness.
