(* ===== verification/InitialImport.v ===== *)
(** * The initial import ([initial_import.rs], [receipt/report.rs])

    The worker that parses a received archive, writes its records, queues its
    facts and tells the Platform how each bound operation ended.  One pass
    settles one import run, or the reports a settled run still owes. *)

From S2P Require Import Prelude BTree Disk BlobStore Archive Registry Json Parser Digest Principals Postgres.
From S2P Require Import OutboxTable BlobProtocol ArchiveTables NormalizedStore ArchiveEvents ContractProjection Reparse.

#[local] Open Scope result_scope.

(** ** Reports for the Platform ([receipt/report.rs]) *)

Definition FACTS_TOO_LARGE_WARNING_CODE : string := "ai_archive.facts.too_large".
Definition FACTS_TOO_LARGE_WARNING_MESSAGE : string := "Some conversations are too large to add to the library.".

(** [AiArchiveCompleteness]: the two classes an import knows. *)
Inductive import_completeness : Set := Complete | StructurallyPartial.

#[global] Instance import_completeness_eq_dec : EqDecision import_completeness.
Proof. solve_decision. Defined.

Record import_summary : Set := ImportSummary {
  is_completeness : import_completeness;
  is_conversation_count : N;
  is_message_count : N;
  is_asset_count : N;
  is_gap_count : N;
  is_warning_count : N;
  is_facts_too_large : N;
}.

#[global] Instance import_summary_eq_dec : EqDecision import_summary.
Proof. solve_decision. Defined.

(** The operation contracts crate: its parsers and serializers. *)
Inductive operation_status : Set := Succeeded | PartiallySucceeded | OperationFailed.

#[global] Instance operation_status_eq_dec : EqDecision operation_status.
Proof. solve_decision. Defined.

Record archive_result (ref : Type) : Type := ArchiveResult {
  re_result_kind : string;
  re_target : ref;
  re_ai_archive_id : string;
  re_provider : string;
  re_summary : import_summary;
}.

Record operation_error (ref : Type) : Type := OperationError {
  oe_code : string;
  oe_message : string;
  oe_retryable : bool;
  oe_correlation_id : option ref;
}.

Record operation_reported (ref : Type) : Type := OperationReported {
  or_operation_id : string;
  or_status : operation_status;
  or_results : list (archive_result ref);
  or_error : option (operation_error ref);
  or_warnings : list warning_envelope;
}.

Arguments ArchiveResult {ref} _ _ _ _ _.
Arguments OperationError {ref} _ _ _ _.
Arguments OperationReported {ref} _ _ _ _ _.
Arguments or_operation_id {ref} _.
Arguments or_status {ref} _.
Arguments or_results {ref} _.
Arguments or_error {ref} _.
Arguments or_warnings {ref} _.

(** One named hole of an import: [AiGap]. *)
Record ai_gap : Set := AiGap {
  ga_kind : string;
  ga_detail : string;
  ga_affected_count : option N;
}.

Class OperationContracts (wire ref : Type) : Type := {
  parse_archive_id : uuid → option string;
  parse_operation_id : uuid → option string;
  entity_of_archive : string → ref;
  entity_of_operation : string → ref;
  parse_archive_provider : string → option string;
  parse_result_kind : string → option string;
  parse_error_code : string → option string;
  parse_safe_message : string → option string;
  parse_gap_kind : string → option string;
  incomplete_import_warning : warning_envelope;
  gaps_json : list ai_gap → option json;
  (* reading the envelope's JSON, setting its payload, writing it *)
  report_envelope : uuid → wire → ref → option (event_envelope wire ref);
  set_report : event_envelope wire ref → operation_reported ref → option (event_envelope wire ref);
  stored_envelope_json : event_envelope wire ref → option json;
}.

Section reports.
Context {wire ref : Type} `{OperationContracts wire ref}.

(** [RepositoryError::backend]. *)
#[local] Abbreviation repository A := (result unit A).
#[local] Abbreviation contract o := (ok_or tt o).

Definition facts_too_large_warning : repository warning_envelope :=
  let? code := contract (parse_error_code FACTS_TOO_LARGE_WARNING_CODE) in
  let? message := contract (parse_safe_message FACTS_TOO_LARGE_WARNING_MESSAGE) in
  Ok (WarningEnvelope code message).

Definition is_incomplete (s : import_summary) : bool := negb (bool_decide (is_completeness s = Complete)).

Definition imported (operation_id ai_archive_id : uuid) (summary : import_summary)
    : repository (operation_reported ref) :=
  let? archive := contract (parse_archive_id ai_archive_id) in
  let? operation := contract (parse_operation_id operation_id) in
  let? provider := contract (parse_archive_provider "chatgpt") in
  let? kind := contract (parse_result_kind "ai_archive.import") in
  let incomplete := is_incomplete summary in
  let left_out := (0 <? is_facts_too_large summary)%N in
  let status := if incomplete || left_out then PartiallySucceeded else Succeeded in
  let? too_large := (if left_out then let? w := facts_too_large_warning in Ok [w] else Ok []) in
  let warnings := (if incomplete then [incomplete_import_warning] else []) ++ too_large in
  Ok (OperationReported operation status
        [ArchiveResult kind (entity_of_archive archive) archive provider summary] None warnings).

Definition failed (operation_id : uuid) : repository (operation_reported ref) :=
  let? operation := contract (parse_operation_id operation_id) in
  let? code := contract (parse_error_code "chatgpt.archive.invalid") in
  let? message := contract (parse_safe_message "The ChatGPT archive could not be imported.") in
  Ok (OperationReported operation OperationFailed []
        (Some (OperationError code message false (Some (entity_of_operation operation)))) []).
End reports.

(** ** What an import leaves out, and its counts *)

Section evidence.
Context {wire ref : Type} `{OperationContracts wire ref}.

Definition has_no_blob (asset : parsed_asset) : bool := match pa_blob asset with None => true | Some _ => false end.
Definition unavailable_assets (parsed : parsed_conversations) : nat :=
  length (filter (λ a, has_no_blob a = true) (pcs_assets parsed)).
Definition stored_assets (parsed : parsed_conversations) : nat :=
  length (filter (λ a, has_no_blob a = false) (pcs_assets parsed)).

(** [u32::try_from(n).unwrap_or(u32::MAX)], [i32::try_from(n).unwrap_or(i32::MAX)]. *)
Definition clamp_u32 (n : nat) : N := N.min (N.of_nat n) u32_max.
Definition clamp_i32 (n : nat) : N := N.min (N.of_nat n) i32_max.

Definition gap_of (present : bool) (kind detail : string) (affected : nat) : result reparse_error (list ai_gap) :=
  if present then
    let? kind := ok_or RpConflict (parse_gap_kind kind) in
    let? detail := ok_or RpConflict (parse_safe_message detail) in
    Ok [AiGap kind detail (if (N.of_nat affected <=? u32_max)%N then Some (N.of_nat affected) else None)]
  else Ok [].

Definition import_gaps (parsed : parsed_conversations) : result reparse_error (list ai_gap) :=
  let records := length (pcs_raw_records parsed) in
  let? unrecognized := gap_of (0 <? records) "unrecognized_record"
    "Records this parser does not model are preserved only in the raw archive." records in
  let? missing := gap_of (0 <? unavailable_assets parsed) "missing_file"
    "Referenced files were not available as verified bytes." (unavailable_assets parsed) in
  Ok (unrecognized ++ missing).

Definition count_messages (parsed : parsed_conversations) : nat :=
  sum_nat ((λ c, length (pc_messages c)) <$> pcs_conversations parsed).

Definition import_summary_of (parsed : parsed_conversations) (gap_entries : nat) : import_summary :=
  ImportSummary (if gap_entries =? 0 then Complete else StructurallyPartial)
    (clamp_u32 (length (pcs_conversations parsed))) (clamp_u32 (count_messages parsed))
    (clamp_u32 (stored_assets parsed)) (clamp_u32 gap_entries) 0 0.

Definition with_facts_too_large (n : N) (s : import_summary) : import_summary :=
  ImportSummary (is_completeness s) (is_conversation_count s) (is_message_count s) (is_asset_count s)
    (is_gap_count s) (is_warning_count s) n.

(** The columns of the completeness report. *)
Definition completeness_status (c : import_completeness) : string :=
  match c with Complete => "complete" | StructurallyPartial => "structurally_partial" end.
Definition terminal_state (c : import_completeness) : string :=
  match c with Complete => "completed" | StructurallyPartial => "partial" end.
Definition number (n : N) : json := JNumber (PosInt n).
Definition counts_json (s : import_summary) : json :=
  JObject [("conversations", number (is_conversation_count s)); ("messages", number (is_message_count s));
           ("assets", number (is_asset_count s)); ("gaps", number (is_gap_count s))].

(** jsonb's [||] with an object of one member. *)
Definition set_member (key : string) (v : json) (counts : json) : json :=
  match counts with
  | JObject members => JObject (filter (λ m : string * json, m.1 ≠ key) members ++ [(key, v)])
  | JArray values => JArray (values ++ [JObject [(key, v)]])
  | scalar => JArray [scalar; JObject [(key, v)]]
  end.

Definition array_length (v : json) : N :=
  match v with JArray values => clamp_u32 (length values) | _ => 0 end.

(** The summary a stored report tells. *)
Definition summary_of_report (r : report_row) : import_summary :=
  ImportSummary (if String.eqb (rp_status r) "complete" then Complete else StructurallyPartial)
    (stored_count (rp_counts r) "conversations") (stored_count (rp_counts r) "messages")
    (stored_count (rp_counts r) "assets") (stored_count (rp_counts r) "gaps")
    (array_length (rp_warnings r)) (stored_count (rp_counts r) "facts_too_large").

Definition is_permanent_import_error (e : reparse_error) : bool :=
  match e with
  | RpConflict | RpIntake _ | RpParser Failed | RpEncode | RpReport
  | RpBlob Missing | RpBlob InvalidMediaType => true
  | _ => false
  end.
End evidence.

(** ** The worker *)

Section worker.
Context {wire ref : Type} `{Contracts wire ref, OperationContracts wire ref}.
Context (to_string : json → string) (sha256_hex : string → string) (media_type_ok : string → bool).
Context (cp437 : ascii → string) (zip_at : gmap string node → string → zip_source).
Context (read_to_end : zip_entry → option string).
Context (new_uuid : N → uuid) (render : json → string) (pg_render render_instant : N → string).
Context (collate : string → string → comparison) (to_timestamp : N → N).
(** [WireTimestamp::now]: the process clock where an event id is minted. *)
Context (clock : N → wire).
Context {V R : Type} (decode_ref : V → option blob_ref) (encode_ref : blob_ref → option V).
Context (encode_project : project_version → option json).
Context (encode_conversation : conversation_version → option json).
Context {X : Type} (executor : X → parser_execution_input → list string →
  sm disk parser_execution_error parsed_conversations).

#[local] Abbreviation atables := (atables V R).
#[local] Abbreviation sql A := (atables → result sql_error (A * atables)).
#[local] Abbreviation tx := (sm (world atables) reparse_error).
(** [InitialImportWorker] has the fields of the replay engine. *)
#[local] Abbreviation worker := (reparse_engine X).

(** *** Reporting *)

Definition OPERATION_REPORTED : string := "platform.operation.reported.v1".
Definition report_key (operation_id : uuid) : string := OPERATION_REPORTED +:+ ":" +:+ operation_id.

Definition operation_report_envelope (report : operation_reported ref) : tx json :=
  let! event_id := mint in
  let! operation := slift (ok_or RpEncode
    (report_envelope (new_uuid event_id) (clock event_id) (entity_of_operation (or_operation_id report)))) in
  let! envelope := slift (ok_or RpConflict (set_report operation report)) in
  slift (ok_or RpEncode (stored_envelope_json envelope)).

(** Another row holds the deduplication key, or is the operation's report. *)
Definition clashes (f : fact) (row : outbox_row) : bool :=
  match ft_deduplication_key f with Some key => has_key key row | None => false end
  || (String.eqb (ft_event_type f) OPERATION_REPORTED && String.eqb (ft_event_type row.1) OPERATION_REPORTED
      && String.eqb (ft_aggregate_id row.1) (ft_aggregate_id f)).

(** [INSERT INTO outbox_events ... ON CONFLICT DO NOTHING]. *)
Definition add_report (f : fact) (o : otables) : otables :=
  if existsb (λ r : N * outbox_row, clashes f r.2) (map_to_list (ot_rows o)) then o
  else OTables (<[ot_next o := (f, undelivered (ot_now o))]> (ot_rows o)) (ot_next o + 1) (ot_now o)
         (<[ot_next o := f]> (ot_history o)).

Definition report_fact (operation_id tenant_id export_id : uuid) (payload : json) (now : N) : fact :=
  Fact OPERATION_REPORTED operation_id (Some tenant_id) (Some export_id) payload (Some operation_id)
    (Some (report_key operation_id)) now.

Definition insert_report (operation_id tenant_id export_id : uuid) (payload : json) : sql unit :=
  write (on_outbox (λ o, add_report (report_fact operation_id tenant_id export_id payload (ot_now o)) o)).

(** [SET reported_at = now() WHERE operation_id = $1 AND reported_at IS NULL]. *)
Definition mark_reported (operation_id : uuid) : sql unit :=
  write (λ t, on_evidence (on_operations (alter (λ o,
    if is_null (oi_reported_at o)
    then OperationRow (oi_import_run_id o) (oi_export_id o) (Some (ot_now (at_outbox t))) else o) operation_id)) t).

(** The operations a run still owes a report, in order. *)
Definition owed_operations (run_id : uuid) (t : atables) : list uuid :=
  fst <$> filter (λ o : uuid * operation_row, oi_import_run_id o.2 = run_id ∧ oi_reported_at o.2 = None)
            (rows_by_key (ev_operations (at_evidence t))).

(** The two loops differ in the report alone. *)
Definition report_one (report : uuid → result unit (operation_reported ref)) (export_id tenant_id operation_id : uuid)
    : tx unit :=
  let! report := slift (map_err (λ _, RpReport) (report operation_id)) in
  let! payload := operation_report_envelope report in
  let! _ := store_err (statement (insert_report operation_id tenant_id export_id payload)) in
  store_err (statement (mark_reported operation_id)).

Fixpoint report_each (report : uuid → result unit (operation_reported ref)) (export_id tenant_id : uuid)
    (operations : list uuid) : tx unit :=
  match operations with
  | [] => sret tt
  | operation_id :: rest =>
      let! _ := report_one report export_id tenant_id operation_id in
      report_each report export_id tenant_id rest
  end.

Definition enqueue_failed_reports (run_id export_id tenant_id : uuid) : tx unit :=
  let! operations := store_err (statement (reading (owed_operations run_id))) in
  report_each failed export_id tenant_id operations.

Definition enqueue_operation_reports_in (run_id export_id archive_id tenant_id : uuid) (summary : import_summary)
    : tx unit :=
  let! operations := store_err (statement (reading (owed_operations run_id))) in
  report_each (λ operation_id, imported operation_id archive_id summary) export_id tenant_id operations.

Definition enqueue_operation_reports (run_id export_id archive_id tenant_id : uuid) (summary : import_summary)
    : tx unit :=
  transaction (λ _, RpStore) (enqueue_operation_reports_in run_id export_id archive_id tenant_id summary).

(** *** Failing for good *)

Definition settled_states : list string := ["completed"; "partial"; "failed"].

Definition set_run_failed (run_id : uuid) : sql unit :=
  write (λ t, on_evidence (on_import_runs (alter (λ r,
    if bool_decide (rn_state r ∈ settled_states) then r
    else RunRow (rn_export_id r) (rn_parser_name r) (rn_parser_version r) (rn_schema_id r) "failed"
           (rn_started_at r) (Some (ot_now (at_outbox t)))) run_id)) t).

Definition mark_permanent_failure (run_id export_id tenant_id : uuid) : tx unit :=
  transaction (λ _, RpStore) (
    let! _ := store_err (take_lock tenant_id) in
    let! _ := store_err (statement (set_run_failed run_id)) in
    enqueue_failed_reports run_id export_id tenant_id).

(** *** Importing *)

Definition build_initial_plan (e : worker) (export_id archive_id tenant_id : uuid) (raw : V) (mode : string)
    : tx (reparse_plan * list blob_ref) :=
  let! raw := slift (ok_or RpEncode (decode_ref raw)) in
  let! _ := smap_err RpBlob (with_disk (verify sha256_hex (re_blobs e) raw)) in
  let! acquisition := slift (ok_or RpConflict (mode_parse mode)) in
  let! inventory := inspect_raw sha256_hex cp437 zip_at e raw in
  match select (re_registry e) inventory acquisition with
  | Selected selected =>
      let! (artifacts, parsed) :=
        parse_raw sha256_hex zip_at read_to_end executor e raw inventory acquisition selected in
      let! stored := store_artifacts sha256_hex media_type_ok (re_blobs e) artifacts in
      let! current := current_projection export_id in
      sret (ReparsePlan (compare to_string sha256_hex archive_id selected (cd_hex (br_digest raw)) current parsed)
              "" "" tenant_id export_id raw inventory artifacts parsed, stored)
  | _ => sfail RpConflict
  end.

(** The unique index on [import_run_id]. *)
Definition insert_completeness_report (id : uuid) (report : report_row) : sql unit := writing (λ t,
  let reports := ev_reports (at_evidence t) in
  if existsb (λ r : uuid * report_row, String.eqb (rp_import_run_id r.2) (rp_import_run_id report)) (map_to_list reports)
  then Some (tt, t)
  else match reports !! id with
       | Some _ => None
       | None => Some (tt, on_evidence (on_reports <[id := report]>) t)
       end).

(** [counts || jsonb_build_object('facts_too_large', $2)]. *)
Definition too_large_counted (run_id : uuid) (n : N) (r : report_row) : report_row :=
  if String.eqb (rp_import_run_id r) run_id
  then ReportRow (rp_import_run_id r) (rp_status r) (set_member "facts_too_large" (number n) (rp_counts r))
         (rp_warnings r) (rp_gaps r) (rp_missing_assets r) (rp_unknown_variants r)
  else r.

Definition set_facts_too_large (run_id : uuid) (n : N) : sql unit :=
  write (on_evidence (on_reports (fmap (too_large_counted run_id n)))).

Definition set_run_settled (run_id : uuid) (state : string) (parsed : parsed_conversations) : sql unit :=
  write (λ t, on_evidence (on_import_runs (alter (λ r,
    RunRow (rn_export_id r) (Some (pi_name (pcs_parser parsed))) (Some (pi_version (pcs_parser parsed)))
      (Some (pcs_schema_id parsed)) state (rn_started_at r) (Some (ot_now (at_outbox t)))) run_id)) t).

Definition project_and_report (e : worker) (run_id archive_id : uuid) (plan : reparse_plan) (summary : import_summary)
    : tx unit :=
  let! projected := smap_err RpProjection
    (project_import_facts sha256_hex new_uuid render pg_render render_instant collate decode_ref (re_owners e)
       (FactScope archive_id (rpl_export_id plan) (rpl_tenant_id plan) (pcs_parser (rpl_parsed plan)) Always
          (re_max_event_bytes e))) in
  let! _ := store_err (statement (set_facts_too_large run_id (po_too_large projected))) in
  enqueue_operation_reports_in run_id (rpl_export_id plan) archive_id (rpl_tenant_id plan)
    (with_facts_too_large (po_too_large projected) summary).

Definition report_row_of (run_id : uuid) (parsed : parsed_conversations) (summary : import_summary) (gaps : json)
    : report_row :=
  ReportRow run_id (completeness_status (is_completeness summary)) (counts_json summary) (JArray []) gaps
    (clamp_i32 (unavailable_assets parsed)) (clamp_i32 (length (pcs_raw_records parsed))).

(** What the transaction writes when the run is still open. *)
Definition write_import (e : worker) (run_id archive_id : uuid) (plan : reparse_plan) (stored : list blob_ref)
    (gaps : list ai_gap) (summary : import_summary) : tx unit :=
  let! _ := persist_artifacts sha256_hex media_type_ok new_uuid encode_ref (re_blobs e) plan stored in
  let! _ := persist_projection to_string sha256_hex new_uuid render to_timestamp encode_project encode_conversation plan in
  let! id := mint in
  let! encoded := slift (ok_or RpEncode (gaps_json gaps)) in
  let! _ := store_err (statement (insert_completeness_report (new_uuid id)
              (report_row_of run_id (rpl_parsed plan) summary encoded))) in
  let! _ := store_err (statement (set_run_settled run_id (terminal_state (is_completeness summary)) (rpl_parsed plan))) in
  project_and_report e run_id archive_id plan summary.

(** The body of the transaction.  Where the code rolls back on a settled run,
    nothing was written: committing leaves the same tables. *)
Definition persist_body (e : worker) (run_id archive_id : uuid) (plan : reparse_plan) (stored : list blob_ref)
    (gaps : list ai_gap) (summary : import_summary) : tx unit :=
  let! _ := store_err (take_lock (rpl_tenant_id plan)) in
  let! state := store_err (statement (fetch_one (λ t, rn_state <$> ev_import_runs (at_evidence t) !! run_id))) in
  if bool_decide (state ∈ ["completed"; "partial"]) then sret tt
  else write_import e run_id archive_id plan stored gaps summary.

Definition persist_initial_plan (e : worker) (run_id archive_id : uuid) (plan : reparse_plan) (stored : list blob_ref)
    : tx unit :=
  let! gaps := slift (import_gaps (rpl_parsed plan)) in
  transaction (λ _, RpStore)
    (persist_body e run_id archive_id plan stored gaps (import_summary_of (rpl_parsed plan) (length gaps))).

(** *** One pass *)

Record pending_run : Type := PendingRun {
  pn_run_id : uuid;
  pn_export_id : uuid;
  pn_archive_id : uuid;
  pn_tenant_id : uuid;
  pn_blob_ref : V;
  pn_mode : string;
  pn_state : string;
}.

Definition open_states : list string := ["stored"; "inspected"; "parsed"; "reconciled"].

Definition owes_report (run_id : uuid) (t : atables) : bool :=
  match owed_operations run_id t with [] => false | _ => true end.

Definition is_pending (t : atables) (run_id : uuid) (r : run_row) : bool :=
  bool_decide (rn_state r ∈ open_states) || (bool_decide (rn_state r ∈ settled_states) && owes_report run_id t).

(** The runs to work on, with their exports, those that owe a report first. *)
Definition pending_run_of (t : atables) (r : uuid * run_row) : option pending_run :=
  if is_pending t r.1 r.2 then
    export_id ← rn_export_id r.2; x ← ev_exports (at_evidence t) !! export_id;
    Some (PendingRun r.1 export_id (xp_ai_archive_id x) (xp_account_id x) (xp_blob_ref x) (xp_acquisition_mode x)
            (rn_state r.2))
  else None.

Definition pending_order (t : atables) (r : uuid * run_row) : N * (N * uuid) :=
  (if owes_report r.1 t then 0%N else 1%N, (rn_started_at r.2, r.1)).

Definition pending_runs (t : atables) : list pending_run :=
  omap (pending_run_of t) (sort_by (cmp_on (pending_order t)) (map_to_list (ev_import_runs (at_evidence t)))).

Definition load_import_summary (run_id : uuid) : tx import_summary :=
  store_err (auto (fetch_one (λ t, summary_of_report <$> report_of_run run_id t))).

Definition process_run (e : worker) (p : pending_run) : tx nat :=
  let '(PendingRun run_id export_id archive_id tenant_id raw mode state) := p in
  if String.eqb state "failed" then
    let! _ := transaction (λ _, RpStore) (
      let! _ := store_err (take_lock tenant_id) in enqueue_failed_reports run_id export_id tenant_id) in
    sret 1
  else if bool_decide (state ∈ ["completed"; "partial"]) then
    let! summary := load_import_summary run_id in
    let! _ := enqueue_operation_reports run_id export_id archive_id tenant_id summary in
    sret 1
  else
    let! prepared := stry (build_initial_plan e export_id archive_id tenant_id raw mode) in
    match prepared with
    | Ok (plan, stored) => let! _ := persist_initial_plan e run_id archive_id plan stored in sret 1
    | Err error =>
        if is_permanent_import_error error
        then let! _ := mark_permanent_failure run_id export_id tenant_id in sret 1
        else sfail error
    end.

Definition process_pending_once (e : worker) : tx nat :=
  let! row := query (λ t, head (pending_runs t)) in
  match row with
  | None => sret 0
  | Some p => process_run e p
  end.
End worker.

(** ** Laws of the reporting loops *)

Section report_laws.
Context {wire ref : Type} `{Contracts wire ref, OperationContracts wire ref}.
Context (new_uuid : N → uuid) (clock : N → wire) {V R : Type}.

#[local] Abbreviation atables := (atables V R).
#[local] Abbreviation report_one := (report_one new_uuid clock (V := V) (R := R)).
#[local] Abbreviation report_each := (report_each new_uuid clock (V := V) (R := R)).

(** The operations [ks] are reported now; every other row is as before. *)
Record marked (ks : list uuid) (ops ops' : gmap uuid operation_row) : Prop := Marked {
  mk_others k : k ∉ ks → ops' !! k = ops !! k;
  mk_missing k : ops !! k = None → ops' !! k = None;
  mk_these k o : ops !! k = Some o → ∃ o', ops' !! k = Some o' ∧
    oi_import_run_id o' = oi_import_run_id o ∧ oi_export_id o' = oi_export_id o ∧
    (k ∈ ks → oi_reported_at o' ≠ None);
}.

Lemma marked_nil ops : marked [] ops ops.
Proof. split; [done|done|]. intros k o Hk. exists o. by split_and!; [..|intros ?%elem_of_nil]. Qed.

Lemma mark_one (now : N) k ops :
  marked [k] ops (alter (λ o, if is_null (oi_reported_at o)
    then OperationRow (oi_import_run_id o) (oi_export_id o) (Some now) else o) k ops).
Proof.
  split.
  - intros j Hj. rewrite lookup_alter_ne; [done|]. intros ->. apply Hj. by left.
  - intros j Hj. destruct (decide (k = j)) as [->|]; [by rewrite lookup_alter_eq, Hj|by rewrite lookup_alter_ne].
  - intros j o Hj. destruct (decide (k = j)) as [->|].
    + rewrite lookup_alter_eq, Hj. eexists. split; [reflexivity|]. destruct (oi_reported_at o) eqn:Eo; cbn; [|done].
      by rewrite Eo.
    + rewrite lookup_alter_ne by done. exists o. split; [done|]. split; [done|]. split; [done|].
      intros Hin. apply list_elem_of_singleton in Hin. congruence.
Qed.

Lemma marked_cons k ks a b c : marked [k] a b → marked ks b c → marked (k :: ks) a c.
Proof.
  intros [Ho Hm Ht] [Ho' Hm' Ht']. split; [|auto|].
  - intros j [Hj Hjs]%not_elem_of_cons. rewrite Ho' by done. apply Ho. by intros ->%list_elem_of_singleton.
  - intros j o Hj. destruct (Ht _ _ Hj) as (o1 & H1 & Er & Ex & Hr). destruct (Ht' _ _ H1) as (o2 & H2 & Er2 & Ex2 & Hr2).
    exists o2. split; [done|]. split; [congruence|]. split; [congruence|]. intros [->|Hin]%elem_of_cons; [|auto].
    destruct (decide (k ∈ ks)); [auto|]. rewrite (Ho' k) in H2 by done.
    assert (o2 = o1) as -> by congruence. apply Hr. by left.
Qed.

(** Everything of the evidence but the operations is as before. *)
Definition only_operations (t t' : atables) : Prop :=
  at_evidence t' = on_operations (λ _, ev_operations (at_evidence t')) (at_evidence t).

#[export] Instance only_operations_preorder : PreOrder only_operations.
Proof.
  split; [intros t; unfold only_operations; by destruct (at_evidence t)|].
  intros a b c Hab Hbc. unfold only_operations in *. rewrite Hbc, Hab. by destruct (at_evidence a).
Qed.

Lemma report_one_Ok report export_id tenant_id k w w' :
  report_one report export_id tenant_id k w = (Ok tt, w') →
  only_operations (w_tables w) (w_tables w') ∧
  marked [k] (ev_operations (at_evidence (w_tables w))) (ev_operations (at_evidence (w_tables w'))).
Proof.
  intros (r & w1 & [= _ <-] & Hrun)%sbind_Ok_inv. apply sbind_Ok_inv in Hrun as (payload & w2 & H2 & Hrun).
  apply sbind_Ok_inv in H2 as (event_id & w0 & [= _ <-] & H2).
  apply sbind_Ok_inv in H2 as (operation & w3 & [_ ->]%slift_ok_or_Ok & H2).
  apply sbind_Ok_inv in H2 as (envelope & w4 & [_ ->]%slift_ok_or_Ok & [_ ->]%slift_ok_or_Ok).
  apply sbind_Ok_inv in Hrun as ([] & w5 & H5%smap_err_Ok_inv & H6%smap_err_Ok_inv).
  apply statement_write_Ok in H5 as [E5 _]. apply statement_write_Ok in H6 as [E6 _].
  rewrite E6, E5. split; [|apply mark_one]. reflexivity.
Qed.

Lemma report_each_Ok report export_id tenant_id ks : ∀ w w',
  report_each report export_id tenant_id ks w = (Ok tt, w') →
  only_operations (w_tables w) (w_tables w') ∧
  marked ks (ev_operations (at_evidence (w_tables w))) (ev_operations (at_evidence (w_tables w'))).
Proof.
  induction ks as [|k ks IH]; intros w w' Hrun; [injection Hrun as <-; split; [reflexivity|apply marked_nil]|].
  apply sbind_Ok_inv in Hrun as ([] & w1 & [H1 M1]%report_one_Ok & [H2 M2]%IH).
  split; [by etrans|by eapply marked_cons].
Qed.

Lemma owed_operations_elem run_id k (t : atables) :
  k ∈ owed_operations run_id t ↔ ∃ o, ev_operations (at_evidence t) !! k = Some o ∧
    oi_import_run_id o = run_id ∧ oi_reported_at o = None.
Proof.
  unfold owed_operations, rows_by_key. rewrite list_elem_of_fmap. setoid_rewrite list_elem_of_filter.
  setoid_rewrite elem_of_sort_by. split.
  - intros ([k' o] & -> & [? ?] & Ho%elem_of_map_to_list). by exists o.
  - intros (o & Ho & Hr). exists (k, o). split; [done|]. split; [done|]. by apply elem_of_map_to_list.
Qed.

(** After the loop the run owes nothing, and no other run's debts changed. *)
Lemma owed_after report export_id tenant_id run_id w w' :
  report_each report export_id tenant_id (owed_operations run_id (w_tables w)) w = (Ok tt, w') →
  ∀ id k, k ∈ owed_operations id (w_tables w') ↔ id ≠ run_id ∧ k ∈ owed_operations id (w_tables w).
Proof.
  intros [_ [Ho Hm Ht]]%report_each_Ok id k. setoid_rewrite owed_operations_elem in Ho.
  setoid_rewrite owed_operations_elem in Ht. rewrite !owed_operations_elem. split.
  - intros (o' & Hk & Hid & Hr). destruct (ev_operations (at_evidence (w_tables w)) !! k) as [o|] eqn:Eo;
      [|by rewrite (Hm _ Eo) in Hk].
    destruct (Ht _ _ Eo) as (o2 & H2 & Er & _ & Hrep). assert (o2 = o') as -> by congruence.
    assert (Hno : ¬ (oi_import_run_id o = run_id ∧ oi_reported_at o = None)).
    { intros [E1 E2]. apply Hrep; [|done]. by exists o. }
    rewrite Ho in Hk; [|intros (o3 & H3 & ?); apply Hno; by simplify_eq]. simplify_eq. split; [intros Er; by apply Hno|by exists o'].
  - intros (Hne & o & Hk & Hid & Hr). exists o. split; [|done]. rewrite Ho; [done|].
    intros (o2 & H2 & E2 & _). simplify_eq.
Qed.

(** *** What a settled run means for the queue *)

Definition pending_ids (t : atables) : list uuid := pn_run_id <$> pending_runs t.

Lemma owes_report_spec run_id (t : atables) : owes_report run_id t = true ↔ ∃ k, k ∈ owed_operations run_id t.
Proof.
  unfold owes_report. destruct (owed_operations run_id t) as [|k l].
  - split; [done|]. by intros [k ?%elem_of_nil].
  - split; [|done]. intros _. exists k. by left.
Qed.

Lemma pending_ids_elem id (t : atables) :
  id ∈ pending_ids t ↔ ∃ r e, ev_import_runs (at_evidence t) !! id = Some r ∧ rn_export_id r = Some e ∧
    is_Some (ev_exports (at_evidence t) !! e) ∧ is_pending t id r = true.
Proof.
  unfold pending_ids, pending_runs. rewrite list_elem_of_fmap. setoid_rewrite list_elem_of_omap.
  setoid_rewrite elem_of_sort_by. unfold pending_run_of. split.
  - intros (p & -> & [k r] & Hk%elem_of_map_to_list & Hp). cbn in Hp. destruct (is_pending t k r) eqn:Ep; [|done].
    apply bind_Some in Hp as (e & He & Hp). apply bind_Some in Hp as (x & Hx & [= <-]). exists r, e.
    split; [done|]. split; [done|]. split; [by eexists|done].
  - intros (r & e & Hr & He & [x Hx] & Hp). eexists. split; [|exists (id, r); split; [by apply elem_of_map_to_list|]].
    2: { cbn. rewrite Hp, He. cbn. rewrite Hx. reflexivity. } reflexivity.
Qed.

Lemma NoDup_omap_key {A B K} (f : A → option B) (ka : A → K) (kb : B → K) (l : list A) :
  (∀ a b, f a = Some b → kb b = ka a) → NoDup (ka <$> l) → NoDup (kb <$> omap f l).
Proof.
  intros Hf. induction l as [|a l IH]; cbn; [constructor|]. intros [Hin Hnd]%NoDup_cons.
  destruct (f a) as [b|] eqn:E; cbn; [|auto]. constructor; [|auto]. rewrite (Hf _ _ E).
  intros (b' & Eb & (a' & Ha' & Ha)%list_elem_of_omap)%list_elem_of_fmap. apply Hin.
  rewrite Eb, (Hf _ _ Ha). by apply list_elem_of_fmap_2.
Qed.

Lemma pending_ids_NoDup (t : atables) : NoDup (pending_ids t).
Proof.
  apply (NoDup_omap_key _ fst).
  - intros [k r] p. unfold pending_run_of. destruct (is_pending _ _ _); [|done].
    intros (e & _ & (x & _ & [= <-])%bind_Some)%bind_Some. reflexivity.
  - rewrite sort_by_perm. apply NoDup_fst_map_to_list.
Qed.

(** The run is settled, and nothing else that decides what is pending moved. *)
Record settles (run_id : uuid) (t t' : atables) : Prop := Settles {
  st_exports : ev_exports (at_evidence t') = ev_exports (at_evidence t);
  st_runs id : id ≠ run_id → ev_import_runs (at_evidence t') !! id = ev_import_runs (at_evidence t) !! id;
  st_state : ∃ r, ev_import_runs (at_evidence t') !! run_id = Some r ∧ rn_state r ∈ settled_states;
  st_owed id k : k ∈ owed_operations id t' ↔ id ≠ run_id ∧ k ∈ owed_operations id t;
}.

Lemma settles_pending run_id (t t' : atables) id :
  settles run_id t t' → id ∈ pending_ids t' ↔ id ≠ run_id ∧ id ∈ pending_ids t.
Proof.
  intros [Hx Hruns (r & Hr & Hst) Howed]. rewrite !pending_ids_elem, Hx.
  assert (Hno : owes_report run_id t' = false).
  { destruct (owes_report run_id t') eqn:E; [|done]. apply owes_report_spec in E as [k [? _]%Howed]. done. }
  destruct (decide (id = run_id)) as [->|Hne].
  - split; [|by intros []]. intros (r' & e & Hr' & _ & _ & Hp). simplify_eq. unfold is_pending in Hp.
    rewrite Hno, andb_false_r, orb_false_r in Hp. apply bool_decide_eq_true in Hp. exfalso.
    revert Hst Hp. unfold settled_states, open_states. rewrite !elem_of_cons, elem_of_nil. by intros [->|[->|[->|[]]]] [|[|[|[]]]].
  - rewrite Hruns by done. assert (Heq : owes_report id t' = owes_report id t).
    { apply eq_bool_prop_intro. rewrite !Is_true_true, !owes_report_spec. setoid_rewrite Howed. naive_solver. }
    unfold is_pending. rewrite Heq. naive_solver.
Qed.

(** The queue shrinks by the run. *)
Lemma settles_queue run_id (t t' : atables) :
  settles run_id t t' → run_id ∈ pending_ids t → pending_ids t ≡ₚ run_id :: pending_ids t'.
Proof.
  intros Hs Hin. apply NoDup_Permutation; [apply pending_ids_NoDup| |].
  - constructor; [|apply pending_ids_NoDup]. by intros [? _]%(settles_pending _ _ _ _ Hs).
  - intros id. rewrite elem_of_cons, (settles_pending _ _ _ _ Hs). destruct (decide (id = run_id)) as [->|]; tauto.
Qed.
End report_laws.

(** ** Laws of a pass *)

Section pass_laws.
Context {wire ref : Type} `{Contracts wire ref, OperationContracts wire ref}.
Context (to_string : json → string) (sha256_hex : string → string) (media_type_ok : string → bool).
Context (cp437 : ascii → string) (zip_at : gmap string node → string → zip_source).
Context (read_to_end : zip_entry → option string).
Context (new_uuid : N → uuid) (render : json → string) (pg_render render_instant : N → string).
Context (collate : string → string → comparison) (to_timestamp : N → N) (clock : N → wire).
Context {V R : Type} (decode_ref : V → option blob_ref) (encode_ref : blob_ref → option V).
Context (encode_project : project_version → option json).
Context (encode_conversation : conversation_version → option json).
Context {X : Type} (executor : X → parser_execution_input → list string →
  sm disk parser_execution_error parsed_conversations).

#[local] Abbreviation atables := (atables V R).
#[local] Abbreviation persist_artifacts := (persist_artifacts sha256_hex media_type_ok new_uuid (V := V) (R := R) encode_ref).
#[local] Abbreviation persist_projection :=
  (persist_projection to_string sha256_hex new_uuid render to_timestamp (V := V) (R := R) encode_project encode_conversation).
#[local] Abbreviation project_and_report :=
  (project_and_report sha256_hex new_uuid render pg_render render_instant collate clock (V := V) (R := R) decode_ref (X := X)).
#[local] Abbreviation write_import :=
  (write_import to_string sha256_hex media_type_ok new_uuid render pg_render render_instant collate to_timestamp clock
     (V := V) (R := R) decode_ref encode_ref encode_project encode_conversation (X := X)).
#[local] Abbreviation persist_body :=
  (persist_body to_string sha256_hex media_type_ok new_uuid render pg_render render_instant collate to_timestamp clock
     (V := V) (R := R) decode_ref encode_ref encode_project encode_conversation (X := X)).
#[local] Abbreviation persist_initial_plan :=
  (persist_initial_plan to_string sha256_hex media_type_ok new_uuid render pg_render render_instant collate to_timestamp clock
     (V := V) (R := R) decode_ref encode_ref encode_project encode_conversation (X := X)).
#[local] Abbreviation build_initial_plan :=
  (build_initial_plan to_string sha256_hex media_type_ok cp437 zip_at read_to_end (V := V) (R := R) decode_ref executor).
#[local] Abbreviation process_run :=
  (process_run to_string sha256_hex media_type_ok cp437 zip_at read_to_end new_uuid render pg_render render_instant
     collate to_timestamp clock (V := V) (R := R) decode_ref encode_ref encode_project encode_conversation executor).
#[local] Abbreviation process_pending_once :=
  (process_pending_once to_string sha256_hex media_type_ok cp437 zip_at read_to_end new_uuid render pg_render render_instant
     collate to_timestamp clock (V := V) (R := R) decode_ref encode_ref encode_project encode_conversation executor).

(** The tables that decide what is pending are untouched. *)
Definition same_queue (t t' : atables) : Prop :=
  ev_exports (at_evidence t') = ev_exports (at_evidence t) ∧
  ev_import_runs (at_evidence t') = ev_import_runs (at_evidence t) ∧
  ev_operations (at_evidence t') = ev_operations (at_evidence t).

#[export] Instance same_queue_preorder : PreOrder same_queue.
Proof. split; [by split|]. intros a b c (? & ? & ?) (? & ? & ?). split_and!; congruence. Qed.

Lemma replay_same_queue K J (t t' : atables) : replay K J t t' → same_queue t t'.
Proof. intros Hr. rewrite (ry_rest _ _ _ _ Hr). by split_and!. Qed.

Lemma same_queue_owed (t t' : atables) id : same_queue t t' → owed_operations id t' = owed_operations id t.
Proof. intros (_ & _ & E). unfold owed_operations. by rewrite E. Qed.

(** The reports of one run, once it is settled. *)
Lemma reports_settle report export_id tenant_id run_id (w w' : world atables) :
  (let! operations := store_err (statement (reading (owed_operations run_id))) in
   report_each new_uuid clock report export_id tenant_id operations) w = (Ok tt, w') →
  (∃ r, ev_import_runs (at_evidence (w_tables w)) !! run_id = Some r ∧ rn_state r ∈ settled_states) →
  settles run_id (w_tables w) (w_tables w').
Proof.
  intros (operations & w1 & H1%smap_err_Ok_inv & Hrun)%sbind_Ok_inv Hst.
  apply statement_reading_Ok in H1 as [-> Et]. rewrite <-Et in Hrun, Hst. rewrite <-Et.
  pose proof (report_each_Ok _ _ _ _ _ _ _ _ Hrun) as [He _]. pose proof (owed_after _ _ _ _ _ _ _ _ Hrun) as Howed.
  split; [by rewrite He|by rewrite He|by rewrite He|done].
Qed.

Lemma settles_from run_id (t u t' : atables) :
  ev_exports (at_evidence u) = ev_exports (at_evidence t) →
  (∀ id, id ≠ run_id → ev_import_runs (at_evidence u) !! id = ev_import_runs (at_evidence t) !! id) →
  ev_operations (at_evidence u) = ev_operations (at_evidence t) →
  settles run_id u t' → settles run_id t t'.
Proof.
  intros Ex Er Eo [Hx Hr Hs Ho]. split; [congruence| |done|].
  - intros id Hid. rewrite Hr, Er; done.
  - intros id k. rewrite Ho. unfold owed_operations. by rewrite Eo.
Qed.

(** *** An import *)

Lemma terminal_state_settled c : terminal_state c ∈ settled_states.
Proof. unfold settled_states. destruct c; cbn; rewrite !elem_of_cons; tauto. Qed.

Lemma persist_artifacts_queue s plan stored : stable (λ w w' : world atables, same_queue (w_tables w) (w_tables w'))
  (persist_artifacts s plan stored).
Proof.
  intros w r w' Hrun. eapply (persist_artifacts_replaying _ _ _ _ _ _ _ (λ _, False)) in Hrun as [_ _ _ Hr].
  by eapply replay_same_queue.
Qed.

Lemma persist_projection_queue plan : stable (λ w w' : world atables, same_queue (w_tables w) (w_tables w'))
  (persist_projection plan).
Proof.
  intros w r w' Hrun. apply persist_projection_accrete in Hrun as (_ & _ & Ha).
  eapply (replay_same_queue (λ _, False) (λ _, False)), accrete_replay, Ha.
Qed.

Lemma write_import_Ok (e : reparse_engine X) run_id archive_id plan stored gaps summary w w' :
  write_import e run_id archive_id plan stored gaps summary w = (Ok tt, w') →
  is_Some (ev_import_runs (at_evidence (w_tables w)) !! run_id) →
  settles run_id (w_tables w) (w_tables w').
Proof.
  intros ([] & w1 & (Ex1 & Er1 & Eo1)%persist_artifacts_queue & Hrun)%sbind_Ok_inv Hsome.
  apply sbind_Ok_inv in Hrun as ([] & w2 & (Ex2 & Er2 & Eo2)%persist_projection_queue & Hrun).
  apply sbind_Ok_inv in Hrun as (n & w3 & [= _ <-] & Hrun).
  apply sbind_Ok_inv in Hrun as (encoded & w4 & [_ ->]%slift_ok_or_Ok & Hrun).
  apply sbind_Ok_inv in Hrun as ([] & w5 & H5%smap_err_Ok_inv & Hrun). apply statement_writing_Ok in H5 as [H5 _].
  apply sbind_Ok_inv in Hrun as ([] & w6 & H6%smap_err_Ok_inv & Hrun). apply statement_write_Ok in H6 as [H6 _].
  apply sbind_Ok_inv in Hrun as (projected & w7 & H7%smap_err_Ok_inv & Hrun).
  apply project_import_facts_queues in H7 as (_ & _ & H7). apply (queues_replay (λ _, False) (λ _, False)) in H7.
  apply replay_same_queue in H7 as (Ex7 & Er7 & Eo7).
  apply sbind_Ok_inv in Hrun as ([] & w8 & H8%smap_err_Ok_inv & Hrun). apply statement_write_Ok in H8 as [H8 _].
  assert (Hq5 : same_queue (w_tables w2) (w_tables w5)).
  { cbn in H5. case_match; [|case_match; [done|]]; injection H5 as <-; by split_and!. }
  destruct Hq5 as (Ex5 & Er5 & Eo5).
  assert (Er : ev_import_runs (at_evidence (w_tables w8)) =
    ev_import_runs (at_evidence (w_tables w6))) by (rewrite H8; cbn; by rewrite Er7).
  apply (settles_from _ _ (w_tables w8)).
  - rewrite H8. cbn. rewrite Ex7, H6. cbn. by rewrite Ex5, Ex2, Ex1.
  - intros id Hid. rewrite Er, H6. cbn. rewrite lookup_alter_ne by done. by rewrite Er5, Er2, Er1.
  - rewrite H8. cbn. rewrite Eo7, H6. cbn. by rewrite Eo5, Eo2, Eo1.
  - apply reports_settle in Hrun; [done|]. rewrite Er, H6. cbn. rewrite lookup_alter_eq, Er5, Er2, Er1.
    destruct Hsome as [r Hr]. rewrite Hr. eexists. split; [reflexivity|]. apply terminal_state_settled.
Qed.

Lemma build_initial_plan_reads_rows (e : reparse_engine X) export_id archive_id tenant_id raw mode :
  stable reads_rows (build_initial_plan e export_id archive_id tenant_id raw mode).
Proof.
  apply stable_bind; [apply _|apply stable_lift, _|intros raw'].
  apply stable_bind; [apply _|apply stable_map_err, disk_reads_rows|intros _].
  apply stable_bind; [apply _|apply stable_lift, _|intros acquisition].
  apply stable_bind; [apply _|apply stable_map_err, disk_reads_rows|intros inventory].
  case_match; [|apply stable_fail, _..].
  apply stable_bind; [apply _|apply parse_raw_reads_rows|intros [artifacts parsed]].
  apply stable_bind; [apply _|apply store_artifacts_reads_rows|intros stored].
  apply stable_bind; [apply _|apply stable_map_err, auto_reads_rows|intros current; apply stable_ret, _].
Qed.

Lemma persist_initial_plan_Ok (e : reparse_engine X) run_id archive_id plan stored w w' r :
  persist_initial_plan e run_id archive_id plan stored w = (Ok tt, w') → w_others w = [] →
  ev_import_runs (at_evidence (w_tables w)) !! run_id = Some r → rn_state r ∉ ["completed"; "partial"] →
  settles run_id (w_tables w) (w_tables w').
Proof.
  intros (gaps & w1 & [= _ <-] & Hrun)%sbind_Ok_inv Ho Hr Hst.
  apply transaction_Ok_inv in Hrun as (u & Hbody & Et & _). rewrite (alone _ Ho) in Hbody. rewrite Et.
  apply sbind_Ok_inv in Hbody as ([] & w2 & H2%smap_err_Ok_inv & Hbody).
  apply (take_lock_grows sha256_hex (re_blobs e)) in H2 as [Et2 _ _ _]. cbn in Et2.
  apply sbind_Ok_inv in Hbody as (state & w3 & H3%smap_err_Ok_inv & Hbody).
  apply statement_fetch_one_Ok in H3 as [H3 Et3]. rewrite Et2, Hr in H3. injection H3 as <-.
  rewrite bool_decide_eq_false_2 in Hbody by done. apply write_import_Ok in Hbody; [by rewrite Et3, Et2 in Hbody|].
  rewrite Et3, Et2. by eexists.
Qed.

(** The reports of a run that failed, once it is marked. *)
Lemma failed_reports_Ok run_id export_id tenant_id (c : sm (world atables) reparse_error unit) w w' g r :
  (let! _ := c in enqueue_failed_reports new_uuid clock run_id export_id tenant_id) w = (Ok tt, w') →
  (∀ w1, c w = (Ok tt, w1) →
     at_evidence (w_tables w1) = on_import_runs (alter g run_id) (at_evidence (w_tables w))) →
  ev_import_runs (at_evidence (w_tables w)) !! run_id = Some r → rn_state (g r) ∈ settled_states →
  settles run_id (w_tables w) (w_tables w').
Proof.
  intros ([] & w1 & H1 & Hrun)%sbind_Ok_inv Hc Hr Hst. apply Hc in H1. apply (settles_from _ _ (w_tables w1)).
  - by rewrite H1.
  - intros id Hid. rewrite H1. cbn. by rewrite lookup_alter_ne.
  - by rewrite H1.
  - apply reports_settle in Hrun; [done|]. rewrite H1. cbn. rewrite lookup_alter_eq, Hr. by eexists.
Qed.

Lemma take_lock_tables {E} (f : sql_error → E) l (w w' : world atables) :
  smap_err f (take_lock l) w = (Ok tt, w') → w_tables w' = w_tables w.
Proof.
  intros H1%smap_err_Ok_inv. unfold take_lock in H1. destruct (next_fault w); [|done..].
  by injection H1 as <-.
Qed.

Lemma mark_permanent_failure_Ok run_id export_id tenant_id (w w' : world atables) r :
  mark_permanent_failure new_uuid clock run_id export_id tenant_id w = (Ok tt, w') → w_others w = [] →
  ev_import_runs (at_evidence (w_tables w)) !! run_id = Some r →
  settles run_id (w_tables w) (w_tables w').
Proof.
  intros Hrun Ho Hr. apply transaction_Ok_inv in Hrun as (u & Hbody & Et & _). rewrite (alone _ Ho) in Hbody. rewrite Et.
  apply sbind_Ok_inv in Hbody as ([] & w2 & Et2%take_lock_tables & Hbody). cbn in Et2. rewrite <-Et2 in Hr |- *.
  eapply failed_reports_Ok; [exact Hbody| |exact Hr|].
  - intros w1 [H1 _]%smap_err_Ok_inv%statement_write_Ok. by rewrite H1.
  - cbn. case_bool_decide; [done|]. cbn. unfold settled_states. rewrite !elem_of_cons. tauto.
Qed.

Lemma report_failed_Ok run_id export_id tenant_id (w w' : world atables) r :
  transaction (λ _, RpStore) (let! _ := store_err (take_lock tenant_id) in
    enqueue_failed_reports new_uuid clock run_id export_id tenant_id) w = (Ok tt, w') → w_others w = [] →
  ev_import_runs (at_evidence (w_tables w)) !! run_id = Some r → rn_state r ∈ settled_states →
  settles run_id (w_tables w) (w_tables w').
Proof.
  intros Hrun Ho Hr Hst. apply transaction_Ok_inv in Hrun as (u & Hbody & Et & _). rewrite (alone _ Ho) in Hbody. rewrite Et.
  eapply (failed_reports_Ok _ _ _ _ (drop_fault w) _ id); [exact Hbody| |exact Hr|exact Hst].
  intros w1 H1%take_lock_tables. cbn in H1. rewrite H1. unfold on_import_runs. rewrite alter_id; [|done].
  cbn. by destruct (at_evidence (w_tables w)).
Qed.

Lemma late_reports_Ok run_id export_id archive_id tenant_id summary (w w' : world atables) r :
  enqueue_operation_reports new_uuid clock run_id export_id archive_id tenant_id summary w = (Ok tt, w') →
  w_others w = [] → ev_import_runs (at_evidence (w_tables w)) !! run_id = Some r → rn_state r ∈ settled_states →
  settles run_id (w_tables w) (w_tables w').
Proof.
  intros Hrun Ho Hr Hst. apply transaction_Ok_inv in Hrun as (u & Hbody & Et & _). rewrite (alone _ Ho) in Hbody. rewrite Et.
  apply reports_settle in Hbody; [exact Hbody|]. by exists r.
Qed.

Lemma auto_others_alone {A} (op : atables → result sql_error (A * atables)) w r w' :
  auto op w = (r, w') → w_others w = [] → w_others w' = [].
Proof.
  intros Hrun Ho. unfold auto in Hrun. rewrite (alone _ Ho) in Hrun.
  destruct (next_fault w), (op (w_tables w)) as [[a t]|err]; by injection Hrun as _ <-.
Qed.

Lemma load_import_summary_alone run_id (w w' : world atables) summary :
  load_import_summary run_id w = (Ok summary, w') → w_others w = [] →
  w_tables w' = w_tables w ∧ w_others w' = [] ∧
  summary_of_report <$> report_of_run run_id (w_tables w) = Some summary.
Proof.
  intros Hrun%smap_err_Ok_inv Ho. pose proof (auto_others_alone _ _ _ _ Hrun Ho) as Ho'. apply auto_Ok_inv in Hrun.
  rewrite (alone _ Ho) in Hrun. unfold fetch_one in Hrun. destruct (_ <$> _) as [s|] eqn:E; [|done].
  injection Hrun as -> ->. done.
Qed.

Lemma process_run_Ok (e : reparse_engine X) p w n w' r :
  process_run e p w = (Ok n, w') → w_others w = [] →
  ev_import_runs (at_evidence (w_tables w)) !! pn_run_id p = Some r → pn_state p = rn_state r →
  is_pending (w_tables w) (pn_run_id p) r = true →
  n = 1 ∧ settles (pn_run_id p) (w_tables w) (w_tables w').
Proof.
  destruct p as [run_id export_id archive_id tenant_id raw mode state]. cbn [InitialImport.process_run pn_run_id pn_state].
  intros Hrun Ho Hr -> Hp. destruct (String.eqb_spec (rn_state r) "failed") as [Ef|Ef].
  { apply sbind_Ok_inv in Hrun as ([] & w1 & H1 & [= <- <-]). split; [done|].
    eapply report_failed_Ok; [exact H1|done|exact Hr|]. rewrite Ef. unfold settled_states. rewrite !elem_of_cons. tauto. }
  case_bool_decide as Hd.
  { apply sbind_Ok_inv in Hrun as (summary & w1 & H1 & Hrun). apply sbind_Ok_inv in Hrun as ([] & w2 & H2 & [= <- <-]).
    apply load_import_summary_alone in H1 as (Et & Ho1 & _); [|done]. split; [done|]. rewrite <-Et.
    eapply late_reports_Ok; [exact H2|done|by rewrite Et|]. unfold settled_states. revert Hd. rewrite !elem_of_cons. tauto. }
  apply sbind_Ok_inv in Hrun as (prepared & w1 & H1 & Hrun).
  assert (Hr1 : reads_rows w w1).
  { revert H1. apply stable_try, build_initial_plan_reads_rows. }
  destruct (Hr1 Ho) as [Ho1 Et]. rewrite <-Et in Hr |- *. destruct prepared as [[plan stored]|err].
  - apply sbind_Ok_inv in Hrun as ([] & w2 & H2 & [= <- <-]). split; [done|]. by eapply persist_initial_plan_Ok.
  - destruct (is_permanent_import_error err); [|done].
    apply sbind_Ok_inv in Hrun as ([] & w2 & H2 & [= <- <-]). split; [done|]. by eapply mark_permanent_failure_Ok.
Qed.

Lemma pending_run_found (t : atables) p :
  p ∈ pending_runs t → ∃ r, ev_import_runs (at_evidence t) !! pn_run_id p = Some r ∧ pn_state p = rn_state r ∧
    is_pending t (pn_run_id p) r = true.
Proof.
  unfold pending_runs. rewrite list_elem_of_omap. setoid_rewrite elem_of_sort_by.
  intros ([k r] & Hk%elem_of_map_to_list & Hp). unfold pending_run_of in Hp. cbn in Hp.
  destruct (is_pending t k r) eqn:Ep; [|done]. apply bind_Some in Hp as (x & _ & Hp).
  apply bind_Some in Hp as (y & _ & [= <-]). by exists r.
Qed.

(** C9. A pass settles the head of the queue.  With nobody else at work, a pass
    that answers either finds nothing pending and changes no row, or settles the
    first pending run: it is in a terminal state and owes no report any more,
    and the queue is the old one without it - nothing else left it or entered
    it.  So as many answered passes as there are pending runs empty it. *)
Theorem import_pass_settles (e : reparse_engine X) (w w' : world atables) (n : nat) :
  process_pending_once e w = (Ok n, w') → w_others w = [] →
  (n = 0 ∧ pending_ids (w_tables w) = [] ∧ w_tables w' = w_tables w) ∨
  (n = 1 ∧ ∃ run_id, head (pending_ids (w_tables w)) = Some run_id ∧
     pending_ids (w_tables w) ≡ₚ run_id :: pending_ids (w_tables w') ∧
     settles run_id (w_tables w) (w_tables w')).
Proof.
  intros (row & w1 & H1 & Hrun)%sbind_Ok_inv Ho. apply query_alone in H1 as (Hrow & Et & _ & Ho1); [|done].
  destruct Hrow as [[= ->]|]; [|done]. rewrite <-Et in Hrun |- *. clear Et Ho.
  unfold pending_ids. destruct (pending_runs (w_tables w1)) as [|p l] eqn:Ep; cbn in Hrun |- *.
  { left. injection Hrun as <- <-. done. }
  right. destruct (pending_run_found (w_tables w1) p) as (r & Hr & Hst & Hp); [rewrite Ep; by left|].
  eapply process_run_Ok in Hrun as [-> Hs]; [|done..]. split; [done|]. exists (pn_run_id p). split; [done|].
  split; [|done]. apply settles_queue in Hs; [|unfold pending_ids; rewrite Ep; by left].
  unfold pending_ids in Hs. by rewrite Ep in Hs.
Qed.

(** *** Reports are queued before they are marked *)

(** A row that reports the operation, or holds the report's key. *)
Definition report_queued (k : uuid) (t : atables) : Prop :=
  ∃ id row, ot_rows (at_outbox t) !! id = Some row ∧
    (ft_deduplication_key row.1 = Some (report_key k) ∨
     ft_event_type row.1 = OPERATION_REPORTED ∧ ft_aggregate_id row.1 = k).

(** An operation is marked reported only when its report is in the outbox. *)
Definition told (t : atables) : Prop :=
  table_ok (at_outbox t) ∧
  ∀ k o, ev_operations (at_evidence t) !! k = Some o → oi_reported_at o ≠ None → report_queued k t.

Definition keeps_told (w w' : world atables) : Prop :=
  w_others w' = w_others w ∧ (told (w_tables w) → told (w_tables w')).

#[export] Instance keeps_told_preorder : PreOrder keeps_told.
Proof. split; [by split|]. intros a b c [? ?] [? ?]. split; [congruence|auto]. Qed.

Lemma told_from (t t' : atables) :
  ev_operations (at_evidence t') = ev_operations (at_evidence t) → gained (λ _, True) (at_outbox t) (at_outbox t') →
  told t → told t'.
Proof.
  intros Eo Hg [Hok Ht]. destruct (Hg Hok) as [Hok' Hrows _ _ _]. split; [done|]. intros k o. rewrite Eo.
  intros Hk Hr. destruct (Ht k o Hk Hr) as (id & row & Hid & Hq). exists id, row. split; [by apply Hrows|done].
Qed.

Lemma inside_keeps_told Q {E A} (c : sm (world atables) E A) :
  (∀ t t', Q t t' → told t → told t') → stable (inside Q) c → stable keeps_told c.
Proof. intros HQ Hc w r w' (_ & Ho & Hq)%Hc. split; [done|by apply HQ]. Qed.

Lemma writing_keeps_told {A} (f : atables → option (A * atables)) :
  (∀ t a t', f t = Some (a, t') → ev_operations (at_evidence t') = ev_operations (at_evidence t) ∧ at_outbox t' = at_outbox t) →
  stable keeps_told (store_err (statement (writing f))).
Proof.
  intros Hf. apply stable_map_err, (inside_keeps_told (λ t t', told t → told t')); [auto|].
  apply inside_writing; [split; [by intros t|intros a b c; auto]|]. intros t a t' [Eo Ex]%Hf.
  apply told_from; [done|]. rewrite Ex. reflexivity.
Qed.

(** Where nothing clashes, the row is added as [insert_fact] adds it. *)
Lemma add_report_gained f o : gained (λ _, True) o (add_report f o).
Proof.
  unfold add_report. destruct (existsb _ _) eqn:E; [reflexivity|]. apply (insert_fact_gained _ f _ true); [|exact I].
  unfold insert_fact. case_match eqn:E'; [|reflexivity]. exfalso.
  apply existsb_exists in E' as ([id row] & Hin & Hk). apply existsb_false in E.
  eapply Forall_forall in E; [|apply list_elem_of_In; exact Hin]. unfold clashes in E. by rewrite Hk in E.
Qed.

Lemma add_report_queued f o k :
  ft_event_type f = OPERATION_REPORTED → ft_aggregate_id f = k → ft_deduplication_key f = Some (report_key k) →
  ∃ id row, ot_rows (add_report f o) !! id = Some row ∧
    (ft_deduplication_key row.1 = Some (report_key k) ∨
     ft_event_type row.1 = OPERATION_REPORTED ∧ ft_aggregate_id row.1 = k).
Proof.
  intros Et Ea Ek. unfold add_report. destruct (existsb _ _) eqn:E.
  - apply existsb_exists in E as ([id row] & Hin & Hc). apply list_elem_of_In, elem_of_map_to_list in Hin.
    exists id, row. split; [done|]. unfold clashes, has_key in Hc. rewrite Ek, Et, Ea in Hc.
    apply orb_true_iff in Hc as [Hc%bool_decide_eq_true|Hc]; [by left|right].
    apply andb_true_iff in Hc as [[_ Hc%String.eqb_eq]%andb_true_iff Hc'%String.eqb_eq]. by split.
  - eexists (ot_next o), _. cbn. rewrite lookup_insert_eq. split; [reflexivity|]. by right.
Qed.

(** Queueing, then marking. *)
Lemma tell_keeps_told k tenant_id export_id payload :
  stable keeps_told (let! _ := store_err (statement (insert_report (V := V) (R := R) k tenant_id export_id payload)) in
                     store_err (statement (mark_reported k))).
Proof.
  intros w r w' Hrun.
  assert (Hins : ∀ x v, statement (insert_report k tenant_id export_id payload) w = (x, v) → keeps_told w v).
  { intros x v (_ & Ho & Hx)%statement_inv. split; [done|]. destruct x as [[]|]; [|by rewrite Hx].
    unfold insert_report, write, writing in Hx. case_match; [|done]. injection Hx as Hx.
    apply told_from; rewrite <-Hx; [done|]. apply add_report_gained. }
  apply sbind_inv in Hrun as [([] & w1 & H1%smap_err_Ok_inv & H2)|(err & H1 & ->)].
  - destruct (Hins _ _ H1) as [Ho1 Ht1]. apply statement_write_Ok in H1 as [E1 _].
    unfold store_err, smap_err in H2. destruct (statement (mark_reported k) w1) as [x v] eqn:E2.
    assert (v = w') as -> by (destruct x; congruence). clear H2. apply statement_inv in E2 as (_ & Ho & Hx).
    split; [congruence|]. intros [Hok Ht]%Ht1. destruct x as [[]|]; [|rewrite Hx; by split].
    unfold mark_reported, write, writing in Hx. case_match; [|done]. injection Hx as Hx. rewrite <-Hx. split; [done|].
    intros j o. cbn. destruct (decide (k = j)) as [->|Hne]; [|by rewrite lookup_alter_ne; [apply Ht|done]].
    intros _ _. unfold report_queued. cbn. rewrite E1. cbn. by apply add_report_queued.
  - apply (Hins (Err SqlError)). unfold store_err, smap_err in H1. destruct (statement _ w) as [[[]|[]] v]; by simplify_eq.
Qed.

Lemma report_one_keeps_told report export_id tenant_id k :
  stable keeps_told (report_one new_uuid clock (V := V) (R := R) report export_id tenant_id k).
Proof.
  apply stable_bind; [apply _|apply stable_lift, _|intros r]. apply stable_bind; [apply _| |intros; apply tell_keeps_told].
  apply stable_bind; [apply _|by intros w x w' [= _ <-]|intros event_id].
  apply stable_bind; [apply _|apply stable_lift, _|intros operation].
  apply stable_bind; [apply _|apply stable_lift, _|intros envelope; apply stable_lift, _].
Qed.

Lemma reports_keep_told report export_id tenant_id run_id :
  stable keeps_told (let! operations := store_err (statement (reading (owed_operations (V := V) (R := R) run_id))) in
    report_each new_uuid clock report export_id tenant_id operations).
Proof.
  apply stable_bind; [apply _| |intros ks].
  { apply stable_map_err, (inside_keeps_told eq); [by intros t t' <-|apply inside_reading, _]. }
  induction ks as [|k ks IH]; [apply stable_ret, _|].
  apply stable_bind; [apply _|apply report_one_keeps_told|intros _; exact IH].
Qed.

Lemma replay_keeps_told K J (t t' : atables) : replay K J t t' → told t → told t'.
Proof.
  intros Hr. apply told_from; [by rewrite (ry_rest _ _ _ _ Hr)|exact (ry_outbox _ _ _ _ Hr)].
Qed.

Lemma lock_keeps_told l : stable keeps_told (store_err (V := V) (R := R) (take_lock l)).
Proof. apply stable_map_err, (inside_keeps_told eq); [by intros t t' <-|apply inside_take_lock, _]. Qed.

Lemma write_import_keeps_told (e : reparse_engine X) run_id archive_id plan stored gaps summary :
  stable keeps_told (write_import e run_id archive_id plan stored gaps summary).
Proof.
  apply stable_bind; [apply _| |intros _].
  { intros w r w' Hrun. eapply (persist_artifacts_replaying _ _ _ _ _ _ _ (λ _, False)) in Hrun as [Ho _ _ Hr].
    split; [exact Ho|]. by eapply replay_keeps_told. }
  apply stable_bind; [apply _| |intros _].
  { eapply inside_keeps_told; [|apply persist_projection_accrete].
    intros t t' Ha. eapply (replay_keeps_told (λ _, False) (λ _, False)), accrete_replay, Ha. }
  apply stable_bind; [apply _|by intros w x w' [= _ <-]|intros id].
  apply stable_bind; [apply _|apply stable_lift, _|intros encoded].
  apply stable_bind; [apply _| |intros _].
  { apply writing_keeps_told. intros t a t' Hf. cbn in Hf. case_match; [|case_match; [done|]]; injection Hf as _ <-; done. }
  apply stable_bind; [apply _| |intros _]. { apply writing_keeps_told. by intros t a t' [= _ <-]. }
  apply stable_bind; [apply _| |intros projected].
  { apply stable_map_err. eapply inside_keeps_told; [|apply project_import_facts_queues].
    intros t t' Hq. eapply (replay_keeps_told (λ _, False) (λ _, False)), queues_replay, Hq. }
  apply stable_bind; [apply _| |intros _]. { apply writing_keeps_told. by intros t a t' [= _ <-]. }
  apply reports_keep_told.
Qed.

(** The same of the whole service. *)
Definition keeps_informed (x y : snap atables) : Prop := told x.2 → told y.2.

#[export] Instance keeps_informed_preorder : PreOrder keeps_informed.
Proof. split; [intros x Hx; exact Hx|]. intros a b c Hab Hbc Ha. exact (Hbc (Hab Ha)). Qed.

Lemma transaction_keeps_informed (body : sm (world atables) reparse_error unit) :
  stable keeps_told body → stable (respects keeps_informed) (transaction (λ _, RpStore) body).
Proof.
  intros Hb. apply stable_transaction; [apply _|]. intros w r w' [Ho Ht]%Hb. split; [exact Ho|].
  split; [by intros Hw|by intros _].
Qed.

Lemma reading_keeps_informed {A} (op : atables → result sql_error (A * atables)) :
  (∀ t a t', op t = Ok (a, t') → t' = t) → stable (respects keeps_informed) (auto op).
Proof. intros Hop. apply stable_auto; [apply _|]. intros ns t a t' ->%Hop Hw. exact Hw. Qed.

Lemma disk_keeps_informed {E A} (c : sm disk E A) : stable (respects keeps_informed) (with_disk (T := atables) c).
Proof. apply stable_with_disk. intros d r d' t _ Hw. exact Hw. Qed.

Lemma query_keeps_informed {A} (f : atables → A) : stable (respects keeps_informed) (query f).
Proof. apply stable_map_err, reading_keeps_informed. by intros t a t' [= _ <-]. Qed.

Lemma parse_raw_keeps_informed (e : reparse_engine X) raw inventory mode target :
  stable (respects keeps_informed)
    (parse_raw sha256_hex zip_at read_to_end (V := V) (R := R) executor e raw inventory mode target).
Proof.
  apply stable_bind; [apply _|apply stable_lift, _|intros compiled].
  apply stable_bind; [apply _| |intros artifacts].
  { apply stable_bind; [apply _|apply stable_map_err, disk_keeps_informed|intros path].
    by intros w r w' [= _ <-]. }
  apply stable_bind; [apply _| |intros ids].
  { induction (length artifacts) as [|n IH]; [apply stable_ret, _|].
    apply stable_bind; [apply _|apply stable_mint, _|intros id].
    apply stable_bind; [apply _|exact IH|intros; apply stable_ret, _]. }
  apply stable_bind; [apply _|apply stable_map_err, disk_keeps_informed|intros parsed].
  case_bool_decide; [apply stable_ret, _|apply stable_fail, _].
Qed.

Lemma build_initial_plan_keeps_informed (e : reparse_engine X) export_id archive_id tenant_id raw mode :
  stable (respects keeps_informed) (build_initial_plan e export_id archive_id tenant_id raw mode).
Proof.
  apply stable_bind; [apply _|apply stable_lift, _|intros raw'].
  apply stable_bind; [apply _|apply stable_map_err, disk_keeps_informed|intros _].
  apply stable_bind; [apply _|apply stable_lift, _|intros acquisition].
  apply stable_bind; [apply _|apply stable_map_err, disk_keeps_informed|intros inventory].
  case_match; [|apply stable_fail, _..].
  apply stable_bind; [apply _|apply parse_raw_keeps_informed|intros [artifacts parsed]].
  apply stable_bind; [apply _| |intros stored].
  { induction artifacts as [|a l IH]; [apply stable_ret, _|].
    apply stable_bind; [apply _| |intros b; apply stable_bind; [apply _|exact IH|intros; apply stable_ret, _]].
    apply stable_map_err, stable_bind; [apply _|apply stable_mint, _|intros n; apply disk_keeps_informed]. }
  apply stable_bind; [apply _|apply query_keeps_informed|intros current; apply stable_ret, _].
Qed.

Lemma process_run_keeps_informed (e : reparse_engine X) p :
  stable (respects keeps_informed) (process_run e p).
Proof.
  destruct p as [run_id export_id archive_id tenant_id raw mode state]. cbn [InitialImport.process_run].
  case_match.
  { apply stable_bind; [apply _| |intros _; apply stable_ret, _]. apply transaction_keeps_informed.
    apply stable_bind; [apply _|apply lock_keeps_told|intros _; apply reports_keep_told]. }
  case_match.
  { apply stable_bind; [apply _| |intros summary].
    { apply stable_map_err, reading_keeps_informed. intros t a t'. unfold fetch_one. by case_match; intros [= _ <-]. }
    apply stable_bind; [apply _|apply transaction_keeps_informed, reports_keep_told|intros _; apply stable_ret, _]. }
  apply stable_bind; [apply _|apply stable_try, build_initial_plan_keeps_informed|intros [[plan stored]|err]].
  - apply stable_bind; [apply _| |intros _; apply stable_ret, _].
    apply stable_bind; [apply _|apply stable_lift, _|intros gaps]. apply transaction_keeps_informed.
    apply stable_bind; [apply _|apply lock_keeps_told|intros _].
    apply stable_bind; [apply _| |intros current].
    { apply stable_map_err, (inside_keeps_told eq); [by intros t t' <-|apply inside_fetch_one, _]. }
    case_match; [apply stable_ret, _|apply write_import_keeps_told].
  - case_match; [|apply stable_fail, _]. apply stable_bind; [apply _| |intros _; apply stable_ret, _].
    apply transaction_keeps_informed. apply stable_bind; [apply _|apply lock_keeps_told|intros _].
    apply stable_bind; [apply _| |intros _; apply reports_keep_told].
    apply writing_keeps_told. by intros t a t' [= _ <-].
Qed.

(** C10. The Platform is told before an operation counts as reported.  Whatever a
    pass answers, whatever fails in it and whatever other processes do that
    keeps the same promise: every operation marked reported has its report in
    the outbox. *)
Theorem reported_operations_are_queued (e : reparse_engine X) (w w' : world atables) (r : result reparse_error nat) :
  process_pending_once e w = (r, w') → others_ok keeps_informed w →
  told (w_tables w) → told (w_tables w').
Proof.
  intros Hrun Ho. enough (Hs : stable (respects keeps_informed) (process_pending_once e)) by apply (Hs _ _ _ Hrun Ho).
  apply stable_bind; [apply _|apply query_keeps_informed|intros [p|]; [apply process_run_keeps_informed|apply stable_ret, _]].
Qed.

(** *** The summary an import leaves *)

Lemma report_of_run_unique run_id (t : atables) row :
  (∃ id, ev_reports (at_evidence t) !! id = Some row ∧ rp_import_run_id row = run_id) →
  (∀ id' row', ev_reports (at_evidence t) !! id' = Some row' → rp_import_run_id row' = run_id → row' = row) →
  report_of_run run_id t = Some row.
Proof.
  intros (id & Hid & Hr) Hu. unfold report_of_run. destruct (find _ _) as [[id' row']|] eqn:E; cbn.
  - apply find_some in E as [Hin%list_elem_of_In%elem_of_map_to_list Hr'%String.eqb_eq]. f_equal. by eapply Hu.
  - eapply find_none in E; [|apply list_elem_of_In, elem_of_map_to_list; exact Hid]. cbn in E. by rewrite Hr, String.eqb_refl in E.
Qed.

Lemma no_report_of_run run_id (t : atables) :
  report_of_run run_id t = None → ∀ id row, ev_reports (at_evidence t) !! id = Some row → rp_import_run_id row ≠ run_id.
Proof.
  unfold report_of_run. intros Hn id row Hid Hr. destruct (find _ _) eqn:E; [done|].
  eapply find_none in E; [|apply list_elem_of_In, elem_of_map_to_list; exact Hid]. cbn in E. by rewrite Hr, String.eqb_refl in E.
Qed.

Lemma stored_count_number members name n :
  (n ≤ u32_max)%N → obj_get name members = Some (number n) → stored_count (JObject members) name = n.
Proof.
  intros Hn Hm. unfold stored_count. cbn [as_object mbind option_bind].
  rewrite Hm. unfold number. by rewrite (proj2 (N.leb_le _ _) Hn).
Qed.

Lemma counts_read_back (s : import_summary) n :
  (is_conversation_count s ≤ u32_max)%N → (is_message_count s ≤ u32_max)%N → (is_asset_count s ≤ u32_max)%N →
  (is_gap_count s ≤ u32_max)%N → (n ≤ u32_max)%N →
  let counts := set_member "facts_too_large" (number n) (counts_json s) in
  stored_count counts "conversations" = is_conversation_count s ∧
  stored_count counts "messages" = is_message_count s ∧ stored_count counts "assets" = is_asset_count s ∧
  stored_count counts "gaps" = is_gap_count s ∧ stored_count counts "facts_too_large" = n.
Proof.
  intros. unfold set_member, counts_json. split_and!; apply stored_count_number; done || reflexivity.
Qed.

Lemma clamp_u32_bound n : (clamp_u32 n ≤ u32_max)%N.
Proof. unfold clamp_u32. lia. Qed.

(** The row of an import, read as a late correlation reads it. *)
Lemma summary_read_back run_id parsed (gaps : list ai_gap) encoded n :
  (n ≤ u32_max)%N →
  let s := import_summary_of parsed (length gaps) in
  let row := report_row_of run_id parsed s encoded in
  summary_of_report (ReportRow (rp_import_run_id row) (rp_status row) (set_member "facts_too_large" (number n) (rp_counts row))
    (rp_warnings row) (rp_gaps row) (rp_missing_assets row) (rp_unknown_variants row)) = with_facts_too_large n s.
Proof.
  intros Hn. cbn zeta. unfold summary_of_report, report_row_of, with_facts_too_large. cbn [rp_status rp_counts rp_warnings].
  destruct (counts_read_back (import_summary_of parsed (length gaps)) n) as (-> & -> & -> & -> & ->);
    [apply clamp_u32_bound..|done|].
  unfold import_summary_of. cbn. by destruct (length gaps =? 0).
Qed.

Lemma enqueue_queue_bound (s : fact_scope) queue : ∀ o w out w',
  enqueue_queue (V := V) (R := R) s queue o w = (Ok out, w') →
  (po_too_large o ≤ u32_max)%N → (po_too_large out ≤ u32_max)%N.
Proof.
  induction queue as [|c queue IH]; intros o w out w' Hrun Ho; [by injection Hrun as <- _|].
  apply sbind_Ok_inv in Hrun as (size & w1 & _ & Hrun). case_match.
  - apply IH in Hrun; [done|]. cbn. lia.
  - apply sbind_Ok_inv in Hrun as (added & w2 & _ & Hrun). apply IH in Hrun; [done|]. by destruct added.
Qed.

Lemma project_import_facts_bound owners (s : fact_scope) w out w' :
  project_import_facts sha256_hex new_uuid render pg_render render_instant collate (V := V) (R := R) decode_ref owners s w
    = (Ok out, w') → (po_too_large out ≤ u32_max)%N.
Proof.
  intros (owner & w1 & _ & Hrun)%sbind_Ok_inv. destruct owner as [owner|]; [|by injection Hrun as <- _].
  apply sbind_Ok_inv in Hrun as ([import digest] & w2 & _ & Hrun).
  apply sbind_Ok_inv in Hrun as (projects & w3 & _ & Hrun). apply sbind_Ok_inv in Hrun as (conversations & w4 & _ & Hrun).
  apply sbind_Ok_inv in Hrun as (head & w5 & _ & Hrun). by eapply enqueue_queue_bound in Hrun.
Qed.

Lemma report_of_run_inserted run_id id row n (t t' : atables) :
  report_of_run run_id t = None → rp_import_run_id row = run_id →
  ev_reports (at_evidence t') = too_large_counted run_id n <$> <[id := row]> (ev_reports (at_evidence t)) →
  report_of_run run_id t' = Some (too_large_counted run_id n row).
Proof.
  intros Hnone Hrow Et. apply report_of_run_unique; rewrite Et.
  - exists id. rewrite lookup_fmap, lookup_insert_eq. split; [done|]. unfold too_large_counted. by case_match.
  - intros id' row'. rewrite lookup_fmap, fmap_Some. intros (row0 & [[_ <-]|[_ Hold]]%lookup_insert_Some & ->); [done|].
    intros Hr. exfalso. apply (no_report_of_run _ _ Hnone _ _ Hold). revert Hr. unfold too_large_counted. by case_match.
Qed.

(** The tables between the persisted records and the reports. *)
Lemma write_import_report (e : reparse_engine X) run_id archive_id plan stored gaps w w' :
  write_import e run_id archive_id plan stored gaps (import_summary_of (rpl_parsed plan) (length gaps)) w = (Ok tt, w') →
  report_of_run run_id (w_tables w) = None → is_Some (ev_import_runs (at_evidence (w_tables w)) !! run_id) →
  ∃ n row r, (n ≤ u32_max)%N ∧ report_of_run run_id (w_tables w') = Some row ∧
    summary_of_report row = with_facts_too_large n (import_summary_of (rpl_parsed plan) (length gaps)) ∧
    ev_import_runs (at_evidence (w_tables w')) !! run_id = Some r ∧
    rn_state r = terminal_state (is_completeness (import_summary_of (rpl_parsed plan) (length gaps))).
Proof.
  set (s := import_summary_of _ _).
  intros ([] & w1 & H1 & Hrun)%sbind_Ok_inv Hnone Hsome.
  eapply (persist_artifacts_replaying _ _ _ _ _ _ _ (λ _, False)) in H1 as [_ _ _ H1%ry_rest].
  apply sbind_Ok_inv in Hrun as ([] & w2 & (_ & _ & [H2 _])%persist_projection_accrete & Hrun).
  assert (Hev : ev_reports (at_evidence (w_tables w2)) = ev_reports (at_evidence (w_tables w)) ∧
    ev_import_runs (at_evidence (w_tables w2)) = ev_import_runs (at_evidence (w_tables w))) by by rewrite H2, H1.
  destruct Hev as [Erep Eruns]. clear H1 H2.
  apply sbind_Ok_inv in Hrun as (id & w3 & H3 & Hrun).
  assert (E3 : w_tables w3 = w_tables w2) by by injection H3 as _ <-. clear H3. rewrite <-E3 in Erep, Eruns.
  apply sbind_Ok_inv in Hrun as (encoded & w4 & [_ ->]%slift_ok_or_Ok & Hrun).
  apply sbind_Ok_inv in Hrun as ([] & w5 & H5%smap_err_Ok_inv & Hrun). apply statement_writing_Ok in H5 as [H5 _].
  apply sbind_Ok_inv in Hrun as ([] & w6 & H6%smap_err_Ok_inv & Hrun). apply statement_write_Ok in H6 as [H6 _].
  apply sbind_Ok_inv in Hrun as (projected & w7 & H7%smap_err_Ok_inv & Hrun).
  exists (po_too_large projected). pose proof (project_import_facts_bound _ _ _ _ _ H7) as Hn.
  apply project_import_facts_queues in H7 as (_ & _ & [E7 _ _]).
  apply sbind_Ok_inv in Hrun as ([] & w8 & H8%smap_err_Ok_inv & Hrun). apply statement_write_Ok in H8 as [H8 _].
  apply sbind_Ok_inv in Hrun as (ks & w9 & H9%smap_err_Ok_inv & Hrun). apply statement_reading_Ok in H9 as [_ E9].
  apply report_each_Ok in Hrun as [E10 _].
  assert (Hend : ev_import_runs (at_evidence (w_tables w')) = ev_import_runs (at_evidence (w_tables w6)) ∧
    ev_reports (at_evidence (w_tables w')) = too_large_counted run_id (po_too_large projected) <$>
      ev_reports (at_evidence (w_tables w6))).
  { rewrite E10, E9, H8. cbn. rewrite E7. cbn. by split. }
  destruct Hend as [Eruns' Erep']. cbn in H5. destruct (existsb _ _) eqn:Eno.
  { exfalso. apply existsb_exists in Eno as ([i row] & Hin%list_elem_of_In%elem_of_map_to_list & Hr%String.eqb_eq).
    rewrite Erep in Hin. by eapply (no_report_of_run _ _ Hnone). }
  destruct (ev_reports _ !! _) eqn:Efree; [done|]. injection H5 as H5.
  destruct Hsome as [r Hr]. exists (too_large_counted run_id (po_too_large projected)
    (report_row_of run_id (rpl_parsed plan) s encoded)). eexists. split; [done|]. split; [|split; [|split]].
  - eapply (report_of_run_inserted run_id (new_uuid id)); [exact Hnone|reflexivity|].
    rewrite Erep', H6. cbn. rewrite <-H5. cbn. by rewrite Erep.
  - unfold too_large_counted. cbn [rp_import_run_id report_row_of]. rewrite String.eqb_refl.
    by apply (summary_read_back run_id (rpl_parsed plan) gaps encoded).
  - rewrite Eruns', H6. cbn. rewrite lookup_alter_eq, <-H5. cbn. by rewrite Eruns, Hr.
  - reflexivity.
Qed.

Lemma gap_of_length present kind detail affected gaps :
  gap_of present kind detail affected = Ok gaps → length gaps = if present then 1 else 0.
Proof.
  unfold gap_of. destruct present; [|by intros [= <-]]. destruct (parse_gap_kind kind); [|done].
  destruct (parse_safe_message detail); [|done]. by intros [= <-].
Qed.

(** Complete is what left nothing out. *)
Lemma import_gaps_complete parsed gaps :
  import_gaps parsed = Ok gaps →
  is_completeness (import_summary_of parsed (length gaps)) = Complete ↔
    pcs_raw_records parsed = [] ∧ ∀ a, a ∈ pcs_assets parsed → pa_blob a ≠ None.
Proof.
  unfold import_gaps. destruct (gap_of _ "unrecognized_record" _ _) as [g1|] eqn:E1; [|done].
  destruct (gap_of _ "missing_file" _ _) as [g2|] eqn:E2; [|done]. intros [= <-].
  apply gap_of_length in E1. apply gap_of_length in E2. unfold import_summary_of. cbn [is_completeness].
  rewrite length_app, E1, E2. unfold unavailable_assets.
  assert (Hempty : filter (λ a, has_no_blob a = true) (pcs_assets parsed) = [] ↔ ∀ a, a ∈ pcs_assets parsed → pa_blob a ≠ None).
  { split.
    - intros En a Ha Hb. apply (not_elem_of_nil a). rewrite <-En. apply list_elem_of_filter. split; [|done].
      unfold has_no_blob. by rewrite Hb.
    - intros Hall. destruct (filter _ _) as [|a l] eqn:En; [done|]. exfalso.
      assert (Ha : a ∈ a :: l) by by left. rewrite <-En in Ha. apply list_elem_of_filter in Ha as [Hn Ha].
      apply Hall in Ha. unfold has_no_blob in Hn. by destruct (pa_blob a). }
  rewrite <-Hempty. destruct (pcs_raw_records parsed), (filter _ _); cbn; split; try done; by intros [].
Qed.

End pass_laws.

(** ** Closed examples *)

Module ImportWitness.
Import ReparseWitness.
#[local] Existing Instance ContractsWitness.contracts.

Definition told_status (s : operation_status) : string :=
  match s with Succeeded => "succeeded" | PartiallySucceeded => "partially_succeeded" | OperationFailed => "failed" end.

#[export] Instance operation_contracts : OperationContracts string string := {|
  parse_archive_id := Some; parse_operation_id := Some;
  entity_of_archive := λ id, "archive/" +:+ id; entity_of_operation := λ id, "operation/" +:+ id;
  parse_archive_provider := Some; parse_result_kind := Some; parse_error_code := Some; parse_safe_message := Some;
  parse_gap_kind := Some;
  incomplete_import_warning := WarningEnvelope "ai_archive.import.incomplete" "incomplete";
  gaps_json := λ gaps, Some (JArray ((λ g, JString (ga_kind g)) <$> gaps));
  report_envelope := λ id now operation, Some (EventEnvelope id OPERATION_REPORTED now operation id "" []);
  set_report := λ e report, Some (EventEnvelope (en_event_id e) (en_event_type e) (en_occurred_at e) (en_aggregate_id e)
    (en_correlation_id e) (en_tenant_id e) [("status", JString (told_status (or_status report)))]);
  stored_envelope_json := λ e, Some (JObject (en_payload e));
|}.

(** One received archive, bound to one operation; a parser that takes it. *)
Definition received : atables blob_ref unit :=
  ATables {[ "tenant" := Some "account" ]}
    (Evidence {[ "x1" := ArchiveExport "a1" "tenant" "consumer_export" package 10 ]} ∅
       {[ "i1" := RunRow (Some "x1") None None None "stored" 10 None ]} ∅ ∅
       {[ "op1" := OperationRow "i1" "x1" None ]} ∅ ∅)
    (Normalized ∅ ∅ ∅ ∅ ∅ ∅ ∅ ∅ ∅) (Workflow ∅ ∅ ∅) ∅ (OTables ∅ 1 100 ∅) ∅.

Definition arrived : world (atables blob_ref unit) := World (w_disk start) (Database received [] [] [] []) 7.

Definition parsers : list (registered_parser unit) :=
  [RegisteredParser (ParserRegistration target [ConsumerExport] ∅) (Some ())].
Definition importer : reparse_engine unit :=
  ReparseEngine blobs parsers (ArchiveLimits 9 9 9 9 9) (OwnerResolver {[ "account" := "alice" ]}) 1000.

Definition pass : reparse_engine unit → world (atables blob_ref unit) →
    result reparse_error nat * world (atables blob_ref unit) :=
  process_pending_once to_string fake_sha (λ _, true) (λ _, "?") (λ _ _, ZipSource []) (λ _, None)
    pretty to_string pretty pretty String.compare (λ n, n) pretty Some Some (λ _, Some JNull) (λ _, Some JNull)
    (λ (_ : unit) _ _, sret parsed).

Definition passed : result reparse_error nat * world (atables blob_ref unit) := pass importer arrived.

Lemma passed_Ok : pass importer arrived = (Ok 1, passed.2).
Proof.
  assert (Hb : match passed.1 with Ok n => Nat.eqb n 1 | Err _ => false end = true) by evaluates.
  revert Hb. unfold passed. destruct (pass importer arrived) as [[n|err] w]; [|discriminate].
  cbn [fst snd]. by intros ->%Nat.eqb_eq.
Qed.

Lemma import_pass_settles_witness :
  ∃ run_id, head (pending_ids (w_tables arrived)) = Some run_id ∧
    settles run_id (w_tables arrived) (w_tables passed.2).
Proof.
  destruct (import_pass_settles to_string fake_sha (λ _, true) (λ _, "?") (λ _ _, ZipSource []) (λ _, None)
    pretty to_string pretty pretty String.compare (λ n, n) pretty Some Some (λ _, Some JNull) (λ _, Some JNull)
    (λ (_ : unit) _ _, sret parsed) importer arrived passed.2 1) as [(Hn & _)|(_ & run_id & Hh & _ & Hs)];
    [exact passed_Ok|reflexivity|discriminate Hn|].
  exists run_id. split; [exact Hh|exact Hs].
Defined.

Lemma received_told : told received.
Proof.
  split; [split; intros id row; cbn; by rewrite lookup_empty|].
  intros k o Hk. cbn in Hk. apply lookup_singleton_Some in Hk as [_ <-]. done.
Qed.

Lemma reported_operations_are_queued_witness : told (w_tables passed.2).
Proof.
  apply (reported_operations_are_queued to_string fake_sha (λ _, true) (λ _, "?") (λ _ _, ZipSource []) (λ _, None)
    pretty to_string pretty pretty String.compare (λ n, n) pretty Some Some (λ _, Some JNull) (λ _, Some JNull)
    (λ (_ : unit) _ _, sret parsed) importer arrived passed.2 (Ok 1));
    [exact passed_Ok|constructor|exact received_told].
Defined.

Definition first_plan : reparse_plan :=
  ReparsePlan (compare to_string fake_sha "a1" target "abzip" [] parsed) "" "" "tenant" "x1" package inventory [] parsed.

Definition persist : reparse_engine unit → world (atables blob_ref unit) →
    result reparse_error unit * world (atables blob_ref unit) := λ e,
  persist_initial_plan to_string fake_sha (λ _, true) pretty to_string pretty pretty String.compare (λ n, n) pretty
    Some Some (λ _, Some JNull) (λ _, Some JNull) e "i1" "a1" first_plan [].
Definition persisted := persist importer arrived.

End ImportWitness.
