(* ===== verification/DeletionPlan.v ===== *)
(** * Planning a privacy deletion ([privacy_deletion/model.rs],
      [privacy_deletion/service.rs])

    The deterministic, content-free inventory of a deletion: which rows go,
    which bytes are erased, which subjects get a tombstone. *)

From S2P Require Import Prelude BTree Disk BlobStore Json Postgres OutboxTable ArchiveTables ArchiveEvents.
From S2P Require Import ContractProjection.

#[local] Open Scope result_scope.

(** ** The model ([model.rs]) *)

Inductive privacy_deletion_scope : Set :=
| ArchiveScope (ai_archive_id : uuid) | ConversationScope (conversation_id : uuid) | TenantScope.

Inductive deletion_action : Set := Erase | Remove | RetainShared | RetainEvidenced | EmitTombstone.

#[global] Instance deletion_action_eq_dec : EqDecision deletion_action.
Proof. solve_decision. Defined.

(** The order the derive gives. *)
Definition action_rank (a : deletion_action) : nat :=
  match a with Erase => 0 | Remove => 1 | RetainShared => 2 | RetainEvidenced => 3 | EmitTombstone => 4 end.

#[global] Instance deletion_action_ord : Ord deletion_action := λ a b, Nat.compare (action_rank a) (action_rank b).

#[global] Instance action_rank_inj : Inj (=) (=) action_rank.
Proof. by intros [] []. Qed.

#[global] Instance deletion_action_ord_laws : OrdLaws deletion_action.
Proof. exact (cmp_on_laws action_rank). Qed.

Definition action_as_str (a : deletion_action) : string :=
  match a with
  | Erase => "erase" | Remove => "remove" | RetainShared => "retain_shared"
  | RetainEvidenced => "retain_evidenced" | EmitTombstone => "emit_tombstone"
  end.

Definition action_parse (value : string) : option deletion_action :=
  if String.eqb value "erase" then Some Erase
  else if String.eqb value "remove" then Some Remove
  else if String.eqb value "retain_shared" then Some RetainShared
  else if String.eqb value "retain_evidenced" then Some RetainEvidenced
  else if String.eqb value "emit_tombstone" then Some EmitTombstone
  else None.

Record deletion_inventory_item : Set := DeletionInventoryItem {
  di_category : string;
  di_opaque_id : string;
  di_action : deletion_action;
}.

#[global] Instance deletion_inventory_item_eq_dec : EqDecision deletion_inventory_item.
Proof. solve_decision. Defined.

Record deletion_plan : Set := DeletionPlan {
  dp_request_id : uuid;
  dp_tenant_id : uuid;
  dp_scope : privacy_deletion_scope;
  dp_items : list deletion_inventory_item;
  dp_totals : list (string * N);
}.

Definition item_key (i : deletion_inventory_item) : string * (string * deletion_action) :=
  (di_category i, (di_opaque_id i, di_action i)).

Definition count_item (totals : list (string * N)) (i : deletion_inventory_item) : list (string * N) :=
  bt_upd (di_category i) (λ n, (default 0 n + 1)%N) totals.

Definition plan_new (request_id tenant_id : uuid) (scope : privacy_deletion_scope)
    (items : list deletion_inventory_item) : deletion_plan :=
  let items := sort_by (cmp_on item_key) items in
  DeletionPlan request_id tenant_id scope items (foldl count_item [] items).

Inductive deletion_status : Set := Completed.

Record deletion_report (B : Type) : Type := DeletionReport {
  dr_request_id : uuid;
  dr_status : deletion_status;
  dr_totals : list (string * N);
  dr_evidence_ref : B;
  dr_completed_at : string;
}.
Arguments DeletionReport {B} _ _ _ _ _.
Arguments dr_request_id {B} _.
Arguments dr_status {B} _.
Arguments dr_totals {B} _.
Arguments dr_evidence_ref {B} _.
Arguments dr_completed_at {B} _.

(** ** Errors ([service.rs]) *)

(** [E] is the blob store's error. *)
Inductive privacy_deletion_error (E : Type) : Type :=
| Store | Conflict | InvalidInventory | Blob (e : E) | Encode | Tombstone (e : outbox_error)
| Reannounce (e : projection_error) | StreamErasure | InjectedFinalization.
Arguments Store {E}.
Arguments Conflict {E}.
Arguments InvalidInventory {E}.
Arguments Blob {E} _.
Arguments Encode {E}.
Arguments Tombstone {E} _.
Arguments Reannounce {E} _.
Arguments StreamErasure {E}.
Arguments InjectedFinalization {E}.

(** ** The inventory *)

Record selected_export (V : Type) : Type := SelectedExport {
  se_id : uuid;
  se_ai_archive_id : uuid;
  se_blob_ref : V;
}.
Arguments SelectedExport {V} _ _ _.
Arguments se_id {V} _.
Arguments se_ai_archive_id {V} _.
Arguments se_blob_ref {V} _.

Record inventory (V : Type) : Type := Inventory {
  iv_items : list deletion_inventory_item;
  iv_blob_refs : gmap (string * string) V;
}.
Arguments Inventory {V} _ _.
Arguments iv_items {V} _.
Arguments iv_blob_refs {V} _.

Definition push {V} (category id : string) (action : deletion_action) (i : inventory V) : inventory V :=
  Inventory (iv_items i ++ [DeletionInventoryItem category id action]) (iv_blob_refs i).

Definition push_blob {V} (category id : string) (action : deletion_action) (blob_ref : V)
    (i : inventory V) : inventory V :=
  push category id action (Inventory (iv_items i) (<[(category, id) := blob_ref]> (iv_blob_refs i))).

(** Pushing every one of a list. *)
Definition push_all {V} (category : string) (action : deletion_action) (ids : list string)
    (i : inventory V) : inventory V :=
  foldl (λ i id, push category id action i) i ids.

Definition scope_parts (scope : privacy_deletion_scope) : string * option uuid :=
  match scope with
  | ArchiveScope id => ("archive", Some id)
  | ConversationScope id => ("conversation", Some id)
  | TenantScope => ("tenant", None)
  end.

Section plan.
Context {V R E : Type} `{EqDecision V}.

#[local] Abbreviation atables := (atables V R).
#[local] Abbreviation sql A := (atables → result sql_error (A * atables)).
#[local] Abbreviation tx := (sm (world atables) (privacy_deletion_error E)).
#[local] Abbreviation inventory := (inventory V).

(** A statement, its error as [PrivacyDeletionError::Store]. *)
Definition run {A} (op : sql A) : tx A := smap_err (λ _, Store) (statement op).
Definition ask {A} (f : atables → A) : tx A := run (reading f).

Definition is_tenant (scope : privacy_deletion_scope) : bool :=
  match scope with TenantScope => true | _ => false end.
Definition is_archive (scope : privacy_deletion_scope) : bool :=
  match scope with ArchiveScope _ => true | _ => false end.

(** ** The exports in scope *)

Definition lock_tenant (tenant_id : uuid) : tx unit :=
  smap_err (λ _, Store) (take_lock tenant_id).

(** Some export of the list observed the entity. *)
Definition observed_by (n : normalized V) (kind : string) (entity : uuid) (export_id : uuid) : bool :=
  bool_decide (is_Some (nm_observations n !! (export_id, kind, entity))).

Definition exports_where (P : uuid → archive_export V → bool) (t : atables) : list (selected_export V) :=
  (λ r, SelectedExport r.1 (xp_ai_archive_id r.2) (xp_blob_ref r.2)) <$>
    filter (λ r : uuid * archive_export V, P r.1 r.2 = true) (rows_by_key (ev_exports (at_evidence t))).

Definition account_exists (tenant_id : uuid) (t : atables) : bool :=
  bool_decide (is_Some (at_accounts t !! tenant_id)).

Definition owns_conversation (tenant_id conversation_id : uuid) (t : atables) : bool :=
  match nm_conversations (at_normalized t) !! conversation_id with
  | Some c => bool_decide (cnv_account_id c = Some tenant_id)
  | None => false
  end.

Definition exports_of_archive (tenant_id ai_archive_id : uuid) : atables → list (selected_export V) :=
  exports_where (λ _ x, String.eqb (xp_account_id x) tenant_id && String.eqb (xp_ai_archive_id x) ai_archive_id).

Definition exports_of_conversation (tenant_id conversation_id : uuid) (t : atables)
    : list (selected_export V) :=
  exports_where (λ id x, String.eqb (xp_account_id x) tenant_id
    && observed_by (at_normalized t) "conversation" conversation_id id) t.

Definition exports_of_tenant (tenant_id : uuid) : atables → list (selected_export V) :=
  exports_where (λ _ x, String.eqb (xp_account_id x) tenant_id).

Definition selected_exports (tenant_id : uuid) (scope : privacy_deletion_scope)
    : tx (option (list (selected_export V))) :=
  let! tenant_exists := ask (account_exists tenant_id) in
  if negb tenant_exists then sret None
  else
    match scope with
    | ArchiveScope ai_archive_id =>
        let! rows := ask (exports_of_archive tenant_id ai_archive_id) in
        sret (match rows with [] => None | _ => Some rows end)
    | ConversationScope conversation_id =>
        let! owned := ask (owns_conversation tenant_id conversation_id) in
        if negb owned then sret None
        else let! rows := ask (exports_of_conversation tenant_id conversation_id) in sret (Some rows)
    | TenantScope => let! rows := ask (exports_of_tenant tenant_id) in sret (Some rows)
    end.

(** ** Bytes that stay *)

(** A row outside the selection names the same blob. *)
Definition blob_shared (exports : list uuid) (blob_ref : V) (t : atables) : bool :=
  existsb (λ r : uuid * archive_export V, negb (bool_decide (r.1 ∈ exports)) && bool_decide (xp_blob_ref r.2 = blob_ref))
    (map_to_list (ev_exports (at_evidence t)))
  || existsb (λ r : uuid * artifact_row V, negb (bool_decide (ar_export_id r.2 ∈ exports)) && bool_decide (ar_blob_ref r.2 = blob_ref))
    (map_to_list (ev_artifacts (at_evidence t))).

Definition source_blob_is_shared (exports : list uuid) (blob_ref : V) : tx bool :=
  ask (blob_shared exports blob_ref).

Definition blob_action_of (shared : bool) : deletion_action := if shared then RetainShared else Erase.

(** The exports of the selection with their raw bytes. *)
Fixpoint add_exports (ids : list uuid) (exports : list (selected_export V)) (i : inventory) : tx inventory :=
  match exports with
  | [] => sret i
  | x :: rest =>
      let i := push "export" (se_id x) Remove i in
      let! shared := source_blob_is_shared ids (se_blob_ref x) in
      add_exports ids rest
        (push_blob "raw_archive_blob" (se_id x) (blob_action_of shared) (se_blob_ref x) i)
  end.

(** ** Source rows *)

Definition observations_of (exports : list uuid) (t : atables) : list observation_key :=
  filter (λ k : observation_key, k.1.1 ∈ exports) (rows_by_key (nm_observations (at_normalized t))).*1.

Definition observation_id (k : observation_key) : string :=
  k.1.1 +:+ String ":" (k.1.2 +:+ String ":" k.2).

Definition artifacts_of (exports : list uuid) (t : atables) : list (uuid * V) :=
  (λ r, (r.1, ar_blob_ref r.2)) <$>
    filter (λ r : uuid * artifact_row V, ar_export_id r.2 ∈ exports) (rows_by_key (ev_artifacts (at_evidence t))).

Fixpoint add_artifacts (exports : list uuid) (artifacts : list (uuid * V)) (i : inventory) : tx inventory :=
  match artifacts with
  | [] => sret i
  | (id, blob_ref) :: rest =>
      let i := push "extracted_artifact" id Remove i in
      let! shared := source_blob_is_shared exports blob_ref in
      add_artifacts exports rest
        (push_blob "extracted_artifact_blob" id (blob_action_of shared) blob_ref i)
  end.

Definition in_exports (exports : list uuid) (e : option uuid) : bool :=
  match e with Some e => bool_decide (e ∈ exports) | None => false end.

Definition import_runs_of (exports : list uuid) (t : atables) : list uuid :=
  ids_where (λ r, in_exports exports (rn_export_id r)) (ev_import_runs (at_evidence t)).

Definition reports_of (exports : list uuid) (t : atables) : list uuid :=
  ids_where (λ r, bool_decide (rp_import_run_id r ∈ import_runs_of exports t)) (ev_reports (at_evidence t)).

Definition raw_records_of (exports : list uuid) (t : atables) : list uuid :=
  ids_where (λ x, bool_decide (x ∈ exports)) (ev_raw_records (at_evidence t)).

Definition operations_of (exports : list uuid) (t : atables) : list uuid :=
  ids_where (λ o, bool_decide (oi_export_id o ∈ exports) || bool_decide (oi_import_run_id o ∈ import_runs_of exports t))
    (ev_operations (at_evidence t)).

Definition reparse_runs_of (exports : list uuid) (t : atables) : list uuid :=
  ids_where (λ r, bool_decide (rr_export_id r ∈ exports)) (ev_reparse_runs (at_evidence t)).

Definition add_source_rows (exports : list uuid) (i : inventory) : tx inventory :=
  let! observations := ask (observations_of exports) in
  let i := push_all "export_observation" Remove (observation_id <$> observations) i in
  let! artifacts := ask (artifacts_of exports) in
  let! i := add_artifacts exports artifacts i in
  let! runs := ask (import_runs_of exports) in
  let i := push_all "import_run" Remove runs i in
  let! reports := ask (reports_of exports) in
  let i := push_all "completeness_report" Remove reports i in
  let! records := ask (raw_records_of exports) in
  let i := push_all "raw_record" Remove records i in
  let! operations := ask (operations_of exports) in
  let i := push_all "platform_operation_import" Remove operations i in
  let! reparses := ask (reparse_runs_of exports) in
  sret (push_all "reparse_run" Remove reparses i).

(** ** Normalized rows *)

Definition observed_entities (exports : list uuid) (kind : string) (t : atables) : list uuid :=
  (filter (λ k : observation_key, k.1.1 ∈ exports ∧ k.1.2 = kind)
     (map_to_list (nm_observations (at_normalized t))).*1).*2.

Definition owned_entities (tenant_id : uuid) (kind : string) (t : atables) : list uuid :=
  let n := at_normalized t in
  if String.eqb kind "project" then
    ids_where (λ p, bool_decide (prj_account_id p = Some tenant_id)) (nm_projects n)
  else if String.eqb kind "conversation" then
    ids_where (λ c, bool_decide (cnv_account_id c = Some tenant_id)) (nm_conversations n)
  else if String.eqb kind "message" then
    ids_where (λ m, owns_conversation tenant_id (ms_conversation_id m) t) (nm_messages n)
  else if String.eqb kind "asset" then
    ids_where (λ a, match x ← ast_observed_in a; ev_exports (at_evidence t) !! x with
                    | Some x => String.eqb (xp_account_id x) tenant_id
                    | None => false
                    end) (nm_assets n)
  else [].

(** A [BTreeSet] of the identities, in order. *)
Definition entity_ids (exports : list uuid) (tenant_id : uuid) (scope : privacy_deletion_scope)
    (kind : string) : tx (list uuid) :=
  let! observed := ask (observed_entities exports kind) in
  let ids := match scope with
             | ConversationScope id => if String.eqb kind "conversation" then id :: observed else observed
             | _ => observed
             end in
  if is_tenant scope && existsb (String.eqb kind) ["project"; "conversation"; "message"; "asset"] then
    let! owned := ask (owned_entities tenant_id kind) in
    sret (bt_keys (bset_of_list (ids ++ owned)))
  else sret (bt_keys (bset_of_list ids)).

(** An export outside the selection observed the entity. *)
Definition retained (exports : list uuid) (kind : string) (entity : uuid) (t : atables) : bool :=
  existsb (λ k : observation_key, String.eqb k.1.2 kind && String.eqb k.2 entity
             && negb (bool_decide (k.1.1 ∈ exports)))
    (map_to_list (nm_observations (at_normalized t))).*1.

Definition retained_observation (exports : list uuid) (kind : string) (entity : uuid) : tx bool :=
  ask (retained exports kind entity).

Definition entity_action (retained : bool) : deletion_action := if retained then RetainEvidenced else Remove.

(** The actions taken so far, by identity, whatever the kind. *)
Fixpoint add_entities (exports : list uuid) (category : string) (ids : list uuid)
    (acc : gmap uuid deletion_action * inventory) : tx (gmap uuid deletion_action * inventory) :=
  match ids with
  | [] => sret acc
  | id :: rest =>
      let! kept := retained_observation exports category id in
      let action := entity_action kept in
      add_entities exports category rest (<[id := action]> acc.1, push category id action acc.2)
  end.

Definition add_entity_rows (exports projects conversations messages assets : list uuid) (i : inventory)
    : tx (gmap uuid deletion_action * inventory) :=
  let! acc := add_entities exports "project" projects (∅, i) in
  let! acc := add_entities exports "conversation" conversations acc in
  let! acc := add_entities exports "message" messages acc in
  add_entities exports "asset" assets acc.

Definition child_messages (conversations : list uuid) (t : atables) : list uuid :=
  ids_where (λ m, bool_decide (ms_conversation_id m ∈ conversations)) (nm_messages (at_normalized t)).

Definition relations_of (exports messages : list uuid) (t : atables) : list uuid :=
  ids_where (λ r, bool_decide (rl_from_message_id r ∈ messages) || bool_decide (rl_to_message_id r ∈ messages)
                  || in_exports exports (rl_observed_in_export r)) (nm_relations (at_normalized t)).

Definition add_message_relations (exports messages : list uuid) (i : inventory) : tx inventory :=
  let! relations := ask (relations_of exports messages) in
  sret (push_all "message_relation" Remove relations i).

Definition parts_in (messages : list uuid) (t : atables) : list (uuid * part_row V) :=
  filter (λ r : uuid * part_row V, pt_message_id r.2 ∈ messages) (rows_by_key (nm_parts (at_normalized t))).

(** Bytes named by a row that stays are shared. *)
Definition bytes_action (a : deletion_action) : deletion_action :=
  match a with RetainEvidenced => RetainShared | _ => Erase end.

Definition push_part (actions : gmap uuid deletion_action) (i : inventory) (r : uuid * part_row V)
    : inventory :=
  let action := default Remove (actions !! pt_message_id r.2) in
  let i := push "content_part" r.1 action i in
  match pt_blob_ref r.2 with
  | Some blob_ref => push_blob "content_part_blob" r.1 (bytes_action action) blob_ref i
  | None => i
  end.

Definition add_content_parts (messages : list uuid) (actions : gmap uuid deletion_action) (i : inventory)
    : tx inventory :=
  let! parts := ask (parts_in messages) in
  sret (foldl (push_part actions) i parts).

Definition asset_blobs (assets : list uuid) (t : atables) : list (uuid * V) :=
  omap (λ r : uuid * asset_row V, if bool_decide (r.1 ∈ assets) then pair r.1 <$> ast_blob_ref r.2 else None)
    (rows_by_key (nm_assets (at_normalized t))).

Definition push_asset (actions : gmap uuid deletion_action) (i : inventory) (a : uuid * V) : inventory :=
  push_blob "asset_blob" a.1 (bytes_action (default Remove (actions !! a.1))) a.2 i.

Definition add_asset_blobs (assets : list uuid) (actions : gmap uuid deletion_action) (i : inventory)
    : tx inventory :=
  let! blobs := ask (asset_blobs assets) in
  sret (foldl (push_asset actions) i blobs).

Definition revisions_in (exports : list uuid) (t : atables) : list uuid :=
  ids_where (λ r, bool_decide (rv_observed_in r ∈ exports)) (nm_revisions (at_normalized t)).

(** [<kind>:<id>]. *)
Definition inventory_subject (kind id : string) : string := kind +:+ String ":" id.

Definition removed (actions : gmap uuid deletion_action) (id : uuid) : bool :=
  bool_decide (actions !! id = Some Remove).

Definition add_revision_and_tombstones (exports : list uuid) (tenant_id : uuid)
    (scope : privacy_deletion_scope) (projects conversations : list uuid)
    (actions : gmap uuid deletion_action) (i : inventory) : tx inventory :=
  let! revisions := ask (revisions_in exports) in
  let i := push_all "revision" Remove revisions i in
  let i := if is_tenant scope then push "account" tenant_id Remove i else i in
  let i := push_all "downstream_tombstone" EmitTombstone
             (inventory_subject "project" <$> filter (λ id, removed actions id = true) projects) i in
  sret (push_all "downstream_tombstone" EmitTombstone
          (inventory_subject "conversation" <$> filter (λ id, removed actions id = true) conversations) i).

Definition add_normalized_rows (exports : list uuid) (tenant_id : uuid) (scope : privacy_deletion_scope)
    (i : inventory) : tx inventory :=
  let! projects := entity_ids exports tenant_id scope "project" in
  let! conversations := entity_ids exports tenant_id scope "conversation" in
  let! observed := entity_ids exports tenant_id scope "message" in
  let! children := ask (child_messages conversations) in
  let messages := dedup (sort_by (cmp_on (λ m, m)) (observed ++ children)) in
  let! assets := entity_ids exports tenant_id scope "asset" in
  let! (actions, i) := add_entity_rows exports projects conversations messages assets i in
  let! i := add_message_relations exports messages i in
  let! i := add_content_parts messages actions i in
  let! i := add_asset_blobs assets actions i in
  add_revision_and_tombstones exports tenant_id scope projects conversations actions i.

(** ** Delivery rows *)

Definition inbox_of (tenant_id : uuid) (all_tenant : bool) (exports : list uuid) (t : atables) : list N :=
  ids_where (λ r : option uuid * option uuid, bool_decide (r.1 = Some tenant_id)
               && (all_tenant || in_exports exports r.2)) (at_inbox t).

(** A tombstone nobody acknowledged, and an erasure command not yet
    published: the only record of something still to be deleted. *)
Definition must_survive (row : outbox_row) : bool :=
  (String.eqb (ft_event_type row.1) TOMBSTONE_EVENT_TYPE && is_null (dl_acknowledged_at row.2))
  || (String.eqb (ft_event_type row.1) STREAM_ERASURE_COMMAND && is_null (dl_published_at row.2)).

Definition outbox_of (tenant_id : uuid) (all_tenant : bool) (exports : list uuid) (t : atables) : list N :=
  ids_where (λ r : outbox_row, bool_decide (ft_tenant_id r.1 = Some tenant_id)
               && (all_tenant || in_exports exports (ft_export_id r.1)) && negb (must_survive r))
    (ot_rows (at_outbox t)).

Definition add_delivery_rows (exports : list uuid) (tenant_id : uuid) (scope : privacy_deletion_scope)
    (i : inventory) : tx inventory :=
  let! inbox := ask (inbox_of tenant_id (is_tenant scope) exports) in
  let i := push_all "inbox_event" Remove (pretty <$> inbox) i in
  let! outbox := ask (outbox_of tenant_id (is_tenant scope) exports) in
  sret (push_all "outbox_event" Remove (pretty <$> outbox) i).

Definition add_archive_tombstones (exports : list (selected_export V)) (i : inventory) : inventory :=
  push_all "downstream_tombstone" EmitTombstone
    ((λ x, inventory_subject "archive" (se_ai_archive_id x)) <$> exports) i.

(** ** The durable plan *)

Definition insert_request (plan : deletion_plan) (kind : string) (id : option uuid) : sql unit :=
  writing (λ t,
    match wf_requests (at_workflow t) !! dp_request_id plan with
    | Some _ => None
    | None => Some (tt, on_workflow (on_requests
        <[dp_request_id plan := RequestRow (dp_tenant_id plan) kind id "planned" None None None]>) t)
    end).

(** [PRIMARY KEY (request_id, ordinal)] and
    [UNIQUE (request_id, category, opaque_id, action)]. *)
Definition insert_item (request_id : uuid) (ordinal : N) (i : deletion_inventory_item) (blob_ref : option V)
    : sql unit :=
  writing (λ t,
    let items := wf_items (at_workflow t) in
    let row := ItemRow (di_category i) (di_opaque_id i) (action_as_str (di_action i)) "planned" blob_ref in
    if bool_decide (is_Some (items !! (request_id, ordinal)))
       || existsb (λ r : (uuid * N) * item_row V, String.eqb r.1.1 request_id
            && String.eqb (it_category r.2) (it_category row) && String.eqb (it_opaque_id r.2) (it_opaque_id row)
            && String.eqb (it_action r.2) (it_action row)) (map_to_list items)
    then None
    else Some (tt, on_workflow (on_items <[(request_id, ordinal) := row]>) t)).

(** [i32::try_from(ordinal)]. *)
Definition ordinal_ok (ordinal : N) : bool := (ordinal <=? 2147483647)%N.

Fixpoint persist_items (request_id : uuid) (ordinal : N) (items : list deletion_inventory_item)
    (blob_refs : gmap (string * string) V) : tx unit :=
  match items with
  | [] => sret tt
  | i :: rest =>
      if negb (ordinal_ok ordinal) then sfail InvalidInventory
      else
        let! _ := run (insert_item request_id ordinal i (blob_refs !! (di_category i, di_opaque_id i))) in
        persist_items request_id (ordinal + 1) rest blob_refs
  end.

Definition persist_plan (plan : deletion_plan) (blob_refs : gmap (string * string) V)
    (parts : string * option uuid) : tx unit :=
  let! _ := run (insert_request plan parts.1 parts.2) in
  persist_items (dp_request_id plan) 0 (dp_items plan) blob_refs.

(** The items of a request by ordinal. *)
Definition items_of (request_id : uuid) (t : atables) : list ((uuid * N) * item_row V) :=
  filter (λ r : (uuid * N) * item_row V, r.1.1 = request_id) (rows_by_key (wf_items (at_workflow t))).

Definition read_item (row : item_row V) : result (privacy_deletion_error E) deletion_inventory_item :=
  let? action := ok_or InvalidInventory (action_parse (it_action row)) in
  Ok (DeletionInventoryItem (it_category row) (it_opaque_id row) action).

Fixpoint read_items (rows : list (item_row V)) : result (privacy_deletion_error E) (list deletion_inventory_item) :=
  match rows with
  | [] => Ok []
  | row :: rest => let? i := read_item row in let? items := read_items rest in Ok (i :: items)
  end.

Definition load_existing (tenant_id request_id : uuid) (scope : privacy_deletion_scope)
    : tx (option deletion_plan) :=
  let! existing := ask (λ t, wf_requests (at_workflow t) !! request_id) in
  match existing with
  | None => sret None
  | Some stored =>
      let '(kind, scope_id) := scope_parts scope in
      if negb (String.eqb (rq_tenant_id stored) tenant_id && String.eqb (rq_scope_kind stored) kind
               && bool_decide (rq_scope_id stored = scope_id))
      then sfail Conflict
      else
        let! rows := ask (items_of request_id) in
        let! items := slift (read_items rows.*2) in
        sret (Some (plan_new request_id tenant_id scope items))
  end.

(** The body of [plan]'s transaction; rolling back after [None] is the same
    as committing, nothing was written. *)
Definition plan_body (tenant_id request_id : uuid) (scope : privacy_deletion_scope)
    : tx (option deletion_plan) :=
  let! _ := lock_tenant tenant_id in
  let! selected := selected_exports tenant_id scope in
  match selected with
  | None => sret None
  | Some exports =>
      let! existing := load_existing tenant_id request_id scope in
      match existing with
      | Some plan => sret (Some plan)
      | None =>
          let ids := se_id <$> exports in
          let! i := add_exports ids exports (Inventory [] ∅) in
          let! i := add_source_rows ids i in
          let! i := add_normalized_rows ids tenant_id scope i in
          let! i := add_delivery_rows ids tenant_id scope i in
          let i := add_archive_tombstones exports i in
          let plan := plan_new request_id tenant_id scope (iv_items i) in
          let! _ := persist_plan plan (iv_blob_refs i) (scope_parts scope) in
          sret (Some plan)
      end
  end.

Definition plan (tenant_id request_id : uuid) (scope : privacy_deletion_scope) : tx (option deletion_plan) :=
  transaction (λ _, Store) (plan_body tenant_id request_id scope).
End plan.
