(* ===== verification/SampleArchive.v ===== *)
(** * A concrete archive

    Two exports of one tenant; a conversation only the first observed, with a
    message, and one both observed; a published fact about the first.  The
    closed examples of the deletion are run on it. *)

From S2P Require Import Prelude BTree Disk BlobStore Registry Json Parser Postgres OutboxTable StreamErasure.
From S2P Require Import ArchiveTables NormalizedStore ArchiveEvents ContractProjection DeletionPlan.

Module Sample.
Definition blob (hex media_type : string) : blob_ref :=
  BlobRef OWNER (ContentDigest Sha256 hex) media_type 3.

Definition conversation (external_id : string) (digest : string) : conversation_row :=
  ConversationRow None (Some "tenant") external_id (Some "title") (Some "x1") (Some "x1") None None None None
    (Some digest).

Definition fact_of (id : string) : fact :=
  Fact "ai_archive.conversation.added.v1" "c1" (Some "tenant") (Some "x1")
    (JObject [("event_type", JString "ai_archive.conversation.added.v1"); ("event_id", JString id);
              ("tenant_id", JString "alice")]) None None 90.

Definition archive : atables blob_ref (deletion_report blob_ref) :=
  ATables {[ "tenant" := None ]}
    (Evidence {[ "x1" := ArchiveExport "a1" "tenant" "consumer_export" (blob "abone" "application/zip") 10;
                 "x2" := ArchiveExport "a2" "tenant" "consumer_export" (blob "abtwo" "application/zip") 20 ]}
       {[ "f1" := ArtifactRow "x1" 0 "entry" (blob "abtwo" "application/zip") "abtwo" 3;
          "f2" := ArtifactRow "x1" 1 "entry" (blob "abtxt" "text/plain") "abtxt" 3 ]} ∅ ∅ ∅ ∅ ∅ ∅)
    (Normalized ∅ {[ "c1" := conversation "one" "d0"; "c2" := conversation "two" "d1" ]}
       {[ "m1" := MessageRow "c1" (Some "m") None "user" None None None None JNull ]} ∅
       {[ "p1" := PartRow "m1" 0 0 "text" (JString "text") (Some (blob "abpng" "image/png")) ]} ∅ ∅
       {[ ("x1", "conversation", "c1") := Some "d0"; ("x1", "conversation", "c2") := Some "d1";
          ("x2", "conversation", "c2") := Some "d2" ]}
       {[ ("conversation", "c1", "d0") := JNull; ("conversation", "c2", "d1") := JNull;
          ("conversation", "c2", "d2") := JNull ]})
    (Workflow ∅ ∅ ∅) ∅
    (OTables {[ 1%N := (fact_of "e1", Delivery (Some 95%N) 0 None 90 None None None 0 None [3%Z; 7%Z]) ]} 2 100
       {[ 1%N := fact_of "e1" ]})
    {[ ("conversation", "c1", "alice") := AnnouncedRow "a1" "tenant" 90;
       ("archive", "a1", "bob") := AnnouncedRow "a1" "tenant" 80 ]}.

Definition disk_of (bytes : list string) : disk :=
  Disk (list_to_map ((λ b, (object_path (BlobStore "/b") "ab" b, NFile b)) <$> bytes)) [].

Definition start : world (atables blob_ref (deletion_report blob_ref)) :=
  World (disk_of ["one"; "two"; "txt"; "png"]) (Database archive [] [] [] []) 7.

Definition request : uuid := "00000000-0000-7000-8000-0000000000aa".

(** The plan of the first export, and the world it leaves. *)
Definition planned : result (privacy_deletion_error blob_store_error) (option deletion_plan)
    * world (atables blob_ref (deletion_report blob_ref)) :=
  plan "tenant" request (ArchiveScope "a1") start.

Definition the_plan : deletion_plan :=
  match planned.1 with Ok (Some p) => p | _ => DeletionPlan request "tenant" TenantScope [] [] end.

Lemma planned_Ok : planned = (Ok (Some the_plan), planned.2).
Proof.
  assert (H : match planned.1 with Ok (Some _) => true | _ => false end = true) by evaluates.
  revert H. unfold the_plan. by destruct planned as [[[p|]|e] w].
Qed.

(** Nobody else is at work on it. *)
Lemma planned_alone : w_others planned.2 = [].
Proof.
  assert (H : match w_others planned.2 with [] => true | _ => false end = true) by evaluates.
  by destruct (w_others planned.2).
Qed.

(** What the development leaves open, chosen for the sample: a digest that
    tells contents apart, instants as numbers, snapshots of one version. *)
Definition sha256_hex (content : string) : string := "ab" +:+ content.
Definition same_path (_ : gmap string node) (path : string) : option string := Some path.
Definition new_uuid (n : N) : uuid := "minted-" +:+ pretty n.
Definition parse_uuid (s : string) : option uuid := Some s.
Definition to_string (_ : json) : string := "document".
Definition render_number (n : N) : string := pretty n.
Definition later (s : string) (_ : N) : option string := Some s.
Definition decode_project (_ : json) : option project_version := None.
Definition decode_conversation (_ : json) : option conversation_version :=
  Some (ConversationVersion (ParsedConversation "two" (Some "second") None None JNull []) None "parser" "1").
Definition some_ref (b : blob_ref) : option blob_ref := Some b.
Definition some_report (r : deletion_report blob_ref) : option (deletion_report blob_ref) := Some r.
Definition ref_json (b : blob_ref) : json := JString (cd_hex (br_digest b)).
Definition objects : blob_store := BlobStore "/b".

Definition row_before : option (request_row blob_ref (deletion_report blob_ref)) :=
  wf_requests (at_workflow (w_tables planned.2)) !! request.
End Sample.
