(* ===== verification/DeletionPlanLaws.v ===== *)
(** * What a plan lists ([privacy_deletion/service.rs])

    The inventory a deletion plan must have, stated from the tables alone
    ([planned]), and the laws of the planner: the plan is canonical, lists
    exactly that inventory, and is made once per request. *)

From S2P Require Import Prelude BTree Disk BlobStore Json Postgres OutboxTable ArchiveTables ArchiveEvents.
From S2P Require Import ContractProjection DeletionPlan SampleArchive.

#[local] Open Scope result_scope.

(** ** What a plan lists *)

Section specification.
Context {V R : Type} `{EqDecision V}.

#[local] Abbreviation atables := (atables V R).

(** The exports of a scope; [None] when the tenant or the subject is not there. *)
Definition exports_in (tenant_id : uuid) (scope : privacy_deletion_scope) (t : atables)
    : option (list (selected_export V)) :=
  if account_exists tenant_id t then
    match scope with
    | ArchiveScope id => match exports_of_archive tenant_id id t with [] => None | l => Some l end
    | ConversationScope id =>
        if owns_conversation tenant_id id t then Some (exports_of_conversation tenant_id id t) else None
    | TenantScope => Some (exports_of_tenant tenant_id t)
    end
  else None.

Context (tenant_id : uuid) (scope : privacy_deletion_scope) (exports : list (selected_export V)) (t : atables).

Definition ids : list uuid := se_id <$> exports.

(** Some export, of the plan or not. *)
Definition observed_in (export_id : uuid) (kind : string) (id : uuid) : Prop :=
  is_Some (nm_observations (at_normalized t) !! (export_id, kind, id)).

Definition record_kinds : list string := ["project"; "conversation"; "message"; "asset"].

(** The records of the tenant: a message is of its conversation's account, an
    asset of the account of the export it was observed in. *)
Inductive owned : string → uuid → Prop :=
| owned_project id p :
    nm_projects (at_normalized t) !! id = Some p → prj_account_id p = Some tenant_id → owned "project" id
| owned_conversation id c :
    nm_conversations (at_normalized t) !! id = Some c → cnv_account_id c = Some tenant_id → owned "conversation" id
| owned_message id m c :
    nm_messages (at_normalized t) !! id = Some m →
    nm_conversations (at_normalized t) !! ms_conversation_id m = Some c → cnv_account_id c = Some tenant_id →
    owned "message" id
| owned_asset id a export_id x :
    nm_assets (at_normalized t) !! id = Some a → ast_observed_in a = Some export_id →
    ev_exports (at_evidence t) !! export_id = Some x → xp_account_id x = tenant_id → owned "asset" id.

(** The records a plan decides about: those the exports observed, the
    conversation it is about, those of the tenant, and the messages of the
    conversations among them. *)
Inductive concerned : string → uuid → Prop :=
| concerned_observed kind id export_id :
    kind ∈ record_kinds → export_id ∈ ids → observed_in export_id kind id → concerned kind id
| concerned_subject id : scope = ConversationScope id → concerned "conversation" id
| concerned_owned kind id :
    scope = TenantScope → owned kind id → concerned kind id
| concerned_child conversation id m :
    concerned "conversation" conversation → nm_messages (at_normalized t) !! id = Some m →
    ms_conversation_id m = conversation → concerned "message" id.

(** Evidence of an export outside the plan. *)
Definition kept_elsewhere (kind : string) (id : uuid) : Prop := ∃ x, x ∉ ids ∧ observed_in x kind id.

(** An export outside the plan, or an artifact of one, has the bytes. *)
Definition named_elsewhere (v : V) : Prop :=
  (∃ id x, ev_exports (at_evidence t) !! id = Some x ∧ id ∉ ids ∧ xp_blob_ref x = v) ∨
  (∃ id a, ev_artifacts (at_evidence t) !! id = Some a ∧ ar_export_id a ∉ ids ∧ ar_blob_ref a = v).

(** A record goes exactly when nothing keeps it, and bytes exactly when nothing
    else has them. *)
Definition record_fate (kept : Prop) (action : deletion_action) : Prop :=
  (kept ∧ action = RetainEvidenced) ∨ (¬ kept ∧ action = Remove).

Definition bytes_fate (kept : Prop) (action : deletion_action) : Prop :=
  (kept ∧ action = RetainShared) ∨ (¬ kept ∧ action = Erase).

(** A tombstone nobody acknowledged or an erasure command nobody published. *)
Definition outstanding (row : outbox_row) : Prop :=
  (ft_event_type row.1 = TOMBSTONE_EVENT_TYPE ∧ dl_acknowledged_at row.2 = None) ∨
  (ft_event_type row.1 = STREAM_ERASURE_COMMAND ∧ dl_published_at row.2 = None).

Definition in_plan (export_id : option uuid) : Prop := ∃ x, export_id = Some x ∧ x ∈ ids.

Inductive planned : string → string → deletion_action → Prop :=
| planned_export x : x ∈ exports → planned "export" (se_id x) Remove
| planned_bytes x action :
    x ∈ exports → bytes_fate (named_elsewhere (se_blob_ref x)) action → planned "raw_archive_blob" (se_id x) action
| planned_archive x :
    x ∈ exports → planned "downstream_tombstone" (inventory_subject "archive" (se_ai_archive_id x)) EmitTombstone
| planned_observation k :
    is_Some (nm_observations (at_normalized t) !! k) → k.1.1 ∈ ids → planned "export_observation" (observation_id k) Remove
| planned_artifact id a :
    ev_artifacts (at_evidence t) !! id = Some a → ar_export_id a ∈ ids → planned "extracted_artifact" id Remove
| planned_artifact_bytes id a action :
    ev_artifacts (at_evidence t) !! id = Some a → ar_export_id a ∈ ids →
    bytes_fate (named_elsewhere (ar_blob_ref a)) action → planned "extracted_artifact_blob" id action
| planned_run id r :
    ev_import_runs (at_evidence t) !! id = Some r → in_plan (rn_export_id r) → planned "import_run" id Remove
| planned_report id p r :
    ev_reports (at_evidence t) !! id = Some p → ev_import_runs (at_evidence t) !! rp_import_run_id p = Some r →
    in_plan (rn_export_id r) → planned "completeness_report" id Remove
| planned_raw_record id x :
    ev_raw_records (at_evidence t) !! id = Some x → x ∈ ids → planned "raw_record" id Remove
| planned_operation id o :
    ev_operations (at_evidence t) !! id = Some o →
    (oi_export_id o ∈ ids ∨ ∃ r, ev_import_runs (at_evidence t) !! oi_import_run_id o = Some r ∧ in_plan (rn_export_id r)) →
    planned "platform_operation_import" id Remove
| planned_reparse id x :
    ev_reparse_runs (at_evidence t) !! id = Some x → rr_export_id x ∈ ids → planned "reparse_run" id Remove
| planned_record kind id action :
    concerned kind id → record_fate (kept_elsewhere kind id) action → planned kind id action
| planned_relation id r :
    nm_relations (at_normalized t) !! id = Some r →
    (concerned "message" (rl_from_message_id r) ∨ concerned "message" (rl_to_message_id r) ∨
     in_plan (rl_observed_in_export r)) → planned "message_relation" id Remove
| planned_part id p action :
    nm_parts (at_normalized t) !! id = Some p → concerned "message" (pt_message_id p) →
    record_fate (kept_elsewhere "message" (pt_message_id p)) action → planned "content_part" id action
| planned_part_bytes id p v action :
    nm_parts (at_normalized t) !! id = Some p → concerned "message" (pt_message_id p) → pt_blob_ref p = Some v →
    bytes_fate (kept_elsewhere "message" (pt_message_id p)) action → planned "content_part_blob" id action
| planned_asset_bytes id a v action :
    nm_assets (at_normalized t) !! id = Some a → concerned "asset" id → ast_blob_ref a = Some v →
    bytes_fate (kept_elsewhere "asset" id) action → planned "asset_blob" id action
| planned_revision id r :
    nm_revisions (at_normalized t) !! id = Some r → rv_observed_in r ∈ ids → planned "revision" id Remove
| planned_account : scope = TenantScope → planned "account" tenant_id Remove
| planned_tombstone kind id :
    kind ∈ ["project"; "conversation"] → concerned kind id → ¬ kept_elsewhere kind id →
    planned "downstream_tombstone" (inventory_subject kind id) EmitTombstone
| planned_inbox n r :
    at_inbox t !! n = Some r → r.1 = Some tenant_id → (scope = TenantScope ∨ in_plan r.2) →
    planned "inbox_event" (pretty n) Remove
| planned_outbox n row :
    ot_rows (at_outbox t) !! n = Some row → ft_tenant_id row.1 = Some tenant_id →
    (scope = TenantScope ∨ in_plan (ft_export_id row.1)) → ¬ outstanding row →
    planned "outbox_event" (pretty n) Remove.
End specification.

(** ** Laws *)

(** *** The canonical plan *)

#[global] Instance item_key_inj : Inj (=) (=) item_key.
Proof. intros [] [] [= -> -> ->]. done. Qed.

Definition count_of (category : string) (items : list deletion_inventory_item) : nat :=
  length (filter (λ i, di_category i = category) items).

Lemma count_item_get items totals category :
  bt_wf totals →
  bt_wf (foldl count_item totals items) ∧
  default 0%N (bt_get category (foldl count_item totals items)) =
    (default 0 (bt_get category totals) + N.of_nat (count_of category items))%N ∧
  (is_Some (bt_get category (foldl count_item totals items)) ↔
     is_Some (bt_get category totals) ∨ count_of category items ≠ 0).
Proof.
  revert totals. induction items as [|i items IH]; intros totals Hwf.
  { cbn. split_and!; [done|lia|naive_solver]. }
  assert (Hwf' : bt_wf (count_item totals i)) by by apply bt_upd_wf.
  destruct (IH _ Hwf') as (Hw & Hg & Hs). cbn [foldl]. split; [done|]. rewrite Hg, Hs.
  unfold count_item, count_of. rewrite (bt_get_upd _ _ _ _), filter_cons by done.
  destruct (decide (di_category i = category)) as [Ec|]; [rewrite Ec|]; cbn; split; try lia; try tauto.
  split; [intros _; right; lia|]. intros _. left. eauto.
Qed.

Lemma plan_new_perm request_id tenant_id scope items items' :
  items ≡ₚ items' → plan_new request_id tenant_id scope items = plan_new request_id tenant_id scope items'.
Proof. intros Hp. unfold plan_new. by rewrite (sort_by_canonical item_key _ _ Hp). Qed.

(** A plan is canonical: however its items were discovered, two plans of the
    same request over the same items are equal; they are in the order of
    category, identity and action, nothing is lost or added, and the totals
    count the items of exactly the categories that occur. *)
Theorem plan_new_canonical (request_id tenant_id : uuid) (scope : privacy_deletion_scope)
    (items items' : list deletion_inventory_item) :
  items ≡ₚ items' →
  let p := plan_new request_id tenant_id scope items in
  p = plan_new request_id tenant_id scope items' ∧ dp_items p ≡ₚ items ∧
  StronglySorted (λ i j, cmp (item_key i) (item_key j) ≠ Gt) (dp_items p) ∧
  ∀ category, bt_get category (dp_totals p) =
    match count_of category items with 0 => None | n => Some (N.of_nat n) end.
Proof.
  intros Hp p. unfold p, plan_new. rewrite (sort_by_canonical item_key _ _ Hp). cbn. split_and!; [done| | |].
  - by rewrite sort_by_perm.
  - apply sort_by_sorted.
  - intros category. destruct (count_item_get (sort_by (cmp_on item_key) items') [] category) as (_ & Hg & Hs); [constructor|].
    assert (E : count_of category (sort_by (cmp_on item_key) items') = count_of category items).
    { unfold count_of. by rewrite sort_by_perm, Hp. }
    rewrite E in *. cbn in Hg. destruct (count_of category items) as [|n] eqn:Ec.
    + destruct (bt_get _ _) as [x|]; [|done]. destruct Hs as [Hs _].
      by destruct (Hs ltac:(eauto)) as [[? [=]]|?].
    + destruct (bt_get _ _) as [x|]; [by f_equal|]. destruct Hs as [_ Hs].
      by destruct (Hs (or_intror (Nat.neq_succ_0 n))) as [? [=]].
Qed.

(** *** The inventory *)

Section plan_laws.
Context {V R E : Type} `{EqDecision V}.

#[local] Abbreviation atables := (atables V R).
#[local] Abbreviation tx := (sm (world atables) (privacy_deletion_error E)).
#[local] Abbreviation ask := (ask (V := V) (R := R) (E := E)).
#[local] Abbreviation item := DeletionInventoryItem.

(** A computation that only reads, and what it returns; it fails only as the
    database does. *)
Definition yields {A} (c : tx A) (P : atables → A → Prop) : Prop :=
  ∀ w r w', c w = (r, w') → w_tables w' = w_tables w ∧
    match r with Ok a => P (w_tables w) a | Err e => e = Store end.

Lemma yields_Ok {A} (c : tx A) P w a w' :
  yields c P → c w = (Ok a, w') → w_tables w' = w_tables w ∧ P (w_tables w) a.
Proof. intros Hc H. exact (Hc _ _ _ H). Qed.

Lemma yields_Err {A} (c : tx A) P w e w' :
  yields c P → c w = (Err e, w') → w_tables w' = w_tables w ∧ e = Store.
Proof. intros Hc H. exact (Hc _ _ _ H). Qed.

Lemma ask_yields {A} (f : atables → A) : yields (ask f) (λ t a, a = f t).
Proof.
  intros w r w' H. unfold ask, run, smap_err in H. destruct (statement _ w) as [x u] eqn:Es.
  pose proof (statement_inv _ _ _ _ Es) as (_ & _ & Hx). destruct x as [a|e]; injection H as <- <-; [|done].
  by apply statement_reading_Ok in Es as [-> ?].
Qed.

Lemma ret_yields {A} (a : A) : yields (sret a) (λ _ x, x = a).
Proof. by intros w x w' [= <- <-]. Qed.

Lemma yields_bind {A B} (c : tx A) (k : A → tx B) P Q :
  yields c P → (∀ a, yields (k a) (Q a)) → yields (sbind c k) (λ t b, ∃ a, P t a ∧ Q a t b).
Proof.
  intros Hc Hk w r w' [(a & w1 & [E1 HP]%Hc & [E2 HQ]%Hk)|(e & [? ?]%Hc & ->)]%sbind_inv; [|done].
  rewrite E1 in *. split; [done|]. destruct r; eauto.
Qed.

Lemma yields_bind2 {A B C} (c : tx (A * B)) (k : A → B → tx C) P Q :
  yields c P → (∀ a b, yields (k a b) (Q a b)) →
  yields (sbind c (λ ab, let '(a, b) := ab in k a b)) (λ t x, ∃ a b, P t (a, b) ∧ Q a b t x).
Proof.
  intros Hc Hk w r w' [([a b] & w1 & [E1 HP]%Hc & [E2 HQ]%Hk)|(e & [? ?]%Hc & ->)]%sbind_inv; [|done].
  rewrite E1 in *. split; [done|]. destruct r; eauto.
Qed.

Lemma yields_mono {A} (c : tx A) (P Q : atables → A → Prop) :
  yields c P → (∀ t a, P t a → Q t a) → yields c Q.
Proof. intros Hc HPQ w r w' [? ?]%Hc. split; [done|]. destruct r; eauto. Qed.

(** The items of [i'] are those of [i] and those of [new]. *)
Definition adds (new : deletion_inventory_item → Prop) (i i' : inventory V) : Prop :=
  ∀ x, x ∈ iv_items i' ↔ x ∈ iv_items i ∨ new x.

Lemma adds_trans new new' i i' i'' : adds new i i' → adds new' i' i'' → adds (λ x, new x ∨ new' x) i i''.
Proof. intros H1 H2 x. rewrite (H2 x), (H1 x). tauto. Qed.

Lemma push_adds category id action i : adds (λ x, x = item category id action) i (push category id action i).
Proof. intros x. unfold push. cbn. by rewrite elem_of_app, list_elem_of_singleton. Qed.

Lemma push_blob_adds category id action (v : V) i :
  adds (λ x, x = item category id action) i (push_blob category id action v i).
Proof. intros x. unfold push_blob, push. cbn. by rewrite elem_of_app, list_elem_of_singleton. Qed.

Lemma push_all_adds category action l i :
  adds (λ x, ∃ id, id ∈ l ∧ x = item category id action) i (push_all category action l i).
Proof.
  unfold push_all. revert i. induction l as [|id l IH]; intros i x; cbn [foldl].
  - split; [by left|]. by intros [?|(? & ?%not_elem_of_nil & _)].
  - rewrite (IH _ x), (push_adds _ _ _ _ x). setoid_rewrite elem_of_cons. naive_solver.
Qed.

Lemma ids_where_elem {I A} `{Countable I, Ord I} (P : A → bool) (m : gmap I A) id :
  id ∈ ids_where P m ↔ ∃ a, m !! id = Some a ∧ P a = true.
Proof.
  unfold ids_where, rows_by_key. rewrite list_elem_of_fmap. split.
  - intros ([i a] & -> & [HP Hin]%list_elem_of_filter). rewrite elem_of_sort_by, elem_of_map_to_list in Hin. eauto.
  - intros (a & Ha & HP). exists (id, a). split; [done|]. apply list_elem_of_filter.
    by rewrite elem_of_sort_by, elem_of_map_to_list.
Qed.

Lemma in_exports_iff (l : list uuid) o : in_exports l o = true ↔ ∃ x, o = Some x ∧ x ∈ l.
Proof. destruct o as [x|]; cbn; [rewrite bool_decide_eq_true|]; naive_solver. Qed.

(** **** Exports and source rows *)

Lemma add_exports_yields ids exports i :
  yields (add_exports (V := V) (R := R) (E := E) ids exports i) (λ t i', adds (λ x, ∃ e, e ∈ exports ∧
    (x = item "export" (se_id e) Remove ∨
     x = item "raw_archive_blob" (se_id e) (blob_action_of (blob_shared ids (se_blob_ref e) t)))) i i').
Proof.
  revert i. induction exports as [|e exports IH]; intros i.
  { eapply yields_mono; [apply ret_yields|]. intros t i' ->. intros x. split; [by left|].
    by intros [?|(? & ?%not_elem_of_nil & _)]. }
  cbn [add_exports]. eapply yields_mono; [eapply yields_bind; [apply ask_yields|intros shared; apply IH]|].
  intros t i' (shared & -> & Ha) x. rewrite (Ha x), (push_blob_adds _ _ _ _ _ x), (push_adds _ _ _ _ x).
  setoid_rewrite elem_of_cons. naive_solver.
Qed.

Lemma add_artifacts_yields ids artifacts i :
  yields (add_artifacts (V := V) (R := R) (E := E) ids artifacts i) (λ t i', adds (λ x, ∃ a, a ∈ artifacts ∧
    (x = item "extracted_artifact" a.1 Remove ∨
     x = item "extracted_artifact_blob" a.1 (blob_action_of (blob_shared ids a.2 t)))) i i').
Proof.
  revert i. induction artifacts as [|[id v] artifacts IH]; intros i.
  { eapply yields_mono; [apply ret_yields|]. intros t i' ->. intros x. split; [by left|].
    by intros [?|(? & ?%not_elem_of_nil & _)]. }
  cbn [add_artifacts]. eapply yields_mono; [eapply yields_bind; [apply ask_yields|intros shared; apply IH]|].
  intros t i' (shared & -> & Ha) x. rewrite (Ha x), (push_blob_adds _ _ _ _ _ x), (push_adds _ _ _ _ x).
  setoid_rewrite elem_of_cons. naive_solver.
Qed.

#[local] Abbreviation all category action l := (λ x, ∃ id, id ∈ l ∧ x = item category id action).

Lemma add_source_rows_yields ids i :
  yields (add_source_rows (V := V) (R := R) (E := E) ids i) (λ t i', adds (λ x,
    all "export_observation" Remove (observation_id <$> observations_of ids t) x ∨
    (∃ a, a ∈ artifacts_of ids t ∧ (x = item "extracted_artifact" a.1 Remove ∨
      x = item "extracted_artifact_blob" a.1 (blob_action_of (blob_shared ids a.2 t)))) ∨
    all "import_run" Remove (import_runs_of ids t) x ∨ all "completeness_report" Remove (reports_of ids t) x ∨
    all "raw_record" Remove (raw_records_of ids t) x ∨
    all "platform_operation_import" Remove (operations_of ids t) x ∨
    all "reparse_run" Remove (reparse_runs_of ids t) x) i i').
Proof.
  eapply yields_mono.
  - eapply yields_bind; [apply ask_yields|intros o]. eapply yields_bind; [apply ask_yields|intros a].
    eapply yields_bind; [apply add_artifacts_yields|intros i1]. eapply yields_bind; [apply ask_yields|intros r].
    eapply yields_bind; [apply ask_yields|intros rp]. eapply yields_bind; [apply ask_yields|intros rr].
    eapply yields_bind; [apply ask_yields|intros op]. eapply yields_bind; [apply ask_yields|intros re].
    apply ret_yields.
  - intros t i' (o & -> & a & -> & i1 & H1 & r & -> & rp & -> & rr & -> & op & -> & re & -> & ->) x.
    rewrite !(λ c a l i, push_all_adds c a l i x), (H1 x), (push_all_adds _ _ _ _ x). tauto.
Qed.

(** **** Records *)

Definition observed_or_subject (ids : list uuid) (tenant_id : uuid) (scope : privacy_deletion_scope) (kind : string)
    (t : atables) (id : uuid) : Prop :=
  id ∈ observed_entities ids kind t ∨ (scope = ConversationScope id ∧ kind = "conversation") ∨
  (scope = TenantScope ∧ kind ∈ record_kinds ∧ id ∈ owned_entities tenant_id kind t).

Lemma entity_ids_yields ids tenant_id scope kind :
  yields (entity_ids (V := V) (R := R) (E := E) ids tenant_id scope kind) (λ t l, NoDup l ∧
    ∀ id, id ∈ l ↔ observed_or_subject ids tenant_id scope kind t id).
Proof.
  unfold entity_ids. eapply yields_mono; [eapply yields_bind; [apply ask_yields|intros observed]|].
  - instantiate (1 := λ observed t l, ∃ more, l = bt_keys (bset_of_list
      (match scope with ConversationScope id => if String.eqb kind "conversation" then id :: observed else observed
       | _ => observed end ++ more)) ∧ ∀ id, id ∈ more ↔ scope = TenantScope ∧ kind ∈ record_kinds ∧ id ∈ owned_entities tenant_id kind t).
    cbn beta.
    assert (Hk : existsb (String.eqb kind) ["project"; "conversation"; "message"; "asset"] = true ↔ kind ∈ record_kinds).
    { rewrite existsb_exists. setoid_rewrite <-list_elem_of_In. setoid_rewrite String.eqb_eq. naive_solver. }
    destruct (is_tenant scope && _) eqn:Ht.
    + apply andb_true_iff in Ht as [Ht Hkk]. destruct scope; try done.
      eapply yields_mono; [eapply yields_bind; [apply ask_yields|intros; apply ret_yields]|].
      intros t l (owned & -> & ->). eexists. split; [done|]. intros id. rewrite <-Hk. tauto.
    + eapply yields_mono; [apply ret_yields|]. intros t l ->. exists []. rewrite app_nil_r. split; [done|].
      intros id. split; [by intros ?%not_elem_of_nil|]. intros (-> & Hkk%Hk & _). by rewrite Hkk in Ht.
  - intros t l (observed & -> & more & -> & Hm). split.
    + apply bt_keys_NoDup. unfold bset_of_list. apply bt_of_list_wf.
    + intros id. rewrite bset_keys, elem_of_app, Hm. unfold observed_or_subject.
      destruct scope; [intuition congruence| |intuition congruence]. destruct (String.eqb_spec kind "conversation") as [->|]; [|naive_solver].
      rewrite elem_of_cons. naive_solver.
Qed.

#[local] Abbreviation fate_of ids kind t := (λ id, entity_action (retained ids kind id t)).

Lemma add_entities_yields ids category l acc :
  yields (add_entities (V := V) (R := R) (E := E) ids category l acc) (λ t acc',
    adds (λ x, ∃ id, id ∈ l ∧ x = item category id (fate_of ids category t id)) acc.2 acc'.2 ∧
    ∀ id, acc'.1 !! id = if decide (id ∈ l) then Some (fate_of ids category t id) else acc.1 !! id).
Proof.
  revert acc. induction l as [|i l IH]; intros acc.
  { eapply yields_mono; [apply ret_yields|]. intros t acc' ->. split.
    - intros x. split; [by left|]. by intros [?|(? & ?%not_elem_of_nil & _)].
    - intros id. by rewrite decide_False by apply not_elem_of_nil. }
  cbn [add_entities]. eapply yields_mono; [eapply yields_bind; [apply ask_yields|intros kept; apply IH]|].
  intros t acc' (kept & -> & Ha & Hm). split.
  - intros x. cbn in Ha. rewrite (Ha x), (push_adds _ _ _ _ x). setoid_rewrite elem_of_cons. naive_solver.
  - intros id. rewrite Hm. destruct (decide (id ∈ l)); [rewrite decide_True; [done|by right]|].
    cbn. destruct (decide (id = i)) as [->|Hne]; [rewrite lookup_insert_eq, decide_True; [done|by left]|].
    rewrite lookup_insert_ne, decide_False; [done| |done]. by intros [?|?]%elem_of_cons.
Qed.

Lemma add_entity_rows_yields ids P C M A i :
  yields (add_entity_rows (V := V) (R := R) (E := E) ids P C M A i) (λ t acc,
    adds (λ x, ∃ kind id, (kind = "project" ∧ id ∈ P ∨ kind = "conversation" ∧ id ∈ C ∨
                           kind = "message" ∧ id ∈ M ∨ kind = "asset" ∧ id ∈ A) ∧
            x = item kind id (fate_of ids kind t id)) i acc.2 ∧
    ∀ id, acc.1 !! id = if decide (id ∈ A) then Some (fate_of ids "asset" t id)
                        else if decide (id ∈ M) then Some (fate_of ids "message" t id)
                        else if decide (id ∈ C) then Some (fate_of ids "conversation" t id)
                        else if decide (id ∈ P) then Some (fate_of ids "project" t id) else None).
Proof.
  eapply yields_mono.
  { eapply yields_bind; [apply add_entities_yields|intros a1]. eapply yields_bind; [apply add_entities_yields|intros a2].
    eapply yields_bind; [apply add_entities_yields|intros a3]. apply add_entities_yields. }
  intros t a4 (a1 & [H1 M1] & a2 & [H2 M2] & a3 & [H3 M3] & H4 & M4). split.
  - intros x. rewrite (H4 x), (H3 x), (H2 x), (H1 x). naive_solver.
  - intros id. by rewrite M4, M3, M2, M1; cbn [fst]; rewrite lookup_empty.
Qed.

Lemma push_part_adds actions parts i :
  adds (λ x, ∃ r : uuid * part_row V, r ∈ parts ∧
    (x = item "content_part" r.1 (default Remove (actions !! pt_message_id r.2)) ∨
     ∃ v, pt_blob_ref r.2 = Some v ∧
       x = item "content_part_blob" r.1 (bytes_action (default Remove (actions !! pt_message_id r.2)))))
    i (foldl (push_part actions) i parts).
Proof.
  revert i. induction parts as [|r parts IH]; intros i x; cbn [foldl].
  { split; [by left|]. by intros [?|(? & ?%not_elem_of_nil & _)]. }
  rewrite (IH _ x). unfold push_part. setoid_rewrite elem_of_cons.
  destruct (pt_blob_ref r.2) as [v|] eqn:Hv; rewrite ?(push_blob_adds _ _ _ _ _ x), (push_adds _ _ _ _ x); naive_solver.
Qed.

Lemma push_asset_adds actions blobs i :
  adds (λ x, ∃ a : uuid * V, a ∈ blobs ∧ x = item "asset_blob" a.1 (bytes_action (default Remove (actions !! a.1))))
    i (foldl (push_asset actions) i blobs).
Proof.
  revert i. induction blobs as [|r blobs IH]; intros i x; cbn [foldl].
  { split; [by left|]. by intros [?|(? & ?%not_elem_of_nil & _)]. }
  rewrite (IH _ x). unfold push_asset. rewrite (push_blob_adds _ _ _ _ _ x). setoid_rewrite elem_of_cons. naive_solver.
Qed.

#[local] Abbreviation removed_of actions l := (filter (λ id, removed actions id = true) l).

Lemma add_revision_yields ids tenant_id scope P C actions i :
  yields (add_revision_and_tombstones (V := V) (R := R) (E := E) ids tenant_id scope P C actions i) (λ t i', adds (λ x,
    all "revision" Remove (revisions_in ids t) x ∨ (scope = TenantScope ∧ x = item "account" tenant_id Remove) ∨
    all "downstream_tombstone" EmitTombstone (inventory_subject "project" <$> removed_of actions P) x ∨
    all "downstream_tombstone" EmitTombstone (inventory_subject "conversation" <$> removed_of actions C) x) i i').
Proof.
  eapply yields_mono; [eapply yields_bind; [apply ask_yields|intros r; apply ret_yields]|].
  intros t i' (r & -> & ->) x. rewrite !(λ c a l i, push_all_adds c a l i x).
  assert (Hacc : ∀ j : inventory V, x ∈ iv_items (if is_tenant scope then push "account" tenant_id Remove j else j) ↔
    x ∈ iv_items j ∨ (scope = TenantScope ∧ x = item "account" tenant_id Remove)).
  { intros j. destruct scope; cbn [is_tenant]; rewrite ?(push_adds _ _ _ _ x); intuition congruence. }
  rewrite Hacc, (push_all_adds _ _ _ _ x). tauto.
Qed.

(** **** The whole inventory *)

Section whole.
Context (tenant_id : uuid) (scope : privacy_deletion_scope) (exports : list (selected_export V)).

#[local] Abbreviation ids := (se_id <$> exports).
#[local] Abbreviation concerned := (concerned (R := R) tenant_id scope exports).

Lemma observed_entities_elem kind (t : atables) id :
  id ∈ observed_entities ids kind t ↔ ∃ x, x ∈ ids ∧ observed_in t x kind id.
Proof.
  unfold observed_entities, observed_in. rewrite list_elem_of_fmap. split.
  - intros ([[x k] i] & -> & [[Hx Hkind] Hin]%list_elem_of_filter). cbn in *. subst k.
    apply list_elem_of_fmap in Hin as ([key d] & Hkey & Hin%elem_of_map_to_list). cbn in Hkey. subst key. exists x. split; [done|eauto].
  - intros (x & Hx & [d Hd]). exists (x, kind, id). split; [done|]. apply list_elem_of_filter. split; [done|].
    apply list_elem_of_fmap. exists (x, kind, id, d). split; [done|]. by apply elem_of_map_to_list.
Qed.

Lemma owned_entities_elem kind (t : atables) id :
  kind ∈ record_kinds → id ∈ owned_entities tenant_id kind t ↔ owned tenant_id t kind id.
Proof.
  intros Hk. unfold record_kinds in Hk. rewrite !elem_of_cons in Hk.
  destruct Hk as [->|[->|[->|[->|?%not_elem_of_nil]]]]; [..|done]; unfold owned_entities; cbn; rewrite ids_where_elem;
    (split; [intros (a & Ha & Hb)|inversion 1; subst; eexists; (split; [eassumption|])]).
  - apply bool_decide_eq_true in Hb. by econstructor.
  - by apply bool_decide_eq_true.
  - apply bool_decide_eq_true in Hb. by econstructor.
  - by apply bool_decide_eq_true.
  - unfold owns_conversation in Hb. destruct (nm_conversations _ !! _) eqn:Hc; [|done].
    apply bool_decide_eq_true in Hb. by econstructor.
  - unfold owns_conversation. by simplify_option_eq.
  - destruct (ast_observed_in a) as [x|] eqn:Hx; [|done]. cbn in Hb.
    destruct (ev_exports _ !! x) eqn:Hxp; [|done]. apply String.eqb_eq in Hb. by econstructor.
  - simplify_option_eq. by apply String.eqb_eq.
Qed.

Lemma observed_or_subject_concerned kind (t : atables) id :
  kind ∈ record_kinds → observed_or_subject ids tenant_id scope kind t id → concerned t kind id.
Proof.
  intros Hk [(x & Hx & Ho)%observed_entities_elem|[[-> ->]|(-> & _ & Ho%owned_entities_elem)]]; [| | |done].
  - by eapply concerned_observed.
  - by apply concerned_subject.
  - by apply concerned_owned.
Qed.

Lemma concerned_record kind (t : atables) id : concerned t kind id → kind ∈ record_kinds.
Proof. intros [ | |? ? ? []|]; try done; unfold record_kinds; set_solver. Qed.

Lemma concerned_cases kind (t : atables) id :
  concerned t kind id ↔ kind ∈ record_kinds ∧ (observed_or_subject ids tenant_id scope kind t id ∨
    (kind = "message" ∧ ∃ c, observed_or_subject ids tenant_id scope "conversation" t c ∧ id ∈ child_messages [c] t)).
Proof.
  split.
  - intros Hc. split; [by eapply concerned_record|].
    pose proof (concerned_record _ _ _ Hc) as Hr.
    destruct Hc as [kind id x Hk Hx Ho|id Hs|kind id Hs Ho|c id m Hc Hm Hp].
    + left. left. apply observed_entities_elem. eauto.
    + left. right. by left.
    + left. right. right. split_and!; [done..|]. by apply owned_entities_elem.
    + right. split; [done|]. exists c. split.
      * inversion Hc as [k1 i1 x Hk Hx Ho|i1 Hs|k1 i1 Hs Ho|]; subst.
        -- left. apply observed_entities_elem. eauto.
        -- right. by left.
        -- right. right. split_and!; [done|set_solver|]. apply owned_entities_elem; [set_solver|done].
      * apply ids_where_elem. exists m. split; [done|]. apply bool_decide_eq_true. rewrite Hp. by left.
  - intros [Hk [Ho|(-> & c & Ho & (m & Hm & Hc)%ids_where_elem)]]; [by apply observed_or_subject_concerned|].
    apply bool_decide_eq_true, list_elem_of_singleton in Hc. eapply concerned_child; [|exact Hm|exact Hc].
    apply observed_or_subject_concerned; [|done]. unfold record_kinds. set_solver.
Qed.

(** No identity is that of two kinds of record: they are UUIDs. *)
Definition distinct (t : atables) : Prop :=
  ∀ kind kind' id, concerned t kind id → concerned t kind' id → kind = kind'.

(** What the planner computes for a record. *)
#[local] Abbreviation fate := (λ t kind id, entity_action (retained (R := R) ids kind id t)).
#[local] Abbreviation in_plan := (in_plan exports).

(** The items about normalized rows. *)
Definition normalized_item (t : atables) (x : deletion_inventory_item) : Prop :=
  (∃ kind id, concerned t kind id ∧ x = item kind id (fate t kind id)) ∨
  (∃ id r, nm_relations (at_normalized t) !! id = Some r ∧
     (concerned t "message" (rl_from_message_id r) ∨ concerned t "message" (rl_to_message_id r) ∨
      in_plan (rl_observed_in_export r)) ∧ x = item "message_relation" id Remove) ∨
  (∃ id p, nm_parts (at_normalized t) !! id = Some p ∧ concerned t "message" (pt_message_id p) ∧
     (x = item "content_part" id (fate t "message" (pt_message_id p)) ∨
      ∃ v, pt_blob_ref p = Some v ∧ x = item "content_part_blob" id (bytes_action (fate t "message" (pt_message_id p))))) ∨
  (∃ id a v, nm_assets (at_normalized t) !! id = Some a ∧ concerned t "asset" id ∧ ast_blob_ref a = Some v ∧
     x = item "asset_blob" id (bytes_action (fate t "asset" id))) ∨
  (∃ id r, nm_revisions (at_normalized t) !! id = Some r ∧ rv_observed_in r ∈ ids ∧ x = item "revision" id Remove) ∨
  (scope = TenantScope ∧ x = item "account" tenant_id Remove) ∨
  (∃ kind id, kind ∈ ["project"; "conversation"] ∧ concerned t kind id ∧ fate t kind id = Remove ∧
     x = item "downstream_tombstone" (inventory_subject kind id) EmitTombstone).

Lemma relations_of_elem M (t : atables) id :
  id ∈ relations_of ids M t ↔ ∃ r, nm_relations (at_normalized t) !! id = Some r ∧
    (rl_from_message_id r ∈ M ∨ rl_to_message_id r ∈ M ∨ in_plan (rl_observed_in_export r)).
Proof.
  unfold relations_of. rewrite ids_where_elem. unfold DeletionPlanLaws.in_plan, DeletionPlanLaws.ids.
  setoid_rewrite orb_true_iff. setoid_rewrite orb_true_iff. setoid_rewrite bool_decide_eq_true.
  setoid_rewrite in_exports_iff. naive_solver.
Qed.

Lemma parts_in_elem M (t : atables) r :
  r ∈ parts_in M t ↔ nm_parts (at_normalized t) !! r.1 = Some r.2 ∧ pt_message_id r.2 ∈ M.
Proof.
  unfold parts_in, rows_by_key. rewrite list_elem_of_filter, elem_of_sort_by. destruct r. rewrite elem_of_map_to_list. tauto.
Qed.

Lemma asset_blobs_elem A (t : atables) a :
  a ∈ asset_blobs A t ↔ a.1 ∈ A ∧ ∃ r, nm_assets (at_normalized t) !! a.1 = Some r ∧ ast_blob_ref r = Some a.2.
Proof.
  unfold asset_blobs, rows_by_key. rewrite list_elem_of_omap. split.
  - intros ([i r] & Hin & H). rewrite elem_of_sort_by, elem_of_map_to_list in Hin. cbn in *.
    case_bool_decide; [|done]. apply fmap_Some in H as (v & Hv & ->). eauto.
  - destruct a as [i v]. intros [Hi (r & Hr & Hv)]. exists (i, r).
    rewrite elem_of_sort_by, elem_of_map_to_list. split; [done|]. cbn in *.
    rewrite bool_decide_eq_true_2 by done. by rewrite Hv.
Qed.

(** The lists the entity queries return hold the records concerned. *)
Lemma listed_concerned kind (t : atables) (l : list uuid) :
  kind ∈ record_kinds → kind ≠ "message" → (∀ id, id ∈ l ↔ observed_or_subject ids tenant_id scope kind t id) →
  ∀ id, id ∈ l ↔ concerned t kind id.
Proof. intros Hk Hne Hl id. rewrite Hl, concerned_cases. naive_solver. Qed.

Lemma messages_concerned (t : atables) (C O : list uuid) :
  (∀ id, id ∈ C ↔ observed_or_subject ids tenant_id scope "conversation" t id) →
  (∀ id, id ∈ O ↔ observed_or_subject ids tenant_id scope "message" t id) →
  ∀ id, id ∈ dedup (sort_by (cmp_on (λ m, m)) (O ++ child_messages C t)) ↔ concerned t "message" id.
Proof.
  intros HC HO id. destruct (dedup_spec (sort_by (cmp_on (λ m, m)) (O ++ child_messages C t))) as [Hdd _].
  rewrite Hdd, elem_of_sort_by, elem_of_app, HO, concerned_cases.
  assert (Hch : id ∈ child_messages C t ↔ ∃ c, c ∈ C ∧ id ∈ child_messages [c] t).
  { unfold child_messages. setoid_rewrite ids_where_elem. setoid_rewrite bool_decide_eq_true.
    setoid_rewrite list_elem_of_singleton. naive_solver. }
  rewrite Hch. setoid_rewrite HC. split; [intros [Ho|Hc]|intros [_ [Ho|[_ Hc]]]]; try (by left); try (by right).
  - split; [unfold record_kinds; set_solver|by left].
  - split; [unfold record_kinds; set_solver|by right].
Qed.

(** What the actions taken say of each record. *)
Lemma actions_fate (t : atables) (P C M A : list uuid) (actions : gmap uuid deletion_action) :
  distinct t →
  (∀ id, id ∈ P ↔ concerned t "project" id) → (∀ id, id ∈ C ↔ concerned t "conversation" id) →
  (∀ id, id ∈ M ↔ concerned t "message" id) → (∀ id, id ∈ A ↔ concerned t "asset" id) →
  (∀ id, actions !! id = if decide (id ∈ A) then Some (fate t "asset" id)
     else if decide (id ∈ M) then Some (fate t "message" id)
     else if decide (id ∈ C) then Some (fate t "conversation" id)
     else if decide (id ∈ P) then Some (fate t "project" id) else None) →
  ∀ kind id, concerned t kind id → actions !! id = Some (fate t kind id).
Proof.
  intros Hd HP HC HM HA Hact kind id Hc. rewrite Hact.
  assert (Hkind : kind ∈ record_kinds) by by eapply concerned_record.
  repeat case_decide; repeat match goal with
    | H : _ ∈ A |- _ => apply HA, (Hd _ kind) in H; [by subst|done]
    | H : _ ∈ M |- _ => apply HM, (Hd _ kind) in H; [by subst|done]
    | H : _ ∈ C |- _ => apply HC, (Hd _ kind) in H; [by subst|done]
    | H : _ ∈ P |- _ => apply HP, (Hd _ kind) in H; [by subst|done]
    end.
  exfalso. rewrite HA, HM, HC, HP in *. unfold record_kinds in Hkind. rewrite !elem_of_cons in Hkind.
  destruct Hkind as [->|[->|[->|[->|?%not_elem_of_nil]]]]; done.
Qed.

Lemma add_normalized_rows_yields i :
  yields (add_normalized_rows (V := V) (R := R) (E := E) ids tenant_id scope i) (λ t i',
    distinct t → adds (normalized_item t) i i').
Proof.
  eapply yields_mono.
  { eapply yields_bind; [apply entity_ids_yields|intros P]. eapply yields_bind; [apply entity_ids_yields|intros C].
    eapply yields_bind; [apply entity_ids_yields|intros O]. eapply yields_bind; [apply ask_yields|intros ch].
    eapply yields_bind; [apply entity_ids_yields|intros A].
    eapply yields_bind2; [apply add_entity_rows_yields|intros actions i1].
    eapply yields_bind; [eapply yields_bind; [apply ask_yields|intros; apply ret_yields]|intros i2].
    eapply yields_bind; [eapply yields_bind; [apply ask_yields|intros; apply ret_yields]|intros i3].
    eapply yields_bind; [eapply yields_bind; [apply ask_yields|intros; apply ret_yields]|intros i4].
    apply add_revision_yields. }
  intros t i' (P & [_ HP] & C & [_ HC] & O & [_ HO] & ch & -> & A & [_ HA] & actions & i1 & [H1 Hm] &
    i2 & (rel & -> & ->) & i3 & (parts & -> & ->) & i4 & (blobs & -> & ->) & H5) Hd.
  pose proof (messages_concerned t C O HC HO) as HM. set (M := dedup _) in *. cbn [fst snd] in *.
  pose proof (listed_concerned "project" t P ltac:(unfold record_kinds; set_solver) ltac:(done) HP) as HP'.
  pose proof (listed_concerned "conversation" t C ltac:(unfold record_kinds; set_solver) ltac:(done) HC) as HC'.
  pose proof (listed_concerned "asset" t A ltac:(unfold record_kinds; set_solver) ltac:(done) HA) as HA'.
  pose proof (actions_fate t P C M A actions Hd HP' HC' HM HA' Hm) as Hact. clear HP HC HO HA Hm.
  intros x. rewrite (H5 x), (push_asset_adds _ _ _ x), (push_part_adds _ _ _ x), (push_all_adds _ _ _ _ x), (H1 x).
  clear H5 H1. unfold normalized_item.
  assert (E1 : (∃ kind id, (kind = "project" ∧ id ∈ P ∨ kind = "conversation" ∧ id ∈ C ∨ kind = "message" ∧ id ∈ M ∨
                            kind = "asset" ∧ id ∈ A) ∧ x = item kind id (fate t kind id)) ↔
               ∃ kind id, concerned t kind id ∧ x = item kind id (fate t kind id)).
  { split; intros (kind & id & Hk & Hx); exists kind, id; (split; [|done]).
    - destruct Hk as [[-> ?%HP']|[[-> ?%HC']|[[-> ?%HM]|[-> ?%HA']]]]; done.
    - pose proof (concerned_record _ _ _ Hk) as Hr. unfold record_kinds in Hr. rewrite !elem_of_cons in Hr.
      destruct Hr as [->|[->|[->|[->|?%not_elem_of_nil]]]]; [..|done]; rewrite ?HP', ?HC', ?HM, ?HA'; tauto. }
  assert (E2 : all "message_relation" Remove (relations_of ids M t) x ↔
    ∃ id r, nm_relations (at_normalized t) !! id = Some r ∧
     (concerned t "message" (rl_from_message_id r) ∨ concerned t "message" (rl_to_message_id r) ∨
      in_plan (rl_observed_in_export r)) ∧ x = item "message_relation" id Remove).
  { setoid_rewrite relations_of_elem. setoid_rewrite HM. naive_solver. }
  assert (Hdef : ∀ kind id, concerned t kind id → default Remove (actions !! id) = fate t kind id).
  { intros kind id Hc. by rewrite (Hact _ _ Hc). }
  assert (E3 : (∃ r : uuid * part_row V, r ∈ parts_in M t ∧
    (x = item "content_part" r.1 (default Remove (actions !! pt_message_id r.2)) ∨
     ∃ v, pt_blob_ref r.2 = Some v ∧
       x = item "content_part_blob" r.1 (bytes_action (default Remove (actions !! pt_message_id r.2))))) ↔
    ∃ id p, nm_parts (at_normalized t) !! id = Some p ∧ concerned t "message" (pt_message_id p) ∧
     (x = item "content_part" id (fate t "message" (pt_message_id p)) ∨
      ∃ v, pt_blob_ref p = Some v ∧ x = item "content_part_blob" id (bytes_action (fate t "message" (pt_message_id p))))).
  { setoid_rewrite parts_in_elem. setoid_rewrite HM. split.
    - intros ([id p] & [Hp Hc] & Hx). exists id, p. cbn in *. by rewrite (Hdef _ _ Hc) in Hx.
    - intros (id & p & Hp & Hc & Hx). exists (id, p). cbn in *. by rewrite (Hdef _ _ Hc). }
  assert (E4 : (∃ a : uuid * V, a ∈ asset_blobs A t ∧ x = item "asset_blob" a.1 (bytes_action (default Remove (actions !! a.1)))) ↔
    ∃ id a v, nm_assets (at_normalized t) !! id = Some a ∧ concerned t "asset" id ∧ ast_blob_ref a = Some v ∧
     x = item "asset_blob" id (bytes_action (fate t "asset" id))).
  { setoid_rewrite asset_blobs_elem. setoid_rewrite HA'. split.
    - intros ([id v] & [Hc (a & Ha & Hv)] & Hx). exists id, a, v. cbn in *. by rewrite (Hdef _ _ Hc) in Hx.
    - intros (id & a & v & Ha & Hc & Hv & Hx). exists (id, v). cbn in *. rewrite (Hdef _ _ Hc). eauto. }
  assert (E5 : all "revision" Remove (revisions_in ids t) x ↔
    ∃ id r, nm_revisions (at_normalized t) !! id = Some r ∧ rv_observed_in r ∈ ids ∧ x = item "revision" id Remove).
  { unfold revisions_in. setoid_rewrite ids_where_elem. setoid_rewrite bool_decide_eq_true. naive_solver. }
  assert (Htomb : ∀ kind (l : list uuid), (∀ id, id ∈ l ↔ concerned t kind id) →
    all "downstream_tombstone" EmitTombstone (inventory_subject kind <$> removed_of actions l) x ↔
    ∃ id, concerned t kind id ∧ fate t kind id = Remove ∧
      x = item "downstream_tombstone" (inventory_subject kind id) EmitTombstone).
  { intros kind l Hl. setoid_rewrite list_elem_of_fmap. setoid_rewrite list_elem_of_filter. setoid_rewrite Hl.
    unfold removed. setoid_rewrite bool_decide_eq_true. split.
    - intros (s & (id & -> & Hr & Hc) & ->). exists id. rewrite (Hact _ _ Hc) in Hr. by simplify_eq.
    - intros (id & Hc & Hf & ->). eexists. split; [|done]. exists id. rewrite (Hact _ _ Hc), Hf. done. }
  assert (E6 : ∀ Q : string → uuid → Prop, (∃ kind id, kind ∈ ["project"; "conversation"] ∧ Q kind id) ↔
    (∃ id, Q "project" id) ∨ (∃ id, Q "conversation" id)).
  { intros Q. split; [|intros [[id HQ]|[id HQ]]; eexists _, id; (split; [|exact HQ]); set_solver].
    intros (kind & id & Hk & HQ). rewrite !elem_of_cons in Hk.
    destruct Hk as [->|[->|?%not_elem_of_nil]]; [left; eauto|right; eauto|done]. }
  rewrite E1, E2, E3, E4, E5, (Htomb _ _ HP'), (Htomb _ _ HC'), E6. tauto.
Qed.

Definition delivery_item (t : atables) (x : deletion_inventory_item) : Prop :=
  (∃ n r, at_inbox t !! n = Some r ∧ r.1 = Some tenant_id ∧ (scope = TenantScope ∨ in_plan r.2) ∧
     x = item "inbox_event" (pretty n) Remove) ∨
  (∃ n row, ot_rows (at_outbox t) !! n = Some row ∧ ft_tenant_id row.1 = Some tenant_id ∧
     (scope = TenantScope ∨ in_plan (ft_export_id row.1)) ∧ must_survive row = false ∧
     x = item "outbox_event" (pretty n) Remove).

Lemma is_tenant_iff : is_tenant scope = true ↔ scope = TenantScope.
Proof. by destruct scope. Qed.

Lemma add_delivery_rows_yields i :
  yields (add_delivery_rows (V := V) (R := R) (E := E) ids tenant_id scope i) (λ t i', adds (delivery_item t) i i').
Proof.
  eapply yields_mono.
  { eapply yields_bind; [apply ask_yields|intros inbox]. eapply yields_bind; [apply ask_yields|intros outbox].
    apply ret_yields. }
  intros t i' (inbox & -> & outbox & -> & ->) x. rewrite !(push_all_adds _ _ _ _ x). unfold delivery_item.
  assert (Hin : ∀ o, (is_tenant scope || in_exports ids o) = true ↔ scope = TenantScope ∨ in_plan o).
  { intros o. by rewrite orb_true_iff, is_tenant_iff, in_exports_iff. }
  assert (E1 : all "inbox_event" Remove (pretty <$> inbox_of tenant_id (is_tenant scope) ids t) x ↔
    ∃ n r, at_inbox t !! n = Some r ∧ r.1 = Some tenant_id ∧ (scope = TenantScope ∨ in_plan r.2) ∧
      x = item "inbox_event" (pretty n) Remove).
  { split.
    - intros (? & (n & -> & (r & Hr & [H1%bool_decide_eq_true H2%Hin]%andb_true_iff)%ids_where_elem)%list_elem_of_fmap & ->).
      by exists n, r.
    - intros (n & r & Hr & H1 & H2%Hin & ->). exists (pretty n). split; [|done]. apply list_elem_of_fmap.
      exists n. split; [done|]. apply ids_where_elem. exists r. by rewrite bool_decide_eq_true_2, H2 by done. }
  assert (E2 : all "outbox_event" Remove (pretty <$> outbox_of tenant_id (is_tenant scope) ids t) x ↔
    ∃ n row, ot_rows (at_outbox t) !! n = Some row ∧ ft_tenant_id row.1 = Some tenant_id ∧
      (scope = TenantScope ∨ in_plan (ft_export_id row.1)) ∧ must_survive row = false ∧
      x = item "outbox_event" (pretty n) Remove).
  { split.
    - intros (? & (n & -> & (r & Hr & [[H1%bool_decide_eq_true H2%Hin]%andb_true_iff H3%negb_true_iff]%andb_true_iff)%ids_where_elem)%list_elem_of_fmap & ->).
      by exists n, r.
    - intros (n & r & Hr & H1 & H2%Hin & H3 & ->). exists (pretty n). split; [|done]. apply list_elem_of_fmap.
      exists n. split; [done|]. apply ids_where_elem. exists r. by rewrite bool_decide_eq_true_2, H2, H3 by done. }
  rewrite E1, E2. tauto.
Qed.

Lemma add_archive_tombstones_adds i :
  adds (λ x, ∃ e, e ∈ exports ∧
    x = item "downstream_tombstone" (inventory_subject "archive" (se_ai_archive_id e)) EmitTombstone)
    i (add_archive_tombstones exports i).
Proof.
  intros x. unfold add_archive_tombstones. rewrite (push_all_adds _ _ _ _ x).
  setoid_rewrite list_elem_of_fmap. naive_solver.
Qed.

(** The items about source rows. *)
Definition source_item (t : atables) (x : deletion_inventory_item) : Prop :=
  (∃ k, is_Some (nm_observations (at_normalized t) !! k) ∧ k.1.1 ∈ ids ∧
     x = item "export_observation" (observation_id k) Remove) ∨
  (∃ id a, ev_artifacts (at_evidence t) !! id = Some a ∧ ar_export_id a ∈ ids ∧
     (x = item "extracted_artifact" id Remove ∨
      x = item "extracted_artifact_blob" id (blob_action_of (blob_shared ids (ar_blob_ref a) t)))) ∨
  (∃ id, (∃ r, ev_import_runs (at_evidence t) !! id = Some r ∧ in_plan (rn_export_id r)) ∧ x = item "import_run" id Remove) ∨
  (∃ id, (∃ p, ev_reports (at_evidence t) !! id = Some p ∧
     ∃ r, ev_import_runs (at_evidence t) !! rp_import_run_id p = Some r ∧ in_plan (rn_export_id r)) ∧
     x = item "completeness_report" id Remove) ∨
  (∃ id, (∃ y, ev_raw_records (at_evidence t) !! id = Some y ∧ y ∈ ids) ∧ x = item "raw_record" id Remove) ∨
  (∃ id, (∃ o, ev_operations (at_evidence t) !! id = Some o ∧
     (oi_export_id o ∈ ids ∨ ∃ r, ev_import_runs (at_evidence t) !! oi_import_run_id o = Some r ∧ in_plan (rn_export_id r))) ∧
     x = item "platform_operation_import" id Remove) ∨
  (∃ id, (∃ y, ev_reparse_runs (at_evidence t) !! id = Some y ∧ rr_export_id y ∈ ids) ∧ x = item "reparse_run" id Remove).

Lemma all_iff category action (l : list uuid) (P : uuid → Prop) x :
  (∀ id, id ∈ l ↔ P id) → (all category action l x ↔ ∃ id, P id ∧ x = item category id action).
Proof. intros Hl. split; intros (id & Hid%Hl & Hx); eauto. Qed.

Lemma artifacts_of_elem (t : atables) a :
  a ∈ artifacts_of ids t ↔ ∃ r, ev_artifacts (at_evidence t) !! a.1 = Some r ∧ ar_export_id r ∈ ids ∧ ar_blob_ref r = a.2.
Proof.
  destruct a as [id v]. unfold artifacts_of, rows_by_key. rewrite list_elem_of_fmap. cbn. split.
  - intros ([i r] & [= -> ->] & [Hr Hin]%list_elem_of_filter). rewrite elem_of_sort_by, elem_of_map_to_list in Hin. eauto.
  - intros (r & Hr & Hin & <-). exists (id, r). split; [done|]. apply list_elem_of_filter.
    by rewrite elem_of_sort_by, elem_of_map_to_list.
Qed.

Lemma observations_of_elem (t : atables) k :
  k ∈ observations_of ids t ↔ is_Some (nm_observations (at_normalized t) !! k) ∧ k.1.1 ∈ ids.
Proof.
  unfold observations_of, rows_by_key. rewrite list_elem_of_filter. split.
  - intros [Hk ([k' d] & -> & Hin)%list_elem_of_fmap]. rewrite elem_of_sort_by, elem_of_map_to_list in Hin. eauto.
  - intros [[d Hd] Hk]. split; [done|]. apply list_elem_of_fmap. exists (k, d).
    by rewrite elem_of_sort_by, elem_of_map_to_list.
Qed.

Lemma import_runs_of_elem (t : atables) id :
  id ∈ import_runs_of ids t ↔ ∃ r, ev_import_runs (at_evidence t) !! id = Some r ∧ in_plan (rn_export_id r).
Proof. unfold import_runs_of. rewrite ids_where_elem. by setoid_rewrite in_exports_iff. Qed.

Lemma ids_where_dec {I A} `{Countable I, Ord I} (P : A → bool) (Q : A → Prop) (m : gmap I A) id :
  (∀ a, P a = true ↔ Q a) → (id ∈ ids_where P m ↔ ∃ a, m !! id = Some a ∧ Q a).
Proof. intros HP. rewrite ids_where_elem. by setoid_rewrite HP. Qed.

Lemma add_source_rows_item i :
  yields (add_source_rows (V := V) (R := R) (E := E) ids i) (λ t i', adds (source_item t) i i').
Proof.
  eapply yields_mono; [apply add_source_rows_yields|]. intros t i' Ha x. rewrite (Ha x). clear Ha. unfold source_item.
  assert (E1 : all "export_observation" Remove (observation_id <$> observations_of ids t) x ↔
    ∃ k, is_Some (nm_observations (at_normalized t) !! k) ∧ k.1.1 ∈ ids ∧
      x = item "export_observation" (observation_id k) Remove).
  { split.
    - intros (? & (k & -> & [H1 H2]%observations_of_elem)%list_elem_of_fmap & ->). eauto.
    - intros (k & H1 & H2 & ->). eexists. split; [|done]. apply list_elem_of_fmap. exists k. by rewrite observations_of_elem. }
  assert (E2 : (∃ a : uuid * V, a ∈ artifacts_of ids t ∧ (x = item "extracted_artifact" a.1 Remove ∨
      x = item "extracted_artifact_blob" a.1 (blob_action_of (blob_shared ids a.2 t)))) ↔
    ∃ id a, ev_artifacts (at_evidence t) !! id = Some a ∧ ar_export_id a ∈ ids ∧
     (x = item "extracted_artifact" id Remove ∨
      x = item "extracted_artifact_blob" id (blob_action_of (blob_shared ids (ar_blob_ref a) t)))).
  { split.
    - intros ([id v] & (r & Hr & Hi & <-)%artifacts_of_elem & Hx). eauto.
    - intros (id & a & Hr & Hi & Hx). exists (id, ar_blob_ref a). rewrite artifacts_of_elem. eauto. }
  rewrite E1, E2, (all_iff _ _ _ _ _ (import_runs_of_elem t)).
  rewrite (all_iff "completeness_report" Remove (reports_of ids t) (λ id, ∃ p, ev_reports (at_evidence t) !! id = Some p ∧
    ∃ r, ev_import_runs (at_evidence t) !! rp_import_run_id p = Some r ∧ in_plan (rn_export_id r))).
  2: { intros id. apply ids_where_dec. intros p. by rewrite bool_decide_eq_true, import_runs_of_elem. }
  rewrite (all_iff "raw_record" Remove (raw_records_of ids t) (λ id, ∃ y, ev_raw_records (at_evidence t) !! id = Some y ∧ y ∈ ids)).
  2: { intros id. apply ids_where_dec. intros y. apply bool_decide_eq_true. }
  rewrite (all_iff "platform_operation_import" Remove (operations_of ids t) (λ id, ∃ o, ev_operations (at_evidence t) !! id = Some o ∧
     (oi_export_id o ∈ ids ∨ ∃ r, ev_import_runs (at_evidence t) !! oi_import_run_id o = Some r ∧ in_plan (rn_export_id r)))).
  2: { intros id. apply ids_where_dec. intros o. cbn. rewrite orb_true_iff, !bool_decide_eq_true, import_runs_of_elem. tauto. }
  rewrite (all_iff "reparse_run" Remove (reparse_runs_of ids t) (λ id, ∃ y, ev_reparse_runs (at_evidence t) !! id = Some y ∧ rr_export_id y ∈ ids)).
  2: { intros id. apply ids_where_dec. intros y. apply bool_decide_eq_true. }
  reflexivity.
Qed.

(** Every item, and nothing else. *)
Definition plan_item (t : atables) (x : deletion_inventory_item) : Prop :=
  (∃ e, e ∈ exports ∧ (x = item "export" (se_id e) Remove ∨
     x = item "raw_archive_blob" (se_id e) (blob_action_of (blob_shared ids (se_blob_ref e) t)))) ∨
  source_item t x ∨ normalized_item t x ∨ delivery_item t x ∨
  (∃ e, e ∈ exports ∧ x = item "downstream_tombstone" (inventory_subject "archive" (se_ai_archive_id e)) EmitTombstone).

Lemma retained_iff (t : atables) kind id :
  retained ids kind id t = true ↔ kept_elsewhere exports t kind id.
Proof.
  unfold retained, kept_elsewhere, observed_in. rewrite existsb_exists. split.
  - intros ([[x k] i] & Hin & Hb). rewrite !andb_true_iff, !String.eqb_eq, negb_true_iff, bool_decide_eq_false in Hb.
    cbn in Hb. destruct Hb as [[-> ->] Hx]. exists x. split; [done|].
    apply list_elem_of_In, list_elem_of_fmap in Hin as ([key d] & Hkey & Hd%elem_of_map_to_list). cbn in Hkey. subst key. eauto.
  - intros (x & Hx & [d Hd]). exists (x, kind, id). split.
    + apply list_elem_of_In, list_elem_of_fmap. exists (x, kind, id, d). split; [done|]. by apply elem_of_map_to_list.
    + cbn. by rewrite !String.eqb_refl, bool_decide_eq_false_2.
Qed.

Lemma blob_shared_iff (t : atables) v : blob_shared ids v t = true ↔ named_elsewhere exports t v.
Proof.
  unfold blob_shared, named_elsewhere. rewrite orb_true_iff, !existsb_exists.
  apply Morphisms_Prop.or_iff_morphism; (split;
    [intros ([i x] & Hin%list_elem_of_In%elem_of_map_to_list & Hx)|
     intros (i & x & Hin%elem_of_map_to_list%list_elem_of_In & Hx & Hv); exists (i, x); split; [done|]]);
    cbn in *; rewrite andb_true_iff, negb_true_iff, bool_decide_eq_false, bool_decide_eq_true in *; naive_solver.
Qed.

(** What the planner computes is what the tables call for. *)
Lemma entity_action_fate (t : atables) kind id action :
  action = fate t kind id ↔ record_fate (kept_elsewhere exports t kind id) action.
Proof.
  unfold record_fate. rewrite <-retained_iff. destruct (retained _ _ _ _); cbn; naive_solver.
Qed.

Lemma entity_bytes_fate (t : atables) kind id action :
  action = bytes_action (fate t kind id) ↔ bytes_fate (kept_elsewhere exports t kind id) action.
Proof.
  unfold bytes_fate. rewrite <-retained_iff. destruct (retained _ _ _ _); cbn; naive_solver.
Qed.

Lemma blob_action_fate (t : atables) v action :
  action = blob_action_of (blob_shared ids v t) ↔ bytes_fate (named_elsewhere exports t v) action.
Proof.
  unfold bytes_fate. rewrite <-blob_shared_iff. destruct (blob_shared _ _ _); cbn; naive_solver.
Qed.

Lemma fate_removed (t : atables) kind id : fate t kind id = Remove ↔ ¬ kept_elsewhere exports t kind id.
Proof. rewrite <-retained_iff. by destruct (retained _ _ _ _). Qed.

Lemma must_survive_iff row : must_survive row = false ↔ ¬ outstanding row.
Proof.
  assert (Hn : ∀ A (o : option A), is_null o = true ↔ o = None) by by intros A [].
  unfold outstanding. rewrite <-!Hn, <-!String.eqb_eq, <-!andb_true_iff, <-orb_true_iff, not_true_iff_false. done.
Qed.

#[local] Ltac listed := econstructor; first [eassumption | by apply blob_action_fate | by apply entity_action_fate
  | by apply entity_bytes_fate | by apply fate_removed | by apply must_survive_iff | done].

Lemma plan_item_planned (t : atables) category id action :
  plan_item t (item category id action) ↔ planned (R := R) tenant_id scope exports t category id action.
Proof.
  split.
  - intros [Hx|[Hx|[Hx|[Hx|Hx]]]].
    + destruct Hx as (e & He & [[= -> -> ->]|[= -> -> ->]]); listed.
    + destruct Hx as [Hx|[Hx|[Hx|[Hx|[Hx|[Hx|Hx]]]]]].
      * destruct Hx as (k & Hk & Hi & [= -> -> ->]). listed.
      * destruct Hx as (i & a & Ha & Hi & [[= -> -> ->]|[= -> -> ->]]); listed.
      * destruct Hx as (i & (r & Hr & Hi) & [= -> -> ->]). listed.
      * destruct Hx as (i & (p & Hp & r & Hr & Hi) & [= -> -> ->]). listed.
      * destruct Hx as (i & (y & Hy & Hi) & [= -> -> ->]). listed.
      * destruct Hx as (i & (o & Ho & Hi) & [= -> -> ->]). listed.
      * destruct Hx as (i & (y & Hy & Hi) & [= -> -> ->]). listed.
    + destruct Hx as [Hx|[Hx|[Hx|[Hx|[Hx|[Hx|Hx]]]]]].
      * destruct Hx as (k & i & Hc & [= -> -> ->]). listed.
      * destruct Hx as (i & r & Hr & Hi & [= -> -> ->]). listed.
      * destruct Hx as (i & p & Hp & Hc & [[= -> -> ->]|(v & Hv & [= -> -> ->])]); listed.
      * destruct Hx as (i & a & v & Ha & Hc & Hv & [= -> -> ->]). listed.
      * destruct Hx as (i & r & Hr & Hi & [= -> -> ->]). listed.
      * destruct Hx as (Hs & [= -> -> ->]). listed.
      * destruct Hx as (k & i & Hk & Hc & Hf & [= -> -> ->]). listed.
    + destruct Hx as [(n & r & Hr & H1 & H2 & [= -> -> ->])|(n & r & Hr & H1 & H2 & H3 & [= -> -> ->])]; listed.
    + destruct Hx as (e & He & [= -> -> ->]). listed.
  - unfold plan_item, source_item, normalized_item, delivery_item. intros Hp. destruct Hp;
    repeat match goal with
    | H : bytes_fate (named_elsewhere _ _ _) _ |- _ => apply blob_action_fate in H; subst
    | H : bytes_fate (kept_elsewhere _ _ _ _) _ |- _ => apply entity_bytes_fate in H; subst
    | H : record_fate _ _ |- _ => apply entity_action_fate in H; subst
    | H : ¬ kept_elsewhere _ _ _ _ |- _ => apply fate_removed in H
    | H : ¬ outstanding _ |- _ => apply must_survive_iff in H
    end; eauto 20.
Qed.

Lemma selected_exports_yields :
  yields (selected_exports (V := V) (R := R) (E := E) tenant_id scope) (λ t r, r = exports_in tenant_id scope t).
Proof.
  unfold selected_exports, exports_in. eapply yields_mono; [eapply yields_bind; [apply ask_yields|intros b]|].
  - instantiate (1 := λ b t r, r = if b then match scope with
      | ArchiveScope id => match exports_of_archive tenant_id id t with [] => None | l => Some l end
      | ConversationScope id =>
          if owns_conversation tenant_id id t then Some (exports_of_conversation tenant_id id t) else None
      | TenantScope => Some (exports_of_tenant tenant_id t)
      end else None).
    destruct b; cbn [negb]; [|apply ret_yields]. destruct scope as [id|id|].
    + eapply yields_mono; [eapply yields_bind; [apply ask_yields|intros; apply ret_yields]|].
      intros t r (rows & -> & ->). by destruct (exports_of_archive _ _ _).
    + eapply yields_mono; [eapply yields_bind; [apply ask_yields|intros o]|].
      * instantiate (1 := λ o t r, r = if o then Some (exports_of_conversation tenant_id id t) else None).
        destruct o; cbn [negb]; [|apply ret_yields].
        eapply yields_mono; [eapply yields_bind; [apply ask_yields|intros; apply ret_yields]|]. by intros t r (rows & -> & ->).
      * by intros t r (o & -> & ->).
    + eapply yields_mono; [eapply yields_bind; [apply ask_yields|intros; apply ret_yields]|].
      by intros t r (rows & -> & ->).
  - by intros t r (b & -> & ->).
Qed.

Lemma inventory_then {B} (k : inventory V → tx B) w b w' :
  (let! i := add_exports ids exports (Inventory [] ∅) in
   let! i := add_source_rows ids i in
   let! i := add_normalized_rows ids tenant_id scope i in
   let! i := add_delivery_rows ids tenant_id scope i in
   k (add_archive_tombstones exports i)) w = (Ok b, w') →
  ∃ i u, w_tables u = w_tables w ∧ k i u = (Ok b, w') ∧
    (distinct (w_tables w) → ∀ x, x ∈ iv_items i ↔ plan_item (w_tables w) x).
Proof.
  intros (i1 & w1 & [E1 H1]%add_exports_yields & (i2 & w2 & [E2 H2]%add_source_rows_item & (i3 & w3 &
    [E3 H3]%add_normalized_rows_yields & (i4 & w4 & [E4 H4]%add_delivery_rows_yields & Hk)%sbind_Ok_inv)%sbind_Ok_inv)%sbind_Ok_inv)%sbind_Ok_inv.
  rewrite E3, E2, E1 in *. eexists _, w4. split_and!; [done|exact Hk|]. intros Hd x.
  rewrite (add_archive_tombstones_adds _ x), (H4 x), (H3 Hd x), (H2 x), (H1 x). unfold plan_item.
  assert (E0 : x ∈ iv_items (@Inventory V [] ∅) ↔ False) by (split; [apply not_elem_of_nil|done]).
  rewrite E0. tauto.
Qed.
End whole.

Lemma lock_tenant_yields tenant_id : yields (lock_tenant (V := V) (R := R) (E := E) tenant_id) (λ _ _, True).
Proof.
  intros w r w' H. unfold lock_tenant, smap_err, take_lock in H.
  by destruct (next_fault w); injection H as <- <-.
Qed.

(** A plan that is made, step by step. *)
Lemma plan_Ok tenant_id request_id scope (w w' : world atables) answer :
  let t := w_tables (interfere w) in
  wf_requests (at_workflow t) !! request_id = None →
  plan (E := E) tenant_id request_id scope w = (Ok answer, w') →
  match answer with
  | None => exports_in tenant_id scope t = None ∧ w_tables w' = t
  | Some p => ∃ exports i u v, exports_in tenant_id scope t = Some exports ∧
      p = plan_new request_id tenant_id scope (iv_items i) ∧
      (distinct tenant_id scope exports t → ∀ x, x ∈ iv_items i ↔ plan_item tenant_id scope exports t x) ∧
      w_tables u = t ∧ persist_plan (E := E) p (iv_blob_refs i) (scope_parts scope) u = (Ok tt, v) ∧
      w_tables w' = w_tables v
  end.
Proof.
  intros t Hnew (u & Hb & -> & _)%transaction_Ok_inv. unfold plan_body in Hb.
  apply sbind_Ok_inv in Hb as (a & w1 & [E1 _]%lock_tenant_yields & Hb).
  apply sbind_Ok_inv in Hb as (s & w2 & [E2 ->]%selected_exports_yields & Hb).
  assert (E3 : w_tables w1 = t) by (rewrite E1; done). rewrite E3 in *. clear E1 E3.
  destruct (exports_in tenant_id scope t) as [exports|] eqn:Hexports; [|by injection Hb as <- <-].
  apply sbind_Ok_inv in Hb as (existing & w3 & Hl & Hb). unfold load_existing in Hl.
  apply sbind_Ok_inv in Hl as (x & w4 & [E4 ->]%ask_yields & Hl). rewrite E2, Hnew in Hl.
  injection Hl as <- <-. rewrite E2 in E4.
  apply (inventory_then _ _ _ (λ i, let! _ := persist_plan (plan_new request_id tenant_id scope (iv_items i))
    (iv_blob_refs i) (scope_parts scope) in sret (Some (plan_new request_id tenant_id scope (iv_items i))))) in Hb
    as (i & w5 & E5 & Hb & Hi). rewrite E4 in Hi, E5.
  apply sbind_Ok_inv in Hb as ([] & w6 & Hw & Hb). injection Hb as <- <-.
  by exists exports, i, w5, w6.
Qed.


(** *** Replaying *)

(** The rows of a request's items, in no order. *)
Definition stored_rows (request_id : uuid) (t : atables) : list (item_row V) :=
  (filter (λ r : (uuid * N) * item_row V, r.1.1 = request_id) (map_to_list (wf_items (at_workflow t)))).*2.

Definition row_of (blob_refs : gmap (string * string) V) (i : deletion_inventory_item) : item_row V :=
  ItemRow (di_category i) (di_opaque_id i) (action_as_str (di_action i)) "planned"
    (blob_refs !! (di_category i, di_opaque_id i)).

Lemma action_round_trip a : action_parse (action_as_str a) = Some a.
Proof. by destruct a. Qed.

Lemma run_writing_Ok {A} (f : atables → option (A * atables)) w a w' :
  run (E := E) (writing f) w = (Ok a, w') → f (w_tables w) = Some (a, w_tables w').
Proof. by intros [? _]%smap_err_Ok_inv%statement_writing_Ok. Qed.

Lemma insert_item_Ok request_id ordinal i blob_ref w w' :
  run (E := E) (insert_item request_id ordinal i blob_ref) w = (Ok tt, w') →
  wf_requests (at_workflow (w_tables w')) = wf_requests (at_workflow (w_tables w)) ∧
  stored_rows request_id (w_tables w') ≡ₚ
    ItemRow (di_category i) (di_opaque_id i) (action_as_str (di_action i)) "planned" blob_ref
      :: stored_rows request_id (w_tables w).
Proof.
  intros H%run_writing_Ok. destruct (_ || _) eqn:Ec; [done|]. injection H as <-. apply orb_false_iff in Ec as [Ec _].
  apply bool_decide_eq_false in Ec. split; [done|]. unfold stored_rows. cbn.
  rewrite map_to_list_insert by (by apply eq_None_not_Some). by rewrite filter_cons_True.
Qed.

Lemma persist_items_Ok request_id items blob_refs : ∀ ordinal w w',
  persist_items (E := E) (R := R) request_id ordinal items blob_refs w = (Ok tt, w') →
  wf_requests (at_workflow (w_tables w')) = wf_requests (at_workflow (w_tables w)) ∧
  stored_rows request_id (w_tables w') ≡ₚ (row_of blob_refs <$> items) ++ stored_rows request_id (w_tables w).
Proof.
  induction items as [|i items IH]; intros ordinal w w' H; cbn [persist_items] in H; [by injection H as <-|].
  destruct (negb _); [done|]. apply sbind_Ok_inv in H as ([] & u & [E1 P1]%insert_item_Ok & [E2 P2]%IH).
  split; [by rewrite E2|]. rewrite P2, P1. cbn. by rewrite <-Permutation_middle.
Qed.

Lemma read_items_rows (rows : list (item_row V)) blob_refs items :
  rows ≡ₚ row_of blob_refs <$> items → ∃ items', read_items (E := E) rows = Ok items' ∧ items' ≡ₚ items.
Proof.
  set (f := λ r : item_row V, DeletionInventoryItem (it_category r) (it_opaque_id r)
    (default Remove (action_parse (it_action r)))).
  intros Hp. exists (f <$> rows). split.
  - assert (Hr : Forall (λ r, action_parse (it_action r) ≠ None) rows).
    { rewrite Hp. apply Forall_fmap, Forall_forall. intros i _. cbn. by rewrite action_round_trip. }
    clear Hp. induction Hr as [|r rows Hr Hrs IH]; [done|]. cbn [read_items]. unfold read_item.
    destruct (action_parse (it_action r)) as [a|] eqn:Ea; [|done]. cbn. rewrite IH. cbn. unfold f. by rewrite Ea.
  - rewrite Hp, <-list_fmap_compose. rewrite (list_fmap_ext _ id); [by rewrite list_fmap_id|].
    intros n [c o a] _. unfold f, row_of. cbn. by rewrite action_round_trip.
Qed.

Lemma stored_rows_items request_id (t : atables) : (items_of request_id t).*2 ≡ₚ stored_rows request_id t.
Proof. unfold items_of, stored_rows, rows_by_key. by rewrite sort_by_perm. Qed.

Lemma unrequested request_id (t : atables) :
  fk_ok t = true → wf_requests (at_workflow t) !! request_id = None → stored_rows request_id t = [].
Proof.
  intros Hf Hn. assert (Hi : forallb (λ r : (uuid * N) * item_row V, bool_decide (is_Some (wf_requests (at_workflow t) !! r.1.1)))
    (map_to_list (wf_items (at_workflow t))) = true) by (unfold fk_ok in Hf; repeat rewrite andb_true_iff in Hf; tauto).
  rewrite forallb_forall in Hi. unfold stored_rows. destruct (filter _ _) as [|[k i] l] eqn:El; [done|].
  assert (Hin : (k, i) ∈ (k, i) :: l) by by left. rewrite <-El in Hin.
  apply list_elem_of_filter in Hin as [Hk Hin]. specialize (Hi (k, i)). cbn in Hk. subst request_id.
  rewrite <-list_elem_of_In in Hi. apply Hi in Hin. cbn in Hin. rewrite Hn in Hin. by case_bool_decide as Hs; [destruct Hs|].
Qed.

(** A plan the tables hold: its request, and its items in some order. *)
Definition stored_plan (p : deletion_plan) (t : atables) : Prop :=
  wf_requests (at_workflow t) !! dp_request_id p =
    Some (RequestRow (dp_tenant_id p) (scope_parts (dp_scope p)).1 (scope_parts (dp_scope p)).2 "planned" None None None) ∧
  ∃ refs items, stored_rows (dp_request_id p) t ≡ₚ row_of refs <$> items ∧
    p = plan_new (dp_request_id p) (dp_tenant_id p) (dp_scope p) items.

Lemma persist_plan_stores p blob_refs items w w' :
  p = plan_new (dp_request_id p) (dp_tenant_id p) (dp_scope p) items →
  fk_ok (w_tables w) = true →
  persist_plan (R := R) (E := E) p blob_refs (scope_parts (dp_scope p)) w = (Ok tt, w') → stored_plan p (w_tables w').
Proof.
  intros Hp Hf Hrun. apply sbind_Ok_inv in Hrun as ([] & u & H1%run_writing_Ok & [E2 P2]%persist_items_Ok).
  destruct (wf_requests _ !! _) eqn:Hnew; [done|]. injection H1 as H1. split.
  - rewrite E2, <-H1. cbn. by rewrite lookup_insert_eq.
  - exists blob_refs, (dp_items p). split.
    + rewrite P2. assert (Hr : stored_rows (dp_request_id p) (w_tables u) = stored_rows (dp_request_id p) (w_tables w)) by by rewrite <-H1.
      by rewrite Hr, (unrequested _ _ Hf Hnew), app_nil_r.
    + rewrite Hp at 1. apply plan_new_perm. rewrite Hp. cbn. by rewrite sort_by_perm.
Qed.

Lemma scope_parts_inj a b : scope_parts a = scope_parts b → a = b.
Proof. destruct a, b; cbn; congruence. Qed.

(** Asked again: the plan, or that the request is another's. *)
Lemma load_existing_stored p (t : atables) tenant_id scope w r w' :
  w_tables w = t → stored_plan p t →
  load_existing (R := R) (E := E) tenant_id (dp_request_id p) scope w = (r, w') → w_tables w' = t ∧
  match r with
  | Ok answer => answer = Some p ∧ tenant_id = dp_tenant_id p ∧ scope = dp_scope p
  | Err e => e = Store ∨ (e = Conflict ∧ ¬ (tenant_id = dp_tenant_id p ∧ scope = dp_scope p))
  end.
Proof.
  intros Et [Hreq (refs & items & Hrows & Hp)] Hrun. unfold load_existing in Hrun.
  apply sbind_inv in Hrun as [(x & w1 & [E1 ->]%(yields_Ok _ _ _ _ _ (ask_yields _)) & Hrun)|
    (e & [E1 ->]%(yields_Err _ _ _ _ _ (ask_yields _)) & ->)]; [|rewrite E1; split; [done|by left]].
  rewrite Et, Hreq in Hrun. rewrite Et in E1. cbn in Hrun. destruct (scope_parts scope) as [kind scope_id] eqn:Hs.
  destruct (negb _) eqn:Hm.
  { injection Hrun as <- <-. split; [done|]. right. split; [done|]. intros [-> ->]. rewrite Hs in Hm. cbn in Hm.
    by rewrite !String.eqb_refl, bool_decide_eq_true_2 in Hm. }
  apply negb_false_iff in Hm. rewrite !andb_true_iff, !String.eqb_eq, bool_decide_eq_true in Hm.
  destruct Hm as [[Htenant Hkind] Hid].
  assert (Hscope : scope = dp_scope p) by (apply scope_parts_inj; rewrite Hs; destruct (scope_parts (dp_scope p)); cbn in *; congruence).
  apply sbind_inv in Hrun as [(rows & w2 & [E2 ->]%(yields_Ok _ _ _ _ _ (ask_yields _)) & Hrun)|
    (e & [E2 ->]%(yields_Err _ _ _ _ _ (ask_yields _)) & ->)]; [|rewrite E2; split; [done|by left]].
  rewrite E1 in *. destruct (read_items_rows ((items_of (dp_request_id p) t).*2) refs items) as (items' & Hread & Hperm).
  { by rewrite stored_rows_items. }
  unfold sbind, slift in Hrun. rewrite Hread in Hrun. injection Hrun as <- <-. rewrite E2. split_and!; [done| |done..].
  f_equal. rewrite Hscope, <-Htenant, (plan_new_perm _ _ _ _ _ Hperm). by symmetry.
Qed.

Lemma plan_body_replayed p tenant_id scope w r w' :
  stored_plan p (w_tables w) → plan_body (R := R) (E := E) tenant_id (dp_request_id p) scope w = (r, w') →
  w_tables w' = w_tables w ∧
  match r with
  | Ok None => exports_in tenant_id scope (w_tables w) = None
  | Ok (Some p') => p' = p ∧ tenant_id = dp_tenant_id p ∧ scope = dp_scope p
  | Err e => e = Store ∨ (e = Conflict ∧ ¬ (tenant_id = dp_tenant_id p ∧ scope = dp_scope p))
  end.
Proof.
  intros Hp Hrun. unfold plan_body in Hrun.
  apply sbind_inv in Hrun as [([] & w1 & [E1 _]%(yields_Ok _ _ _ _ _ (lock_tenant_yields _)) & Hrun)|
    (e & [E1 ->]%(yields_Err _ _ _ _ _ (lock_tenant_yields _)) & ->)]; [|split; [done|by left]].
  apply sbind_inv in Hrun as [(s & w2 & [E2 ->]%(yields_Ok _ _ _ _ _ (selected_exports_yields _ _)) & Hrun)|
    (e & [E2 ->]%(yields_Err _ _ _ _ _ (selected_exports_yields _ _)) & ->)]; [|rewrite E2; split; [done|by left]].
  rewrite E1 in *. destruct (exports_in tenant_id scope (w_tables w)); [|by injection Hrun as <- <-].
  apply sbind_inv in Hrun as [(found & w3 & H3 & Hrun)|(e & H3 & ->)];
    apply (load_existing_stored p _ _ _ _ _ _ E2 Hp) in H3 as [E3 H3]; [|done].
  destruct H3 as (-> & ? & ?). by injection Hrun as <- <-.
Qed.

(** The plan of a request is made once: asked for again, in whatever state the
    rest of the archive is by then, it is the same plan if the tenant and the
    scope are the same and a conflict if they are not, and nothing is written. *)
Theorem plan_is_replayable (tenant_id tenant_id' request_id : uuid) (scope scope' : privacy_deletion_scope)
    (w w' v v' : world atables) (p : deletion_plan) r :
  let t := w_tables (interfere v) in
  fk_ok (w_tables (interfere w)) = true → wf_requests (at_workflow (w_tables (interfere w))) !! request_id = None →
  plan (E := E) tenant_id request_id scope w = (Ok (Some p), w') →
  at_workflow t = at_workflow (w_tables w') →
  plan (E := E) tenant_id' request_id scope' v = (r, v') →
  w_tables v' = t ∧
  match r with
  | Ok None => exports_in tenant_id' scope' t = None
  | Ok (Some p') => p' = p ∧ tenant_id' = tenant_id ∧ scope' = scope
  | Err e => e = Store ∨ (e = Conflict ∧ ¬ (tenant_id' = tenant_id ∧ scope' = scope))
  end.
Proof.
  intros t Hf Hnew Hplan Ht Hagain.
  assert (Hs : stored_plan p (w_tables w') ∧ dp_request_id p = request_id ∧ dp_tenant_id p = tenant_id ∧ dp_scope p = scope).
  { apply plan_Ok in Hplan as (exports & i & u & u' & _ & -> & _ & Eu & Hrun & ->); [|done]. split; [|done].
    eapply persist_plan_stores; [|by rewrite Eu|exact Hrun]. done. }
  destruct Hs as (Hs & <- & <- & <-).
  assert (Hst : stored_plan p t) by (unfold stored_plan, stored_rows in *; by rewrite Ht).
  apply transaction_inv in Hagain as [[-> Et]|(x0 & u & Hb & Hr & Hu)]; [split; [done|by left]|].
  apply (plan_body_replayed p) in Hb as [Eu Hans]; [|done]. split.
  - destruct Hu as [->|[_ ->]]; done.
  - destruct Hr as [->| ->]; [done|by left].
Qed.
End plan_laws.

(** ** Instances *)

Module PlanWitness.
Import Sample.

#[local] Abbreviation sample_plan := (plan (V := blob_ref) (R := deletion_report blob_ref) (E := blob_store_error)).

Lemma plan_new_canonical_witness :
  let i := DeletionInventoryItem "export" "x1" Remove in
  let j := DeletionInventoryItem "account" "tenant" Remove in
  dp_items (plan_new request "tenant" TenantScope [i; j]) ≡ₚ [i; j] ∧
  plan_new request "tenant" TenantScope [i; j] = plan_new request "tenant" TenantScope [j; i].
Proof.
  intros i j. destruct (plan_new_canonical request "tenant" TenantScope [i; j] [j; i]) as (H1 & H2 & _).
  - apply perm_swap.
  - split; [exact H2|exact H1].
Defined.

(** Another tenant keeps the same bytes under another media type: they are not
    shared in the planner's sense. *)
Example other_media_type_is_not_shared :
  let theirs := ArchiveExport "a9" "other" "consumer_export" (blob "abone" "application/octet-stream") 10 in
  blob_shared ["x1"] (blob "abone" "application/zip") (on_evidence (on_exports <["x9" := theirs]>) archive) = false ∧
  blob_shared ["x1"] (blob "abone" "application/octet-stream") (on_evidence (on_exports <["x9" := theirs]>) archive) = true.
Proof. vm_compute. split; reflexivity. Qed.

(** The records the first export is concerned with. *)
Lemma sample_concerned kind id :
  concerned "tenant" (ArchiveScope "a1") [SelectedExport "x1" "a1" (blob "abone" "application/zip")] archive kind id →
  (kind, id) ∈ [("conversation", "c1"); ("conversation", "c2"); ("message", "m1")].
Proof.
  induction 1 as [kind id x Hk Hx [d Hd]|id Hs|kind id Hk Hs|c id m Hc _ Hm _]; try done.
  - apply list_elem_of_singleton in Hx. subst x. apply elem_of_map_to_list in Hd. revert Hd. vm_compute map_to_list.
    intros Hd. rewrite !elem_of_cons in *. rewrite elem_of_nil in Hd.
    destruct Hd as [Hd|[Hd|[Hd|[]]]]; simplify_eq; auto.
  - apply elem_of_map_to_list in Hm. revert Hm. vm_compute map_to_list. intros Hm.
    rewrite !elem_of_cons in *. rewrite elem_of_nil in Hm. destruct Hm as [[= <- _]|[]]; auto.
Qed.


(** Planned again, from the world the plan left. *)
Definition again := sample_plan "tenant" request (ArchiveScope "a1") planned.2.

Lemma again_Ok : is_ok again.1 = true.
Proof. evaluates. Qed.

Lemma plan_is_replayable_witness :
  w_tables again.2 = w_tables planned.2 ∧ ∀ p, again.1 = Ok (Some p) → p = the_plan.
Proof.
  pose proof (ran None again again_Ok) as Hr. pose proof (alone _ planned_alone) as Ha.
  destruct (plan_is_replayable (E := blob_store_error) "tenant" "tenant" request (ArchiveScope "a1") (ArchiveScope "a1")
    start planned.2 planned.2 again.2 the_plan (Ok (value_or None again.1))) as [Ht Hp].
  - evaluates.
  - vm_compute. reflexivity.
  - exact planned_Ok.
  - rewrite Ha. reflexivity.
  - exact Hr.
  - rewrite Ha in Ht. split; [exact Ht|]. intros p E. rewrite E in Hp. exact (proj1 Hp).
Defined.
End PlanWitness.
