(* ===== verification/DeletionRows.v ===== *)
(** * The rows of a privacy deletion ([privacy_deletion/rows.rs],
      [privacy_deletion/restore.rs])

    Phase A: in one transaction the scoped rows go, the records that stay are
    put back to what the retained exports hold, tombstones and erasure
    commands are queued, and the request becomes [purging]. *)

From S2P Require Import Prelude BTree Disk BlobStore Registry Json Parser Postgres OutboxTable.
From S2P Require Import StreamErasure ArchiveTables NormalizedStore ArchiveEvents ContractProjection.
From S2P Require Import DeletionPlan SampleArchive.

#[local] Open Scope result_scope.

Inductive finalization_fault : Set :=
| NoFault | AfterFirstRemoval | AfterTombstones | AfterRowsCommitted.

#[global] Instance finalization_fault_eq_dec : EqDecision finalization_fault.
Proof. solve_decision. Defined.

(** [str::parse::<i64>]. *)
Definition parse_i64 (s : string) : option Z :=
  match s with
  | String c rest =>
      if Ascii.eqb c "-" then
        if String.eqb rest "" || starts_with "+" rest then None
        else (λ n, (- Z.of_N n)%Z) <$> parse_unsigned (i64_max + 1) rest
      else Z.of_N <$> parse_unsigned i64_max s
  | EmptyString => None
  end.

(** [execution.rs]: a request as it is loaded. *)
Abbreviation durable_request := request_row (only parsing).

(** A tombstone subject and the owners the ledger holds for it. *)
Record announcement : Set := Announcement {
  nn_subject : string;
  nn_kind : subject_kind;
  nn_subject_id : uuid;
  nn_owners : list (string * uuid);
}.

Definition tombstone_subject (kind : subject_kind) (id : uuid) : json :=
  match kind with
  | KindArchive => json_map [("subject_kind", JString "archive")]
  | KindConversation =>
      json_map [("subject_kind", JString "conversation"); ("ai_conversation_id", JString id)]
  | KindProject => json_map [("subject_kind", JString "project"); ("ai_project_id", JString id)]
  end.

Definition tombstone_key (request_id subject owner : string) : string :=
  "privacy-delete:" +:+ (request_id +:+ String colon (subject +:+ String colon owner)).

(** ** Deleted rows *)

Section tables.
Context {V R : Type} `{EqDecision V}.

#[local] Abbreviation atables := (atables V R).

(** The [DELETE ... WHERE id = ANY($1)] of each category. *)
Definition delete_raw_records (ids : list uuid) : atables → atables :=
  on_evidence (on_raw_records (delete_ids ids)).
Definition delete_reports (ids : list uuid) : atables → atables := on_evidence (on_reports (delete_ids ids)).
Definition delete_relations (ids : list uuid) : atables → atables :=
  on_normalized (on_relations (delete_ids ids)).
Definition delete_parts (ids : list uuid) : atables → atables := on_normalized (on_parts (delete_ids ids)).
Definition delete_revisions (ids : list uuid) : atables → atables :=
  on_normalized (on_revisions (delete_ids ids)).
Definition delete_assets (ids : list uuid) : atables → atables := on_normalized (on_assets (delete_ids ids)).
Definition delete_messages (ids : list uuid) : atables → atables :=
  on_normalized (on_messages (delete_ids ids)).
Definition delete_conversations (ids : list uuid) : atables → atables :=
  on_normalized (on_conversations (delete_ids ids)).
Definition delete_projects (ids : list uuid) : atables → atables :=
  on_normalized (on_projects (delete_ids ids)).
(** With the cascade of [extracted_artifacts]: none references it. *)
Definition delete_artifacts (ids : list uuid) : atables → atables :=
  on_evidence (on_artifacts (delete_ids ids)).
Definition delete_import_runs (ids : list uuid) : atables → atables :=
  on_evidence (on_import_runs (delete_ids ids)).

Definition delete_inbox (ids : list Z) : atables → atables :=
  on_inbox (filter (λ r : N * (option uuid * option uuid), Z.of_N r.1 ∉ ids)).

(** Operation bindings of the exports or of their runs. *)
Definition delete_operations (exports : list uuid) (t : atables) : atables :=
  on_evidence (on_operations (filter (λ r : uuid * operation_row,
    oi_export_id r.2 ∉ exports ∧ oi_import_run_id r.2 ∉ import_runs_of exports t))) t.

Definition delete_reparse_runs (exports : list uuid) : atables → atables :=
  on_evidence (on_reparse_runs (filter (λ r : uuid * reparse_row, rr_export_id r.2 ∉ exports))).

Definition delete_observations (exports : list uuid) : atables → atables :=
  on_normalized (on_observations (filter (λ r : observation_key * option string, r.1.1.1 ∉ exports))).

(** The references to [exports] that cascade: observations, artifacts, outbox
    and inbox rows. *)
Definition delete_exports (exports : list uuid) (t : atables) : atables :=
  on_inbox (filter (λ r : N * (option uuid * option uuid), in_exports exports r.2.2 = false))
  (on_outbox (set_rows (filter (λ r : N * outbox_row, in_exports exports (ft_export_id r.2.1) = false)))
  (on_evidence (on_artifacts (filter (λ r : uuid * artifact_row V, ar_export_id r.2 ∉ exports)))
  (delete_observations exports
  (on_evidence (on_exports (delete_ids exports)) t)))).

(** [announced_subjects] cascades. *)
Definition delete_account (tenant_id : uuid) (t : atables) : atables :=
  on_announced (filter (λ r : (string * uuid * string) * announced_row, an_account_id r.2 ≠ tenant_id))
    (on_accounts (delete tenant_id) t).

Definition detach_projects (projects : list uuid) : atables → atables :=
  on_normalized (on_conversations (fmap (λ c : conversation_row,
    if in_exports projects (cnv_project_id c) then
      ConversationRow None (cnv_account_id c) (cnv_external_id c) (cnv_title c)
        (cnv_first_seen_export c) (cnv_last_seen_export c) (cnv_provider_created_at c)
        (cnv_provider_updated_at c) (cnv_parser_name c) (cnv_parser_version c) (cnv_content_digest c)
    else c))).

(** ** Provenance *)

(** The exports that stay and observed the entity, in order. *)
Definition retained_observers (exports : list uuid) (kind : string) (id : uuid) (n : normalized V) : list uuid :=
  sort_by (cmp_on (λ x, x))
    ((λ k : observation_key, k.1.1) <$>
       filter (λ k : observation_key, k.1.2 = kind ∧ k.2 = id ∧ k.1.1 ∉ exports)
         (map_to_list (nm_observations n)).*1).

Definition repoint_project (exports : list uuid) (n : normalized V) (id : uuid) (p : project_row) : project_row :=
  if in_exports exports (prj_first_seen_export p) || in_exports exports (prj_last_seen_export p) then
    let observers := retained_observers exports "project" id n in
    ProjectRow (prj_account_id p) (prj_external_id p) (prj_title p) (prj_description p)
      (prj_instructions p) (head observers) (last observers) (prj_parser_name p)
      (prj_parser_version p) (prj_content_digest p)
  else p.

Definition repoint_conversation (exports : list uuid) (n : normalized V) (id : uuid) (c : conversation_row)
    : conversation_row :=
  if in_exports exports (cnv_first_seen_export c) || in_exports exports (cnv_last_seen_export c) then
    let observers := retained_observers exports "conversation" id n in
    ConversationRow (cnv_project_id c) (cnv_account_id c) (cnv_external_id c) (cnv_title c)
      (head observers) (last observers) (cnv_provider_created_at c) (cnv_provider_updated_at c)
      (cnv_parser_name c) (cnv_parser_version c) (cnv_content_digest c)
  else c.

Definition repoint_asset (exports : list uuid) (n : normalized V) (id : uuid) (a : asset_row V) : asset_row V :=
  if in_exports exports (ast_observed_in a)
  then AssetRow (head (retained_observers exports "asset" id n)) (ast_blob_ref a) else a.

Definition repoint_projects (exports : list uuid) : atables → atables :=
  on_normalized (λ n, on_projects (map_imap (λ id p, Some (repoint_project exports n id p))) n).
Definition repoint_conversations (exports : list uuid) : atables → atables :=
  on_normalized (λ n, on_conversations (map_imap (λ id c, Some (repoint_conversation exports n id c))) n).
Definition repoint_assets (exports : list uuid) : atables → atables :=
  on_normalized (λ n, on_assets (map_imap (λ id a, Some (repoint_asset exports n id a))) n).

(** ** Blobs *)

(** Some row references the blob. *)
Definition referenced (blob_ref : V) (t : atables) : bool :=
  let e := at_evidence t in
  let n := at_normalized t in
  existsb (λ r : uuid * archive_export V, bool_decide (xp_blob_ref r.2 = blob_ref)) (map_to_list (ev_exports e))
  || existsb (λ r : uuid * artifact_row V, bool_decide (ar_blob_ref r.2 = blob_ref)) (map_to_list (ev_artifacts e))
  || existsb (λ r : uuid * asset_row V, bool_decide (ast_blob_ref r.2 = Some blob_ref)) (map_to_list (nm_assets n))
  || existsb (λ r : uuid * part_row V, bool_decide (pt_blob_ref r.2 = Some blob_ref)) (map_to_list (nm_parts n)).

Definition set_item (action state : string) (i : item_row V) : item_row V :=
  ItemRow (it_category i) (it_opaque_id i) action state (it_blob_ref i).

(** [UPDATE ... SET action, state WHERE request_id AND ordinal AND where]. *)
Definition update_item (request_id : uuid) (ordinal : N) (where_ : item_row V → bool) (action state : string)
    : atables → atables :=
  on_workflow (on_items (alter (λ i, if where_ i then set_item action state i else i) (request_id, ordinal))).

Definition not_purged (i : item_row V) : bool := negb (String.eqb (it_state i) "purged").

(** The items with a blob, by ordinal. *)
Definition blob_items (request_id : uuid) (t : atables) : list (N * V) :=
  omap (λ r : (uuid * N) * item_row V, pair r.1.2 <$> it_blob_ref r.2) (items_of request_id t).

Definition finalize_tombstone (request_id subject : string) : atables → atables :=
  on_workflow (on_items (map_imap (λ k (i : item_row V),
    Some (if String.eqb k.1 request_id && String.eqb (it_category i) "downstream_tombstone"
             && String.eqb (it_opaque_id i) subject
          then set_item (it_action i) "finalized" i else i)))).

Definition set_purging (request_id : uuid) (evidence_ref : V) : atables → atables :=
  on_workflow (on_requests (alter (λ r : request_row V R,
    RequestRow (rq_tenant_id r) (rq_scope_kind r) (rq_scope_id r) "purging" (rq_correlation_id r)
      (rq_completion_report r) (Some evidence_ref)) request_id)).

(** The tombstone subjects of a request, in order. *)
Definition subjects_of (request_id : uuid) (t : atables) : list string :=
  sort_by (cmp_on (λ s, s))
    ((λ r : (uuid * N) * item_row V, it_opaque_id r.2) <$>
       filter (λ r : (uuid * N) * item_row V,
          r.1.1 = request_id ∧ it_category r.2 = "downstream_tombstone")
         (map_to_list (wf_items (at_workflow t)))).

(** Some item removes the account. *)
Definition removes_account (request_id : uuid) (t : atables) : bool :=
  existsb (λ r : (uuid * N) * item_row V, String.eqb r.1.1 request_id
    && String.eqb (it_category r.2) "account" && String.eqb (it_action r.2) "remove")
    (map_to_list (wf_items (at_workflow t))).

Definition archives_of (exports : list uuid) (t : atables) : list uuid :=
  remove_dups ((λ r : uuid * archive_export V, xp_ai_archive_id r.2) <$>
    filter (λ r : uuid * archive_export V, r.1 ∈ exports) (map_to_list (ev_exports (at_evidence t)))).

(** ** Versions *)

(** Versions of records that are gone. *)
Definition drop_orphan_versions : atables → atables :=
  on_normalized (λ n, on_versions (filter (λ v : version_key * json,
    (v.1.1.1 = PROJECT ∧ is_Some (nm_projects n !! v.1.1.2)) ∨
    (v.1.1.1 = CONVERSATION ∧ is_Some (nm_conversations n !! v.1.1.2)))) n).

Definition owned_record (tenant_id id : uuid) (n : normalized V) : bool :=
  match nm_projects n !! id with
  | Some p => bool_decide (prj_account_id p = Some tenant_id)
  | None => false
  end
  || match nm_conversations n !! id with
     | Some c => bool_decide (cnv_account_id c = Some tenant_id)
     | None => false
     end.

(** The records of the tenant that keep a version no export presents. *)
Definition stale (tenant_id : uuid) (t : atables) : list (string * uuid) :=
  let n := at_normalized t in
  sort_by (cmp_on (λ k, k)) (remove_dups (fst <$>
    filter (λ v : version_key, presented n v.1.1 v.1.2 v.2 = false ∧ owned_record tenant_id v.1.2 n = true)
      (map_to_list (nm_versions n)).*1)).

(** The versions retained exports presented, the oldest export first. *)
Definition retained_versions (kind : string) (id : uuid) (t : atables) : list (uuid * string * json) :=
  let n := at_normalized t in
  (λ r : (N * uuid) * (string * json), (r.1.2, r.2.1, r.2.2)) <$>
    sort_by (cmp_on fst)
      (omap (λ o : observation_key * option string,
         if String.eqb o.1.1.2 kind && String.eqb o.1.2 id then
           digest ← o.2; e ← ev_exports (at_evidence t) !! o.1.1.1;
           snapshot ← nm_versions n !! (kind, id, digest);
           Some ((xp_received_at e, o.1.1.1), (digest, snapshot))
         else None) (map_to_list (nm_observations n))).

Definition restored_project (v : project_version) (digest : string) (p : project_row) : project_row :=
  ProjectRow (prj_account_id p) (prj_external_id p) (pjv_title v) (pjv_description v) (pjv_instructions v)
    (prj_first_seen_export p) (prj_last_seen_export p) (Some (pjv_parser_name v)) (Some (pjv_parser_version v))
    (Some digest).

Definition detached (c : conversation_row) : conversation_row :=
  ConversationRow None (cnv_account_id c) (cnv_external_id c) (cnv_title c)
    (cnv_first_seen_export c) (cnv_last_seen_export c) (cnv_provider_created_at c)
    (cnv_provider_updated_at c) (cnv_parser_name c) (cnv_parser_version c) (cnv_content_digest c).

Definition in_conversation (conversation_id : uuid) (n : normalized V) (p : part_row V) : bool :=
  match nm_messages n !! pt_message_id p with
  | Some m => String.eqb (ms_conversation_id m) conversation_id
  | None => false
  end.

(** The parts of every message of a conversation. *)
Definition clear_parts (conversation_id : uuid) : atables → atables :=
  on_normalized (λ n, on_parts (filter (λ r : uuid * part_row V, in_conversation conversation_id n r.2 = false)) n).
End tables.

Section rows.
Context {wire ref : Type} `{Contracts wire ref}.
Context (sha256_hex : string → string) (new_uuid : N → uuid) (parse_uuid : string → option uuid).
Context (render : json → string) (pg_render render_instant : N → string).
Context (collate : string → string → comparison) (later : string → N → option string).
Context (to_timestamp : N → N).
Context {V R E : Type} `{EqDecision V} (decode_ref : V → option blob_ref) (encode_ref : blob_ref → option V).
(** [Serialize] of a [BlobRef], [Deserialize] of the snapshots, the envelope
    of an erasure command. *)
Context (ref_json : blob_ref → json).
Context (decode_project : json → option project_version).
Context (decode_conversation : json → option conversation_version).
Context (erasure_document : erasure_command (wire := wire) → result enqueue_error json).

#[local] Abbreviation atables := (atables V R).
#[local] Abbreviation tx := (sm (world atables) (privacy_deletion_error E)).
#[local] Abbreviation run := (run (V := V) (R := R) (E := E)).
#[local] Abbreviation ask := (ask (V := V) (R := R) (E := E)).
#[local] Abbreviation projection_tx A := (sm (world atables) projection_error A).
#[local] Abbreviation request := (durable_request V R).
#[local] Abbreviation find_survivors_in := (find_survivors parse_uuid render (V := V) (R := R)).
#[local] Abbreviation reannounce :=
  (reannounce sha256_hex new_uuid render render_instant collate later (V := V) (R := R) decode_ref).
#[local] Abbreviation owners_of := (owners_of (V := V) (R := R)).
#[local] Abbreviation forget := (forget (V := V) (R := R)).
#[local] Abbreviation enqueue_normalized_event := (enqueue_normalized_event (V := V) (R := R)).
#[local] Abbreviation event_of_payload := (event_of_payload new_uuid (V := V) (R := R)).
#[local] Abbreviation drop_published_fact_rows := (StreamErasure.drop_published_fact_rows render).
#[local] Abbreviation owner_ok := (λ owner, negb (is_null (parse_tenant (ref := ref) owner))).
#[local] Abbreviation request_ok := (λ id, negb (is_null (parse_local_id (ref := ref) id))).
#[local] Abbreviation stream_erasure_commands :=
  (StreamErasure.enqueue_erasure_commands request_ok (producer_ok (ref := ref)) owner_ok erasure_document).
#[local] Abbreviation persist_conversation_detail :=
  (persist_conversation_detail new_uuid to_timestamp (V := V) (R := R)).
#[local] Abbreviation append_revision := (append_revision render new_uuid (V := V) (R := R)).

Definition store_error {A} (c : sm (world atables) sql_error A) : tx A := smap_err (λ _, Store) c.

(** ** Identities of the inventory *)

Definition item_ids (request_id category action : string) : tx (list uuid) :=
  let! values := ask (opaque_ids request_id category action) in
  slift (ok_or InvalidInventory (mapM parse_uuid values)).

Definition i64_item_ids (request_id category : string) : tx (list Z) :=
  let! values := ask (opaque_ids request_id category "remove") in
  slift (ok_or InvalidInventory (mapM parse_i64 values)).

Definition delete_uuid_category (request_id category : string) (query : list uuid → atables → atables)
    : tx unit :=
  let! ids := item_ids request_id category "remove" in run (write (query ids)).

Definition delete_i64_category (request_id category : string) (query : list Z → atables → atables)
    : tx unit :=
  let! ids := i64_item_ids request_id category in run (write (query ids)).

Fixpoint delete_categories (request_id : string) (l : list (string * (list uuid → atables → atables)))
    : tx unit :=
  match l with
  | [] => sret tt
  | (category, query) :: rest =>
      let! _ := delete_uuid_category request_id category query in delete_categories request_id rest
  end.

Definition find_survivors (request_id : uuid) : tx survivors :=
  let! exports := item_ids request_id "export" "remove" in
  let! archives := ask (archives_of exports) in
  smap_err Reannounce (find_survivors_in request_id archives).

(** ** The removal *)

Definition delete_export_dependents (exports : list uuid) : tx unit :=
  let! _ := run (write (delete_operations exports)) in
  run (write (delete_reparse_runs exports)).

Definition repoint_surviving_provenance (exports : list uuid) : tx unit :=
  let! _ := run (write (repoint_projects exports)) in
  let! _ := run (write (repoint_conversations exports)) in
  run (write (repoint_assets exports)).

Definition delete_exports_and_account (request_id tenant_id : uuid) (exports : list uuid) : tx unit :=
  let! _ := run (write (delete_observations exports)) in
  let! _ := run (write (delete_exports exports)) in
  let! account := ask (removes_account request_id) in
  if account : bool then run (write (delete_account tenant_id)) else sret tt.

(** Identity column values are not negative. *)
Definition outbox_ids (ids : list Z) : list N := omap to_u64 ids.

Definition delete_scoped_rows (request_id tenant_id : uuid) : tx published_facts :=
  let! exports := item_ids request_id "export" "remove" in
  let! _ := delete_export_dependents exports in
  let! _ := delete_categories request_id
    [("completeness_report", delete_reports); ("message_relation", delete_relations);
     ("content_part", delete_parts); ("revision", delete_revisions); ("asset", delete_assets);
     ("message", delete_messages); ("conversation", delete_conversations)] in
  let! removed_projects := item_ids request_id "project" "remove" in
  let! _ := run (write (detach_projects removed_projects)) in
  let! _ := delete_categories request_id
    [("project", delete_projects); ("extracted_artifact", delete_artifacts);
     ("import_run", delete_import_runs)] in
  let! _ := delete_i64_category request_id "inbox_event" delete_inbox in
  let! outbox := i64_item_ids request_id "outbox_event" in
  let! dropped := store_error (in_outbox (drop_published_fact_rows (outbox_ids outbox) exports)) in
  let! _ := repoint_surviving_provenance exports in
  let! _ := delete_exports_and_account request_id tenant_id exports in
  sret dropped.

(** ** Blobs *)

Definition blob_is_referenced (blob_ref : V) : tx bool := ask (referenced blob_ref).

(** The action and state of a blob item. *)
Definition sharing (shared : bool) : string * string :=
  if shared then ("retain_shared", "retained") else ("erase", "planned").

Fixpoint recompute_items (request_id : uuid) (items : list (N * V)) : tx unit :=
  match items with
  | [] => sret tt
  | (ordinal, blob_ref) :: rest =>
      let! shared := blob_is_referenced blob_ref in
      let! _ := run (write (update_item request_id ordinal not_purged (sharing shared).1 (sharing shared).2)) in
      recompute_items request_id rest
  end.

Definition recompute_blob_sharing (request_id : uuid) : tx unit :=
  let! items := ask (blob_items request_id) in recompute_items request_id items.

(** ** Tombstones *)

Fixpoint announcements (tenant_id : uuid) (subjects : list string) : tx (list announcement) :=
  match subjects with
  | [] => sret []
  | subject :: rest =>
      let! (kind, subject_id) := slift (ok_or InvalidInventory (parse_inventory_subject parse_uuid subject)) in
      let! owners := store_error (owners_of tenant_id kind subject_id) in
      let! more := announcements tenant_id rest in
      sret (Announcement subject kind subject_id owners :: more)
  end.

Definition read_announcements (tenant_id request_id : uuid) : tx (list announcement) :=
  let! subjects := ask (subjects_of request_id) in announcements tenant_id subjects.

Definition tombstone_json (archive_id : uuid) (owner : string) (kind : subject_kind) (subject_id : uuid)
    (evidence_ref : blob_ref) (observed_at : wire) : json :=
  json_map [("ai_archive_id", JString archive_id); ("provider", JString "chatgpt"); ("owner", JString owner);
            ("subject", tombstone_subject kind subject_id); ("reason", JString "user_requested");
            ("evidence_ref", ref_json evidence_ref); ("observed_at", JString (to_wire observed_at))].

Definition mark_tombstone_finalized (request_id subject : string) : tx unit :=
  run (write (finalize_tombstone request_id subject)).

Definition correlated (durable : request) (e : normalized_archive_event wire ref)
    : normalized_archive_event wire ref :=
  match rq_correlation_id durable with
  | Some id => with_correlation (correlation_ref id) e
  | None => e
  end.

Fixpoint tombstone_owners (durable : request) (request_id : uuid) (a : announcement)
    (evidence_ref : blob_ref) (observed_at : wire) (owners : list (string * uuid)) : tx unit :=
  match owners with
  | [] => sret tt
  | (owner, archive_id) :: rest =>
      let! payload := slift (ok_or Encode (parse_tombstone
        (tombstone_json archive_id owner (nn_kind a) (nn_subject_id a) evidence_ref observed_at))) in
      let! e := smap_err Tombstone (event_of_payload (SubjectTombstoned payload)) in
      let! _ := smap_err Tombstone (enqueue_normalized_event (correlated durable e)
        (OutboxPlacement (Some (rq_tenant_id durable)) None
           (Some (tombstone_key request_id (nn_subject a) owner)))) in
      tombstone_owners durable request_id a evidence_ref observed_at rest
  end.

Fixpoint insert_tombstones (durable : request) (request_id : uuid) (l : list announcement)
    (evidence_ref : blob_ref) (observed_at : wire) : tx unit :=
  match l with
  | [] => sret tt
  | a :: rest =>
      let! _ := tombstone_owners durable request_id a evidence_ref observed_at (nn_owners a) in
      let! _ := store_error (forget (rq_tenant_id durable) (nn_kind a) (nn_subject_id a)) in
      let! _ := mark_tombstone_finalized request_id (nn_subject a) in
      insert_tombstones durable request_id rest evidence_ref observed_at
  end.

(** ** The retained versions ([restore.rs]) *)

Definition restore_project (id : uuid) (held : uuid * string * json) : tx unit :=
  let '(_, digest, snapshot) := held in
  let! version := slift (ok_or Encode (decode_project snapshot)) in
  run (write (on_normalized (on_projects (alter (restored_project version digest) id)))).

Fixpoint restore_versions (tenant_id id : uuid) (previous : option string) (held : list (uuid * string * json))
    : tx unit :=
  match held with
  | [] => sret tt
  | (export_id, digest, snapshot) :: rest =>
      if bool_decide (previous = Some digest) then restore_versions tenant_id id previous rest
      else
        let! version := slift (ok_or Encode (decode_conversation snapshot)) in
        let! project_id :=
          match cvn_project_external_id version with
          | Some external_id => ask (λ t, project_with tenant_id external_id (at_normalized t))
          | None => sret None
          end in
        let! _ := store_error (persist_conversation_detail export_id id project_id
          (cvn_conversation version) (ParserId (cvn_parser_name version) (cvn_parser_version version))) in
        restore_versions tenant_id id (Some digest) rest
  end.

Definition restore_conversation (tenant_id id : uuid) (held : list (uuid * string * json)) : tx unit :=
  let! _ := run (write (on_normalized (on_conversations (alter detached id)))) in
  let! _ := run (write (clear_parts id)) in
  let! _ := restore_versions tenant_id id None held in
  match last held with
  | None => sret tt
  | Some (export_id, digest, snapshot) =>
      let! version := slift (ok_or Encode (decode_conversation snapshot)) in
      let! _ := store_error (set_conversation_digest id digest) in
      store_error (append_revision id export_id digest (cvn_parser_name version, cvn_parser_version version))
  end.

Fixpoint restore_stale (tenant_id : uuid) (l : list (string * uuid)) : tx unit :=
  match l with
  | [] => sret tt
  | (kind, id) :: rest =>
      let! held := ask (retained_versions kind id) in
      let! _ :=
        match last held with
        | None => sret tt
        | Some newest =>
            if String.eqb kind PROJECT then restore_project id newest
            else if String.eqb kind CONVERSATION then restore_conversation tenant_id id held
            else sfail InvalidInventory
        end in
      let! _ := run (write (on_normalized (drop_versions kind id (λ _, false)))) in
      restore_stale tenant_id rest
  end.

Definition restore_retained_versions (tenant_id : uuid) : tx unit :=
  let! _ := run (write drop_orphan_versions) in
  let! l := ask (stale tenant_id) in
  restore_stale tenant_id l.

(** ** Phase A *)

Definition erasure_error_of (e : StreamErasure.privacy_deletion_error) : privacy_deletion_error E :=
  match e with
  | StreamErasure.DStreamErasure => DeletionPlan.StreamErasure
  | StreamErasure.DStore => Store
  | StreamErasure.DEncode => Encode
  end.

Definition enqueue_erasure_commands (durable : request) (request_id : uuid) (issued_at : wire)
    (facts : published_facts) : tx unit :=
  smap_err erasure_error_of (in_outbox (stream_erasure_commands
    (StreamErasure.DurableRequest (rq_tenant_id durable) (rq_correlation_id durable)) request_id issued_at facts)).

Definition rollback : tx unit := ask (λ _, tt).

Definition inject (fault at' : finalization_fault) : tx unit :=
  if decide (fault = at') then let! _ := rollback in sfail InjectedFinalization else sret tt.

(** What the transaction does once the request is found [planned]. *)
Definition remove_planned (durable : request) (request_id : uuid) (evidence_ref : blob_ref)
    (fault : finalization_fault) : tx unit :=
  let tenant_id := rq_tenant_id durable in
  let! _ := delete_uuid_category request_id "raw_record" delete_raw_records in
  let! _ := inject fault AfterFirstRemoval in
  let! survivors := find_survivors request_id in
  let! announcements := read_announcements tenant_id request_id in
  let! dropped := delete_scoped_rows request_id tenant_id in
  let! _ := restore_retained_versions tenant_id in
  let! removed_at := store_error (in_outbox (database_now parse_wire pg_render)) in
  let! _ := insert_tombstones durable request_id announcements evidence_ref removed_at in
  let! _ := enqueue_erasure_commands durable request_id removed_at dropped in
  let! _ := if no_survivors survivors then sret tt
            else smap_err Reannounce (reannounce (Deletion request_id tenant_id removed_at) survivors) in
  let! _ := inject fault AfterTombstones in
  let! _ := recompute_blob_sharing request_id in
  let! encoded := slift (ok_or Encode (encode_ref evidence_ref)) in
  run (write (set_purging request_id encoded)).

(** The body of the transaction: whether it removed the rows. *)
Definition remove_rows_body (durable : request) (request_id : uuid) (evidence_ref : blob_ref)
    (fault : finalization_fault) : tx bool :=
  let! _ := lock_tenant (rq_tenant_id durable) in
  let! status := run (fetch_one (λ t, rq_status <$> wf_requests (at_workflow t) !! request_id)) in
  if String.eqb status "planned" then
    let! _ := remove_planned durable request_id evidence_ref fault in sret true
  else sret false.

Definition remove_rows (durable : request) (request_id : uuid) (evidence_ref : blob_ref)
    (fault : finalization_fault) : tx unit :=
  let! removed := transaction (λ _, Store) (remove_rows_body durable request_id evidence_ref fault) in
  if (removed : bool) && bool_decide (fault = AfterRowsCommitted) then sfail InjectedFinalization
  else sret tt.
End rows.

(** ** Laws *)

(** A deletion of rows: those of the tables that name or list blobs only
    become fewer. *)
#[local] Ltac deletes := intros; apply effect_sub; first [done | apply map_filter_subseteq].

Section table_laws.
Context {V R : Type} `{EqDecision V} (O : otables → otables → Prop) `{!PreOrder O}.

#[local] Abbreviation atables := (atables V R).
#[local] Abbreviation effect := (effect (V := V) (R := R) O).

Lemma repoint_effects exports (t : atables) :
  effect t (repoint_projects exports t) ∧ effect t (repoint_conversations exports t) ∧
  effect t (repoint_assets exports t).
Proof.
  split_and!; [by apply effect_sub..|]. split; [|done|done].
  intros v [?|[?|[(i & a & Ha & Hv)|?]]]; [by left|by right; left| |by do 3 right].
  cbn in Ha. rewrite map_lookup_imap in Ha. apply bind_Some in Ha as (a0 & Ha0 & [= <-]).
  do 2 right; left. exists i, a0. split; [done|]. revert Hv. unfold repoint_asset. by case_match.
Qed.

Lemma update_item_effect request_id ordinal where_ action state (t : atables) :
  effect t (update_item request_id ordinal where_ action state t).
Proof.
  apply effect_items; [|done]. intros k i' Hi. destruct (decide (k = (request_id, ordinal))) as [->|Hne].
  - rewrite lookup_alter_eq in Hi. apply fmap_Some in Hi as (i & Hi & ->). exists i. split; [done|].
    by case_match.
  - rewrite lookup_alter_ne in Hi by done. eauto.
Qed.

Lemma finalize_tombstone_effect request_id subject (t : atables) :
  effect t (finalize_tombstone request_id subject t).
Proof.
  apply effect_items; [|done]. intros k i' Hi. rewrite map_lookup_imap in Hi.
  apply bind_Some in Hi as (i & Hi & [= <-]). exists i. split; [done|]. by case_match.
Qed.

Lemma set_purging_effect request_id evidence (t : atables) : effect t (set_purging request_id evidence t).
Proof. by apply effect_sub. Qed.


(** *** What restoring changes *)

Lemma presented_elem (n : normalized V) kind id digest :
  presented n kind id digest = true ↔ ∃ export, nm_observations n !! (export, kind, id) = Some (Some digest).
Proof.
  unfold presented. rewrite existsb_exists. setoid_rewrite <-list_elem_of_In. split.
  - intros ([[[e k] i] d] & Hin%elem_of_map_to_list & H). cbn in *.
    apply andb_true_iff in H as [[->%String.eqb_eq ->%String.eqb_eq]%andb_true_iff ->%bool_decide_eq_true].
    by exists e.
  - intros (e & He). exists ((e, kind, id), Some digest). split; [by apply elem_of_map_to_list|].
    cbn. by rewrite !String.eqb_refl, bool_decide_eq_true_2.
Qed.

(** The record exists. *)
Definition alive (kind : string) (id : uuid) (n : normalized V) : Prop :=
  (kind = PROJECT ∧ is_Some (nm_projects n !! id)) ∨ (kind = CONVERSATION ∧ is_Some (nm_conversations n !! id)).

(** Records keep their owners, versions only go - not those some export
    presents of a record that exists -, what was observed stays observed, and
    no part names a blob anew. *)
Record restores (n n' : normalized V) : Prop := Restores {
  rs_projects : prj_account_id <$> nm_projects n' = prj_account_id <$> nm_projects n;
  rs_conversations : cnv_account_id <$> nm_conversations n' = cnv_account_id <$> nm_conversations n;
  rs_versions : nm_versions n' ⊆ nm_versions n;
  rs_observations : nm_observations n ⊆ nm_observations n';
  rs_assets : nm_assets n' = nm_assets n;
  rs_parts id p : nm_parts n' !! id = Some p → nm_parts n !! id = Some p ∨ pt_blob_ref p = None;
  rs_kept kind id digest s : nm_versions n !! (kind, id, digest) = Some s → presented n kind id digest = true →
    alive kind id n → nm_versions n' !! (kind, id, digest) = Some s;
}.

Lemma same_rows {A B} (f : A → B) (m m' : gmap uuid A) i : f <$> m' = f <$> m → is_Some (m !! i) → is_Some (m' !! i).
Proof. intros E. by rewrite <-!(fmap_is_Some f), <-!lookup_fmap, E. Qed.

Lemma restores_alive n n' kind id : restores n n' → alive kind id n → alive kind id n'.
Proof.
  intros [Hp Hc _ _ _ _ _] [[-> H]|[-> H]]; [left|right]; (split; [done|]); by eapply same_rows.
Qed.

Lemma restores_presented n n' kind id digest :
  restores n n' → presented n kind id digest = true → presented n' kind id digest = true.
Proof.
  intros [_ _ _ Hobs _ _ _]. rewrite !presented_elem. intros (e & He). exists e. by eapply lookup_weaken.
Qed.

Definition restored (t t' : atables) : Prop :=
  t' = on_normalized (λ _, at_normalized t') t ∧ restores (at_normalized t) (at_normalized t').

#[export] Instance restored_preorder : PreOrder restored.
Proof.
  split; [intros []; by repeat (split; auto)|].
  intros a b c [Eb Hb] [Ec Hc]. pose proof Hb as [? ? ? ? ? Hp Hk]. pose proof Hc as [? ? ? ? ? Hp' Hk'].
  split; [by rewrite Ec, Eb|]. split; try congruence; [by etrans..| |].
  - intros id p [?%Hp|?]%Hp'; auto.
  - intros kind id digest s Hv Hpr Ha. apply Hk'; [by apply Hk|by eapply restores_presented|by eapply restores_alive].
Qed.

Lemma restored_effect t t' : restored t t' → effect t t'.
Proof.
  intros [E [_ _ _ _ Ha Hp _]]. rewrite E. split; [|done|done].
  intros v [?|[?|[(i & a & Hi & ?)|(i & p & Hi & Hv)]]]; [by left|by right; left| |].
  - do 2 right; left. cbn in Hi. rewrite Ha in Hi. eauto.
  - cbn in Hi. apply Hp in Hi as [Hi|]; [|congruence]. do 3 right. eauto.
Qed.

Lemma fmap_alter_same {A B} (f : A → B) (g : A → A) (i : uuid) (m : gmap uuid A) :
  (∀ a, f (g a) = f a) → f <$> alter g i m = f <$> m.
Proof.
  intros Hg. apply map_eq. intros j. rewrite !lookup_fmap. destruct (decide (j = i)) as [->|].
  - rewrite lookup_alter_eq. destruct (m !! i); [|done]. cbn. by rewrite Hg.
  - by rewrite lookup_alter_ne.
Qed.

Lemma detached_restored id t : restored t (on_normalized (on_conversations (alter detached id)) t).
Proof. split; [done|]. split; try done; [by apply fmap_alter_same|by left]. Qed.

Lemma project_restored v digest id t :
  restored t (on_normalized (on_projects (alter (restored_project v digest) id)) t).
Proof. split; [done|]. split; try done; [by apply fmap_alter_same|by left]. Qed.

Lemma clear_parts_restored id t : restored t (clear_parts id t).
Proof. split; [done|]. split; try done. intros i p [? _]%map_lookup_filter_Some. by left. Qed.

Lemma drop_versions_restored kind id keep t : restored t (on_normalized (drop_versions kind id keep) t).
Proof.
  split; [done|]. split; try done; [apply map_filter_subseteq|by left|].
  intros k i d s Hv Hp _. cbn. apply map_lookup_filter_Some. split; [done|]. cbn. by rewrite Hp, andb_false_r.
Qed.

Lemma drop_orphans_restored t : restored t (drop_orphan_versions t).
Proof.
  split; [done|]. split; try done; [apply map_filter_subseteq|by left|].
  intros k i d s Hv _ Ha. cbn. by apply map_lookup_filter_Some.
Qed.
End table_laws.

Section row_laws.
Context {wire ref : Type} `{Contracts wire ref}.
Context (sha256_hex : string → string) (new_uuid : N → uuid) (parse_uuid : string → option uuid).
Context (render : json → string) (pg_render render_instant : N → string).
Context (collate : string → string → comparison) (later : string → N → option string).
Context (to_timestamp : N → N).
Context {V R E : Type} `{EqDecision V} (decode_ref : V → option blob_ref) (encode_ref : blob_ref → option V).
Context (ref_json : blob_ref → json).
Context (decode_project : json → option project_version).
Context (decode_conversation : json → option conversation_version).
Context (erasure_document : erasure_command (wire := wire) → result enqueue_error json).

#[local] Abbreviation atables := (atables V R).
#[local] Abbreviation run := (run (V := V) (R := R) (E := E)).
#[local] Abbreviation tx := (sm (world atables) (privacy_deletion_error E)).
#[local] Abbreviation ask := (ask (V := V) (R := R) (E := E)).
#[local] Abbreviation item_ids := (item_ids parse_uuid (V := V) (R := R) (E := E)).
#[local] Abbreviation delete_uuid_category := (delete_uuid_category parse_uuid (V := V) (R := R) (E := E)).
#[local] Abbreviation delete_categories := (delete_categories parse_uuid (V := V) (R := R) (E := E)).
#[local] Abbreviation restore_retained_versions :=
  (restore_retained_versions new_uuid render to_timestamp (V := V) (R := R) (E := E) decode_project decode_conversation).

Lemma run_inside (Q : atables → atables → Prop) {A} (op : atables → result sql_error (A * atables)) :
  stable (inside Q) (statement op) → stable (inside Q) (run op).
Proof. apply stable_map_err. Qed.

Section reads.
Context (Q : atables → atables → Prop) `{!PreOrder Q}.

Lemma ask_inside {A} (f : atables → A) : stable (inside Q) (ask f).
Proof. apply run_inside, inside_reading, _. Qed.

Lemma item_ids_inside request_id category action : stable (inside Q) (item_ids request_id category action).
Proof. apply stable_bind; [apply _|apply ask_inside|intros; apply stable_lift, _]. Qed.

Lemma i64_item_ids_inside request_id category :
  stable (inside Q) (i64_item_ids (V := V) (R := R) (E := E) request_id category).
Proof. apply stable_bind; [apply _|apply ask_inside|intros; apply stable_lift, _]. Qed.

Lemma find_survivors_reads request_id :
  stable (inside Q) (find_survivors parse_uuid render (V := V) (R := R) (E := E) request_id).
Proof.
  apply stable_bind; [apply _|apply item_ids_inside|intros exports].
  apply stable_bind; [apply _|apply ask_inside|intros archives].
  apply stable_map_err, find_survivors_inside, _.
Qed.

Lemma announcements_inside tenant_id subjects :
  stable (inside Q) (announcements parse_uuid (V := V) (R := R) (E := E) tenant_id subjects).
Proof.
  induction subjects as [|s l IH]; [apply stable_ret, _|].
  apply stable_bind; [apply _|apply stable_lift, _|intros [kind id]].
  apply stable_bind; [apply _|apply stable_map_err, owners_of_inside, _|intros owners].
  apply stable_bind; [apply _|exact IH|intros; apply stable_ret, _].
Qed.

Lemma inject_inside fault at' : stable (inside Q) (inject (V := V) (R := R) (E := E) fault at').
Proof.
  unfold inject. case_decide; [|apply stable_ret, _].
  apply stable_bind; [apply _|apply ask_inside|intros; apply stable_fail, _].
Qed.

Lemma lock_tenant_inside tenant_id : stable (inside Q) (lock_tenant (V := V) (R := R) (E := E) tenant_id).
Proof. apply stable_map_err, inside_take_lock, _. Qed.

Lemma write_inside f : (∀ t, Q t (f t)) → stable (inside Q) (run (write f)).
Proof. intros Hf. apply run_inside, inside_write; [apply _|done]. Qed.

Lemma delete_category_inside request_id category query :
  (∀ ids t, Q t (query ids t)) → stable (inside Q) (delete_uuid_category request_id category query).
Proof.
  intros Hq. apply stable_bind; [apply _|apply item_ids_inside|intros ids; by apply write_inside].
Qed.

Lemma delete_categories_inside request_id l :
  Forall (λ c : string * (list uuid → atables → atables), ∀ ids t, Q t (c.2 ids t)) l →
  stable (inside Q) (delete_categories request_id l).
Proof.
  induction 1 as [|[category query] l Hq _ IH]; [apply stable_ret, _|].
  apply stable_bind; [apply _|by apply delete_category_inside|intros _; exact IH].
Qed.
End reads.

(** *** Restoring versions *)

Lemma restored_detail (t t' : atables) : detailed t t' → restored t t'.
Proof.
  intros [Et [Ep Eo _ _ _ _ Ev Ea Hp _ Hobs]]. split; [done|]. split; try done; [by rewrite Ep|by rewrite Ev|by rewrite Ev].
Qed.

Lemma detailed_restored {A} (c : tx A) : stable (inside detailed) c → stable (inside restored) c.
Proof. apply stable_inside_mono, restored_detail. Qed.

Lemma restore_versions_inside tenant_id id previous held :
  stable (inside restored)
    (restore_versions new_uuid to_timestamp (V := V) (R := R) (E := E) decode_conversation tenant_id id previous held).
Proof.
  revert previous. induction held as [|[[e d] s] held IH]; intros previous; cbn [restore_versions]; [apply stable_ret, _|].
  case_bool_decide; [apply IH|].
  apply stable_bind; [apply _|apply stable_lift, _|intros v].
  apply stable_bind; [apply _|case_match; [apply ask_inside, _|apply stable_ret, _]|intros p].
  apply stable_bind; [apply _| |intros _; apply IH].
  apply detailed_restored, stable_map_err, persist_conversation_detail_inside.
Qed.

Lemma restore_conversation_inside tenant_id id held :
  stable (inside restored)
    (restore_conversation new_uuid render to_timestamp (V := V) (R := R) (E := E) decode_conversation tenant_id id held).
Proof.
  apply stable_bind; [apply _|apply write_inside; [apply _|]; apply detached_restored|intros _].
  apply stable_bind; [apply _|apply write_inside; [apply _|]; apply clear_parts_restored|intros _].
  apply stable_bind; [apply _|apply restore_versions_inside|intros _].
  destruct (last held) as [[[e' d'] s']|]; [|apply stable_ret, _].
  apply stable_bind; [apply _|apply stable_lift, _|intros v].
  apply stable_bind; [apply _|apply detailed_restored, stable_map_err, set_conversation_digest_inside|intros _].
  apply detailed_restored, stable_map_err, append_revision_inside.
Qed.

Lemma restore_newest_inside tenant_id kind id held :
  stable (inside restored)
    (match last held with
     | None => sret tt
     | Some newest =>
         if String.eqb kind PROJECT then restore_project (V := V) (R := R) (E := E) decode_project id newest
         else if String.eqb kind CONVERSATION
         then restore_conversation new_uuid render to_timestamp (V := V) (R := R) (E := E) decode_conversation
                tenant_id id held
         else sfail InvalidInventory
     end).
Proof.
  destruct (last held) as [[[e d] s]|]; [|apply stable_ret, _]. case_match.
  - apply stable_bind; [apply _|apply stable_lift, _|intros v]. apply write_inside; [apply _|]. apply project_restored.
  - case_match; [apply restore_conversation_inside|apply stable_fail, _].
Qed.

Lemma restore_stale_inside tenant_id l :
  stable (inside restored)
    (restore_stale new_uuid render to_timestamp (V := V) (R := R) (E := E) decode_project decode_conversation
       tenant_id l).
Proof.
  induction l as [|[kind id] l IH]; [apply stable_ret, _|].
  apply stable_bind; [apply _|apply ask_inside, _|intros held].
  apply stable_bind; [apply _|apply restore_newest_inside|intros _].
  apply stable_bind; [apply _|apply write_inside; [apply _|]; apply drop_versions_restored|intros _; exact IH].
Qed.

Lemma restore_inside tenant_id : stable (inside restored) (restore_retained_versions tenant_id).
Proof.
  apply stable_bind; [apply _|apply write_inside; [apply _|]; apply drop_orphans_restored|intros _].
  apply stable_bind; [apply _|apply ask_inside, _|intros l; apply restore_stale_inside].
Qed.

Section effects.
Context (O : otables → otables → Prop) `{!PreOrder O}.

#[local] Abbreviation effect := (effect (V := V) (R := R) O).

Lemma repoint_surviving_effect exports :
  stable (inside effect) (repoint_surviving_provenance (V := V) (R := R) (E := E) exports).
Proof.
  apply stable_bind; [apply _|apply write_inside; [apply _|]; intros; by apply repoint_effects|intros _].
  apply stable_bind; [apply _|apply write_inside; [apply _|]; intros; by apply repoint_effects|intros _].
  apply write_inside; [apply _|]; intros; by apply repoint_effects.
Qed.

Lemma recompute_effect request_id : stable (inside effect) (recompute_blob_sharing (V := V) (R := R) (E := E) request_id).
Proof.
  apply stable_bind; [apply _|apply ask_inside, _|intros items].
  induction items as [|[ordinal v] items IH]; [apply stable_ret, _|].
  apply stable_bind; [apply _|apply ask_inside, _|intros shared].
  apply stable_bind; [apply _|apply write_inside; [apply _|]; intros; apply update_item_effect, _|intros _; exact IH].
Qed.

Lemma restore_effect tenant_id : stable (inside effect) (restore_retained_versions tenant_id).
Proof.
  eapply stable_inside_mono; [|apply restore_inside]. intros t t'. apply restored_effect, _.
Qed.
End effects.
End row_laws.

(** ** Phase A and the outbox *)

(** The facts of the tombstones of a request. *)
Definition tombstones (request_id : string) (f : fact) : Prop :=
  ft_event_type f = TOMBSTONE_EVENT_TYPE ∧
  ∃ subject owner, ft_deduplication_key f = Some (tombstone_key request_id subject owner).

Section phase_a.
Context {wire ref : Type} `{Contracts wire ref}.
Context (sha256_hex : string → string) (new_uuid : N → uuid) (parse_uuid : string → option uuid).
Context (render : json → string) (pg_render render_instant : N → string).
Context (collate : string → string → comparison) (later : string → N → option string).
Context (to_timestamp : N → N).
Context {V R E : Type} `{EqDecision V} (decode_ref : V → option blob_ref) (encode_ref : blob_ref → option V).
Context (ref_json : blob_ref → json).
Context (decode_project : json → option project_version).
Context (decode_conversation : json → option conversation_version).
Context (erasure_document : erasure_command (wire := wire) → result enqueue_error json).

#[local] Abbreviation atables := (atables V R).
#[local] Abbreviation tx := (sm (world atables) (privacy_deletion_error E)).
#[local] Abbreviation run := (run (V := V) (R := R) (E := E)).
#[local] Abbreviation i64_item_ids := (i64_item_ids (V := V) (R := R) (E := E)).
#[local] Abbreviation delete_scoped_rows := (delete_scoped_rows parse_uuid render (V := V) (R := R) (E := E)).
#[local] Abbreviation insert_tombstones := (insert_tombstones new_uuid (V := V) (R := R) (E := E) ref_json).
#[local] Abbreviation tombstone_owners := (tombstone_owners new_uuid (V := V) (R := R) (E := E) ref_json).
#[local] Abbreviation read_announcements := (read_announcements parse_uuid (V := V) (R := R) (E := E)).
#[local] Abbreviation outbox_at w := (at_outbox (w_tables w)).

(** Neither the outbox nor the workflow. *)
Definition untouched (t t' : atables) : Prop :=
  at_outbox t' = at_outbox t ∧ at_workflow t' = at_workflow t.

#[local] Instance untouched_preorder : PreOrder untouched.
Proof. split; [by intros t|]. intros a b c [] []. split; congruence. Qed.

Lemma same_outbox {A} (c : tx A) w r w' :
  stable (inside (effect (=))) c → c w = (r, w') → outbox_at w' = outbox_at w.
Proof. by intros Hc (_ & _ & [_ _ ->])%Hc. Qed.

Lemma run_write_Ok f w w' : run (write f) w = (Ok tt, w') → w_tables w' = f (w_tables w).
Proof. by intros [-> _]%smap_err_Ok_inv%statement_write_Ok. Qed.

Lemma i64_item_ids_Ok request_id category w zs w' :
  i64_item_ids request_id category w = (Ok zs, w') →
  mapM parse_i64 (opaque_ids request_id category "remove" (w_tables w)) = Some zs ∧ w_tables w' = w_tables w.
Proof.
  intros (values & w1 & [-> E1]%smap_err_Ok_inv%statement_reading_Ok & H2)%sbind_Ok_inv.
  injection H2 as Hz <-. split; [|done]. by destruct (mapM _ _); simplify_eq/=.
Qed.

(** One more step of a run that keeps to [inside Q] from its first world. *)
#[local] Ltac follow Hrun tac :=
  match type of Hrun with
  | _ ?u = _ =>
      match goal with
      | U : inside ?Q ?w u |- _ =>
          let a := fresh "a" in let w' := fresh "u" in let H1 := fresh "H1" in let U' := fresh "U" in
          apply sbind_Ok_inv in Hrun as (a & w' & H1 & Hrun);
          assert (U' : inside Q w w');
          [etrans; [exact U|]; refine ((_ : stable (inside Q) _) _ _ _ H1); tac|];
          clear U
      end
  end.

(** What the cascade would delete is already gone. *)
Lemma dropped_exports ids exports o rows o1 :
  delete_rows render ids exports o = Ok (rows, o1) →
  set_rows (filter (λ r : N * outbox_row, in_exports exports (ft_export_id r.2.1) = false)) o1 = o1.
Proof.
  unfold delete_rows. intros [= _ <-]. unfold set_rows. cbn. f_equal. apply map_filter_id.
  intros id row [_ Hd]%map_lookup_filter_Some. unfold is_dropped in Hd. apply orb_false_iff in Hd as [_ Hd].
  cbn in *. unfold in_exports. by destruct (ft_export_id row.1).
Qed.

Lemma delete_exports_and_account_outbox request_id tenant_id exports w r w' :
  delete_exports_and_account (V := V) (R := R) (E := E) request_id tenant_id exports w = (Ok r, w') →
  outbox_at w' =
    set_rows (filter (λ r : N * outbox_row, in_exports exports (ft_export_id r.2.1) = false)) (outbox_at w).
Proof.
  intros ([] & w1 & E1%run_write_Ok & Hrun)%sbind_Ok_inv.
  apply sbind_Ok_inv in Hrun as ([] & w2 & E2%run_write_Ok & Hrun).
  apply sbind_Ok_inv in Hrun as (account & w3 & [_ E3]%smap_err_Ok_inv%statement_reading_Ok & Hrun).
  assert (outbox_at w' = outbox_at w2) as ->; [|by rewrite E2, E1].
  destruct account; [destruct r; by rewrite (run_write_Ok _ _ _ Hrun), <-E3|].
  injection Hrun as _ <-. by rewrite E3.
Qed.

(** The rows of the outbox that go are those of the plan and of the exports. *)
Lemma delete_scoped_rows_outbox request_id tenant_id w facts w' :
  delete_scoped_rows request_id tenant_id w = (Ok facts, w') →
  ∃ zs exports rows,
    mapM parse_i64 (opaque_ids request_id "outbox_event" "remove" (w_tables w)) = Some zs ∧
    delete_rows render (outbox_ids zs) exports (outbox_at w) = Ok (rows, outbox_at w') ∧
    facts = foldl insert_copy [] rows.
Proof.
  intros Hrun. assert (inside untouched w w) as U by reflexivity. unfold DeletionRows.delete_scoped_rows in Hrun.
  follow Hrun ltac:(apply item_ids_inside, _). rename a into exports.
  follow Hrun ltac:(apply stable_bind; [apply _| |intros _]; by apply write_inside; [apply _|]).
  follow Hrun ltac:(apply delete_categories_inside; [apply _|by repeat constructor]).
  follow Hrun ltac:(apply item_ids_inside, _).
  follow Hrun ltac:(by apply write_inside; [apply _|]).
  follow Hrun ltac:(apply delete_categories_inside; [apply _|by repeat constructor]).
  follow Hrun ltac:(apply stable_bind; [apply _|apply i64_item_ids_inside, _|intros]; by apply write_inside; [apply _|]).
  match goal with U : inside untouched w _ |- _ => destruct U as (_ & _ & Eo & Ew) end.
  apply sbind_Ok_inv in Hrun as (zs & u' & [Hzs Eu]%i64_item_ids_Ok & Hrun).
  apply sbind_Ok_inv in Hrun as (dropped & ud & Hd%smap_err_Ok_inv & Hrun).
  apply in_outbox_inv in Hd as (v & v' & Hd & Ev & _ & _ & Ed & _).
  apply sbind_Ok_inv in Hd as (rows & v1 & (_ & _ & Hd)%statement_inv & [= <- ->]).
  rewrite Ev, Eu, Eo in Hd.
  exists zs, exports, rows. split_and!.
  - revert Hzs. unfold opaque_ids. by rewrite Ew.
  - apply sbind_Ok_inv in Hrun as ([] & ur & Hr & Hrun).
    apply sbind_Ok_inv in Hrun as ([] & ue & He%delete_exports_and_account_outbox & [= <- <-]).
    apply (repoint_surviving_effect (=)) in Hr as (_ & _ & [_ _ Er]).
    rewrite He, <-Er, Ed. cbn. by rewrite (dropped_exports _ _ _ _ _ Hd).
  - apply sbind_Ok_inv in Hrun as ([] & ur & Hr & Hrun).
    by apply sbind_Ok_inv in Hrun as ([] & ue & He & [= <- <-]).
Qed.

(** *** Tombstones *)

Lemma tombstone_owners_inside durable request_id a evidence at' owners :
  stable (inside (effect (gained (tombstones request_id))))
    (tombstone_owners durable request_id a evidence at' owners).
Proof.
  induction owners as [|[owner archive] owners IH]; [apply stable_ret, _|].
  cbn [DeletionRows.tombstone_owners]. apply stable_bind; [apply _|apply stable_lift, _|intros payload].
  intros w r w' [(e & w1 & H1 & Hrun)|(x & H1 & ->)]%sbind_inv;
    pose proof (stable_map_err (inside (effect (gained (tombstones request_id)))) _ _
      (event_of_payload_inside new_uuid _ _) _ _ _ H1) as Hin; [|exact Hin].
  etrans; [exact Hin|]. apply smap_err_Ok_inv, event_of_type in H1. clear Hin. revert w1 r w' Hrun.
  apply stable_bind; [apply _| |intros _; exact IH]. apply stable_map_err.
  eapply stable_inside_mono; [|apply enqueue_inside].
  intros t t' Ht. eapply effect_mono; [|exact Ht]. intros o o'. apply gained_mono.
  intros f (json & now & _ & ->). split; [|by eexists _, _].
  cbn. unfold correlated. by case_match.
Qed.

Lemma insert_tombstones_inside durable request_id l evidence at' :
  stable (inside (effect (gained (tombstones request_id)))) (insert_tombstones durable request_id l evidence at').
Proof.
  induction l as [|a l IH]; [apply stable_ret, _|].
  apply stable_bind; [apply _|apply tombstone_owners_inside|intros _].
  apply stable_bind; [apply _|apply stable_map_err, forget_inside, _|intros _].
  apply stable_bind; [apply _| |intros _; exact IH].
  apply write_inside; [apply _|]. intros t. apply finalize_tombstone_effect, _.
Qed.

#[local] Abbreviation tombstoned request_id subject owner w :=
  (keyed (tombstone_key request_id subject owner) (outbox_at w)).

Lemma keyed_inside request_id {A} (c : tx A) key w r w' :
  stable (inside (effect (gained (tombstones request_id)))) c → c w = (r, w') →
  table_ok (outbox_at w) → keyed key (outbox_at w) → keyed key (outbox_at w') ∧ table_ok (outbox_at w').
Proof.
  intros Hc (_ & _ & [_ _ Hg])%Hc Ht Hk. split; [by eapply keyed_gained|]. by apply Hg.
Qed.

Lemma tombstone_owners_keyed durable request_id a evidence at' owners : ∀ w w',
  tombstone_owners durable request_id a evidence at' owners w = (Ok tt, w') → table_ok (outbox_at w) →
  ∀ o archive, (o, archive) ∈ owners → tombstoned request_id (nn_subject a) o w'.
Proof.
  induction owners as [|[owner archive] owners IH]; intros w w' Hrun Ht o ar Hin; [by apply not_elem_of_nil in Hin|].
  pose proof (tombstone_owners_inside durable request_id a evidence at' ((owner, archive) :: owners)) as Hall.
  cbn [DeletionRows.tombstone_owners] in Hrun.
  apply sbind_Ok_inv in Hrun as (payload & w1 & [= Hp <-] & Hrun).
  apply sbind_Ok_inv in Hrun as (e & w2 & H2 & Hrun).
  apply sbind_Ok_inv in Hrun as (b & w3 & H3 & Hrun).
  assert (Ht2 : outbox_at w2 = outbox_at w).
  { apply (stable_map_err (inside (effect (=))) _ _ (event_of_payload_inside new_uuid _ _)) in H2.
    by destruct H2 as (_ & _ & [_ _ ->]). }
  assert (Ht3 : table_ok (outbox_at w3)).
  { apply (stable_map_err _ _ _ (enqueue_inside _ _)) in H3 as (_ & _ & [_ _ Hg]). rewrite Ht2 in Hg. by apply Hg. }
  apply elem_of_cons in Hin as [[= -> ->]|Hin]; [|by eapply IH].
  apply smap_err_Ok_inv, (enqueue_keyed _ _ (tombstone_key request_id (nn_subject a) owner)) in H3; [|done].
  eapply keyed_inside; [apply tombstone_owners_inside|exact Hrun|done|exact H3].
Qed.

Lemma insert_tombstones_keyed durable request_id evidence at' l : ∀ w w',
  insert_tombstones durable request_id l evidence at' w = (Ok tt, w') → table_ok (outbox_at w) →
  ∀ a o archive, a ∈ l → (o, archive) ∈ nn_owners a → tombstoned request_id (nn_subject a) o w'.
Proof.
  induction l as [|b l IH]; intros w w' Hrun Ht a o archive Ha Ho; [by apply not_elem_of_nil in Ha|].
  cbn [DeletionRows.insert_tombstones] in Hrun.
  apply sbind_Ok_inv in Hrun as ([] & w1 & H1 & Hrun).
  apply sbind_Ok_inv in Hrun as ([] & w2 & H2 & Hrun).
  apply sbind_Ok_inv in Hrun as ([] & w3 & H3 & Hrun).
  assert (Ht1 : table_ok (outbox_at w1)).
  { apply tombstone_owners_inside in H1 as (_ & _ & [_ _ Hg]). by apply Hg. }
  assert (E3 : outbox_at w3 = outbox_at w1).
  { apply (stable_map_err (inside (effect (=))) _ _ (forget_inside _ _ _ _)) in H2 as (_ & _ & [_ _ ->]).
    apply (write_inside (effect (=))) in H3 as (_ & _ & [_ _ ->]); [done|]. intros t. apply finalize_tombstone_effect, _. }
  apply elem_of_cons in Ha as [->|Ha]; [|eapply IH; [exact Hrun|by rewrite E3|done..]].
  pose proof (tombstone_owners_keyed _ _ _ _ _ _ _ _ H1 Ht _ _ Ho) as Hk. rewrite <-E3 in Hk, Ht1.
  eapply keyed_inside; [apply insert_tombstones_inside|exact Hrun|done|done].
Qed.

(** What the announcements read. *)
Definition announces (tenant_id : uuid) (t : atables) (subject : string) (a : announcement) : Prop :=
  nn_subject a = subject ∧
  parse_inventory_subject parse_uuid subject = Some (nn_kind a, nn_subject_id a) ∧
  nn_owners a = omap (λ r : string * uuid, owner ← parse_tenant r.1; Some (owner, r.2))
    (announcements_of tenant_id (nn_kind a) (nn_subject_id a) t).

Lemma announcements_Ok tenant_id subjects : ∀ w l w',
  announcements parse_uuid (V := V) (R := R) (E := E) tenant_id subjects w = (Ok l, w') →
  w_tables w' = w_tables w ∧ Forall2 (announces tenant_id (w_tables w)) subjects l.
Proof.
  induction subjects as [|s subjects IH]; intros w l w' Hrun; [injection Hrun as <- <-; by split|].
  apply sbind_Ok_inv in Hrun as ([kind id] & w1 & [= Hs <-] & Hrun).
  apply sbind_Ok_inv in Hrun as (owners & w2 & H2%smap_err_Ok_inv & Hrun).
  apply sbind_Ok_inv in H2 as (rows & w2' & [-> E2]%statement_reading_Ok & [= <- ->]).
  apply sbind_Ok_inv in Hrun as (more & w3 & [E3 Hmore]%IH & [= <- <-]). rewrite E2 in *.
  split; [done|]. constructor; [|done]. split_and!; [done|by destruct (parse_inventory_subject _ s); simplify_eq/=|done].
Qed.

Lemma read_announcements_Ok tenant_id request_id w l w' :
  read_announcements tenant_id request_id w = (Ok l, w') →
  w_tables w' = w_tables w ∧
  Forall2 (announces tenant_id (w_tables w)) (subjects_of request_id (w_tables w)) l.
Proof.
  intros (subjects & w1 & [-> E1]%smap_err_Ok_inv%statement_reading_Ok & Hrun)%sbind_Ok_inv.
  apply announcements_Ok in Hrun as [E2 Hl]. rewrite E1 in *. by split.
Qed.

#[local] Abbreviation enqueue_erasure_commands :=
  (enqueue_erasure_commands (V := V) (R := R) (E := E) erasure_document).
#[local] Abbreviation remove_planned :=
  (remove_planned sha256_hex new_uuid parse_uuid render pg_render render_instant collate later to_timestamp
     (V := V) (R := R) (E := E) decode_ref encode_ref ref_json decode_project decode_conversation erasure_document).
#[local] Abbreviation remove_rows_body :=
  (remove_rows_body sha256_hex new_uuid parse_uuid render pg_render render_instant collate later to_timestamp
     (V := V) (R := R) (E := E) decode_ref encode_ref ref_json decode_project decode_conversation erasure_document).
#[local] Abbreviation remove_rows :=
  (remove_rows sha256_hex new_uuid parse_uuid render pg_render render_instant collate later to_timestamp
     (V := V) (R := R) (E := E) decode_ref encode_ref ref_json decode_project decode_conversation erasure_document).

#[local] Abbreviation owner_ok := (λ owner, negb (is_null (parse_tenant (ref := ref) owner))).
#[local] Abbreviation request_ok := (λ id, negb (is_null (parse_local_id (ref := ref) id))).
#[local] Abbreviation stream_erasure_commands :=
  (StreamErasure.enqueue_erasure_commands request_ok (producer_ok (ref := ref)) owner_ok erasure_document).

(** The stages the outbox goes through when the rows of a plan go. *)
Lemma remove_planned_outbox durable request_id evidence fault w w' :
  remove_planned durable request_id evidence fault w = (Ok tt, w') →
  let tenant_id := rq_tenant_id durable in
  ∃ zs exports rows o1 l at' u u' correlation,
    mapM parse_i64 (opaque_ids request_id "outbox_event" "remove" (w_tables w)) = Some zs ∧
    delete_rows render (outbox_ids zs) exports (outbox_at w) = Ok (rows, o1) ∧
    Forall2 (announces tenant_id (w_tables w)) (subjects_of request_id (w_tables w)) l ∧
    gained (tombstones request_id) o1 (w_tables u) ∧
    (table_ok o1 → ∀ a owner archive, a ∈ l → (owner, archive) ∈ nn_owners a →
       keyed (tombstone_key request_id (nn_subject a) owner) (w_tables u)) ∧
    stream_erasure_commands (StreamErasure.DurableRequest tenant_id correlation) request_id at'
      (foldl insert_copy [] rows) u = (Ok tt, u') ∧
    gained (repairs request_id) (w_tables u') (outbox_at w').
Proof.
  intros Hrun tenant_id. unfold DeletionRows.remove_planned in Hrun. fold tenant_id in Hrun.
  set (still := λ t t' : atables, at_outbox t' = at_outbox t ∧ at_workflow t' = at_workflow t ∧
                  at_announced t' = at_announced t).
  assert (PreOrder still). { split; [by intros t|]. intros a b c (? & ? & ?) (? & ? & ?). split_and!; congruence. }
  assert (inside still w w) as U by reflexivity.
  follow Hrun ltac:(by apply delete_category_inside; [apply _|]).
  follow Hrun ltac:(apply inject_inside, _).
  follow Hrun ltac:(apply find_survivors_reads, _).
  match goal with U : inside still w _ |- _ => destruct U as (_ & _ & Eo & Ew & Ea) end.
  apply sbind_Ok_inv in Hrun as (l & u3 & [E3 Hl]%read_announcements_Ok & Hrun).
  apply sbind_Ok_inv in Hrun as (facts & u4 & (zs & exports & rows & Hzs & Hdel & ->)%delete_scoped_rows_outbox & Hrun).
  apply sbind_Ok_inv in Hrun as ([] & u5 & E5 & Hrun). apply same_outbox in E5; [|apply restore_effect, _].
  apply sbind_Ok_inv in Hrun as (at' & u6 & H6%smap_err_Ok_inv%in_outbox_inv & Hrun).
  destruct H6 as (v & v' & (_ & _ & Ev)%database_now_reads & Ev0 & _ & _ & E6 & _).
  apply sbind_Ok_inv in Hrun as ([] & u7 & H7 & Hrun).
  apply sbind_Ok_inv in Hrun as ([] & u8 & H8%smap_err_Ok_inv%in_outbox_inv & Hrun).
  destruct H8 as (x & x' & Hx & Ex & _ & _ & E8 & _).
  assert (E67 : outbox_at u6 = outbox_at u4) by (rewrite E6; cbn; congruence).
  rewrite E3, Eo in Hdel. rewrite E3 in Hzs.
  pose proof (insert_tombstones_inside _ _ _ _ _ _ _ _ H7) as (_ & _ & [_ _ Hg7]). rewrite E67 in Hg7.
  exists zs, exports, rows, (outbox_at u4), l, at', x, x', (rq_correlation_id durable).
  rewrite Ex. split_and!; try done.
  - revert Hzs. unfold opaque_ids. by rewrite Ew.
  - revert Hl. unfold subjects_of. rewrite Ew. intros Hl. eapply Forall2_impl; [exact Hl|]. intros s b (? & ? & Hn).
    split_and!; [done..|]. rewrite Hn. unfold announcements_of. by rewrite Ea.
  - intros Ht. eapply insert_tombstones_keyed; [exact H7|by rewrite E67].
  - assert (H8 : outbox_at u8 = w_tables x') by by rewrite E8. rewrite <-H8. clear -Hrun parse_uuid.
    assert (inside (effect (V := V) (R := R) (gained (repairs request_id))) u8 u8) as U by reflexivity.
    follow Hrun ltac:(case_match; [apply stable_ret, _|apply stable_map_err, reannounce_inside; exact parse_uuid]).
    follow Hrun ltac:(apply inject_inside, _).
    follow Hrun ltac:(apply recompute_effect, _).
    follow Hrun ltac:(apply stable_lift, _).
    apply (write_inside (effect (gained (repairs request_id)))) in Hrun as (_ & _ & [_ _ Hg]);
      [|intros; apply set_purging_effect, _].
    match goal with U : inside _ u8 _ |- _ => destruct U as (_ & _ & [_ _ Hg0]) end. by etrans.
Qed.

(** *** The body of the transaction *)

(** No blob is named or listed anew, whatever becomes of the outbox. *)
Definition frees : atables → atables → Prop := effect (λ _ _ : otables, True).

#[export] Instance any_preorder : PreOrder (λ _ _ : otables, True).
Proof. by split. Qed.

#[export] Instance frees_preorder : PreOrder frees.
Proof. apply effect_preorder, _. Qed.

Lemma effect_frees O {A} (c : tx A) : stable (inside (effect O)) c → stable (inside frees) c.
Proof. apply stable_inside_mono. intros t t'. by apply effect_mono. Qed.

Lemma delete_scoped_rows_frees request_id tenant_id : stable (inside frees) (delete_scoped_rows request_id tenant_id).
Proof.
  apply stable_bind; [apply _|apply item_ids_inside, _|intros exports].
  apply stable_bind; [apply _| |intros _].
  { apply stable_bind; [apply _| |intros _]; (apply write_inside; [apply _|]); deletes. }
  apply stable_bind; [apply _|apply delete_categories_inside; [apply _|]|intros _].
  { rewrite !Forall_cons. split_and!; [deletes..|constructor]. }
  apply stable_bind; [apply _|apply item_ids_inside, _|intros projects].
  apply stable_bind; [apply _|apply write_inside; [apply _|]; deletes|intros _].
  apply stable_bind; [apply _|apply delete_categories_inside; [apply _|]|intros _].
  { rewrite !Forall_cons. split_and!; [deletes..|constructor]. }
  apply stable_bind; [apply _| |intros _].
  { apply stable_bind; [apply _|apply i64_item_ids_inside, _|intros zs]. apply write_inside; [apply _|]; deletes. }
  apply stable_bind; [apply _|apply i64_item_ids_inside, _|intros zs].
  apply stable_bind; [apply _| |intros dropped].
  { apply stable_map_err, inside_in_outbox. apply stable_bind; [apply _|by apply inside_statement|intros; apply stable_ret, _]. }
  apply stable_bind; [apply _|apply repoint_surviving_effect, _|intros _].
  apply stable_bind; [apply _| |intros _; apply stable_ret, _].
  apply stable_bind; [apply _|apply write_inside; [apply _|]; deletes|intros _].
  apply stable_bind; [apply _|apply write_inside; [apply _|]; deletes|intros _].
  apply stable_bind; [apply _|apply ask_inside, _|intros account]. destruct account; [|apply stable_ret, _].
  apply write_inside; [apply _|]; deletes.
Qed.

Lemma remove_planned_frees durable request_id evidence fault :
  stable (inside frees) (remove_planned durable request_id evidence fault).
Proof.
  apply stable_bind; [apply _| |intros _].
  { apply delete_category_inside; [apply _|]; deletes. }
  apply stable_bind; [apply _|apply inject_inside, _|intros _].
  apply stable_bind; [apply _|apply find_survivors_reads, _|intros survivors].
  apply stable_bind; [apply _| |intros l].
  { apply stable_bind; [apply _|apply ask_inside, _|intros; apply announcements_inside, _]. }
  apply stable_bind; [apply _|apply delete_scoped_rows_frees|intros dropped].
  apply stable_bind; [apply _|apply restore_effect, _|intros _].
  apply stable_bind; [apply _| |intros at'].
  { apply stable_map_err, inside_in_outbox. intros u x u' (? & ? & _)%database_now_reads. by split_and!. }
  apply stable_bind; [apply _|eapply effect_frees, insert_tombstones_inside|intros _].
  apply stable_bind; [apply _| |intros _].
  { by apply stable_map_err, inside_in_outbox, enqueue_erasure_commands_inside. }
  apply stable_bind; [apply _| |intros _].
  { case_match; [apply stable_ret, _|]. eapply effect_frees, stable_map_err, reannounce_inside; exact parse_uuid. }
  apply stable_bind; [apply _|apply inject_inside, _|intros _].
  apply stable_bind; [apply _|apply recompute_effect, _|intros _].
  apply stable_bind; [apply _|apply stable_lift, _|intros encoded].
  apply write_inside; [apply _|]. intros t. apply set_purging_effect, _.
Qed.

Lemma remove_rows_body_frees durable request_id evidence fault :
  stable (inside frees) (remove_rows_body durable request_id evidence fault).
Proof.
  apply stable_bind; [apply _|apply lock_tenant_inside, _|intros _].
  apply stable_bind; [apply _|apply run_inside, inside_fetch_one, _|intros status].
  case_match; [|apply stable_ret, _].
  apply stable_bind; [apply _|apply remove_planned_frees|intros; apply stable_ret, _].
Qed.

(** The deletion as a whole: nothing, or what its body did. *)
Lemma remove_rows_cases durable request_id evidence fault w r w' :
  remove_rows durable request_id evidence fault w = (r, w') →
  let v := interfere w in
  w_disk w' = w_disk v ∧ w_others w' = w_others v ∧
  (w_tables w' = w_tables v ∧ (r = Ok tt →
     ∃ row, wf_requests (at_workflow (w_tables v)) !! request_id = Some row ∧ rq_status row ≠ "planned") ∨
   ∃ u u', remove_planned durable request_id evidence fault u = (Ok tt, u') ∧
     w_tables u = w_tables v ∧ w_tables w' = w_tables u').
Proof.
  intros Hrun v.
  assert (Hcase : ∃ x w1, transaction (λ _, Store) (remove_rows_body durable request_id evidence fault) w = (x, w1) ∧
    w_disk w' = w_disk w1 ∧ w_others w' = w_others w1 ∧ w_tables w' = w_tables w1 ∧ (r = Ok tt → is_ok x = true)).
  { unfold DeletionRows.remove_rows in Hrun.
    apply sbind_inv in Hrun as [(removed & w1 & H1 & Hrun)|(e & H1 & ->)]; [|by eexists _, _].
    exists (Ok removed), w1. by destruct (_ && _); injection Hrun as _ <-. }
  destruct Hcase as (x & w1 & Hx & -> & -> & -> & Hr).
  apply (transaction_cases frees) in Hx as (Hd & Ho & Hx); [|apply remove_rows_body_frees].
  split_and!; [done..|]. destruct Hx as [[Hx E1]|(removed & u & Hb & E1 & Hx)].
  { left. split; [done|]. intros Hok%Hr. congruence. }
  apply sbind_Ok_inv in Hb as ([] & u1 & H1 & Hb). apply (lock_tenant_inside (=)) in H1 as (_ & _ & H1).
  apply sbind_Ok_inv in Hb as (status & u2 & [Hs E2]%smap_err_Ok_inv%statement_fetch_one_Ok & Hb).
  change (w_tables (drop_fault v)) with (w_tables v) in H1. rewrite <-H1 in Hs, E2.
  apply fmap_Some in Hs as (row & Hrow & ->).
  destruct (String.eqb_spec (rq_status row) "planned") as [|Hne].
  - right. apply sbind_Ok_inv in Hb as ([] & u3 & Hb & [= _ <-]). by exists u2, u3.
  - left. injection Hb as _ <-. rewrite E1, E2. split; [done|]. by exists row.
Qed.

(** *** What a deletion leaves in the outbox *)

Lemma tombstone_keys request_id f owner n :
  tombstones request_id f → ¬ is_reconcile_key (ft_deduplication_key f) ∧
  ft_deduplication_key f ≠ Some (chunk_key (deletion_stem request_id owner) n).
Proof. intros (_ & s & o & ->). split; [by intros (? & ? & [=])|done]. Qed.

Lemma repairs_keys request_id f : repairs request_id f → ¬ is_reconcile_key (ft_deduplication_key f).
Proof. by intros (_ & ty & a & ->) (? & ? & [=]). Qed.

Lemma delete_rows_ok ids exports o rows o1 :
  delete_rows render ids exports o = Ok (rows, o1) → table_ok o → table_ok o1.
Proof.
  unfold delete_rows. intros [= _ <-] Ht. constructor; cbn; [|by apply Ht].
  intros id row [Hrow _]%map_lookup_filter_Some. by apply Ht.
Qed.

(** C5. A deletion loses no copy.  Whatever fails in it - a statement that is
    refused, one whose answer is lost, an injected fault -, the outbox it leaves
    has every fact it had in its history, nothing new under the pump's keys, and
    each sequence recorded on a row of a content-bearing fact is still recorded
    on it or named by an erasure command queued for its owner: what the plan,
    the exports or their cascade drops is asked for first.  When a planned
    request returns success, every outbox row its plan removes is gone. *)
Theorem deletion_asks_for_every_recorded_copy (names : json → option (string * list N))
    (names_document : ∀ c doc, erasure_document c = Ok doc → names doc = Some (ec_owner c, ec_stream_sequences c))
    (durable : request_row V R) (request_id : uuid) (evidence : blob_ref) (fault : finalization_fault)
    (w w' : world atables) (r : result (privacy_deletion_error E) unit) :
  remove_rows durable request_id evidence fault w = (r, w') →
  w_others w = [] → table_ok (outbox_at w) → is_uuid request_id →
  (∀ owners, unissued request_id owners (outbox_at w)) →
  keeping names (outbox_at w) (outbox_at w') ∧
  (r = Ok tt → rq_status <$> wf_requests (at_workflow (w_tables w)) !! request_id = Some "planned" →
   ∀ s id, s ∈ opaque_ids request_id "outbox_event" "remove" (w_tables w) → parse_i64 s = Some (Z.of_N id) →
     is_Some (ot_rows (outbox_at w) !! id) → ot_rows (outbox_at w') !! id = None).
Proof.
  intros Hrun Hw Ht Hid Hun. apply remove_rows_cases in Hrun as (_ & _ & Hrun).
  unfold interfere in Hrun. rewrite Hw in Hrun.
  destruct Hrun as [[-> Hr]|(u & u' & Hrun & Eu & ->)].
  { split; [by apply keeps_preorder|]. intros (row & -> & Hne)%Hr Hp. cbn in Hp. congruence. }
  apply remove_planned_outbox in Hrun
    as (zs & exports & rows & o1 & l & at' & x & x' & co & Hzs & Hdel & _ & Hg & _ & Hcmd & Hg'). rewrite Eu in *.
  edestruct (drop_enqueue_spec request_ok producer_ok owner_ok render erasure_document names names_document
    (tombstones request_id)) as [Hk Hgone]; [exact Hdel|exact Hg|apply tombstone_keys|exact Hcmd|done..|].
  apply gained_keeps with (names := names) in Hg'; [|apply repairs_keys].
  assert (Hk' : keeps names (outbox_at w) (outbox_at u')) by (etrans; [by intros _|done]).
  split; [by apply Hk'|]. intros _ _ s id Hs Hz [row Hrow].
  assert (Hin : id ∈ outbox_ids zs).
  { apply list_elem_of_omap. exists (Z.of_N id). split.
    - apply mapM_Some in Hzs. apply list_elem_of_lookup in Hs as (n & Hn).
      destruct (Forall2_lookup_l _ _ _ _ _ Hzs Hn) as (z & Hzn & E'). rewrite Hz in E'. simplify_eq.
      by eapply list_elem_of_lookup_2.
    - unfold to_u64. destruct (Z.ltb_spec (Z.of_N id) 0); [lia|]. by rewrite N2Z.id. }
  eapply kp_gone; [apply Hg'; by apply Hk| |].
  - by apply (to_rows _ Ht), (kp_history _ _ _ Hk) in Hrow.
  - apply (Hgone id row Hrow). unfold is_dropped. by rewrite bool_decide_eq_true_2.
Qed.

Lemma subject_announced tenant_id t kind id owner (row : announced_row) :
  at_announced t !! ledger_key kind id owner = Some row → an_account_id row = tenant_id →
  (owner, an_ai_archive_id row) ∈ announcements_of (V := V) (R := R) tenant_id kind id t.
Proof.
  intros Hrow Ha. apply list_elem_of_fmap. exists (ledger_key kind id owner, row). split; [done|].
  apply elem_of_sort_by, list_elem_of_filter. split; [|by apply elem_of_map_to_list].
  unfold is_subject. cbn. by rewrite Ha, !String.eqb_refl.
Qed.

End phase_a.

(** ** Retained versions *)

Section versions.
Context (new_uuid : N → uuid) (render : json → string) (to_timestamp : N → N).
Context {V R E : Type} `{EqDecision V}.
Context (decode_project : json → option project_version).
Context (decode_conversation : json → option conversation_version).

#[local] Abbreviation atables := (atables V R).
#[local] Abbreviation restore_stale :=
  (restore_stale new_uuid render to_timestamp (V := V) (R := R) (E := E) decode_project decode_conversation).
#[local] Abbreviation restore_retained_versions :=
  (restore_retained_versions new_uuid render to_timestamp (V := V) (R := R) (E := E) decode_project decode_conversation).
#[local] Abbreviation records t := (at_normalized t).

Lemma restores_owned n n' tenant_id id :
  restores (V := V) n n' → owned_record tenant_id id n' = owned_record tenant_id id n.
Proof.
  intros [Hp Hc _ _ _ _ _]. unfold owned_record.
  assert (Hone : ∀ A (f : A → option uuid) (m m' : gmap uuid A), f <$> m' = f <$> m →
    match m' !! id with Some a => bool_decide (f a = Some tenant_id) | None => false end =
    match m !! id with Some a => bool_decide (f a = Some tenant_id) | None => false end).
  { intros A f m m' E'. apply (f_equal (lookup id)) in E'. rewrite !lookup_fmap in E'.
    destruct (m' !! id), (m !! id); simplify_eq/=; [by rewrite E'|done]. }
  by rewrite (Hone _ prj_account_id _ _ Hp), (Hone _ cnv_account_id _ _ Hc).
Qed.

(** Every version of [kind] and [id] is presented. *)
Definition settled (kind : string) (id : uuid) (n : normalized V) : Prop :=
  ∀ digest, is_Some (nm_versions n !! (kind, id, digest)) → presented n kind id digest = true.

Lemma restores_settled n n' kind id : restores (V := V) n n' → settled kind id n → settled kind id n'.
Proof.
  intros Hr Hs digest [s Hv]. eapply restores_presented, Hs; [done|].
  exists s. eapply lookup_weaken; [exact Hv|]. by apply Hr.
Qed.

Lemma drop_versions_settled kind id (n : normalized V) : settled kind id (drop_versions kind id (λ _, false) n).
Proof.
  intros digest [s Hv]. cbn in Hv. apply map_lookup_filter_Some in Hv as [_ Hv]. cbn in Hv.
  rewrite !String.eqb_refl in Hv. cbn in Hv.
  change (presented (drop_versions kind id (λ _, false) n) kind id digest) with (presented n kind id digest).
  by destruct (presented n kind id digest).
Qed.

Lemma restore_stale_settles tenant_id l : ∀ w w', restore_stale tenant_id l w = (Ok tt, w') →
  ∀ kind id, (kind, id) ∈ l → settled kind id (records (w_tables w')).
Proof.
  induction l as [|[kind' id'] l IH]; intros w w' Hrun kind id Hin; [by apply not_elem_of_nil in Hin|].
  cbn [DeletionRows.restore_stale] in Hrun.
  apply sbind_Ok_inv in Hrun as (held & w1 & _ & Hrun). apply sbind_Ok_inv in Hrun as ([] & w2 & _ & Hrun).
  apply sbind_Ok_inv in Hrun as ([] & w3 & H3%run_write_Ok & Hrun).
  apply elem_of_cons in Hin as [[= -> ->]|Hin]; [|by eapply IH].
  apply restore_stale_inside in Hrun as (_ & _ & [_ Hr]). eapply restores_settled; [exact Hr|].
  rewrite H3. apply drop_versions_settled.
Qed.

End versions.

(** ** Instances *)

Module RowsWitness.
Import ContractsWitness Sample.

#[local] Abbreviation sample_removal := (remove_rows (E := blob_store_error) sha256_hex new_uuid parse_uuid to_string
  render_number render_number String.compare later id some_ref some_ref ref_json decode_project decode_conversation
  ErasureWitness.document).

Definition deletion : request_row blob_ref (deletion_report blob_ref) :=
  RequestRow "tenant" "archive" (Some "a1") "planned" None None None.

Definition evidence : blob_ref := blob "abevidence" "application/json".

(** The rows of the sample's plan are removed. *)
Definition removal := sample_removal deletion request evidence NoFault planned.2.

Lemma removal_Ok : sample_removal deletion request evidence NoFault planned.2 = (Ok tt, removal.2).
Proof. apply (ran_unit removal). evaluates. Qed.

Lemma removal_starts :
  w_others planned.2 = [] ∧ table_ok (at_outbox (w_tables planned.2)) ∧
  rq_status <$> wf_requests (at_workflow (w_tables planned.2)) !! request = Some "planned".
Proof.
  split; [exact planned_alone|]. split; [apply ErasureWitness.table_ok_by; evaluates|].
  vm_compute. reflexivity.
Qed.

Lemma deletion_asks_for_every_recorded_copy_witness :
  keeping ErasureWitness.names (at_outbox (w_tables planned.2)) (at_outbox (w_tables removal.2)) ∧
  ot_rows (at_outbox (w_tables removal.2)) !! 1%N = None.
Proof.
  destruct removal_starts as (Hw & Ht & Hp).
  destruct (deletion_asks_for_every_recorded_copy (E := blob_store_error) sha256_hex new_uuid parse_uuid to_string render_number render_number
    String.compare later id some_ref some_ref ref_json decode_project decode_conversation ErasureWitness.document
    ErasureWitness.names ErasureWitness.names_document deletion request evidence NoFault planned.2 removal.2 (Ok tt))
    as [Hk Hgone]; [exact removal_Ok|exact Hw|exact Ht|split; vm_compute; reflexivity| |].
  - intros owners. apply ErasureWitness.unissued_by. evaluates.
  - split; [exact Hk|]. eapply (Hgone eq_refl Hp "1"); [|reflexivity|].
    + apply (bool_decide_eq_true_1 _). evaluates.
    + apply (bool_decide_eq_true_1 _). evaluates.
Defined.


(** The rows of the first export are gone; the conversation the second
    observed is put back to what that export holds. *)
Definition after_rows : world (atables blob_ref (deletion_report blob_ref)) :=
  set_tables (delete_exports ["x1"] (repoint_conversations ["x1"] (delete_conversations ["c1"]
    (delete_parts ["p1"] (delete_messages ["m1"] archive))))) start.

Definition restoration := restore_retained_versions (E := blob_store_error) new_uuid to_string id decode_project
  decode_conversation "tenant" after_rows.

End RowsWitness.
