(* ===== verification/PrivacyDeletion.v ===== *)
(** * Executing a privacy deletion ([privacy_deletion/execution.rs])

    By the durable status of the request: rows first, bytes second, completion
    last. *)

From S2P Require Import Prelude BTree Disk BlobStore Registry Json Parser Postgres BlobProtocol OutboxTable.
From S2P Require Import StreamErasure ArchiveTables NormalizedStore ArchiveEvents ContractProjection.
From S2P Require Import DeletionPlan SampleArchive DeletionRows.

#[local] Open Scope result_scope.

(** [Serialize] of [PrivacyDeletionScope]: tagged by [kind]. *)
Definition scope_json (scope : privacy_deletion_scope) : json :=
  match scope with
  | ArchiveScope id => json_map [("kind", JString "archive"); ("ai_archive_id", JString id)]
  | ConversationScope id => json_map [("kind", JString "conversation"); ("conversation_id", JString id)]
  | TenantScope => json_map [("kind", JString "tenant")]
  end.

Definition totals_json (totals : list (string * N)) : json :=
  JObject ((λ kv : string * N, (kv.1, JNumber (PosInt kv.2))) <$> totals).

Definition evidence_json (plan : deletion_plan) : json :=
  json_map [("request_id", JString (dp_request_id plan)); ("scope", scope_json (dp_scope plan));
            ("totals", totals_json (dp_totals plan))].

Definition parse_scope (kind : string) (id : option uuid) : option privacy_deletion_scope :=
  if String.eqb kind "archive" then ArchiveScope <$> id
  else if String.eqb kind "conversation" then ConversationScope <$> id
  else if String.eqb kind "tenant" then match id with None => Some TenantScope | Some _ => None end
  else None.

Section execution.
Context {wire ref : Type} `{Contracts wire ref}.
Context (sha256_hex : string → string) (media_type_ok : string → bool).
Context (canonicalize : gmap string node → string → option string).
Context (new_uuid : N → uuid) (parse_uuid : string → option uuid) (to_string : json → string).
Context (render : json → string) (pg_render render_instant : N → string).
Context (collate : string → string → comparison) (later : string → N → option string).
Context (to_timestamp : N → N).
Context {V R : Type} `{EqDecision V} (decode_ref : V → option blob_ref) (encode_ref : blob_ref → option V).
Context (ref_json : blob_ref → json).
Context (decode_project : json → option project_version).
Context (decode_conversation : json → option conversation_version).
Context (erasure_document : erasure_command (wire := wire) → result enqueue_error json).
(** A stored report. *)
Context (encode_report : deletion_report blob_ref → option R) (decode_report : R → option (deletion_report blob_ref)).

#[local] Abbreviation atables := (atables V R).
#[local] Abbreviation tx := (sm (world atables) (privacy_deletion_error blob_store_error)).
#[local] Abbreviation run := (run (V := V) (R := R) (E := blob_store_error)).
#[local] Abbreviation ask := (ask (V := V) (R := R) (E := blob_store_error)).
#[local] Abbreviation lock_tenant := (lock_tenant (V := V) (R := R) (E := blob_store_error)).
#[local] Abbreviation request := (durable_request V R).
#[local] Abbreviation report := (deletion_report blob_ref).
#[local] Abbreviation blob_is_referenced := (blob_is_referenced (V := V) (R := R) (E := blob_store_error)).
#[local] Abbreviation remove_rows :=
  (remove_rows sha256_hex new_uuid parse_uuid render pg_render render_instant collate later to_timestamp
     (V := V) (R := R) (E := blob_store_error)
     decode_ref encode_ref ref_json decode_project decode_conversation erasure_document).

(** A statement on the pool. *)
Definition pool {A} (op : atables → result sql_error (A * atables)) : tx A := smap_err (λ _, Store) (auto op).

Definition load_request (request_id : uuid) : tx request :=
  let! row := pool (reading (λ t, wf_requests (at_workflow t) !! request_id)) in
  slift (ok_or Conflict row).

Definition load_plan (request_id : uuid) (durable : request) : tx deletion_plan :=
  let! scope := slift (ok_or InvalidInventory (parse_scope (rq_scope_kind durable) (rq_scope_id durable))) in
  let! rows := pool (reading (items_of request_id)) in
  let! items := slift (read_items rows.*2) in
  sret (plan_new request_id (rq_tenant_id durable) scope items).

Definition stored_report_value (stored : option R) : result (privacy_deletion_error blob_store_error) report :=
  let? stored := ok_or InvalidInventory stored in ok_or Encode (decode_report stored).

Definition stored_report (durable : request) : result (privacy_deletion_error blob_store_error) report :=
  stored_report_value (rq_completion_report durable).

Definition store_evidence (s : blob_store) (plan : deletion_plan) : tx blob_ref :=
  smap_err Blob (store_minted sha256_hex media_type_ok s "application/json"
    [Some (to_string (evidence_json plan))]).

(** ** Phase B *)

Definition set_item_state (request_id : uuid) (ordinal : N) (action state : string) : tx unit :=
  run (write (update_item request_id ordinal (λ _, true) action state)).

(** The items to erase that are not purged, by ordinal. *)
Definition to_erase (request_id : uuid) (t : atables) : list (N * V) :=
  omap (λ r : (uuid * N) * item_row V,
    if String.eqb (it_action r.2) "erase" && not_purged r.2 then pair r.1.2 <$> it_blob_ref r.2 else None)
    (items_of request_id t).

(** One blob's transaction: the gate of the tests is left out. *)
Definition erase_one (s : blob_store) (durable : request) (request_id : uuid) (ordinal : N)
    (encoded : V) (reference : blob_ref) : tx unit :=
  let! _ := lock_tenant (rq_tenant_id durable) in
  let! _ := store_error (blob_lock (cd_hex (br_digest reference))) in
  let! used := blob_is_referenced encoded in
  if used : bool then set_item_state request_id ordinal "retain_shared" "retained"
  else
    let! _ := smap_err Blob (with_disk (erase sha256_hex canonicalize s reference)) in
    set_item_state request_id ordinal "erase" "purged".

Fixpoint erase_items (s : blob_store) (durable : request) (request_id : uuid) (items : list (N * V)) : tx unit :=
  match items with
  | [] => sret tt
  | (ordinal, encoded) :: rest =>
      let! reference := slift (ok_or Encode (decode_ref encoded)) in
      let! _ := transaction (λ _, Store) (erase_one s durable request_id ordinal encoded reference) in
      erase_items s durable request_id rest
  end.

Definition erase_listed_blobs (s : blob_store) (request_id : uuid) : tx unit :=
  let! durable := load_request request_id in
  let! items := pool (reading (to_erase request_id)) in
  erase_items s durable request_id items.

(** ** Phase C *)

(** [PRIMARY KEY (id)] and [UNIQUE (request_id)]. *)
Definition insert_audit (id : uuid) (a : audit_row V) : atables → option (unit * atables) := λ t,
  let audits := wf_audits (at_workflow t) in
  if bool_decide (is_Some (audits !! id))
     || existsb (λ r : uuid * audit_row V, String.eqb (ad_request_id r.2) (ad_request_id a)) (map_to_list audits)
  then None
  else Some (tt, on_workflow (on_audits <[id := a]>) t).

Definition set_completed (request_id : uuid) (report : R) : atables → atables :=
  on_workflow (on_requests (alter (λ r : request_row V R,
    RequestRow (rq_tenant_id r) (rq_scope_kind r) (rq_scope_id r) "completed" (rq_correlation_id r)
      (Some report) (rq_evidence_ref r)) request_id)).

Definition drop_items (request_id : uuid) : atables → atables :=
  on_workflow (on_items (filter (λ r : (uuid * N) * item_row V, r.1.1 ≠ request_id))).

(** The body of the completing transaction. *)
Definition complete_body (request_id : uuid) (durable : request) (r : report) : tx report :=
  let! _ := lock_tenant (rq_tenant_id durable) in
  let! row := run (fetch_one (λ t, wf_requests (at_workflow t) !! request_id)) in
  if String.eqb (rq_status row) "completed" then
    let! _ := rollback in slift (stored_report_value (rq_completion_report row))
  else
    let! audit_id := mint in
    let! evidence := slift (ok_or Encode (encode_ref (dr_evidence_ref r))) in
    let! _ := run (writing (insert_audit (new_uuid audit_id)
      (AuditRow request_id (rq_tenant_id durable) (rq_scope_kind durable) (dr_totals r) evidence
         (rq_correlation_id durable) (dr_completed_at r)))) in
    let! encoded := slift (ok_or Encode (encode_report r)) in
    let! _ := run (write (set_completed request_id encoded)) in
    let! _ := run (write (drop_items request_id)) in
    sret r.

(** [now] is what the clock reads. *)
Definition complete (now : string) (request_id : uuid) : tx report :=
  let! durable := load_request request_id in
  let! plan := load_plan request_id durable in
  let! stored := slift (ok_or InvalidInventory (rq_evidence_ref durable)) in
  let! evidence_ref := slift (ok_or Encode (decode_ref stored)) in
  let r := DeletionReport request_id Completed (dp_totals plan) evidence_ref now in
  transaction (λ _, Store) (complete_body request_id durable r).

Definition finish (s : blob_store) (now : string) (request_id : uuid) : tx report :=
  let! _ := erase_listed_blobs s request_id in complete now request_id.

(** ** Execution *)

Definition execute_with_fault (s : blob_store) (now : string) (request_id : uuid)
    (fault : finalization_fault) : tx report :=
  let! durable := load_request request_id in
  let status := rq_status durable in
  if String.eqb status "completed" then slift (stored_report durable)
  else if String.eqb status "planned" then
    let! plan := load_plan request_id durable in
    let! evidence_ref := store_evidence s plan in
    let! _ := remove_rows durable request_id evidence_ref fault in
    finish s now request_id
  else if String.eqb status "purging" then finish s now request_id
  else sfail Conflict.

Definition execute (s : blob_store) (now : string) (request_id : uuid) : tx report :=
  execute_with_fault s now request_id NoFault.

Definition owns_request (tenant_id request_id : uuid) (t : atables) : bool :=
  match wf_requests (at_workflow t) !! request_id with
  | Some r => String.eqb (rq_tenant_id r) tenant_id
  | None => false
  end.

Definition execute_for_tenant (s : blob_store) (now : string) (tenant_id request_id : uuid) : tx report :=
  let! owned := pool (reading (owns_request tenant_id request_id)) in
  if owned : bool then execute s now request_id else sfail Conflict.
End execution.

(** ** Laws *)

Section item_laws.
Context {V R : Type} `{EqDecision V}.

#[local] Abbreviation atables := (atables V R).

Lemma existsb_rows {I A} `{Countable I} (f : I * A → bool) (Q : A → Prop) (m : gmap I A) :
  (∀ r, f r = true ↔ Q r.2) → existsb f (map_to_list m) = true ↔ ∃ i a, m !! i = Some a ∧ Q a.
Proof.
  intros HP. rewrite existsb_exists. setoid_rewrite <-list_elem_of_In. split.
  - intros ([i a] & Hin%elem_of_map_to_list & Ha%HP). eauto.
  - intros (i & a & Hin & Ha). exists (i, a). split; [by apply elem_of_map_to_list|by apply HP].
Qed.

Lemma referenced_names (v : V) (t : atables) : referenced v t = true ↔ names t v.
Proof.
  unfold referenced, names. rewrite !orb_true_iff.
  rewrite (existsb_rows _ (λ x, xp_blob_ref x = v)), (existsb_rows _ (λ x, ar_blob_ref x = v)),
    (existsb_rows _ (λ x, ast_blob_ref x = Some v)), (existsb_rows _ (λ x, pt_blob_ref x = Some v))
    by (intros; apply bool_decide_eq_true).
  tauto.
Qed.

Lemma items_of_elem request_id (t : atables) k i :
  (k, i) ∈ items_of request_id t ↔ k.1 = request_id ∧ wf_items (at_workflow t) !! k = Some i.
Proof. unfold items_of, rows_by_key. rewrite list_elem_of_filter, elem_of_sort_by, elem_of_map_to_list. done. Qed.

Lemma to_erase_elem request_id (t : atables) ordinal v :
  (ordinal, v) ∈ to_erase request_id t ↔ ∃ i, wf_items (at_workflow t) !! (request_id, ordinal) = Some i ∧
    it_blob_ref i = Some v ∧ it_action i = "erase" ∧ not_purged i = true.
Proof.
  unfold to_erase. rewrite list_elem_of_omap. split.
  - intros ([[r o] i] & [Hr Hi]%items_of_elem & H). cbn in *. subst.
    destruct (String.eqb_spec (it_action i) "erase"); [|done]. cbn in H.
    destruct (not_purged i) eqn:Hp; [|done]. apply fmap_Some in H as (v' & Hv & [= -> ->]). by exists i.
  - intros (i & Hi & Hv & Ha & Hp). exists ((request_id, ordinal), i). split; [by apply items_of_elem|].
    cbn. by rewrite Ha, Hp, Hv.
Qed.

Lemma to_erase_listed request_id (t : atables) ordinal v : (ordinal, v) ∈ to_erase request_id t → listed t v.
Proof. intros (i & ? & ? & _)%to_erase_elem. by exists (request_id, ordinal), i. Qed.
End item_laws.

Section execution_laws.
Context {wire ref : Type} `{Contracts wire ref}.
Context (sha256_hex : string → string) (media_type_ok : string → bool).
Context (canonicalize : gmap string node → string → option string).
Context (new_uuid : N → uuid) (parse_uuid : string → option uuid) (to_string : json → string).
Context (render : json → string) (pg_render render_instant : N → string).
Context (collate : string → string → comparison) (later : string → N → option string).
Context (to_timestamp : N → N).
Context {V R : Type} `{EqDecision V} (decode_ref : V → option blob_ref) (encode_ref : blob_ref → option V).
Context (ref_json : blob_ref → json).
Context (decode_project : json → option project_version).
Context (decode_conversation : json → option conversation_version).
Context (erasure_document : erasure_command (wire := wire) → result enqueue_error json).
Context (encode_report : deletion_report blob_ref → option R) (decode_report : R → option (deletion_report blob_ref)).

#[local] Abbreviation atables := (atables V R).
#[local] Abbreviation tx := (sm (world atables) (privacy_deletion_error blob_store_error)).
#[local] Abbreviation request := (durable_request V R).
#[local] Abbreviation report := (deletion_report blob_ref).
#[local] Abbreviation frees := (frees (V := V) (R := R)).
#[local] Abbreviation erase_one := (erase_one sha256_hex canonicalize (V := V) (R := R)).
#[local] Abbreviation erase_items := (erase_items sha256_hex canonicalize (V := V) (R := R) decode_ref).
#[local] Abbreviation erase_listed_blobs := (erase_listed_blobs sha256_hex canonicalize (V := V) (R := R) decode_ref).
#[local] Abbreviation complete_body := (complete_body new_uuid (V := V) (R := R) encode_ref encode_report decode_report).
#[local] Abbreviation complete := (complete new_uuid (V := V) (R := R) decode_ref encode_ref encode_report decode_report).
#[local] Abbreviation finish :=
  (finish sha256_hex canonicalize new_uuid (V := V) (R := R) decode_ref encode_ref encode_report decode_report).
#[local] Abbreviation execute_with_fault :=
  (execute_with_fault sha256_hex media_type_ok canonicalize new_uuid parse_uuid to_string render pg_render render_instant
     collate later to_timestamp (V := V) (R := R) decode_ref encode_ref ref_json decode_project decode_conversation
     erasure_document encode_report decode_report).
#[local] Abbreviation remove_rows :=
  (remove_rows sha256_hex new_uuid parse_uuid render pg_render render_instant collate later to_timestamp
     (V := V) (R := R) (E := blob_store_error)
     decode_ref encode_ref ref_json decode_project decode_conversation erasure_document).
#[local] Abbreviation store_evidence := (store_evidence sha256_hex media_type_ok to_string (V := V) (R := R)).

(** *** The blobs that are still named *)

Context (s : blob_store).
(** The stored values in use, of which no two address the same object: a
    digest is stored with one spelling. *)
Context (spelled : V → Prop).
Context (spelled_once : ∀ v v' b b', spelled v → spelled v' → decode_ref v = Some b → decode_ref v' = Some b' →
  cd_hex (br_digest b) = cd_hex (br_digest b') → v = v').

(** Objects hash to their addresses, and every blob a row names is there. *)
Record named_present (x : snap atables) : Prop := NamedPresent {
  np_wf : store_wf sha256_hex s x.1;
  np_present v : names x.2 v → spelled v ∧ ∃ b, decode_ref v = Some b ∧ present sha256_hex s b x.1;
  np_listed v : listed x.2 v → spelled v;
}.

Definition holds (x y : snap atables) : Prop := named_present x → named_present y.

#[local] Instance holds_preorder : PreOrder holds.
Proof. split; unfold holds; [by intros x|auto]. Qed.

(** Tables that name and list no more. *)
Lemma frees_holds ns t t' : frees t t' → holds (ns, t) (ns, t').
Proof. intros [Hn Hl _] [Hwf Hp Hli]. split; [done|by intros v Hv%Hn; apply Hp|by intros v Hv%Hl; apply Hli]. Qed.

Lemma grows_holds ns ns' (t : atables) :
  objects_kept s ns ns' → (store_wf sha256_hex s ns → store_wf sha256_hex s ns') → holds (ns, t) (ns', t).
Proof.
  intros Hk Hw [Hwf Hp Hl]. split; [by apply Hw| |done].
  intros v (Hs & b & Hb & Hpr)%Hp. split; [done|]. exists b. split; [done|]. by eapply present_kept.
Qed.

(** A blob no row names can go. *)
Lemma erase_holds (t : atables) v b d x d' :
  spelled v → decode_ref v = Some b → ¬ names t v → erase sha256_hex canonicalize s b d = (x, d') →
  holds (d_nodes d, t) (d_nodes d', t).
Proof.
  intros Hs Hb Hv Hrun [Hwf Hp Hl]. split; [|clear Hwf|done].
  { destruct (store_and_erase_keep_addresses sha256_hex media_type_ok canonicalize s d Hwf) as [_ He].
    specialize (He b). rewrite Hrun in He. exact He. }
  intros v' Hv'. destruct (Hp v' Hv') as (Hs' & b' & Hb' & p & c & Hpath & Hc & Hsha). split; [done|].
  exists b'. split; [done|]. exists p, c. split_and!; [done| |done].
  cbn in *. apply erase_cases in Hrun as [[-> _]|(_ & dir & rem & c' & Hhex & Hdir & _ & _ & ->)]; [done|].
  rewrite lookup_delete_ne; [done|]. intros <-.
  apply content_path_spec in Hpath as (dir' & rem' & Hsp & E & _). apply split_at_2_spec in Hsp as [Hhex' Hdir'].
  apply object_path_inj in E as [-> ->]; [|done..]. apply Hv.
  enough (v = v') as -> by done. eapply spelled_once; eauto. congruence.
Qed.

#[local] Abbreviation steps := (respects holds).

(** What a transaction's body does inside is a step, if it frees. *)
Lemma frees_body_ok {A} (body : tx A) : stable (inside frees) body → body_ok holds body.
Proof.
  intros Hb w r w' (Hd & Ho & Hf)%Hb. unfold w_snap. rewrite Hd. split_and!; [done|reflexivity|].
  intros _. by apply frees_holds.
Qed.

Lemma pool_reading_steps {A} (f : atables → A) : stable steps (pool (reading f)).
Proof. apply stable_map_err, stable_auto; [apply _|]. intros ns t a t' [= _ <-]. reflexivity. Qed.

Lemma load_request_steps request_id : stable steps (load_request (V := V) (R := R) request_id).
Proof. apply stable_bind; [apply _|apply pool_reading_steps|intros; apply stable_lift, _]. Qed.

Lemma load_plan_steps request_id durable : stable steps (load_plan (V := V) (R := R) request_id durable).
Proof.
  apply stable_bind; [apply _|apply stable_lift, _|intros scope].
  apply stable_bind; [apply _|apply pool_reading_steps|intros rows].
  apply stable_bind; [apply _|apply stable_lift, _|intros; apply stable_ret, _].
Qed.

Lemma store_evidence_steps plan : stable steps (store_evidence s plan).
Proof.
  apply stable_map_err. intros w r w' Hrun.
  apply (store_minted_grows sha256_hex media_type_ok) in Hrun as [Ht Ho Hk Hw]. unfold respects, others_ok. rewrite Ho.
  intros Hoth. split; [done|]. unfold w_snap. rewrite Ht. by apply grows_holds.
Qed.

Lemma remove_rows_steps durable request_id evidence fault :
  stable steps (remove_rows durable request_id evidence fault).
Proof.
  apply stable_bind; [apply _| |intros removed; case_match; [apply stable_fail|apply stable_ret]; apply _].
  apply stable_transaction; [apply _|]. apply frees_body_ok, remove_rows_body_frees.
Qed.

Lemma set_item_state_frees request_id ordinal action state :
  stable (inside frees) (set_item_state (V := V) (R := R) request_id ordinal action state).
Proof. apply write_inside; [apply _|]. intros t. apply update_item_effect, _. Qed.

(** The transaction of one blob, up to the decision. *)
Lemma erase_one_inv durable request_id ordinal v b w r w' :
  erase_one s durable request_id ordinal v b w = (r, w') →
  (inside (=) w w' ∧ is_ok r = false) ∨
  ∃ w1, inside (=) w w1 ∧
    ((names (w_tables w) v ∧ set_item_state request_id ordinal "retain_shared" "retained" w1 = (r, w')) ∨
     (¬ names (w_tables w) v ∧ ∃ x d, erase sha256_hex canonicalize s b (w_disk w1) = (x, d) ∧
        ((∃ e, x = Err e ∧ is_ok r = false ∧ w' = set_disk d w1) ∨
         (x = Ok tt ∧ set_item_state request_id ordinal "erase" "purged" (set_disk d w1) = (r, w'))))).
Proof.
  intros Hrun. unfold PrivacyDeletion.erase_one in Hrun.
  apply sbind_inv in Hrun as [([] & w1 & H1 & Hrun)|(e & H1 & ->)];
    apply (lock_tenant_inside (=)) in H1; [|by left].
  apply sbind_inv in Hrun as [([] & w2 & H2 & Hrun)|(e & H2 & ->)];
    apply (stable_map_err _ _ _ (inside_take_lock (=) _)) in H2; [|left; split; [by etrans|done]].
  assert (inside (=) w w2) as U by by etrans. clear w1 H1 H2.
  apply sbind_inv in Hrun as [(used & w3 & H3 & Hrun)|(e & H3 & ->)];
    pose proof (ask_inside (=) _ _ _ _ H3) as U3; [|left; split; [by etrans|done]].
  apply smap_err_Ok_inv, statement_reading_Ok in H3 as [-> _].
  assert (inside (=) w w3) as U' by by etrans. right. exists w3. split; [done|].
  destruct U as (_ & _ & E2). rewrite <-E2 in Hrun. pose proof (referenced_names v (w_tables w)) as Hn.
  destruct (referenced v (w_tables w)); [left|right].
  - split; [by apply Hn|done].
  - split; [by intros ?%Hn|]. unfold smap_err, with_disk, sbind in Hrun.
    destruct (erase sha256_hex canonicalize s b (w_disk w3)) as [[[]|e] d]; eexists _, _; (split; [done|]).
    + by right.
    + left. exists e. by injection Hrun as <- <-.
Qed.

(** The bytes go before the transaction commits. *)
Lemma erase_one_body_ok durable request_id ordinal v b :
  spelled v → decode_ref v = Some b → body_ok holds (erase_one s durable request_id ordinal v b).
Proof.
  intros Hs Hb w r w' [[(Hd & Ho & Ht) _]|(w1 & (Hd & Ho & Ht) & Hrun)]%erase_one_inv.
  { unfold w_snap. rewrite Hd, <-Ht. by split_and!. }
  destruct Hrun as [[_ Hset]|(Hn & x & d & He & Hrun)].
  { apply set_item_state_frees in Hset as (Hd' & Ho' & Hf). rewrite <-Ht in Hf. unfold w_snap. rewrite Hd', Hd.
    split_and!; [congruence|reflexivity|intros _; by apply frees_holds]. }
  rewrite Hd in He. pose proof (erase_holds _ _ _ _ _ _ Hs Hb Hn He) as Hh.
  destruct Hrun as [(e & -> & -> & ->)|(-> & Hset)]; [by split_and!|].
  apply set_item_state_frees in Hset as (Hd' & Ho' & Hf). cbn in Hd', Ho'.
  change (w_tables (set_disk d w1)) with (w_tables w1) in Hf. rewrite <-Ht in Hf.
  unfold w_snap. rewrite Hd'. split_and!; [exact (eq_trans Ho' Ho)|done|]. intros _. etrans; [exact Hh|by apply frees_holds].
Qed.

Lemma erase_items_steps durable request_id items :
  Forall (λ i, spelled i.2) items → stable steps (erase_items s durable request_id items).
Proof.
  induction 1 as [|[ordinal v] items Hv _ IH]; [apply stable_ret, _|]. cbn [PrivacyDeletion.erase_items].
  destruct (decode_ref v) as [b|] eqn:Hb; [|intros w r w' Hrun; by injection Hrun as <- <-].
  intros w r w' Hrun. change (sbind _ _ w) with (sbind (transaction (λ _, Store) (erase_one s durable request_id ordinal v b))
    (λ _, erase_items s durable request_id items) w) in Hrun. revert w r w' Hrun.
  apply stable_bind; [apply _| |intros _; exact IH].
  apply stable_transaction; [apply _|]. by apply erase_one_body_ok.
Qed.

(** What a run that keeps to the steps reaches. *)
Lemma reaches {A} (c : tx A) w r w' :
  stable steps c → c w = (r, w') → others_ok holds w → named_present (w_snap w) →
  others_ok holds w' ∧ named_present (w_snap w').
Proof. intros Hc Hrun Ho Hi. destruct (Hc _ _ _ Hrun Ho) as [? H']. by split; [|apply H']. Qed.

Lemma erase_listed_holds request_id w r w' :
  erase_listed_blobs s request_id w = (r, w') → others_ok holds w → named_present (w_snap w) →
  others_ok holds w' ∧ named_present (w_snap w').
Proof.
  intros Hrun Ho Hi. unfold PrivacyDeletion.erase_listed_blobs in Hrun.
  apply sbind_inv in Hrun as [(durable & w1 & H1 & Hrun)|(e & H1 & ->)];
    apply (reaches _ _ _ _ (load_request_steps _)) in H1 as [Ho1 Hi1]; try done.
  apply sbind_inv in Hrun as [(items & w2 & H2 & Hrun)|(e & H2 & ->)];
    pose proof H2 as H2'; apply (reaches _ _ _ _ (pool_reading_steps _)) in H2 as [Ho2 Hi2]; try done.
  eapply reaches; [apply erase_items_steps|exact Hrun|done..].
  apply smap_err_Ok_inv, auto_Ok_inv in H2'. injection H2' as <- _.
  destruct (interfere_respects holds w1 Ho1) as [_ Hint]. specialize (Hint Hi1).
  apply Forall_forall. intros [ordinal v] Hin%to_erase_listed. exact (np_listed _ Hint _ Hin).
Qed.

Lemma complete_body_frees request_id durable r : stable (inside frees) (complete_body request_id durable r).
Proof.
  apply stable_bind; [apply _|apply lock_tenant_inside, _|intros _].
  apply stable_bind; [apply _|apply run_inside, inside_fetch_one, _|intros row]. case_match.
  { apply stable_bind; [apply _|apply ask_inside, _|intros _; apply stable_lift, _]. }
  apply stable_bind; [apply _|apply inside_mint, _|intros id].
  apply stable_bind; [apply _|apply stable_lift, _|intros ev].
  apply stable_bind; [apply _| |intros _].
  { apply run_inside, inside_writing; [apply _|]. intros t [] t' Hw. unfold insert_audit in Hw.
    destruct (bool_decide _ || _); [done|]. injection Hw as <-. by apply effect_sub. }
  apply stable_bind; [apply _|apply stable_lift, _|intros enc].
  apply stable_bind; [apply _| |intros _].
  { apply write_inside; [apply _|]. intros t. by apply effect_sub. }
  apply stable_bind; [apply _| |intros _; apply stable_ret, _].
  apply write_inside; [apply _|]. intros t. apply effect_sub; try done. apply map_filter_subseteq.
Qed.

Lemma complete_steps now request_id : stable steps (complete now request_id).
Proof.
  apply stable_bind; [apply _|apply load_request_steps|intros durable].
  apply stable_bind; [apply _|apply load_plan_steps|intros plan].
  apply stable_bind; [apply _|apply stable_lift, _|intros stored].
  apply stable_bind; [apply _|apply stable_lift, _|intros ev].
  apply stable_transaction; [apply _|]. apply frees_body_ok, complete_body_frees.
Qed.

Lemma finish_holds now request_id w r w' :
  finish s now request_id w = (r, w') → others_ok holds w → named_present (w_snap w) →
  others_ok holds w' ∧ named_present (w_snap w').
Proof.
  intros Hrun Ho Hi. apply sbind_inv in Hrun as [([] & w1 & H1 & Hrun)|(e & H1 & ->)];
    apply erase_listed_holds in H1 as [Ho1 Hi1]; try done.
  eapply reaches; [apply complete_steps|done..].
Qed.

End execution_laws.

(** ** Completion *)

Section completion.
Context (sha256_hex : string → string).
Context (canonicalize : gmap string node → string → option string).
Context {V R : Type} `{EqDecision V} (decode_ref : V → option blob_ref).
Context (s : blob_store).

#[local] Abbreviation atables := (atables V R).
#[local] Abbreviation tx := (sm (world atables) (privacy_deletion_error blob_store_error)).
#[local] Abbreviation erase_one := (erase_one sha256_hex canonicalize (V := V) (R := R)).
#[local] Abbreviation erase_items := (erase_items sha256_hex canonicalize (V := V) (R := R) decode_ref).
#[local] Abbreviation erase_listed_blobs := (erase_listed_blobs sha256_hex canonicalize (V := V) (R := R) decode_ref).
#[local] Abbreviation item_at t k := (wf_items (at_workflow t) !! k).

Lemma pool_reading_Ok {A} (f : atables → A) w a w' :
  pool (reading f) w = (Ok a, w') → w_others w = [] →
  a = f (w_tables w) ∧ w_tables w' = w_tables w ∧ w_disk w' = w_disk w ∧ w_others w' = [].
Proof.
  intros H%smap_err_Ok_inv Hw. unfold auto, reading in H. rewrite (alone _ Hw) in H.
  destruct (next_fault w); [|done..]. by injection H as <- <-.
Qed.

Lemma pool_reading_Err {A} (f : atables → A) w e w' :
  pool (reading f) w = (Err e, w') → w_others w = [] →
  e = Store ∧ w_tables w' = w_tables w ∧ w_disk w' = w_disk w.
Proof.
  unfold pool, smap_err, auto, reading. intros H Hw. rewrite (alone _ Hw) in H.
  destruct (next_fault w); [done| |]; by injection H as <- <-.
Qed.

(** The object of a stored reference is gone. *)
Definition gone (v : V) (d : disk) : Prop :=
  ∃ b dir rem, decode_ref v = Some b ∧ cd_hex (br_digest b) = dir +:+ rem ∧ String.length dir = 2 ∧
    d_nodes d !! object_path s dir rem = None.

(** An item that needs no more erasing. *)
Definition dealt_with (i : item_row V) : Prop := it_action i = "retain_shared" ∨ not_purged i = false.

(** Purging changes the items [ks] only, and takes objects away. *)
Record purges (ks : list (uuid * N)) (w w' : world atables) : Prop := Purges {
  pg_tables : ∃ f, w_tables w' = on_workflow (on_items f) (w_tables w);
  pg_disk : d_nodes (w_disk w') ⊆ d_nodes (w_disk w);
  pg_others : w_others w = [] → w_others w' = [];
  pg_other_items k : k ∉ ks → item_at (w_tables w') k = item_at (w_tables w) k;
  pg_dealt k i : item_at (w_tables w) k = Some i → dealt_with i →
    ∃ i', item_at (w_tables w') k = Some i' ∧ dealt_with i';
  pg_items k i' : item_at (w_tables w') k = Some i' → is_Some (item_at (w_tables w) k);
}.

#[local] Instance purges_preorder ks : PreOrder (purges ks).
Proof.
  split.
  { intros w. split; [exists id|done|done|done|eauto|eauto]. by destruct (w_tables w) as [? ? ? []]. }
  intros a b c [[f Ef] Hsub Ho Hk Hd Hi] [[g Eg] Hsub' Ho' Hk' Hd' Hi']. split.
  - exists (g ∘ f). by rewrite Eg, Ef.
  - by trans (d_nodes (w_disk b)).
  - intros ?%Ho. by apply Ho'.
  - intros k Hne. by rewrite Hk', Hk.
  - intros k i Hi0 Hdone. destruct (Hd _ _ Hi0 Hdone) as (i1 & H1 & Hdone1). eauto.
  - intros k i' [i1 H1]%Hi'. eauto.
Qed.

Lemma purges_mono ks ks' w w' : ks ⊆ ks' → purges ks w w' → purges ks' w w'.
Proof. intros Hks []. split; auto. Qed.

(** The statement of one item. *)
Lemma update_item_purges request_id ordinal action state w w' :
  action = "retain_shared" ∨ state = "purged" →
  set_item_state (V := V) (R := R) request_id ordinal action state w = (Ok tt, w') →
  purges [(request_id, ordinal)] w w' ∧
  ∀ i, item_at (w_tables w') (request_id, ordinal) = Some i → dealt_with i.
Proof.
  intros Hdone Hrun. pose proof Hrun as Hin.
  apply (write_inside frees) in Hin as (Hd & Ho & _); [|intros; apply update_item_effect, _].
  apply run_write_Ok in Hrun.
  assert (Hnew : ∀ i : item_row V, dealt_with (set_item action state i)).
  { intros i. unfold dealt_with, not_purged. cbn. destruct Hdone as [->| ->]; [by left|by right]. }
  assert (Hat : ∀ k, item_at (w_tables w') k =
    if decide (k = (request_id, ordinal)) then set_item action state <$> item_at (w_tables w) k
    else item_at (w_tables w) k).
  { intros k. rewrite Hrun. cbn. case_decide as Hk; [subst; by rewrite lookup_alter_eq|by rewrite lookup_alter_ne]. }
  split; [split|].
  - eexists. exact Hrun.
  - by rewrite Hd.
  - congruence.
  - intros k Hk. rewrite Hat, decide_False; [done|]. intros ->. by apply Hk, list_elem_of_singleton.
  - intros k i Hk Hi. rewrite Hat, Hk. case_decide; eauto.
  - intros k i'. rewrite Hat. case_decide; [|eauto]. intros (i & -> & _)%fmap_Some. done.
  - intros i. rewrite Hat, decide_True by done. intros (i0 & _ & ->)%fmap_Some. apply Hnew.
Qed.

Lemma names_same (t t' : atables) v f : t' = on_workflow (on_items f) t → names t' v ↔ names t v.
Proof. by intros ->. Qed.

Lemma erase_one_Ok durable request_id ordinal v b w w' :
  transaction (λ _, Store) (erase_one s durable request_id ordinal v b) w = (Ok tt, w') →
  w_others w = [] → decode_ref v = Some b →
  purges [(request_id, ordinal)] w w' ∧ (∀ i, item_at (w_tables w') (request_id, ordinal) = Some i → dealt_with i) ∧
  (names (w_tables w') v ∨ gone v (w_disk w')).
Proof.
  intros (u & Hrun & Et & Ed & Eo)%transaction_Ok_inv Hw Hb. rewrite (alone _ Hw) in Hrun.
  assert (Hlike : ∀ w0, purges [(request_id, ordinal)] w0 u → w_tables w0 = w_tables w → d_nodes (w_disk w0) ⊆ d_nodes (w_disk w) →
    w_others w0 = [] → purges [(request_id, ordinal)] w w').
  { intros w0 [Hf Hdisk Hoth H1 H2 H3] E0 D0 O0. split; rewrite ?Et, ?Ed, ?Eo, <-?E0; auto. by etrans. }
  apply erase_one_inv in Hrun as [[_ ?]|(w1 & (Hd1 & Ho1 & Ht1) & Hrun)]; [done|].
  change (w_disk (drop_fault w)) with (w_disk w) in Hd1. change (w_others (drop_fault w)) with (w_others w) in Ho1.
  change (w_tables (drop_fault w)) with (w_tables w) in Ht1, Hrun. rewrite Hw in Ho1.
  destruct Hrun as [[Hn Hset]|(Hn & x & d & He & Hrun)].
  - apply update_item_purges in Hset as [Hp Hdone]; [|by left]. split_and!.
    + eapply Hlike; [exact Hp|done|by rewrite Hd1|done].
    + by rewrite Et.
    + left. rewrite Et. destruct (pg_tables _ _ _ Hp) as [f E1]. apply (names_same _ _ _ _ E1). by rewrite <-Ht1.
  - destruct Hrun as [(e & _ & ? & _)|(-> & Hset)]; [done|]. rewrite Hd1 in He.
    apply update_item_purges in Hset as [Hp Hdone]; [|by right].
    assert (Hsub : d_nodes d ⊆ d_nodes (w_disk w) ∧ gone v d).
    { apply erase_cases in He as [[En Hx]|(_ & dir & rem & c & Hhex & Hdir & _ & _ & En)].
      - destruct (Hx eq_refl) as (dir & rem & Hhex & Hdir & Hnone). rewrite En. split; [done|].
        exists b, dir, rem. by rewrite En.
      - rewrite En. split; [apply delete_subseteq|]. exists b, dir, rem. by rewrite En, lookup_delete_eq. }
    destruct Hsub as [Hsub (b' & dir & rem & Hb' & Hhex & Hdir & Hnone)]. split_and!.
    + eapply Hlike; [exact Hp|done|exact Hsub|done].
    + by rewrite Et.
    + right. exists b', dir, rem. split_and!; [done..|]. rewrite Ed.
      eapply lookup_weaken_None; [exact Hnone|]. apply Hp.
Qed.

Lemma erase_items_Ok durable request_id items : ∀ w w',
  erase_items s durable request_id items w = (Ok tt, w') → w_others w = [] →
  purges (pair request_id <$> items.*1) w w' ∧
  ∀ ordinal v, (ordinal, v) ∈ items →
    (∀ i, item_at (w_tables w') (request_id, ordinal) = Some i → dealt_with i) ∧
    (names (w_tables w') v ∨ gone v (w_disk w')).
Proof.
  induction items as [|[o v0] items IH]; intros w w' Hrun Hw.
  { injection Hrun as <-. split; [reflexivity|]. by intros ? ? ?%not_elem_of_nil. }
  cbn [PrivacyDeletion.erase_items] in Hrun.
  apply sbind_Ok_inv in Hrun as (b & w0 & [= Hb <-] & Hrun). destruct (decode_ref v0) as [b'|] eqn:Hb'; [|done].
  injection Hb as ->. apply sbind_Ok_inv in Hrun as ([] & w1 & H1 & Hrun).
  destruct (erase_one_Ok _ _ _ _ _ _ _ H1 Hw Hb') as (Hp1 & Hd1 & Hv1).
  destruct (IH _ _ Hrun (pg_others _ _ _ Hp1 Hw)) as [Hp2 Hrest]. split.
  { trans w1; (eapply purges_mono; [|eassumption]); cbn; set_solver. }
  intros ordinal v [[= -> ->]|Hin]%elem_of_cons; [|by apply Hrest]. split.
  - intros i Hi. destruct (pg_items _ _ _ Hp2 _ _ Hi) as [i1 Hi1].
    destruct (pg_dealt _ _ _ Hp2 _ _ Hi1 (Hd1 _ Hi1)) as (i' & Hi' & ?). by simplify_eq.
  - destruct Hv1 as [Hn|(b1 & dir & rem & ? & ? & ? & Hnone)].
    + left. destruct (pg_tables _ _ _ Hp2) as [f E]. by apply (names_same _ _ _ _ E).
    + right. exists b1, dir, rem. split_and!; [done..|]. eapply lookup_weaken_None; [exact Hnone|apply Hp2].
Qed.

Lemma load_request_Ok request_id w durable w' :
  load_request (V := V) (R := R) request_id w = (Ok durable, w') → w_others w = [] →
  wf_requests (at_workflow (w_tables w)) !! request_id = Some durable ∧
  w_tables w' = w_tables w ∧ w_disk w' = w_disk w ∧ w_others w' = [].
Proof.
  intros (row & w1 & H1 & Hrun)%sbind_Ok_inv Hw. apply pool_reading_Ok in H1 as (-> & Et & Ed & Eo); [|done].
  injection Hrun as Hr <-. split; [|done]. by destruct (_ !! request_id); simplify_eq/=.
Qed.

Lemma erase_listed_Ok request_id w w' :
  erase_listed_blobs s request_id w = (Ok tt, w') → w_others w = [] →
  purges (pair request_id <$> (to_erase request_id (w_tables w)).*1) w w' ∧
  to_erase request_id (w_tables w') = [] ∧
  ∀ ordinal v, (ordinal, v) ∈ to_erase request_id (w_tables w) → names (w_tables w') v ∨ gone v (w_disk w').
Proof.
  intros (durable & w1 & H1 & Hrun)%sbind_Ok_inv Hw. apply load_request_Ok in H1 as (_ & Et1 & Ed1 & Eo1); [|done].
  apply sbind_Ok_inv in Hrun as (items & w2 & H2 & Hrun).
  apply pool_reading_Ok in H2 as (-> & Et2 & Ed2 & Eo2); [|done].
  destruct (erase_items_Ok _ _ _ _ _ Hrun Eo2) as [Hp Hitems]. rewrite Et1 in *.
  split_and!.
  - destruct Hp as [Hf Hd Ho H1 H2 H3]. rewrite Et2 in *. rewrite Ed2, Ed1 in Hd. by split; auto.
  - apply elem_of_nil_inv. intros [o v] He. pose proof He as (i' & Hi' & Hv & Ha & Hpu)%to_erase_elem.
    destruct (decide ((request_id, o) ∈ pair request_id <$> (to_erase request_id (w_tables w)).*1)) as [Hin|Hout].
    + apply list_elem_of_fmap in Hin as (o' & [= <-] & Hin). apply list_elem_of_fmap in Hin as ([o1 v1] & -> & Hin).
      destruct (Hitems _ _ Hin) as [Hdone _]. destruct (Hdone _ Hi'); [congruence|]. congruence.
    + apply Hout, list_elem_of_fmap. exists o. split; [done|]. apply list_elem_of_fmap. exists (o, v). split; [done|].
      apply to_erase_elem. exists i'. by rewrite <-Et2, <-(pg_other_items _ _ _ Hp _ Hout).
  - intros o v Hin. by apply (Hitems o v).
Qed.

(** Phase B finishes its work.  When the erasure of the listed blobs returns
    success and nobody else interferes, nothing is left to erase, the object
    behind every listed blob is gone unless some remaining row still names
    it, no other table moved, and the disk only lost objects. *)
Theorem listed_blobs_are_dealt_with (request_id : uuid) (w w' : world atables) :
  erase_listed_blobs s request_id w = (Ok tt, w') → w_others w = [] →
  to_erase request_id (w_tables w') = [] ∧
  (∀ ordinal v, (ordinal, v) ∈ to_erase request_id (w_tables w) → names (w_tables w') v ∨ gone v (w_disk w')) ∧
  (∃ f, w_tables w' = on_workflow (on_items f) (w_tables w)) ∧
  d_nodes (w_disk w') ⊆ d_nodes (w_disk w).
Proof.
  intros Hrun Hw. destruct (erase_listed_Ok _ _ _ Hrun Hw) as (Hp & Hnone & Hall).
  split_and!; [done|done|apply Hp|apply Hp].
Qed.
End completion.

Section replay.
Context {wire ref : Type} `{Contracts wire ref}.
Context (sha256_hex : string → string) (media_type_ok : string → bool).
Context (canonicalize : gmap string node → string → option string).
Context (new_uuid : N → uuid) (parse_uuid : string → option uuid) (to_string : json → string).
Context (render : json → string) (pg_render render_instant : N → string).
Context (collate : string → string → comparison) (later : string → N → option string).
Context (to_timestamp : N → N).
Context {V R : Type} `{EqDecision V} (decode_ref : V → option blob_ref) (encode_ref : blob_ref → option V).
Context (ref_json : blob_ref → json).
Context (decode_project : json → option project_version).
Context (decode_conversation : json → option conversation_version).
Context (erasure_document : erasure_command (wire := wire) → result enqueue_error json).
Context (encode_report : deletion_report blob_ref → option R) (decode_report : R → option (deletion_report blob_ref)).
Context (s : blob_store).

#[local] Abbreviation atables := (atables V R).
#[local] Abbreviation report := (deletion_report blob_ref).
#[local] Abbreviation complete_body := (complete_body new_uuid (V := V) (R := R) encode_ref encode_report decode_report).
#[local] Abbreviation complete := (complete new_uuid (V := V) (R := R) decode_ref encode_ref encode_report decode_report).
#[local] Abbreviation finish :=
  (finish sha256_hex canonicalize new_uuid (V := V) (R := R) decode_ref encode_ref encode_report decode_report).
#[local] Abbreviation execute_with_fault :=
  (execute_with_fault sha256_hex media_type_ok canonicalize new_uuid parse_uuid to_string render pg_render render_instant
     collate later to_timestamp (V := V) (R := R) decode_ref encode_ref ref_json decode_project decode_conversation
     erasure_document encode_report decode_report).
#[local] Abbreviation request_at t id := (wf_requests (at_workflow t) !! id).

(** The request is completed with a stored report that reads back. *)
Definition completed_with (request_id : uuid) (rep : report) (t : atables) : Prop :=
  ∃ row stored, request_at t request_id = Some row ∧ rq_status row = "completed" ∧
    rq_completion_report row = Some stored ∧ decode_report stored = Some rep.

(** The audit of the request, with the counts of its report. *)
Definition audited (request_id : uuid) (rep : report) (t : atables) : Prop :=
  ∃ id a, wf_audits (at_workflow t) !! id = Some a ∧ ad_request_id a = request_id ∧
    ad_category_counts a = dr_totals rep.

Context (encode_decode : ∀ rep stored, encode_report rep = Some stored → decode_report stored = Some rep).

Lemma complete_body_Ok request_id durable r w rep w' :
  complete_body request_id durable r w = (Ok rep, w') →
  ∃ row, request_at (w_tables w) request_id = Some row ∧
   (rq_status row = "completed" ∧ w_tables w' = w_tables w ∧ completed_with request_id rep (w_tables w) ∨
    rq_status row ≠ "completed" ∧ rep = r ∧ completed_with request_id rep (w_tables w') ∧
      items_of request_id (w_tables w') = [] ∧ audited request_id rep (w_tables w')).
Proof.
  intros ([] & w1 & (_ & _ & E1)%(lock_tenant_inside (=)) & Hrun)%sbind_Ok_inv.
  apply sbind_Ok_inv in Hrun as (row & w2 & [Hrow E2]%smap_err_Ok_inv%statement_fetch_one_Ok & Hrun).
  rewrite <-E1 in Hrow, E2. exists row. split; [done|].
  destruct (String.eqb_spec (rq_status row) "completed") as [Hc|Hc].
  - left. apply sbind_Ok_inv in Hrun as ([] & w3 & [_ E3]%smap_err_Ok_inv%statement_reading_Ok & Hrun).
    injection Hrun as Hr <-. rewrite E3, E2. split_and!; [done|done|].
    unfold stored_report_value in Hr. destruct (rq_completion_report row) as [stored|] eqn:Hs; [|done]. cbn in Hr.
    exists row, stored. split_and!; [done..|]. by destruct (decode_report stored); simplify_eq/=.
  - right. split; [done|]. apply sbind_Ok_inv in Hrun as (id & w3 & [= <- <-] & Hrun).
    apply sbind_Ok_inv in Hrun as (ev & w4 & [= _ <-] & Hrun).
    apply sbind_Ok_inv in Hrun as ([] & w5 & [H5 _]%smap_err_Ok_inv%statement_writing_Ok & Hrun).
    apply sbind_Ok_inv in Hrun as (enc & w6 & [= Henc <-] & Hrun).
    apply sbind_Ok_inv in Hrun as ([] & w7 & H7%run_write_Ok & Hrun).
    apply sbind_Ok_inv in Hrun as ([] & w8 & H8%run_write_Ok & [= <- <-]).
    unfold insert_audit in H5. destruct (bool_decide _ || _); [done|]. injection H5 as H5. cbn in H5.
    assert (Hreq : request_at (w_tables w5) request_id = Some row) by (rewrite <-H5; change (request_at (w_tables w2) request_id = Some row); by rewrite E2).
    split_and!; [done| | |].
    + eexists _, enc. rewrite H8, H7. cbn. rewrite lookup_alter_eq, Hreq. split_and!; [done..|].
      apply encode_decode. by destruct (encode_report r); simplify_eq/=.
    + apply elem_of_nil_inv. intros [k i] [Hk Hi]%items_of_elem. rewrite H8 in Hi. cbn in Hi.
      apply map_lookup_filter_Some in Hi as [_ Hi]. by apply Hi.
    + unfold audited. rewrite H8, H7, <-H5. cbn. eexists _, _. by rewrite lookup_insert_eq.
Qed.

Lemma load_plan_Ok request_id durable w plan w' :
  load_plan (V := V) (R := R) request_id durable w = (Ok plan, w') → w_others w = [] →
  w_tables w' = w_tables w ∧ w_disk w' = w_disk w ∧ w_others w' = [].
Proof.
  intros (scope & w0 & [= _ <-] & Hrun)%sbind_Ok_inv Hw.
  apply sbind_Ok_inv in Hrun as (rows & w1 & H1 & Hrun). apply pool_reading_Ok in H1 as (_ & ? & ? & ?); [|done].
  by apply sbind_Ok_inv in Hrun as (items & w2 & [= _ <-] & [= _ <-]).
Qed.

Lemma complete_Ok now request_id w rep w' :
  complete now request_id w = (Ok rep, w') → w_others w = [] →
  w_others w' = [] ∧ completed_with request_id rep (w_tables w') ∧
  ((∀ row, request_at (w_tables w) request_id = Some row → rq_status row ≠ "completed") →
   items_of request_id (w_tables w') = [] ∧ audited request_id rep (w_tables w')).
Proof.
  intros (durable & w1 & H1 & Hrun)%sbind_Ok_inv Hw. apply load_request_Ok in H1 as (_ & Et1 & Ed1 & Eo1); [|done].
  apply sbind_Ok_inv in Hrun as (plan & w2 & (Et2 & Ed2 & Eo2)%load_plan_Ok & Hrun); [|done].
  apply sbind_Ok_inv in Hrun as (stored & w3 & [= _ <-] & Hrun).
  apply sbind_Ok_inv in Hrun as (ev & w4 & [= _ <-] & Hrun).
  apply transaction_Ok_inv in Hrun as (u & Hb & Et & Ed & Eo). rewrite (alone _ Eo2) in Hb.
  pose proof (complete_body_frees _ _ _ _ _ _ _ _ _ _ Hb) as (_ & Ho & _).
  apply complete_body_Ok in Hb as (row & Hrow & Hcase).
  change (w_tables (drop_fault w2)) with (w_tables w2) in *. rewrite Et2, Et1 in *.
  rewrite Et, Eo, Ho. split; [exact Eo2|].
  destruct Hcase as [(Hc & -> & Hcw)|(Hc & -> & Hcw & Hi & Ha)]; (split; [done|]); [|done].
  intros Hn. by destruct (Hn _ Hrow).
Qed.

Lemma remove_planned_purging durable request_id evidence fault w w' :
  remove_planned sha256_hex new_uuid parse_uuid render pg_render render_instant collate later to_timestamp
    (V := V) (R := R) (E := blob_store_error) decode_ref encode_ref ref_json decode_project decode_conversation
    erasure_document durable request_id evidence fault w = (Ok tt, w') →
  ∀ row, request_at (w_tables w') request_id = Some row → rq_status row = "purging".
Proof.
  intros Hrun. unfold remove_planned in Hrun.
  repeat (apply sbind_Ok_inv in Hrun as (? & ? & _ & Hrun)).
  apply run_write_Ok in Hrun. intros row. rewrite Hrun. cbn. rewrite lookup_alter_eq.
  by intros (? & _ & ->)%fmap_Some.
Qed.

End replay.

(** ** Instances *)

Module ExecutionWitness.
Import ContractsWitness Sample RowsWitness.

#[local] Abbreviation sample_execution := (execute_with_fault sha256_hex (λ _, true) same_path new_uuid parse_uuid
  to_string to_string render_number render_number String.compare later id some_ref some_ref ref_json decode_project
  decode_conversation ErasureWitness.document some_report some_report objects "now" request).

Definition execution := sample_execution NoFault planned.2.

Definition the_report : deletion_report blob_ref :=
  value_or (DeletionReport "" Completed [] evidence "") execution.1.

Lemma execution_Ok : sample_execution NoFault planned.2 = (Ok the_report, execution.2).
Proof. apply (ran (DeletionReport "" Completed [] evidence "") execution). evaluates. Qed.


(** The blobs of the sample, each digest with one media type. *)
Definition refs : list blob_ref :=
  [blob "abone" "application/zip"; blob "abtwo" "application/zip"; blob "abtxt" "text/plain"; blob "abpng" "image/png"].

Definition spelled (v : blob_ref) : Prop := v ∈ refs.

Lemma rows_all {I A} `{Countable I} (f : A → bool) (m : gmap I A) k x :
  forallb f (map_to_list m).*2 = true → m !! k = Some x → f x = true.
Proof.
  intros Hall Hk%elem_of_map_to_list. rewrite forallb_forall in Hall. apply Hall, list_elem_of_In, list_elem_of_fmap.
  by exists (k, x).
Qed.

Definition opt_spelled (o : option blob_ref) : bool := match o with Some v => bool_decide (v ∈ refs) | None => true end.

Lemma sample_present : named_present sha256_hex some_ref objects spelled (w_snap planned.2).
Proof.
  assert (Hspelled : ∀ v, names (w_tables planned.2) v → spelled v).
  { intros v [(k & x & Hk & <-)|[(k & x & Hk & <-)|[(k & x & Hk & Hv)|(k & x & Hk & Hv)]]].
    - apply (rows_all (λ x, opt_spelled (Some (xp_blob_ref x)))) in Hk; [by apply bool_decide_eq_true in Hk|evaluates].
    - apply (rows_all (λ x, opt_spelled (Some (ar_blob_ref x)))) in Hk; [by apply bool_decide_eq_true in Hk|evaluates].
    - apply (rows_all (λ x, opt_spelled (ast_blob_ref x))) in Hk; [|evaluates].
      rewrite Hv in Hk. by apply bool_decide_eq_true in Hk.
    - apply (rows_all (λ x, opt_spelled (pt_blob_ref x))) in Hk; [|evaluates].
      rewrite Hv in Hk. by apply bool_decide_eq_true in Hk. }
  assert (Hdisk : (w_snap planned.2).1 = d_nodes (w_disk start)).
  { apply (bool_decide_eq_true_1 _). evaluates. }
  constructor.
  - rewrite Hdisk. unfold store_wf. intros dir rem n Hdir Hn. apply elem_of_list_to_map_2, list_elem_of_fmap in Hn as (c & Heq & _).
    pose proof (f_equal snd Heq) as En. apply (f_equal fst), (object_path_inj objects) in Heq as [-> ->]; [|done..].
    exists c. split; [exact En|reflexivity].
  - intros v Hv. split; [by apply Hspelled|]. exists v. split; [done|]. apply Hspelled in Hv. rewrite Hdisk.
    unfold spelled, refs in Hv. rewrite !elem_of_cons, elem_of_nil in Hv.
    destruct Hv as [->|[->|[->|[->|[]]]]]; eexists _, _; (split; [reflexivity|split; [vm_compute; reflexivity|reflexivity]]).
  - intros v (k & i & Hk & Hv). apply (rows_all (λ i, opt_spelled (it_blob_ref i))) in Hk; [|evaluates].
    rewrite Hv in Hk. by apply bool_decide_eq_true in Hk.
Qed.


Definition erasure := erase_listed_blobs sha256_hex same_path (R := deletion_report blob_ref) some_ref objects request removal.2.

(** Three blobs are listed for erasure once the rows are gone. *)
Lemma listed_blobs_are_dealt_with_witness :
  length (to_erase request (w_tables removal.2)) = 3 ∧ to_erase request (w_tables erasure.2) = [].
Proof.
  split; [apply Nat.eqb_eq; evaluates|].
  refine (proj1 (listed_blobs_are_dealt_with sha256_hex same_path some_ref objects request removal.2 erasure.2 _ _)).
  - apply (ran_unit erasure). evaluates.
  - assert (Hn : match w_others removal.2 with [] => true | _ => false end = true) by evaluates.
    destruct (w_others removal.2); [reflexivity|discriminate].
Defined.
End ExecutionWitness.
