(* ===== verification/Commands.v ===== *)
(** * The operator's command lines ([services/chatgpt-archive/src/lib.rs])

    The arguments of the five subcommands.  Three parsers read flags the same
    way - a flag with a value, once; a switch, once; nothing else - and differ
    in the flags; that loop is [read_flags]. *)

From S2P Require Import Prelude Registry ArchiveTables DeletionPlan PortableExport.

#[local] Open Scope result_scope.

(** The four [...CommandError]s have this one value. *)
Inductive command_error : Set := InvalidArguments.

(** ** Flags *)

(** The [Option<String>]s and [bool]s of a parser's loop. *)
Record flags : Set := Flags {
  fl_values : gmap string string;
  fl_switches : gset string;
}.

Definition no_flags : flags := Flags ∅ ∅.

Definition has (names : list string) (name : string) : bool := existsb (String.eqb name) names.

(** The [while let] loop: [next_value] refuses a value that begins with two
    dashes, [set_once] a second value. *)
Fixpoint read_flags (valued switches : list string) (f : flags) (args : list string)
    : result command_error flags :=
  match args with
  | [] => Ok f
  | flag :: rest =>
      if has valued flag then
        match rest with
        | [] => Err InvalidArguments
        | value :: rest =>
            if starts_with "--" value then Err InvalidArguments
            else if bool_decide (is_Some (fl_values f !! flag)) then Err InvalidArguments
            else read_flags valued switches (Flags (<[flag := value]> (fl_values f)) (fl_switches f)) rest
        end
      else if has switches flag && negb (bool_decide (flag ∈ fl_switches f))
      then read_flags valued switches (Flags (fl_values f) ({[flag]} ∪ fl_switches f)) rest
      else Err InvalidArguments
  end.

Section parsers.
(** [Uuid::parse_str]. *)
Context (parse_str : string → option uuid).

Definition value (f : flags) (name : string) : option string := fl_values f !! name.
Definition switch (f : flags) (name : string) : bool := bool_decide (name ∈ fl_switches f).

(** [parse_uuid], [parse_reparse_uuid]. *)
Definition parse_uuid (o : option string) : result command_error uuid := ok_or InvalidArguments (o ≫= parse_str).

Definition at_sign : ascii := "@"%char.

(** [split('@')] has at least one piece. *)
Definition parse_parser_id (text : string) : result command_error parser_id :=
  match split_on (Ascii.eqb at_sign) text with
  | [name; version] =>
      if String.eqb name "" || String.eqb version "" then Err InvalidArguments else Ok (ParserId name version)
  | _ => Err InvalidArguments
  end.

(** *** [fixture-admit] *)

Record fixture_admit_command : Set := FixtureAdmitCommand { fa_candidate : string }.

Definition parse_fixture_admit_command (args : list string) : result command_error fixture_admit_command :=
  match args with
  | [flag; candidate] =>
      if String.eqb flag "--candidate" && negb (starts_with "--" candidate)
      then Ok (FixtureAdmitCommand candidate) else Err InvalidArguments
  | _ => Err InvalidArguments
  end.

(** *** [parser-migrate] *)

Record parser_migrate_command : Set := ParserMigrateCommand {
  pm_tenant_id : uuid;
  pm_parser : parser_id;
  pm_dry_run : bool;
}.

Definition parse_parser_migrate_command (args : list string) : result command_error parser_migrate_command :=
  let? f := read_flags ["--tenant"; "--parser"] ["--dry-run"] no_flags args in
  let? tenant_id := parse_uuid (value f "--tenant") in
  let? parser := ok_or InvalidArguments (value f "--parser") in
  let? parser := parse_parser_id parser in
  Ok (ParserMigrateCommand tenant_id parser (switch f "--dry-run")).

(** *** [reparse] *)

Record reparse_command : Set := ReparseCommand {
  rc_tenant_id : uuid;
  rc_archive_id : uuid;
  rc_parser : parser_id;
  rc_dry_run : bool;
}.

Definition parse_reparse_command (args : list string) : result command_error reparse_command :=
  let? f := read_flags ["--tenant"; "--archive"; "--parser"] ["--dry-run"] no_flags args in
  let? parser := ok_or InvalidArguments (value f "--parser") in
  let? parser := parse_parser_id parser in
  let? tenant_id := parse_uuid (value f "--tenant") in
  let? archive_id := parse_uuid (value f "--archive") in
  Ok (ReparseCommand tenant_id archive_id parser (switch f "--dry-run")).

(** *** [privacy-delete] *)

Inductive privacy_delete_command : Set :=
| Plan (tenant_id request_id : uuid) (scope : privacy_deletion_scope)
| Execute (tenant_id request_id : uuid).

Definition selected (b : bool) : nat := if b then 1 else 0.

Definition parse_privacy_delete_command (args : list string) : result command_error privacy_delete_command :=
  match args with
  | [] => Err InvalidArguments
  | operation :: args =>
      let? f := read_flags ["--tenant"; "--request"; "--archive"; "--conversation"] ["--all"; "--confirm"] no_flags args in
      let archive := value f "--archive" in
      let conversation := value f "--conversation" in
      let all := switch f "--all" in
      let confirm := switch f "--confirm" in
      let? tenant_id := parse_uuid (value f "--tenant") in
      let? request_id := parse_uuid (value f "--request") in
      if String.eqb operation "plan" && negb confirm then
        if negb (selected (bool_decide (is_Some archive)) + selected (bool_decide (is_Some conversation)) + selected all =? 1)
        then Err InvalidArguments
        else
          let? scope :=
            match archive, conversation with
            | Some id, _ => let? id := parse_uuid (Some id) in Ok (ArchiveScope id)
            | None, Some id => let? id := parse_uuid (Some id) in Ok (ConversationScope id)
            | None, None => Ok TenantScope
            end in
          Ok (Plan tenant_id request_id scope)
      else if String.eqb operation "execute" && confirm && bool_decide (archive = None)
              && bool_decide (conversation = None) && negb all
      then Ok (Execute tenant_id request_id)
      else Err InvalidArguments
  end.

(** *** [portable-export] *)

Record portable_export_command : Set := PortableExportCommand {
  pe_filter : portable_export_filter;
  pe_output : string;
}.

(** Here a flag may be repeated, the last value counts, and any text is a
    value. *)
Fixpoint read_export_flags (f : gmap string string) (args : list string) : result command_error (gmap string string) :=
  match args with
  | [] => Ok f
  | [_] => Err InvalidArguments
  | flag :: value :: rest =>
      if has ["--tenant"; "--output"; "--project"; "--from"; "--to"] flag
      then read_export_flags (<[flag := value]> f) rest else Err InvalidArguments
  end.

Definition parse_portable_export_command (args : list string) : result command_error portable_export_command :=
  let? f := read_export_flags ∅ args in
  let? tenant := ok_or InvalidArguments (f !! "--tenant") in
  let? output := ok_or InvalidArguments (f !! "--output") in
  Ok (PortableExportCommand (PortableExportFilter tenant (f !! "--project") (f !! "--from") (f !! "--to")) output).
End parsers.

(** ** What the flag loop accepts *)

Section flag_laws.
Context (valued switches : list string) (Hapart : ∀ k, has valued k = true → has switches k = false).

(** The words of one flag. *)
Definition well_spelled (g : list string) : Prop :=
  (∃ k v, g = [k; v] ∧ has valued k = true ∧ starts_with "--" v = false) ∨
  (∃ s, g = [s] ∧ has switches s = true).

Definition add_group (f : flags) (g : list string) : flags :=
  match g with
  | [k; v] => Flags (<[k := v]> (fl_values f)) (fl_switches f)
  | [s] => Flags (fl_values f) ({[s]} ∪ fl_switches f)
  | _ => f
  end.

Definition holds (f : flags) (k : string) : Prop := is_Some (fl_values f !! k) ∨ k ∈ fl_switches f.

(** The flag a group sets. *)
Definition flag_of (g : list string) : string := default "" (head g).

Lemma holds_add f g k :
  well_spelled g → holds (add_group f g) k ↔ k = flag_of g ∨ holds f k.
Proof.
  intros [(k' & v & -> & _)|(s & -> & _)]; unfold holds, flag_of; cbn.
  - rewrite lookup_insert_is_Some. destruct (decide (k' = k)); naive_solver.
  - set_solver.
Qed.

Definition clean (f : flags) : Prop :=
  (∀ k, is_Some (fl_values f !! k) → has valued k = true) ∧ (∀ s, s ∈ fl_switches f → has switches s = true).

Lemma add_group_clean f g : clean f → well_spelled g → clean (add_group f g).
Proof.
  intros [Hv Hs] [(k & v & -> & Hk & _)|(s & -> & H)]; split; cbn; try done.
  - intros k' [<-|[_ ?]]%lookup_insert_is_Some; auto.
  - intros s' [->%elem_of_singleton|]%elem_of_union; auto.
Qed.

(** The loop goes through groups that set each flag once. *)
Lemma read_flags_groups f args f' :
  clean f →
  read_flags valued switches f args = Ok f' ↔
  ∃ gs, args = mjoin gs ∧ Forall well_spelled gs ∧ NoDup (flag_of <$> gs) ∧
    (∀ g, g ∈ gs → ¬ holds f (flag_of g)) ∧ f' = foldl add_group f gs.
Proof.
  intros Hclean. split.
  - remember (length args) as n eqn:Hn. assert (length args <= n) as Hle by lia. clear Hn. revert args f Hclean Hle.
    induction n as [|n IH]; intros [|flag rest] f Hclean Hle H; cbn in Hle, H; try lia;
      [injection H as <-; exists []; repeat split; [constructor..|set_solver]
      |injection H as <-; exists []; repeat split; [constructor..|set_solver]|].
    destruct (has valued flag) eqn:Ev.
    + destruct rest as [|v rest]; [done|]. destruct (starts_with "--" v) eqn:Ed; [done|].
      case_bool_decide as Hset; [done|]. cbn in Hle.
      assert (well_spelled [flag; v]) as Hg by (left; by exists flag, v).
      apply (IH rest (add_group f [flag; v])) in H as (gs & -> & Hgs & Hnd & Hnew & ->); [|by apply add_group_clean|lia].
      exists ([flag; v] :: gs). repeat split; [by constructor| | ].
      * cbn. constructor; [|done]. intros (g & Hflag & Hin)%list_elem_of_fmap. apply (Hnew g Hin), holds_add; auto.
      * intros g [->|Hin]%elem_of_cons.
        -- unfold holds, flag_of. cbn. intros [?|Hsw]; [done|]. apply Hclean in Hsw. by rewrite Hapart in Hsw.
        -- intros Hh. apply (Hnew g Hin), holds_add; auto.
    + destruct (has switches flag) eqn:Es; [|done]. case_bool_decide as Hin; [done|]. cbn in H.
      assert (well_spelled [flag]) as Hg by (right; by exists flag).
      apply (IH rest (add_group f [flag])) in H as (gs & -> & Hgs & Hnd & Hnew & ->); [|by apply add_group_clean|lia].
      exists ([flag] :: gs). repeat split; [by constructor| | ].
      * cbn. constructor; [|done]. intros (g & Hflag & Hg')%list_elem_of_fmap. apply (Hnew g Hg'), holds_add; auto.
      * intros g [->|Hg']%elem_of_cons.
        -- unfold holds, flag_of. cbn. intros [Hv|?]; [|done]. apply Hclean in Hv. congruence.
        -- intros Hh. apply (Hnew g Hg'), holds_add; auto.
  - intros (gs & -> & Hgs & Hnd & Hnew & ->). revert f Hclean Hnew.
    induction Hgs as [|g gs Hg Hgs IH]; intros f Hclean Hnew; [done|].
    cbn in Hnd. apply NoDup_cons in Hnd as [Hg' Hnd].
    assert (read_flags valued switches (add_group f g) (mjoin gs) = Ok (foldl add_group (add_group f g) gs)) as IHg.
    { apply IH; [done|by apply add_group_clean|]. intros g' Hin Hh. apply holds_add in Hh as [Heq|Hh]; [|by eapply Hnew; [right|]|done].
      apply Hg'. rewrite <-Heq. by apply list_elem_of_fmap_2. }
    pose proof (Hnew g ltac:(left)) as Hfresh. unfold holds, flag_of in Hfresh.
    destruct Hg as [(k & v & -> & Hk & Hv)|(s & -> & Hs)]; cbn in *.
    + rewrite Hk, Hv, bool_decide_eq_false_2 by tauto. exact IHg.
    + destruct (has valued s) eqn:E; [rewrite (Hapart _ E) in Hs; done|].
      rewrite Hs, bool_decide_eq_false_2 by tauto. exact IHg.
Qed.

(** The words a set of flags is spelled with, in some order. *)
Definition spelled (f : flags) : list (list string) :=
  ((λ kv : string * string, [kv.1; kv.2]) <$> map_to_list (fl_values f)) ++ ((λ s, [s]) <$> elements (fl_switches f)).

Lemma elem_of_spelled f g :
  g ∈ spelled f ↔ (∃ k v, g = [k; v] ∧ fl_values f !! k = Some v) ∨ (∃ s, g = [s] ∧ s ∈ fl_switches f).
Proof.
  unfold spelled. rewrite elem_of_app, !list_elem_of_fmap. apply Morphisms_Prop.or_iff_morphism.
  - split; [intros ([k v] & -> & H%elem_of_map_to_list); eauto|].
    intros (k & v & -> & H). exists (k, v). by rewrite elem_of_map_to_list.
  - setoid_rewrite elem_of_elements. done.
Qed.

Lemma NoDup_spelled f : NoDup (spelled f).
Proof.
  apply NoDup_app. split_and!.
  - apply (NoDup_fmap_2_strong); [|apply NoDup_map_to_list]. intros [] [] _ _ [= <- <-]. done.
  - intros g ([k v] & -> & _)%list_elem_of_fmap (s & H & _)%list_elem_of_fmap. discriminate H.
  - apply NoDup_fmap_2; [by intros ?? [=]|apply NoDup_elements].
Qed.

Lemma spelled_inj f f' : spelled f ≡ₚ spelled f' → f = f'.
Proof.
  intros H. destruct f as [v s], f' as [v' s'].
  assert (∀ g, g ∈ spelled (Flags v s) ↔ g ∈ spelled (Flags v' s')) as Hin by (intros g; by rewrite H).
  setoid_rewrite elem_of_spelled in Hin. cbn in Hin. f_equal.
  - apply map_eq. intros k. apply option_eq. intros x. specialize (Hin [k; x]). naive_solver.
  - apply set_eq. intros x. specialize (Hin [x]). naive_solver.
Qed.

Lemma spelled_add f g :
  well_spelled g → ¬ holds f (flag_of g) → spelled (add_group f g) ≡ₚ spelled f ++ [g].
Proof.
  intros Hg Hnew. assert (Hout : g ∉ spelled f).
  { rewrite elem_of_spelled. intros [(k & v & -> & H)|(s & -> & H)]; apply Hnew; [left|right; done]. by eexists. }
  apply NoDup_Permutation; [apply NoDup_spelled| |].
  { apply NoDup_app. split_and!; [apply NoDup_spelled|set_solver|apply NoDup_singleton]. }
  intros x. rewrite elem_of_app, list_elem_of_singleton, !elem_of_spelled.
  destruct Hg as [(k & v & -> & _)|(s & -> & _)]; cbn; unfold holds, flag_of in Hnew; cbn in Hnew.
  - setoid_rewrite lookup_insert_Some. split; [naive_solver|]. intros [[(k' & v' & -> & H)|?]|Hx]; [|naive_solver..].
    left. exists k', v'. split; [done|]. right. split; [|done]. intros <-. apply Hnew. left. by eexists.
  - set_solver.
Qed.

Lemma spelled_fold gs f :
  Forall well_spelled gs → NoDup (flag_of <$> gs) → (∀ g, g ∈ gs → ¬ holds f (flag_of g)) →
  spelled (foldl add_group f gs) ≡ₚ spelled f ++ gs.
Proof.
  intros Hgs. revert f. induction Hgs as [|g gs Hg Hgs IH]; intros f Hnd Hnew; cbn; [by rewrite app_nil_r|].
  cbn in Hnd. apply NoDup_cons in Hnd as [Hg' Hnd]. rewrite IH; [|done|].
  - rewrite spelled_add by (done || apply Hnew; left). by rewrite <-app_assoc.
  - intros g' Hin Hh. apply holds_add in Hh as [Heq|Hh]; [|by eapply Hnew; [right|]|done].
    apply Hg'. rewrite <-Heq. by apply list_elem_of_fmap_2.
Qed.

(** The loop reads exactly the spellings of a set of flags, in any order. *)
Lemma read_flags_exact args f :
  read_flags valued switches no_flags args = Ok f ↔
  ∃ gs, args = mjoin gs ∧ gs ≡ₚ spelled f ∧ Forall well_spelled gs.
Proof.
  assert (clean no_flags) as Hclean by (split; intros k H; [apply elem_of_dom in H|]; cbn in H; set_solver).
  assert (∀ k, ¬ holds no_flags k) as Hnone by (intros k [H|H]; [apply elem_of_dom in H|]; cbn in H; set_solver).
  rewrite read_flags_groups by done. split.
  - intros (gs & -> & Hgs & Hnd & _ & ->). exists gs. split_and!; [done| |done]. by rewrite spelled_fold.
  - intros (gs & -> & Hperm & Hgs). exists gs.
    assert (NoDup (flag_of <$> gs)) as Hnd.
    { rewrite Hperm. rewrite Hperm in Hgs. rewrite Forall_forall in Hgs.
      apply NoDup_fmap_2_strong; [|apply NoDup_spelled]. intros g g' Hin Hin'.
      pose proof (Hgs g Hin) as Hw. pose proof (Hgs g' Hin') as Hw'. apply elem_of_spelled in Hin, Hin'.
      destruct Hin as [(k & v & -> & H)|(s & -> & H)], Hin' as [(k' & v' & -> & H')|(s' & -> & H')];
        unfold flag_of; cbn; intros <-; [congruence| | |done]; exfalso;
        destruct Hw as [(? & ? & ? & Hk & _)|(? & ? & Hk)], Hw' as [(? & ? & ? & Hk' & _)|(? & ? & Hk')];
        simplify_eq; first [by rewrite Hapart in Hk'|by rewrite Hapart in Hk]. }
    split_and!; [done..|by intros g _|]. apply spelled_inj. rewrite spelled_fold by done. by rewrite Hperm.
Qed.
End flag_laws.

(** A flag with its value, a switch. *)
Definition plain (v : string) : Prop := starts_with "--" v = false.

(** ** The command lines *)

Section command_laws.
Context (parse_str : string → option uuid).

(** What the arguments of [privacy-delete] must say, in any order after the
    operation: a plan names one scope and is not confirmed, an execution is
    confirmed and names none. *)
Definition scope_words (scope : privacy_deletion_scope) (words : list string) : Prop :=
  match scope with
  | ArchiveScope id => ∃ v, words = ["--archive"; v] ∧ plain v ∧ parse_str v = Some id
  | ConversationScope id => ∃ v, words = ["--conversation"; v] ∧ plain v ∧ parse_str v = Some id
  | TenantScope => words = ["--all"]
  end.

Definition privacy_words (c : privacy_delete_command) (args : list string) : Prop :=
  ∃ operation tenant request last gs, args = operation :: mjoin gs ∧
    gs ≡ₚ [["--tenant"; tenant]; ["--request"; request]; last] ∧ plain tenant ∧ plain request ∧
    match c with
    | Plan tenant_id request_id scope => operation = "plan" ∧ parse_str tenant = Some tenant_id ∧
        parse_str request = Some request_id ∧ scope_words scope last
    | Execute tenant_id request_id => operation = "execute" ∧ parse_str tenant = Some tenant_id ∧
        parse_str request = Some request_id ∧ last = ["--confirm"]
    end.

(** Flags given as lists. *)
Definition flags_with (vs : list (string * string)) (ss : list string) : flags :=
  Flags (list_to_map vs) (list_to_set ss).

Definition words_of (vs : list (string * string)) (ss : list string) : list (list string) :=
  ((λ kv : string * string, [kv.1; kv.2]) <$> vs) ++ ((λ s, [s]) <$> ss).

Lemma spelled_with vs ss : NoDup vs.*1 → NoDup ss → spelled (flags_with vs ss) ≡ₚ words_of vs ss.
Proof.
  intros Hv Hs. unfold spelled, words_of. cbn. rewrite map_to_list_to_map by done.
  by rewrite (elements_list_to_set (C := gset string) ss Hs).
Qed.

Lemma has_spec names k : has names k = true ↔ k ∈ names.
Proof.
  unfold has. rewrite existsb_exists. setoid_rewrite <-list_elem_of_In. setoid_rewrite String.eqb_eq. naive_solver.
Qed.

(** The flags of [privacy-delete]. *)
Definition privacy_valued : list string := ["--tenant"; "--request"; "--archive"; "--conversation"].
Definition privacy_switches : list string := ["--all"; "--confirm"].

Lemma privacy_apart k : has privacy_valued k = true → has privacy_switches k = false.
Proof.
  rewrite <-not_true_iff_false, !has_spec. unfold privacy_valued, privacy_switches.
  rewrite !elem_of_cons, !elem_of_nil. intros H H'. naive_solver.
Qed.

#[local] Abbreviation read_privacy := (read_flags privacy_valued privacy_switches no_flags).

Lemma read_privacy_with vs ss args gs :
  args = mjoin gs → gs ≡ₚ words_of vs ss → NoDup vs.*1 → NoDup ss →
  Forall (λ kv, has privacy_valued kv.1 = true ∧ plain kv.2) vs → Forall (λ s, has privacy_switches s = true) ss →
  read_privacy args = Ok (flags_with vs ss).
Proof.
  intros -> Hgs Hv Hs Hvs Hss. apply read_flags_exact; [exact privacy_apart|].
  exists gs. split; [done|]. split; [by rewrite spelled_with|]. rewrite Hgs. unfold words_of.
  apply Forall_app. split; apply Forall_fmap.
  - eapply Forall_impl; [exact Hvs|]. intros [k v] [? ?]. left. by exists k, v.
  - eapply Forall_impl; [exact Hss|]. intros s ?. right. by exists s.
Qed.

(** What was read, name by name. *)
Lemma read_privacy_Ok args f :
  read_privacy args = Ok f →
  ∃ gs, args = mjoin gs ∧ gs ≡ₚ spelled f ∧
    (∀ k v, fl_values f !! k = Some v → k ∈ privacy_valued ∧ plain v) ∧ (∀ s, s ∈ fl_switches f → s ∈ privacy_switches).
Proof.
  intros (gs & -> & Hgs & Hall)%(read_flags_exact _ _ privacy_apart). exists gs. split_and!; [done..| |].
  - intros k v H. rewrite Hgs, Forall_forall in Hall.
    destruct (Hall [k; v]) as [(? & ? & [= <- <-] & ?%has_spec & ?)|(? & [=] & _)]; [|done].
    apply elem_of_spelled. left. eauto.
  - intros s H. rewrite Hgs, Forall_forall in Hall.
    destruct (Hall [s]) as [(? & ? & [=] & _)|(? & [= <-] & ?%has_spec)]; [|done].
    apply elem_of_spelled. right. eauto.
Qed.

(** Flags that hold exactly these values and switches. *)
Lemma privacy_flags_are f vs ss :
  (∀ k v, fl_values f !! k = Some v → k ∈ privacy_valued ∧ plain v) → (∀ s, s ∈ fl_switches f → s ∈ privacy_switches) →
  (∀ k, k ∈ privacy_valued → fl_values f !! k = (list_to_map vs : gmap string string) !! k) → vs.*1 ⊆ privacy_valued →
  (∀ s, s ∈ privacy_switches → s ∈ fl_switches f ↔ s ∈ ss) → ss ⊆ privacy_switches →
  f = flags_with vs ss.
Proof.
  intros Hv Hs Hvs Hvd Hss Hsd. destruct f as [v s]. cbn in *. unfold flags_with. f_equal.
  - apply map_eq. intros k. destruct (decide (k ∈ privacy_valued)) as [Hk|Hk]; [by apply Hvs|].
    rewrite (proj2 (eq_None_not_Some _)) by (intros [x Hx]; by apply Hv in Hx as [? _]).
    symmetry. apply not_elem_of_list_to_map_1. intros Hin. by apply Hk, Hvd.
  - apply set_eq. intros x. rewrite elem_of_list_to_set. destruct (decide (x ∈ privacy_switches)) as [Hx|Hx]; [by apply Hss|].
    split; intros H; destruct Hx; [by apply Hs|by apply Hsd].
Qed.

Definition scope_values (scope : privacy_deletion_scope) (v : string) : list (string * string) :=
  match scope with
  | ArchiveScope _ => [("--archive", v)]
  | ConversationScope _ => [("--conversation", v)]
  | TenantScope => []
  end.

Definition scope_switches (scope : privacy_deletion_scope) : list string :=
  match scope with TenantScope => ["--all"] | _ => [] end.

#[local] Abbreviation parse := (parse_privacy_delete_command parse_str).

Lemma parse_plan a b v scope tenant request args gs :
  args = mjoin gs →
  gs ≡ₚ words_of ([("--tenant", a); ("--request", b)] ++ scope_values scope v) (scope_switches scope) →
  plain a → plain b → plain v → parse_str a = Some tenant → parse_str b = Some request →
  match scope with ArchiveScope id | ConversationScope id => parse_str v = Some id | TenantScope => True end →
  parse ("plan" :: args) = Ok (Plan tenant request scope).
Proof.
  intros Hargs Hgs Ha Hb Hv Hta Hre Hsc. unfold parse_privacy_delete_command.
  change (read_flags _ _ _ args) with (read_privacy args).
  rewrite (read_privacy_with _ _ args gs Hargs Hgs);
    [|by destruct scope; apply (bool_decide_unpack _); vm_compute|by destruct scope; apply (bool_decide_unpack _); vm_compute
     |by destruct scope; repeat constructor|by destruct scope; repeat constructor].
  set (f := flags_with _ _).
  assert (value f "--tenant" = Some a) as -> by by destruct scope.
  assert (value f "--request" = Some b) as -> by by destruct scope.
  assert (switch f "--confirm" = false) as -> by by destruct scope.
  assert (value f "--archive" = match scope with ArchiveScope _ => Some v | _ => None end) as -> by by destruct scope.
  assert (value f "--conversation" = match scope with ConversationScope _ => Some v | _ => None end) as -> by by destruct scope.
  assert (switch f "--all" = match scope with TenantScope => true | _ => false end) as -> by by destruct scope.
  unfold parse_uuid. cbn [mbind option_bind]. rewrite Hta, Hre. destruct scope; cbn; rewrite ?Hsc; done.
Qed.

Lemma parse_execute a b tenant request args gs :
  args = mjoin gs → gs ≡ₚ words_of [("--tenant", a); ("--request", b)] ["--confirm"] →
  plain a → plain b → parse_str a = Some tenant → parse_str b = Some request →
  parse ("execute" :: args) = Ok (Execute tenant request).
Proof.
  intros Hargs Hgs Ha Hb Hta Hre. unfold parse_privacy_delete_command.
  change (read_flags _ _ _ args) with (read_privacy args).
  rewrite (read_privacy_with _ _ args gs Hargs Hgs);
    [|by apply (bool_decide_unpack _); vm_compute|by apply (bool_decide_unpack _); vm_compute|by repeat constructor|by repeat constructor].
  set (f := flags_with _ _).
  assert (value f "--tenant" = Some a) as -> by done. assert (value f "--request" = Some b) as -> by done.
  unfold parse_uuid. cbn [mbind option_bind]. by rewrite Hta, Hre.
Qed.

(** Each flag of [privacy-delete] is as the hypotheses say. *)
Ltac flags_settle :=
  unfold privacy_valued, privacy_switches;
  first
    [ intros k; rewrite !elem_of_cons, elem_of_nil; intros [->|[->|[->|[->|[]]]]]; assumption
    | intros s; rewrite !elem_of_cons, elem_of_nil; intros [->|[->|[]]]; set_solver
    | apply (bool_decide_unpack _); vm_compute; exact I
    | set_solver ].

(** What was parsed is what the words say. *)
Lemma privacy_parsed args c : parse args = Ok c → privacy_words c args.
Proof.
  intros H. destruct args as [|operation args]; [done|]. unfold parse_privacy_delete_command in H.
  change (read_flags _ _ _ args) with (read_privacy args) in H.
  destruct (read_privacy args) as [f|] eqn:Ef; [|done].
  apply read_privacy_Ok in Ef as (gs & Hargs & Hgs & Hv & Hs).
  unfold parse_uuid in H.
  destruct (value f "--tenant") as [a|] eqn:Ea; cbn in H; [|done].
  destruct (parse_str a) as [tenant|] eqn:Eta; cbn in H; [|done].
  destruct (value f "--request") as [b|] eqn:Eb; cbn in H; [|done].
  destruct (parse_str b) as [request|] eqn:Ere; cbn in H; [|done].
  pose proof (proj2 (Hv _ _ Ea)) as Ha. pose proof (proj2 (Hv _ _ Eb)) as Hb.
  assert (Hf : ∀ vs ss, (∀ k, k ∈ privacy_valued → fl_values f !! k = (list_to_map vs : gmap string string) !! k) →
    vs.*1 ⊆ privacy_valued → (∀ s, s ∈ privacy_switches → s ∈ fl_switches f ↔ s ∈ ss) → ss ⊆ privacy_switches →
    NoDup vs.*1 → NoDup ss → gs ≡ₚ words_of vs ss).
  { intros vs ss H1 H2 H3 H4 H5 H6. rewrite Hgs, (privacy_flags_are f vs ss) by done. by apply spelled_with. }
  unfold switch in H. destruct (value f "--archive") as [v|] eqn:Ec, (value f "--conversation") as [v'|] eqn:Ed;
    destruct (bool_decide_reflect ("--all" ∈ fl_switches f)) as [Hall|Hall],
      (bool_decide_reflect ("--confirm" ∈ fl_switches f)) as [Hcf|Hcf];
    destruct (String.eqb_spec operation "plan") as [Hop|Hop], (String.eqb_spec operation "execute") as [Hop'|Hop'];
    cbn in H; try congruence.
  + destruct (parse_str v) as [id|] eqn:Ev; [|done]. injection H as <-. exists operation, a, b, ["--archive"; v], gs.
    split; [by rewrite Hargs|]. split; [apply (Hf [("--tenant", a); ("--request", b); ("--archive", v)] []); flags_settle|].
    split_and!; try done. exists v. split; [done|]. split; [apply (Hv _ _ Ec)|done].
  + destruct (parse_str v') as [id|] eqn:Ev; [|done]. injection H as <-. exists operation, a, b, ["--conversation"; v'], gs.
    split; [by rewrite Hargs|]. split; [apply (Hf [("--tenant", a); ("--request", b); ("--conversation", v')] []); flags_settle|].
    split_and!; try done. exists v'. split; [done|]. split; [apply (Hv _ _ Ed)|done].
  + injection H as <-. exists operation, a, b, ["--all"], gs.
    split; [by rewrite Hargs|]. split; [apply (Hf [("--tenant", a); ("--request", b)] ["--all"]); flags_settle|done].
  + injection H as <-. exists operation, a, b, ["--confirm"], gs.
    split; [by rewrite Hargs|]. split; [apply (Hf [("--tenant", a); ("--request", b)] ["--confirm"]); flags_settle|done].
Qed.

(** What a privacy deletion is told is what its command line says, word for
    word. The parser of [privacy-delete] accepts exactly these arguments: the
    operation, then the flags in any order, each once, no value beginning with
    two dashes - for a plan the tenant, the request and exactly one scope, an
    archive, a conversation or [--all], and no confirmation; for an execution
    the tenant, the request and [--confirm], and no scope - and the command is
    the one they spell. *)
Theorem privacy_command_exact args c : parse args = Ok c ↔ privacy_words c args.
Proof.
  split.
  - apply privacy_parsed.
  - intros (operation & a & b & last & gs & -> & Hgs & Ha & Hb & Hc). destruct c as [tenant request scope|tenant request].
    + destruct Hc as (-> & Hta & Hre & Hsc).
      assert (∃ v, plain v ∧ [["--tenant"; a]; ["--request"; b]; last] =
        words_of ([("--tenant", a); ("--request", b)] ++ scope_values scope v) (scope_switches scope) ∧
        match scope with ArchiveScope id | ConversationScope id => parse_str v = Some id | TenantScope => True end)
        as (v & Hv & Hw & Hid).
      { destruct scope; cbn in Hsc; [destruct Hsc as (v & -> & ? & ?); by exists v..|]. subst last. by exists "". }
      rewrite Hw in Hgs. by eapply parse_plan.
    + destruct Hc as (-> & Hta & Hre & ->). by eapply (parse_execute a b).
Qed.
End command_laws.

(** ** Closed examples *)

Module CommandExamples.
#[local] Abbreviation parse := (parse_privacy_delete_command (λ s, if starts_with "id" s then Some s else None)).

Example accepted :
  parse ["execute"; "--confirm"; "--tenant"; "id-t"; "--request"; "id-r"] = Ok (Execute "id-t" "id-r") ∧
  parse ["plan"; "--request"; "id-r"; "--archive"; "id-a"; "--tenant"; "id-t"] = Ok (Plan "id-t" "id-r" (ArchiveScope "id-a")) ∧
  parse ["plan"; "--request"; "id-r"; "--tenant"; "id-t"; "--all"] = Ok (Plan "id-t" "id-r" TenantScope).
Proof. vm_compute. done. Qed.

(** Not confirmed, confirmed with a scope, two scopes, a repeated flag, a value
    that is a flag. *)
Example rejected :
  existsb (λ args, is_ok (parse args))
    [["execute"; "--tenant"; "id-t"; "--request"; "id-r"];
     ["execute"; "--confirm"; "--all"; "--tenant"; "id-t"; "--request"; "id-r"];
     ["plan"; "--request"; "id-r"; "--archive"; "id-a"; "--all"; "--tenant"; "id-t"];
     ["plan"; "--all"; "--all"; "--request"; "id-r"; "--tenant"; "id-t"];
     ["plan"; "--all"; "--request"; "--tenant"; "id-t"]] = false.
Proof. vm_compute. done. Qed.

(** A repeated export flag: the last value counts, and a value may look like a
    flag. *)
Example export_repeats :
  parse_portable_export_command ["--tenant"; "a"; "--tenant"; "--output"; "--output"; "b"] =
  Ok (PortableExportCommand (PortableExportFilter "--output" None None None) "b").
Proof. vm_compute. done. Qed.

Example parser_ids :
  parse_parser_id "chatgpt@1.0" = Ok (ParserId "chatgpt" "1.0") ∧
  parse_parser_id "chatgpt@" = Err InvalidArguments ∧ parse_parser_id "chatgpt" = Err InvalidArguments ∧
  parse_parser_id "a@b@c" = Err InvalidArguments.
Proof. vm_compute. done. Qed.
End CommandExamples.
