(* ===== verification/Lifecycle.v ===== *)
(** * The operator's commands ([services/chatgpt-archive/src/lifecycle_commands.rs],
      [persistence.rs])

    Opening the database, running a command over the engines it names, and the
    process's exit status.  [portable-export] is in [PortableLoad]. *)

From S2P Require Import Prelude Std Json Disk BlobStore Archive Registry Parser Config Principals Postgres ArchiveTables NormalizedStore ArchiveEvents StreamErasure DeletionPlan DeletionRows PrivacyDeletion Reparse ParserMigration FixtureAdmission Commands.

#[local] Open Scope result_scope.

(** ** The database ([persistence.rs]) *)

Definition SCHEMA_LOCK_KEY : N := 8241996754961789441.

Inductive persistence_error : Set := Pool | ApplySchema.

Section database.
(** Connecting a pool to a URL with some connections and a timeout. *)
Context (connects : string → N → N → result unit unit).
Context {T : Type}.

Definition connect (storage : storage_config) (l : limits) : result persistence_error unit :=
  match sc_database_url storage with
  | None => Err Pool
  | Some url =>
      map_err (λ _, Pool) (connects url (li_database_connections l) (li_database_acquire_timeout_ms l))
  end.

(** The statements of [schema.sql] are all [CREATE ... IF NOT EXISTS]: on the
    tables of the model they change nothing. *)
Definition schema_sql : T → result sql_error (unit * T) := λ t, Ok (tt, t).

Definition apply_schema : sm (world T) persistence_error unit :=
  transaction (λ _, ApplySchema) (
    let! _ := smap_err (λ _, ApplySchema) (take_lock (pretty SCHEMA_LOCK_KEY)) in
    smap_err (λ _, ApplySchema) (statement schema_sql)).

(** [SELECT 1]. *)
Definition ping : sm (world T) sql_error unit := auto (λ t, Ok (tt, t)).
End database.

(** ** Commands *)

Inductive service_error : Set :=
| MissingBlobRoot | SPersistence (e : persistence_error) | SBlobStore (e : blob_store_error)
| SPrivacyDeletion | SReparse (e : reparse_error) | SParserMigration (e : migration_error)
| SParserRegistry (e : registry_error) | SPortableExport.

(** What a command prints: a report, or the object that says it failed. *)
Inductive printed : Type :=
| PrintedPlan (p : deletion_plan)
| PrintedNotFound (request_id : uuid)
| PrintedDeletion (r : deletion_report blob_ref)
| PrintedDeletionFailed (request_id : uuid)
| PrintedReparse (r : reparse_report)
| PrintedReparseFailed (archive_id : uuid) (parser : parser_id)
| PrintedMigration (r : migration_report)
| PrintedMigrationFailed (tenant_id : uuid) (parser : parser_id)
| PrintedAdmission (r : fixture_admission_report)
| PrintedUnreadable.

Inductive stdout : Set := Written | BrokenPipe | WriteFailed.

(** A reader that went away is not a failure. *)
Definition write_json_stdout (o : stdout) : bool :=
  match o with WriteFailed => false | _ => true end.

(** The status the process ends with, and what it tried to print. *)
Record exit : Type := Exit { ex_code : N; ex_printed : option printed }.

Definition SUCCESS : N := 0.
Definition FAILURE : N := 1.

Definition exit_if (succeeded : bool) : N := if succeeded then SUCCESS else FAILURE.

Section opening.
Context (connects : string → N → N → result unit unit) {T : Type}.

(** The root is configured, the database answers, its schema is applied. *)
Definition opened (c : config) : sm (world T) service_error string :=
  let! root := slift (ok_or MissingBlobRoot (sc_blob_root (cf_storage c))) in
  let! _ := slift (map_err SPersistence (connect connects (cf_storage c) (cf_limits c))) in
  let! _ := smap_err SPersistence apply_schema in
  sret root.

(** [BlobStore::new]. *)
Definition blob_store_new (root : string) : sm (world T) service_error blob_store :=
  let! _ := smap_err (λ e, SBlobStore (Unavailable e)) (with_disk (create_dir_all root)) in
  sret (BlobStore root).

End opening.

Section commands.
Context {wire ref : Type} `{Contracts wire ref}.
Context (connects : string → N → N → result unit unit) (of_user : string → string).
Context (to_string : json → string) (sha256_hex : string → string) (media_type_ok : string → bool).
Context (cp437 : ascii → string) (zip_at : gmap string node → string → zip_source).
Context (read_to_end : zip_entry → option string).
Context (canonicalize : gmap string node → string → option string).
Context (new_uuid : N → uuid) (parse_uuid : string → option uuid).
Context (render : json → string) (pg_render render_instant : N → string).
Context (collate : string → string → comparison) (later : string → N → option string) (to_timestamp : N → N).
Context {V R : Type} `{EqDecision V} (decode_ref : V → option blob_ref) (encode_ref : blob_ref → option V).
Context (ref_json : blob_ref → json).
Context (encode_project : project_version → option json) (decode_project : json → option project_version).
Context (encode_conversation : conversation_version → option json).
Context (decode_conversation : json → option conversation_version).
Context (erasure_document : erasure_command (wire := wire) → result enqueue_error json).
Context (encode_deletion : deletion_report blob_ref → option R) (decode_deletion : R → option (deletion_report blob_ref)).
Context (encode_report : reparse_report → option json) (decode_report : json → option reparse_report).
Context (encode_migration : migration_report → option json) (decode_migration : json → option migration_report).
Context (executor : unit → parser_execution_input → list string → sm disk parser_execution_error parsed_conversations).

#[local] Abbreviation atables := (atables V R).
#[local] Abbreviation tx := (sm (world atables) service_error).

(** The engine of a replay, and of a migration. *)
Definition engine_of (c : config) (root : string) : tx (reparse_engine unit) :=
  let! blobs := blob_store_new root in
  let! registry := slift (map_err SParserRegistry runtime) in
  sret (ReparseEngine blobs registry (archive_limits_of (cf_limits c))
          (owner_resolver_new of_user (rc_platform_accounts (cf_receipt c))) (rc_max_event_bytes (cf_receipt c))).

(** [now] is the service's clock. *)
Definition run_privacy_delete (c : config) (command : privacy_delete_command) (now : string) : tx (printed * bool) :=
  let! root := opened connects c in
  let! blobs := blob_store_new root in
  match command with
  | Plan tenant_id request_id scope =>
      let! plan := smap_err (λ _, SPrivacyDeletion)
        (DeletionPlan.plan (V := V) (R := R) (E := blob_store_error) tenant_id request_id scope) in
      sret (match plan with
            | Some plan => (PrintedPlan plan, true)
            | None => (PrintedNotFound request_id, false)
            end)
  | Execute tenant_id request_id =>
      let! report := smap_err (λ _, SPrivacyDeletion)
        (execute_for_tenant sha256_hex media_type_ok canonicalize new_uuid parse_uuid to_string render pg_render
           render_instant collate later to_timestamp decode_ref encode_ref ref_json decode_project decode_conversation
           erasure_document encode_deletion decode_deletion blobs now tenant_id request_id) in
      sret (PrintedDeletion report, true)
  end.

Definition run_reparse (c : config) (command : reparse_command) : tx reparse_report :=
  let! root := opened connects c in
  let! engine := engine_of c root in
  let! plan := smap_err SReparse (Reparse.plan to_string sha256_hex cp437 zip_at read_to_end decode_ref executor engine
    (rc_tenant_id command) (rc_archive_id command) (rc_parser command)) in
  if rc_dry_run command then sret (rpl_report plan)
  else smap_err SReparse (Reparse.apply to_string sha256_hex media_type_ok new_uuid render pg_render render_instant
    collate to_timestamp decode_ref encode_ref encode_project encode_conversation encode_report decode_report engine plan).

Definition run_parser_migrate (c : config) (command : parser_migrate_command) : tx migration_report :=
  let! root := opened connects c in
  let! engine := engine_of c root in
  let! operation := mint in
  let! plan := smap_err SParserMigration (migration_plan_for to_string sha256_hex cp437 zip_at read_to_end decode_ref
    executor engine (new_uuid operation) (pm_tenant_id command) (pm_parser command)) in
  if pm_dry_run command then sret (mp_report plan)
  else smap_err SParserMigration (migration_apply to_string sha256_hex media_type_ok new_uuid render pg_render
    render_instant collate to_timestamp decode_ref encode_ref encode_project encode_conversation encode_report
    decode_report encode_migration decode_migration engine plan).

(** ** Exit statuses *)

#[local] Abbreviation main := (sm (world atables) Empty_set exit).
(** What [Config::load] answers. *)
Context (loaded : result (list violation) config) (out : stdout).

(** A command whose configuration is refused prints nothing. *)
Definition with_config (code : N) (k : config → main) : main :=
  match loaded with
  | Ok c => k c
  | Err _ => sret (Exit code None)
  end.

Definition request_of (command : privacy_delete_command) : uuid :=
  match command with Plan _ request_id _ | Execute _ request_id => request_id end.

Definition privacy_delete_main (command : privacy_delete_command) (now : string) : main :=
  with_config 2 (λ c,
    let! outcome := stry (run_privacy_delete c command now) in
    sret (match outcome with
          | Ok (report, succeeded) => Exit (exit_if (write_json_stdout out && succeeded)) (Some report)
          | Err _ => Exit FAILURE (Some (PrintedDeletionFailed (request_of command)))
          end)).

Definition reparse_main (command : reparse_command) : main :=
  with_config 2 (λ c,
    let! outcome := stry (run_reparse c command) in
    sret (match outcome with
          | Ok report => Exit (exit_if (write_json_stdout out)) (Some (PrintedReparse report))
          | Err _ => Exit FAILURE (Some (PrintedReparseFailed (rc_archive_id command) (rc_parser command)))
          end)).

Definition parser_migrate_main (command : parser_migrate_command) : main :=
  with_config 2 (λ c,
    let! outcome := stry (run_parser_migrate c command) in
    sret (match outcome with
          | Ok report =>
              Exit (exit_if (write_json_stdout out && negb (bool_decide (mr_status report = MigrationPartial))))
                (Some (PrintedMigration report))
          | Err _ => Exit FAILURE (Some (PrintedMigrationFailed (pm_tenant_id command) (pm_parser command)))
          end)).

(** No configuration is needed; a failed inspection is [Err]. *)
Definition fixture_admit_main (inspected : result io_error fixture_admission_report) : exit :=
  match inspected with
  | Ok report =>
      Exit (exit_if (write_json_stdout out && bool_decide (fr_status report = FixtureAdmitted))) (Some (PrintedAdmission report))
  | Err _ => Exit FAILURE (Some PrintedUnreadable)
  end.
End commands.

(** *** The entry point *)

(** What the first argument asks for. *)
Inductive action : Type :=
| Refuse (code : N)
| RunPortableExport (c : portable_export_command)
| RunPrivacyDelete (c : privacy_delete_command)
| RunReparse (c : reparse_command)
| RunParserMigrate (c : parser_migrate_command)
| RunFixtureAdmit (c : fixture_admit_command)
| Serve.

(** [main_result]'s dispatch over the arguments after the program's name. *)
Definition dispatch (parse_str : string → option uuid) (args : list string) : action :=
  match args with
  | [] => Serve
  | subcommand :: arguments =>
      if String.eqb subcommand "portable-export" then
        match parse_portable_export_command arguments with Ok c => RunPortableExport c | Err _ => Refuse 64 end
      else if String.eqb subcommand "privacy-delete" then
        match parse_privacy_delete_command parse_str arguments with Ok c => RunPrivacyDelete c | Err _ => Refuse 2 end
      else if String.eqb subcommand "reparse" then
        match parse_reparse_command parse_str arguments with Ok c => RunReparse c | Err _ => Refuse 2 end
      else if String.eqb subcommand "parser-migrate" then
        match parse_parser_migrate_command parse_str arguments with Ok c => RunParserMigrate c | Err _ => Refuse 2 end
      else if String.eqb subcommand "fixture-admit" then
        match parse_fixture_admit_command arguments with Ok c => RunFixtureAdmit c | Err _ => Refuse 2 end
      else Serve
  end.

(** ** What a dry run leaves alone *)

Section dry_run_laws.
Context {wire ref : Type} `{Contracts wire ref}.
Context (connects : string → N → N → result unit unit) (of_user : string → string).
Context (to_string : json → string) (sha256_hex : string → string) (media_type_ok : string → bool).
Context (cp437 : ascii → string) (zip_at : gmap string node → string → zip_source).
Context (read_to_end : zip_entry → option string).
Context (new_uuid : N → uuid).
Context (render : json → string) (pg_render render_instant : N → string).
Context (collate : string → string → comparison) (to_timestamp : N → N).
Context {V R : Type} (decode_ref : V → option blob_ref) (encode_ref : blob_ref → option V).
Context (encode_project : project_version → option json).
Context (encode_conversation : conversation_version → option json).
Context (encode_report : reparse_report → option json) (decode_report : json → option reparse_report).
Context (encode_migration : migration_report → option json) (decode_migration : json → option migration_report).
Context (executor : unit → parser_execution_input → list string → sm disk parser_execution_error parsed_conversations).
Context (loaded : result (list violation) config) (out : stdout).

#[local] Abbreviation atables := (atables V R).
#[local] Abbreviation opened := (opened connects (T := atables)).
#[local] Abbreviation reparse_main := (reparse_main connects of_user to_string sha256_hex media_type_ok cp437 zip_at
  read_to_end new_uuid render pg_render render_instant collate to_timestamp (R := R) decode_ref encode_ref encode_project
  encode_conversation encode_report decode_report executor loaded out).
#[local] Abbreviation parser_migrate_main := (parser_migrate_main connects of_user to_string sha256_hex media_type_ok
  cp437 zip_at read_to_end new_uuid render pg_render render_instant collate to_timestamp (R := R) decode_ref encode_ref
  encode_project encode_conversation encode_report decode_report encode_migration decode_migration executor loaded out).

#[local] Abbreviation run_parser_migrate := (run_parser_migrate connects of_user to_string sha256_hex media_type_ok
  cp437 zip_at read_to_end new_uuid render pg_render render_instant collate to_timestamp (R := R) decode_ref encode_ref
  encode_project encode_conversation encode_report decode_report encode_migration decode_migration executor).

Lemma apply_schema_reads_rows : stable reads_rows (apply_schema (T := atables)).
Proof.
  intros w r w' Hrun Ho. assert (Hb : stable (inside (T := atables) eq) (
    let! _ := smap_err (λ _, ApplySchema) (take_lock (pretty SCHEMA_LOCK_KEY)) in
    smap_err (λ _, ApplySchema) (statement schema_sql))).
  { apply stable_bind; [apply _|apply stable_map_err|intros _; apply stable_map_err, inside_statement; [apply _|]].
    - intros u x u' Hu. unfold take_lock in Hu. by destruct (next_fault u); injection Hu as _ <-.
    - by intros t a t' [= _ <-]. }
  unfold apply_schema in Hrun. apply (transaction_cases eq) in Hrun as (_ & Ho' & Ht); [|done].
  rewrite (alone _ Ho) in *. split; [congruence|]. destruct Ht as [[_ ?]|(a & u & Hu & -> & _)]; [done|].
  by apply Hb in Hu as (_ & _ & <-).
Qed.

Lemma opened_reads_rows c : stable reads_rows (opened c).
Proof.
  apply stable_bind; [apply _|apply stable_lift, _|intros root].
  apply stable_bind; [apply _|apply stable_lift, _|intros _].
  apply stable_bind; [apply _|apply stable_map_err, apply_schema_reads_rows|intros _; apply stable_ret, _].
Qed.

Lemma engine_of_reads_rows c root : stable reads_rows (engine_of of_user c root (V := V) (R := R)).
Proof.
  apply stable_bind; [apply _| |intros blobs].
  { apply stable_bind; [apply _|apply stable_map_err, disk_reads_rows|intros _; apply stable_ret, _]. }
  apply stable_bind; [apply _|apply stable_lift, _|intros registry; apply stable_ret, _].
Qed.

Lemma migration_plan_reads_rows (e : reparse_engine unit) operation_id tenant_id target :
  stable reads_rows (migration_plan_for to_string sha256_hex cp437 zip_at read_to_end (R := R) decode_ref executor
    e operation_id tenant_id target).
Proof.
  apply stable_bind; [apply _|apply stable_map_err, auto_reads_rows|intros privacy_blocked].
  apply stable_bind; [apply _|apply stable_map_err, auto_reads_rows|intros rows].
  apply stable_bind; [apply _|apply classify_rows_reads_rows|intros [entries eligible]; apply stable_ret, _].
Qed.

Lemma dry_migration_is_planned c command w report w' :
  pm_dry_run command = true → run_parser_migrate c command w = (Ok report, w') → mr_status report = Planned.
Proof.
  intros Hdry (root & w1 & _ & Em)%sbind_Ok_inv.
  apply sbind_Ok_inv in Em as (engine & w2 & _ & Em). apply sbind_Ok_inv in Em as (op & w3 & _ & Em).
  apply sbind_Ok_inv in Em as (plan & w4 & Hplan%smap_err_Ok_inv & Em). rewrite Hdry in Em. injection Em as <- _.
  apply sbind_Ok_inv in Hplan as (? & ? & _ & Hplan). apply sbind_Ok_inv in Hplan as (? & ? & _ & Hplan).
  by apply sbind_Ok_inv in Hplan as ([entries eligible] & ? & _ & [= <- _]).
Qed.

Lemma with_config_reads_rows code k :
  (∀ c, stable reads_rows (k c)) → stable reads_rows (with_config (V := V) (R := R) loaded code k).
Proof. intros Hk. unfold with_config. destruct loaded; [apply Hk|apply stable_ret, _]. Qed.

End dry_run_laws.

(** ** Closed examples *)

Module LifecycleWitness.
Import ReparseWitness MigrationWitness.
#[local] Existing Instance ContractsWitness.contracts.

Definition configured : config :=
  let c := default_config in
  Config (cf_admin c) (StorageConfig (Some "/blobs") (Some "postgres://archive") None) (cf_telemetry c) (cf_receipt c)
    (cf_tombstone c) (cf_limits c).

#[local] Abbreviation migrate_main := (parser_migrate_main (λ _ _ _, Ok tt) (λ u, u) to_string fake_sha (λ _, true) (λ _, "?")
  (λ _ _, NotAnArchive) (λ _, None) pretty to_string pretty pretty String.compare (λ n, n) (R := unit) Some Some
  (λ _, Some JNull) (λ _, Some JNull) write_report read_report write_migration read_migration
  (λ (_ : unit) _ _, sfail Storage)).
#[local] Abbreviation replay_main := (reparse_main (λ _ _ _, Ok tt) (λ u, u) to_string fake_sha (λ _, true) (λ _, "?")
  (λ _ _, NotAnArchive) (λ _, None) pretty to_string pretty pretty String.compare (λ n, n) (R := unit) Some Some
  (λ _, Some JNull) (λ _, Some JNull) write_report read_report
  (λ (_ : unit) _ _, sfail Storage)).

Definition try_migration := migrate_main (Ok configured) Written (ParserMigrateCommand "tenant" target true) start.
Definition try_replay := replay_main (Ok configured) BrokenPipe (ReparseCommand "tenant" "a1" target true) start.

Definition exit_of (r : result Empty_set exit) : exit :=
  match r with Ok x => x | Err e => match e with end end.

Lemma exits {T} (r : result Empty_set exit * T) : r = (Ok (exit_of r.1), r.2).
Proof. by destruct r as [[x|[]] t]. Qed.

(** The migration's dry run prints its plan; a replay whose archive is not an
    archive any more fails, and prints that. *)
Example dry_runs :
  (ex_code (exit_of try_migration.1), ex_code (exit_of try_replay.1)) = (0%N, 1%N) ∧
  ex_code (exit_of (migrate_main (Err []) Written (ParserMigrateCommand "tenant" target true) start).1) = 2%N.
Proof. apply (bool_decide_eq_true_1 _). evaluates. Qed.

End LifecycleWitness.
