(* ===== verification/PortableLoad.v ===== *)
(** * What a portable export reads ([portable_export.rs]
      [load_portable_archive_state], [services/chatgpt-archive/src/lib.rs]
      [run_portable_export])

    The four SELECTs that load the state of an export, the command that
    publishes it, and its isolation: the archive of a tenant is a function of
    that tenant's rows. *)

From S2P Require Import Prelude BTree Json Disk BlobStore Archive Config Postgres OutboxTable ArchiveTables PortableExport Commands Lifecycle.

#[local] Open Scope result_scope.

(** ** The tables *)

(** The columns that only this read model reads, by row. *)
Record portable_columns : Type := PortableColumns {
  pc_sha256_hex : uuid → string;               (* exports *)
  pc_archived_observed : uuid → bool;          (* projects *)
  pc_project_updated_at : uuid → N;
  pc_conversation_kind : uuid → string;        (* conversations *)
  pc_conversation_updated_at : uuid → N;
  pc_generation_index : uuid → option Z;       (* messages *)
  pc_interrupted : uuid → bool;
  pc_asset_external_id : uuid → string;        (* assets *)
  pc_asset_media_type : uuid → option string;
  pc_locally_backed_up : uuid → bool;
}.

(** The rows of a table that satisfy [P], by key. *)
Definition rows_where {A} (P : uuid → A → bool) (m : gmap uuid A) : list (uuid * A) :=
  filter (λ r : uuid * A, P r.1 r.2 = true) (rows_by_key m).

(** The first row of an order. *)
Definition first_by {A} (key : A → N) (rows : list (uuid * A)) : option (uuid * A) :=
  head (sort_by (λ a b, cmp (key b.2) (key a.2)) rows).

Definition json_int (z : Z) : json := JNumber (if (0 <=? z)%Z then PosInt (Z.to_N z) else NegInt z).

Section load.
(** The order of text; [to_char] of an instant of the archive's clock and of
    one the provider stated; the text of an instant, read. *)
Context (collate : string → string → comparison) (to_char to_char_stated : N → string).
Context (timestamptz : string → option N).
(** A stored [BlobRef], and as a JSON value. *)
Context {V R ZE : Type} (decode_ref : V → option blob_ref) (ref_value : V → json).

#[local] Abbreviation tables := (atables V R * portable_columns)%type.
#[local] Abbreviation tx := (sm (world tables) (portable_export_error ZE)).

(** [a.external_ref = $1]. *)
Definition account_is (external_ref : string) (t : tables) (account : uuid) : bool :=
  bool_decide (at_accounts t.1 !! account = Some (Some external_ref)).

Definition nullable_account_is (external_ref : string) (t : tables) (account : option uuid) : bool :=
  match account with Some account => account_is external_ref t account | None => false end.

(** [fetch_all] of a SELECT over its own snapshot. *)
Definition fetch {A} (f : tables → result sql_error A) : tx A :=
  smap_err (λ _, ExportStore) (auto (λ t, let? a := f t in Ok (a, t))).

(** *** Provenance *)

(** The newest run of an export. *)
Definition newest_run (export_id : uuid) (t : tables) : option (uuid * run_row) :=
  first_by rn_started_at
    (rows_where (λ _ r, bool_decide (rn_export_id r = Some export_id)) (ev_import_runs (at_evidence t.1))).

Definition newest_export (external_ref : string) (t : tables) : option (uuid * archive_export V) :=
  first_by xp_received_at
    (rows_where (λ _ x, account_is external_ref t (xp_account_id x)) (ev_exports (at_evidence t.1))).

Definition load_provenance (external_ref : string) (t : tables) : option (string * portable_provenance) :=
  x ← newest_export external_ref t;
  let parser_version := default "unknown" (r ← newest_run x.1 t; rn_parser_version r.2) in
  Some (external_ref,
    PortableProvenance (pc_sha256_hex t.2 x.1) "persisted-normalized-state" parser_version
      (to_char (xp_received_at x.2))).

(** *** Bounds *)

(** [$3::timestamptz]; the server refuses a text that is no instant. *)
Definition bound (text : option string) : result sql_error (option N) :=
  match text with
  | None => Ok None
  | Some text => let? at_ := ok_or SqlError (timestamptz text) in Ok (Some at_)
  end.

Definition within (from until : option N) (observed_at : N) : bool :=
  none_or from (λ from, (from <=? observed_at)%N) && none_or until (λ until, (observed_at <=? until)%N).

(** A query between two bounds. *)
Definition bounded {A} (f : portable_export_filter) (query : (N → bool) → tables → A) (t : tables)
    : result sql_error A :=
  let? from := bound (xf_observed_from_rfc3339 f) in
  let? until := bound (xf_observed_to_rfc3339 f) in
  Ok (query (within from until) t).

(** [COALESCE(e.received_at, updated_at)], [e] the export last seen. *)
Definition observed_at (last_seen_export : option uuid) (updated_at : N) (t : tables) : N :=
  match x ← last_seen_export; ev_exports (at_evidence t.1) !! x with
  | Some x => xp_received_at x
  | None => updated_at
  end.

(** *** Projects *)

Definition project_observed_at (t : tables) (id : uuid) (p : project_row) : N :=
  observed_at (prj_last_seen_export p) (pc_project_updated_at t.2 id) t.

Definition portable_project_of (t : tables) (r : uuid * project_row) : portable_project :=
  PortableProject (prj_external_id r.2) (prj_title r.2) (to_char (project_observed_at t r.1 r.2))
    (json_map [("external_id", JString (prj_external_id r.2)); ("title", json_option JString (prj_title r.2));
               ("description", json_option JString (prj_description r.2));
               ("instructions", json_option JString (prj_instructions r.2));
               ("archived_observed", JBool (pc_archived_observed t.2 r.1))]).

Definition selected_projects (f : portable_export_filter) (within : N → bool) (t : tables) : list (uuid * project_row) :=
  sort_by (λ a b, collate (prj_external_id a.2) (prj_external_id b.2))
    (rows_where (λ id p, nullable_account_is (xf_account_external_ref f) t (prj_account_id p)
        && none_or (xf_project_external_id f) (λ project, String.eqb (prj_external_id p) project)
        && within (project_observed_at t id p))
      (nm_projects (at_normalized t.1))).

Definition load_projects (f : portable_export_filter) : tx (list portable_project) :=
  fetch (bounded f (λ within t, portable_project_of t <$> selected_projects f within t)).

(** *** Conversations *)

Definition portable_part_value (p : part_row V) : json :=
  json_map [("revision", JNumber (PosInt (pt_revision p))); ("ordinal", JNumber (PosInt (pt_ordinal p)));
            ("part_kind", JString (pt_part_kind p)); ("payload", pt_payload p);
            ("blob_ref", json_option ref_value (pt_blob_ref p))].

Definition parts_of (t : tables) (message : uuid) : list (uuid * part_row V) :=
  sort_by (cmp_on (λ r : uuid * part_row V, (pt_revision r.2, pt_ordinal r.2)))
    (rows_where (λ _ p, bool_decide (pt_message_id p = message)) (nm_parts (at_normalized t.1))).

(** The message's parent, by identity. *)
Definition parent_external_id (t : tables) (m : message_row) : option string :=
  parent ← ms_parent_message_id m; p ← nm_messages (at_normalized t.1) !! parent; ms_external_id p.

Definition portable_message_value (t : tables) (r : uuid * message_row) : json :=
  json_map [("external_id", json_option JString (ms_external_id r.2));
            ("parent_external_id", json_option JString (parent_external_id t r.2));
            ("role", JString (ms_role r.2)); ("model_slug", json_option JString (ms_model_slug r.2));
            ("generation_index", json_option json_int (pc_generation_index t.2 r.1));
            ("interrupted", JBool (pc_interrupted t.2 r.1));
            ("created_at_rfc3339", json_option (λ s, JString (to_char_stated s)) (ms_created_at r.2));
            ("updated_at_rfc3339", json_option (λ s, JString (to_char_stated s)) (ms_updated_at r.2));
            ("provider_metadata", ms_provider_metadata r.2);
            ("parts", JArray ((λ p : uuid * part_row V, portable_part_value p.2) <$> parts_of t r.1))].

(** [ORDER BY m.created_at NULLS FIRST, m.id]. *)
Definition messages_of (t : tables) (conversation : uuid) : list (uuid * message_row) :=
  sort_by (cmp_on (λ r : uuid * message_row, (ms_created_at r.2, r.1)))
    (rows_where (λ _ m, bool_decide (ms_conversation_id m = conversation)) (nm_messages (at_normalized t.1))).

Definition project_external_id (t : tables) (c : conversation_row) : option string :=
  project ← cnv_project_id c; p ← nm_projects (at_normalized t.1) !! project; Some (prj_external_id p).

Definition conversation_observed_at (t : tables) (id : uuid) (c : conversation_row) : N :=
  observed_at (cnv_last_seen_export c) (pc_conversation_updated_at t.2 id) t.

(** The aggregate is the text of a [jsonb]; reading it gives the value back. *)
Definition portable_conversation_of (t : tables) (r : uuid * conversation_row) : portable_conversation :=
  PortableConversation (cnv_external_id r.2) (project_external_id t r.2) (cnv_title r.2)
    (to_char (conversation_observed_at t r.1 r.2))
    (json_map [("external_id", JString (cnv_external_id r.2));
               ("project_external_id", json_option JString (project_external_id t r.2));
               ("title", json_option JString (cnv_title r.2));
               ("conversation_kind", JString (pc_conversation_kind t.2 r.1));
               ("messages", JArray (portable_message_value t <$> messages_of t r.1))]).

Definition selected_conversations (f : portable_export_filter) (within : N → bool) (t : tables)
    : list (uuid * conversation_row) :=
  sort_by (λ a b, collate (cnv_external_id a.2) (cnv_external_id b.2))
    (rows_where (λ id c, nullable_account_is (xf_account_external_ref f) t (cnv_account_id c)
        && none_or (xf_project_external_id f) (λ project, bool_decide (project_external_id t c = Some project))
        && within (conversation_observed_at t id c))
      (nm_conversations (at_normalized t.1))).

Definition load_conversations (f : portable_export_filter) : tx (list portable_conversation) :=
  fetch (bounded f (λ within t, portable_conversation_of t <$> selected_conversations f within t)).

(** *** Assets *)

(** The export an asset was observed in. *)
Definition asset_export (t : tables) (a : asset_row V) : option (archive_export V) :=
  x ← ast_observed_in a; ev_exports (at_evidence t.1) !! x.

Definition portable_asset_of (t : tables) (r : uuid * asset_row V) : portable_asset :=
  let blob := ast_blob_ref r.2 ≫= decode_ref in
  let availability :=
    if pc_locally_backed_up t.2 r.1 && bool_decide (is_Some blob) then AssetVerified else AssetMissing in
  PortableAsset (pc_asset_external_id t.2 r.1) None
    (from_option (λ x, to_char (xp_received_at x)) "" (asset_export t r.2)) availability blob
    (pc_asset_media_type t.2 r.1).

(** A row without an export does not join.  A filter by project selects no
    asset. *)
Definition selected_assets (f : portable_export_filter) (within : N → bool) (t : tables) : list (uuid * asset_row V) :=
  rows_where (λ _ a,
      match asset_export t a with
      | Some x => account_is (xf_account_external_ref f) t (xp_account_id x)
                    && is_null (xf_project_external_id f) && within (xp_received_at x)
      | None => false
      end) (nm_assets (at_normalized t.1)).

Definition by_external_id (a b : portable_asset) : comparison := collate (xas_external_id a) (xas_external_id b).

Definition load_assets (f : portable_export_filter) : tx (list portable_asset) :=
  fetch (bounded f (λ within t, sort_by by_external_id (portable_asset_of t <$> selected_assets f within t))).

(** *** The state *)

Definition load_portable_archive_state (f : portable_export_filter) : tx portable_archive_state :=
  let! found := fetch (λ t, Ok (load_provenance (xf_account_external_ref f) t)) in
  let! (account, provenance) := slift (ok_or EmptySelection found) in
  let! projects := load_projects f in
  let! conversations := load_conversations f in
  let! assets := load_assets f in
  sret (PortableArchiveState account provenance projects conversations assets).

(** ** The command *)

Context (connects : string → N → N → result unit unit) (new_uuid : N → uuid).
Context (sha256_hex : string → string) (to_vec : json → string) {Z : Type} (zip : zip_writer Z ZE).

Definition run_portable_export (c : config) (command : portable_export_command)
    : sm (world tables) service_error unit :=
  let! root := opened connects c in
  let! state := smap_err (λ _, SPortableExport) (load_portable_archive_state (pe_filter command)) in
  let! blobs := blob_store_new root in
  let! part_id := mint in
  smap_err (λ _, SPortableExport)
    (with_disk (export_to_path_with_assets sha256_hex to_vec zip (new_uuid part_id) state blobs (pe_output command))).

(** A failed export is reported by the status alone. *)
Definition portable_export_main (loaded : result (list violation) config) (command : portable_export_command)
    : sm (world tables) Empty_set exit :=
  match loaded with
  | Err _ => sret (Exit 78 None)
  | Ok c =>
      let! outcome := stry (run_portable_export c command) in
      sret (Exit (exit_if (is_ok outcome)) None)
  end.
End load.

(** ** Running in step

    Two runs of a computation from worlds that agree on what it reads. *)

Section lockstep.
Context {T : Type} (same : T → T → Prop).

(** Another process does the same to the disk and to what is read. *)
Definition same_action (f g : snap T → snap T) : Prop :=
  ∀ ns t t', same t t' → (f (ns, t)).1 = (g (ns, t')).1 ∧ same (f (ns, t)).2 (g (ns, t')).2.

Record alike (w w' : world T) : Prop := Alike {
  al_disk : w_disk w = w_disk w';
  al_faults : db_faults (w_db w) = db_faults (w_db w');
  al_locks : w_locks w = w_locks w';
  al_mint : w_mint w = w_mint w';
  al_tables : same (w_tables w) (w_tables w');
  al_others : Forall2 same_action (w_others w) (w_others w');
}.

(** The same answer, and worlds that still agree. *)
Definition in_step {E A} (c : sm (world T) E A) : Prop :=
  ∀ w w', alike w w' → (c w).1 = (c w').1 ∧ alike (c w).2 (c w').2.

Lemma alike_faults w w' : alike w w' → next_fault w = next_fault w'.
Proof. intros Hw. unfold next_fault. by rewrite (al_faults _ _ Hw). Qed.

Lemma alike_drop w w' : alike w w' → alike (drop_fault w) (drop_fault w').
Proof. intros [Hd Hf Hl Hm Ht Ho]. constructor; try done. cbn. by rewrite Hf. Qed.

Lemma alike_set_locks l w w' : alike w w' → alike (set_locks l w) (set_locks l w').
Proof. by intros []. Qed.

Lemma alike_set_tables t t' w w' : same t t' → alike w w' → alike (set_tables t w) (set_tables t' w').
Proof. by intros ? []. Qed.

Lemma alike_log l b b' w w' : alike w w' → alike (log_step l b w) (log_step l b' w').
Proof. by intros []. Qed.

Lemma alike_end b b' w w' : alike w w' → alike (end_step b w) (end_step b' w').
Proof. by intros []. Qed.

Lemma alike_interfere w w' : alike w w' → alike (interfere w) (interfere w').
Proof.
  intros Hw. pose proof (al_others _ _ Hw) as Ho. unfold interfere.
  destruct (w_others w) as [|f fs], (w_others w') as [|g gs]; inversion Ho as [|? ? ? ? Hfg Hs]; subst; [done|].
  destruct Hw as [Hd Hf Hl Hm Ht _]. destruct (Hfg (d_nodes (w_disk w)) _ _ Ht) as [Hns Hsame].
  unfold w_snap. rewrite <-Hd. destruct (f _) as [ns t], (g _) as [ns' t']. cbn in *. subst ns'.
  by constructor; cbn; try rewrite Hd.
Qed.

Lemma in_step_ret {E A} (a : A) : in_step (sret (E := E) a).
Proof. by intros w w' Hw. Qed.

Lemma in_step_lift {E A} (r : result E A) : in_step (slift r).
Proof. by intros w w' Hw. Qed.

Lemma in_step_bind {E A B} (c : sm (world T) E A) (k : A → sm (world T) E B) :
  in_step c → (∀ a, in_step (k a)) → in_step (sbind c k).
Proof.
  intros Hc Hk w w' [Hr Hw]%Hc. unfold sbind. destruct (c w) as [r u], (c w') as [r' u']. cbn in *. subst r'.
  destruct r; [by apply Hk|done].
Qed.

Lemma in_step_map_err {E F A} (f : E → F) (c : sm (world T) E A) : in_step c → in_step (smap_err f c).
Proof.
  intros Hc w w' [Hr Hw]%Hc. unfold smap_err. destruct (c w) as [r u], (c w') as [r' u']. cbn in *. by subst r'.
Qed.

Lemma in_step_try {E F A} (c : sm (world T) E A) : in_step c → in_step (stry (F := F) c).
Proof.
  intros Hc w w' [Hr Hw]%Hc. unfold stry. destruct (c w) as [r u], (c w') as [r' u']. cbn in *. by subst r'.
Qed.

Lemma in_step_mint {E} : in_step (mint (E := E)).
Proof. intros w w' [Hd Hf Hl Hm Ht Ho]. cbn. rewrite Hm. by repeat constructor. Qed.

Lemma in_step_with_disk {E A} (c : sm disk E A) : in_step (with_disk c).
Proof.
  intros w w' [Hd Hf Hl Hm Ht Ho]. unfold with_disk. rewrite Hd. destruct (c _) as [r d]. cbn. split; [done|].
  by constructor.
Qed.

Lemma in_step_take_lock l : in_step (take_lock l).
Proof.
  intros w w' Hw. unfold take_lock. rewrite (alike_faults _ _ Hw), (al_locks _ _ Hw).
  pose proof (alike_drop _ _ Hw). destruct (next_fault w'); cbn; (split; [done|]); try done. by apply alike_set_locks.
Qed.

(** A statement that answers alike on tables that agree, and keeps them so. *)
Definition same_answer {A} (op : T → result sql_error (A * T)) : Prop :=
  ∀ t t', same t t' →
    match op t, op t' with
    | Ok (a, u), Ok (a', u') => a = a' ∧ same u u'
    | Err e, Err e' => e = e'
    | _, _ => False
    end.

Lemma in_step_statement {A} (op : T → result sql_error (A * T)) : same_answer op → in_step (statement op).
Proof.
  intros Hop w w' Hw. unfold statement. rewrite (alike_faults _ _ Hw). pose proof (alike_drop _ _ Hw) as Hd.
  specialize (Hop _ _ (al_tables _ _ Hw)).
  destruct (next_fault w'), (op (w_tables w)) as [[a u]|e], (op (w_tables w')) as [[a' u']|e']; try done; cbn;
    (split; [naive_solver|]); try done. apply alike_set_tables; [|done]. apply Hop.
Qed.

Lemma in_step_auto {A} (op : T → result sql_error (A * T)) : same_answer op → in_step (auto op).
Proof.
  intros Hop w w' Hw%alike_interfere. unfold auto. rewrite (alike_faults _ _ Hw). pose proof (alike_drop _ _ Hw) as Hd.
  specialize (Hop _ _ (al_tables _ _ Hw)).
  destruct (next_fault (interfere w')), (op (w_tables (interfere w))) as [[a u]|e],
    (op (w_tables (interfere w'))) as [[a' u']|e']; try done; cbn;
    (split; [naive_solver|]); apply alike_log; try done; (apply alike_set_tables; [|done]); apply Hop.
Qed.

Lemma in_step_transaction {E A} (backend : sql_error → E) (body : sm (world T) E A) :
  in_step body → in_step (transaction backend body).
Proof.
  intros Hb w w' Hw%alike_interfere. unfold transaction. rewrite (alike_faults _ _ Hw).
  pose proof (alike_drop _ _ Hw) as Hd. pose proof (al_tables _ _ Hw) as Ht.
  destruct (next_fault (interfere w')); [|done..]. destruct (Hb _ _ Hd) as [Hr Hu].
  destruct (body (drop_fault (interfere w))) as [r u], (body (drop_fault (interfere w'))) as [r' u']. cbn in Hr, Hu.
  subst r'. pose proof (alike_drop _ _ Hu) as Hdu. rewrite (alike_faults _ _ Hu).
  destruct r; [destruct (next_fault u')|]; cbn -[end_step]; (split; [done|]); apply alike_end; try done;
    by apply alike_set_tables.
Qed.
End lockstep.

(** ** Isolation *)

Lemma rows_where_elem {A} (P : uuid → A → bool) (m : gmap uuid A) id a :
  (id, a) ∈ rows_where P m ↔ m !! id = Some a ∧ P id a = true.
Proof.
  unfold rows_where, rows_by_key. rewrite list_elem_of_filter, elem_of_sort_by, elem_of_map_to_list. cbn. tauto.
Qed.

Lemma rows_where_sorted {A} (P : uuid → A → bool) (m : gmap uuid A) :
  StronglySorted (λ a b : uuid * A, cmp a.1 b.1 = Lt) (rows_where P m).
Proof.
  unfold rows_where. assert (Hs : StronglySorted (λ a b : uuid * A, cmp a.1 b.1 = Lt) (rows_by_key m)).
  { apply sort_by_strict, NoDup_fst_map_to_list. }
  induction Hs as [|r l Hl IH Hr]; [constructor|]. rewrite filter_cons. case_decide; [|done].
  constructor; [done|]. apply Forall_forall. intros x [_ Hx]%list_elem_of_filter. by eapply Forall_forall in Hr.
Qed.

(** Two tables with the same rows in question. *)
Lemma rows_where_same {A} (P P' : uuid → A → bool) (m m' : gmap uuid A) :
  (∀ id a, m !! id = Some a ∧ P id a = true ↔ m' !! id = Some a ∧ P' id a = true) →
  rows_where P m = rows_where P' m'.
Proof.
  intros Hm. eapply (StronglySorted_unique_strong (λ a b : uuid * A, cmp a.1 b.1 = Lt));
    [|apply rows_where_sorted..|].
  - intros a b _ _ H1 H2. exfalso. by rewrite cmp_antisym, H2 in H1.
  - assert (Hnd : ∀ (Q : uuid → A → bool) n, NoDup (rows_where Q n)).
    { intros Q n. apply NoDup_filter. unfold rows_by_key. rewrite sort_by_perm. apply NoDup_map_to_list. }
    apply NoDup_Permutation; [apply Hnd..|]. intros [id a]. by rewrite !rows_where_elem.
Qed.

Section isolation.
Context {V R : Type} (external_ref : string).

#[local] Abbreviation tables := (atables V R * portable_columns)%type.

(** *** The rows of a tenant *)

Definition my_account (t : tables) (account : uuid) : Prop := at_accounts t.1 !! account = Some (Some external_ref).

Definition my_export (t : tables) (id : uuid) (x : archive_export V) : Prop :=
  ev_exports (at_evidence t.1) !! id = Some x ∧ my_account t (xp_account_id x).

Definition my_run (t : tables) (id : uuid) (r : run_row) : Prop :=
  ev_import_runs (at_evidence t.1) !! id = Some r ∧
  ∃ export_id x, rn_export_id r = Some export_id ∧ my_export t export_id x.

Definition my_project (t : tables) (id : uuid) (p : project_row) : Prop :=
  nm_projects (at_normalized t.1) !! id = Some p ∧ ∃ account, prj_account_id p = Some account ∧ my_account t account.

Definition my_conversation (t : tables) (id : uuid) (c : conversation_row) : Prop :=
  nm_conversations (at_normalized t.1) !! id = Some c ∧
  ∃ account, cnv_account_id c = Some account ∧ my_account t account.

Definition my_message (t : tables) (id : uuid) (m : message_row) : Prop :=
  nm_messages (at_normalized t.1) !! id = Some m ∧ ∃ c, my_conversation t (ms_conversation_id m) c.

Definition my_part (t : tables) (id : uuid) (p : part_row V) : Prop :=
  nm_parts (at_normalized t.1) !! id = Some p ∧ ∃ m, my_message t (pt_message_id p) m.

Definition my_asset (t : tables) (id : uuid) (a : asset_row V) : Prop :=
  nm_assets (at_normalized t.1) !! id = Some a ∧
  ∃ export_id x, ast_observed_in a = Some export_id ∧ my_export t export_id x.

(** A reference of the tenant's rows names a row of the tenant, if any. *)
Record closed (t : tables) : Prop := Closed {
  cl_project_export id p x : my_project t id p → prj_last_seen_export p = Some x →
    ∀ e, ev_exports (at_evidence t.1) !! x = Some e → my_export t x e;
  cl_conversation_export id c x : my_conversation t id c → cnv_last_seen_export c = Some x →
    ∀ e, ev_exports (at_evidence t.1) !! x = Some e → my_export t x e;
  cl_conversation_project id c x : my_conversation t id c → cnv_project_id c = Some x →
    ∀ p, nm_projects (at_normalized t.1) !! x = Some p → my_project t x p;
  cl_parent id m x : my_message t id m → ms_parent_message_id m = Some x →
    ∀ p, nm_messages (at_normalized t.1) !! x = Some p → my_message t x p;
}.

(** The tenant has the same rows, whatever the others have. *)
Record same_rows (t t' : tables) : Prop := SameRows {
  sr_closed : closed t;
  sr_closed' : closed t';
  sr_account a : my_account t a ↔ my_account t' a;
  sr_export id x : my_export t id x ↔ my_export t' id x;
  sr_run id r : my_run t id r ↔ my_run t' id r;
  sr_project id p : my_project t id p ↔ my_project t' id p;
  sr_conversation id c : my_conversation t id c ↔ my_conversation t' id c;
  sr_message id m : my_message t id m ↔ my_message t' id m;
  sr_part id p : my_part t id p ↔ my_part t' id p;
  sr_asset id a : my_asset t id a ↔ my_asset t' id a;
  sr_export_columns id x : my_export t id x → pc_sha256_hex t.2 id = pc_sha256_hex t'.2 id;
  sr_project_columns id p : my_project t id p →
    pc_archived_observed t.2 id = pc_archived_observed t'.2 id ∧
    pc_project_updated_at t.2 id = pc_project_updated_at t'.2 id;
  sr_conversation_columns id c : my_conversation t id c →
    pc_conversation_kind t.2 id = pc_conversation_kind t'.2 id ∧
    pc_conversation_updated_at t.2 id = pc_conversation_updated_at t'.2 id;
  sr_message_columns id m : my_message t id m →
    pc_generation_index t.2 id = pc_generation_index t'.2 id ∧ pc_interrupted t.2 id = pc_interrupted t'.2 id;
  sr_asset_columns id a : my_asset t id a →
    pc_asset_external_id t.2 id = pc_asset_external_id t'.2 id ∧
    pc_asset_media_type t.2 id = pc_asset_media_type t'.2 id ∧
    pc_locally_backed_up t.2 id = pc_locally_backed_up t'.2 id;
}.

(** *** What is loaded *)

Context (collate : string → string → comparison) (to_char to_char_stated : N → string).
Context (timestamptz : string → option N).
Context {ZE : Type} (decode_ref : V → option blob_ref) (ref_value : V → json).

Lemma account_is_iff (t : tables) a : account_is external_ref t a = true ↔ my_account t a.
Proof. apply bool_decide_eq_true. Qed.

Lemma nullable_account_is_iff (t : tables) o :
  nullable_account_is external_ref t o = true ↔ ∃ a, o = Some a ∧ my_account t a.
Proof. destruct o; cbn; [rewrite account_is_iff|]; naive_solver. Qed.

Lemma sort_rows_same {A} (order : uuid * A → uuid * A → comparison) (P P' : uuid → A → bool) (m m' : gmap uuid A) :
  (∀ id a, m !! id = Some a ∧ P id a = true ↔ m' !! id = Some a ∧ P' id a = true) →
  sort_by order (rows_where P m) = sort_by order (rows_where P' m').
Proof. intros Hm. by rewrite (rows_where_same _ _ _ _ Hm). Qed.

Lemma map_rows_same {A B} (f g : uuid * A → B) (l : list (uuid * A)) :
  (∀ id a, (id, a) ∈ l → f (id, a) = g (id, a)) → f <$> l = g <$> l.
Proof. intros H. apply list_fmap_ext. intros i [id a] Hi. apply H. by eapply list_elem_of_lookup_2. Qed.

Section loaded.
Context (t t' : tables) (same : same_rows t t').

Lemma lookup_mine {A} (m m' : gmap uuid A) (mine mine' : uuid → A → Prop) (o : option uuid) :
  (∀ id a, mine id a ↔ mine' id a) → (∀ id a, mine id a → m !! id = Some a) → (∀ id a, mine' id a → m' !! id = Some a) →
  (∀ id a, o = Some id → m !! id = Some a → mine id a) → (∀ id a, o = Some id → m' !! id = Some a → mine' id a) →
  (id ← o; m !! id) = (id ← o; m' !! id).
Proof.
  intros Hs Hm Hm' Ho Ho'. destruct o as [id|]; [|done]. cbn.
  destruct (m !! id) as [a|] eqn:E.
  - symmetry. by apply Hm', Hs, Ho.
  - destruct (m' !! id) as [a|] eqn:E'; [|done]. rewrite <-E. by apply Hm, Hs, Ho'.
Qed.

Lemma export_lookup o :
  (∀ id x, o = Some id → ev_exports (at_evidence t.1) !! id = Some x → my_export t id x) →
  (∀ id x, o = Some id → ev_exports (at_evidence t'.1) !! id = Some x → my_export t' id x) →
  (id ← o; ev_exports (at_evidence t.1) !! id) = (id ← o; ev_exports (at_evidence t'.1) !! id).
Proof. apply lookup_mine; [apply (sr_export _ _ same)|by intros ?? []..]. Qed.

Lemma project_observed_same id p : my_project t id p → project_observed_at t id p = project_observed_at t' id p.
Proof.
  intros Hp. unfold project_observed_at, observed_at. destruct (sr_project_columns _ _ same _ _ Hp) as [_ ->].
  rewrite export_lookup; [done|by intros; eapply cl_project_export; [apply same|..]|].
  intros x e Hx He. eapply cl_project_export; [apply (sr_closed' _ _ same)|by apply (sr_project _ _ same)|done..].
Qed.

Lemma conversation_observed_same id c :
  my_conversation t id c → conversation_observed_at t id c = conversation_observed_at t' id c.
Proof.
  intros Hc. unfold conversation_observed_at, observed_at. destruct (sr_conversation_columns _ _ same _ _ Hc) as [_ ->].
  rewrite export_lookup; [done|by intros; eapply cl_conversation_export; [apply same|..]|].
  intros x e Hx He. eapply cl_conversation_export; [apply (sr_closed' _ _ same)|by apply (sr_conversation _ _ same)|done..].
Qed.

Lemma project_external_id_same id c :
  my_conversation t id c → project_external_id t c = project_external_id t' c.
Proof.
  intros Hc. unfold project_external_id.
  assert (Hl : (x ← cnv_project_id c; nm_projects (at_normalized t.1) !! x) =
               (x ← cnv_project_id c; nm_projects (at_normalized t'.1) !! x)).
  { eapply lookup_mine; [apply (sr_project _ _ same)|by intros ?? []..| |].
    - intros x p Hx Hp. by eapply cl_conversation_project; [apply same|..].
    - intros x p Hx Hp. eapply cl_conversation_project; [apply (sr_closed' _ _ same)|by apply (sr_conversation _ _ same)|done..]. }
  destruct (cnv_project_id c) as [x|]; [|done]. cbn in *. by rewrite Hl.
Qed.

Lemma parent_same id m : my_message t id m → parent_external_id t m = parent_external_id t' m.
Proof.
  intros Hm. unfold parent_external_id.
  assert (Hl : (x ← ms_parent_message_id m; nm_messages (at_normalized t.1) !! x) =
               (x ← ms_parent_message_id m; nm_messages (at_normalized t'.1) !! x)).
  { eapply lookup_mine; [apply (sr_message _ _ same)|by intros ?? []..| |].
    - intros x p Hx Hp. by eapply cl_parent; [apply same|..].
    - intros x p Hx Hp. eapply cl_parent; [apply (sr_closed' _ _ same)|by apply (sr_message _ _ same)|done..]. }
  destruct (ms_parent_message_id m) as [x|]; [|done]. cbn in *. by rewrite Hl.
Qed.

Lemma newest_run_same id x : my_export t id x → newest_run id t = newest_run id t'.
Proof.
  intros Hx. unfold newest_run. f_equal. apply rows_where_same. intros i r. rewrite !bool_decide_eq_true.
  split; intros [Hr He]; (split; [|done]).
  - by apply (proj1 (sr_run _ _ same i r)); split; [|exists id, x].
  - apply (proj2 (sr_run _ _ same i r)). split; [done|]. exists id, x. split; [done|]. by apply (sr_export _ _ same).
Qed.

Lemma provenance_same : load_provenance to_char external_ref t = load_provenance to_char external_ref t'.
Proof.
  unfold load_provenance.
  assert (Hrows : newest_export external_ref t = newest_export external_ref t').
  { unfold newest_export. f_equal. apply rows_where_same. intros id x. rewrite !account_is_iff. apply (sr_export _ _ same). }
  destruct (newest_export external_ref t) as [[id x]|] eqn:E; rewrite <-Hrows; [|done]. cbn.
  assert (Hx : my_export t id x).
  { unfold newest_export, first_by in E. apply head_Some_elem_of in E. rewrite elem_of_sort_by, rows_where_elem, account_is_iff in E. done. }
  by rewrite (newest_run_same _ _ Hx), (sr_export_columns _ _ same _ _ Hx).
Qed.

Lemma projects_same f within : xf_account_external_ref f = external_ref →
  portable_project_of to_char t <$> selected_projects collate f within t =
  portable_project_of to_char t' <$> selected_projects collate f within t'.
Proof.
  intros Hf. unfold selected_projects. rewrite Hf.
  assert (Hp : ∀ id p, nm_projects (at_normalized t.1) !! id = Some p ∧
    nullable_account_is external_ref t (prj_account_id p) = true ↔ my_project t id p).
  { intros id p. by rewrite nullable_account_is_iff. }
  assert (Hp' : ∀ id p, nm_projects (at_normalized t'.1) !! id = Some p ∧
    nullable_account_is external_ref t' (prj_account_id p) = true ↔ my_project t' id p).
  { intros id p. by rewrite nullable_account_is_iff. }
  erewrite sort_rows_same.
  - apply map_rows_same. intros id p Hin. rewrite elem_of_sort_by, rows_where_elem, !andb_true_iff in Hin.
    destruct Hin as (Hl & [Ha _] & _). assert (Hm : my_project t' id p) by by apply Hp'.
    apply (sr_project _ _ same) in Hm. unfold portable_project_of. cbn.
    destruct (sr_project_columns _ _ same _ _ Hm) as [-> _]. by rewrite (project_observed_same _ _ Hm).
  - intros id p. rewrite !andb_true_iff. specialize (Hp id p). specialize (Hp' id p).
    pose proof (sr_project _ _ same id p) as Hs.
    split; intros (Hl & [Ha He] & Hw); assert (Hm : my_project t id p) by tauto;
      pose proof (project_observed_same _ _ Hm) as Eo; rewrite Eo in *; tauto.
Qed.

Lemma parts_same id m : my_message t id m →
  (λ p : uuid * part_row V, portable_part_value ref_value p.2) <$> parts_of t id =
  (λ p : uuid * part_row V, portable_part_value ref_value p.2) <$> parts_of t' id.
Proof.
  intros Hm. unfold parts_of. erewrite sort_rows_same; [done|]. intros i p. rewrite !bool_decide_eq_true.
  split; intros [Hp He]; (split; [|done]).
  - apply (proj1 (sr_part _ _ same i p)). split; [done|]. exists m. by rewrite He.
  - apply (proj2 (sr_part _ _ same i p)). split; [done|]. exists m. rewrite He. by apply (sr_message _ _ same).
Qed.

Lemma messages_same id c : my_conversation t id c →
  portable_message_value to_char_stated ref_value t <$> messages_of t id =
  portable_message_value to_char_stated ref_value t' <$> messages_of t' id.
Proof.
  intros Hc. assert (Hrows : messages_of t id = messages_of t' id).
  { apply sort_rows_same. intros i m. rewrite !bool_decide_eq_true. split; intros [Hm He]; (split; [|done]).
    - apply (proj1 (sr_message _ _ same i m)). split; [done|]. exists c. by rewrite He.
    - apply (proj2 (sr_message _ _ same i m)). split; [done|]. exists c. rewrite He. by apply (sr_conversation _ _ same). }
  rewrite <-Hrows. apply map_rows_same. intros i m Hin. unfold messages_of in Hin.
  rewrite elem_of_sort_by, rows_where_elem, bool_decide_eq_true in Hin. destruct Hin as [Hl He].
  assert (Hm : my_message t i m) by (split; [done|]; exists c; by rewrite He).
  unfold portable_message_value. cbn. destruct (sr_message_columns _ _ same _ _ Hm) as [-> ->].
  by rewrite (parent_same _ _ Hm), (parts_same _ _ Hm).
Qed.

Lemma conversations_same f within : xf_account_external_ref f = external_ref →
  portable_conversation_of to_char to_char_stated ref_value t <$> selected_conversations collate f within t =
  portable_conversation_of to_char to_char_stated ref_value t' <$> selected_conversations collate f within t'.
Proof.
  intros Hf. unfold selected_conversations. rewrite Hf.
  assert (Hc : ∀ s id c, nm_conversations (at_normalized s.1) !! id = Some c ∧
    nullable_account_is external_ref s (cnv_account_id c) = true ↔ my_conversation s id c).
  { intros s id c. by rewrite nullable_account_is_iff. }
  erewrite sort_rows_same.
  - apply map_rows_same. intros id c Hin. rewrite elem_of_sort_by, rows_where_elem, !andb_true_iff in Hin.
    destruct Hin as (Hl & [Ha _] & _). assert (Hm : my_conversation t' id c) by by apply Hc.
    apply (sr_conversation _ _ same) in Hm. unfold portable_conversation_of. cbn.
    destruct (sr_conversation_columns _ _ same _ _ Hm) as [-> _].
    by rewrite (conversation_observed_same _ _ Hm), (project_external_id_same _ _ Hm), (messages_same _ _ Hm).
  - intros id c. rewrite !andb_true_iff. pose proof (Hc t id c). pose proof (Hc t' id c).
    pose proof (sr_conversation _ _ same id c) as Hs.
    split; intros (Hl & [Ha He] & Hw); assert (Hm : my_conversation t id c) by tauto;
      pose proof (conversation_observed_same _ _ Hm) as Eo; pose proof (project_external_id_same _ _ Hm) as Ep;
      rewrite Eo, Ep in *; tauto.
Qed.

Lemma asset_export_same id a : my_asset t id a → asset_export t a = asset_export t' a.
Proof.
  intros (Ha & x & e & Hx & He). unfold asset_export. rewrite Hx. cbn.
  pose proof (proj1 (sr_export _ _ same _ _) He) as He'. by rewrite (proj1 He), (proj1 He').
Qed.

Lemma assets_same f within : xf_account_external_ref f = external_ref →
  portable_asset_of to_char decode_ref t <$> selected_assets f within t =
  portable_asset_of to_char decode_ref t' <$> selected_assets f within t'.
Proof.
  intros Hf. unfold selected_assets. rewrite Hf.
  assert (Hm : ∀ s id a x, nm_assets (at_normalized s.1) !! id = Some a → asset_export s a = Some x →
    account_is external_ref s (xp_account_id x) = true → my_asset s id a).
  { intros s id a x Ha (e & He & Hx)%bind_Some Hi%account_is_iff. split; [done|]. by exists e, x. }
  assert (Hxa : ∀ id a x, my_asset t id a → asset_export t a = Some x → my_account t (xp_account_id x) ↔ my_account t' (xp_account_id x)).
  { intros. apply (sr_account _ _ same). }
  erewrite rows_where_same.
  - apply map_rows_same. intros id a [Ha Hb]%rows_where_elem.
    destruct (asset_export t' a) as [x|] eqn:Ex; [|done]. rewrite !andb_true_iff in Hb.
    assert (Hma : my_asset t id a) by (apply (sr_asset _ _ same); naive_solver). unfold portable_asset_of. cbn.
    destruct (sr_asset_columns _ _ same _ _ Hma) as (-> & -> & ->). by rewrite (asset_export_same _ _ Hma).
  - intros id a. split; intros [Ha Hb].
    + destruct (asset_export t a) as [x|] eqn:Ex; [|done]. rewrite !andb_true_iff in Hb.
      assert (Hma : my_asset t id a) by naive_solver. rewrite <-(asset_export_same _ _ Hma), Ex.
      pose proof (Hxa _ _ _ Hma Ex) as Hi. split; [by apply (sr_asset _ _ same) in Hma as [? _]|].
      rewrite !andb_true_iff, !account_is_iff in *. tauto.
    + destruct (asset_export t' a) as [x|] eqn:Ex; [|done]. rewrite !andb_true_iff in Hb.
      assert (Hma : my_asset t id a) by (apply (sr_asset _ _ same); naive_solver). rewrite (asset_export_same _ _ Hma), Ex.
      rewrite <-(asset_export_same _ _ Hma) in Ex. pose proof (Hxa _ _ _ Hma Ex) as Hi. split; [by destruct Hma|].
      rewrite !andb_true_iff, !account_is_iff in *. tauto.
Qed.
End loaded.

(** *** The command *)

Context (connects : string → N → N → result unit unit) (new_uuid : N → uuid).
Context (sha256_hex : string → string) (to_vec : json → string) {Z : Type} (zip : zip_writer Z ZE).

#[local] Abbreviation in_step := (in_step same_rows).

Lemma fetch_in_step {A} (f : tables → result sql_error A) :
  (∀ t t', same_rows t t' → f t = f t') → in_step (fetch (ZE := ZE) f).
Proof.
  intros Hf. apply in_step_map_err, in_step_auto. intros t t' Ht. rewrite <-(Hf _ _ Ht). destruct (f t); [by split|done].
Qed.

Lemma bounded_same {A} f (query : (N → bool) → tables → A) :
  (∀ within t t', same_rows t t' → query within t = query within t') →
  ∀ t t', same_rows t t' → bounded timestamptz f query t = bounded timestamptz f query t'.
Proof.
  intros Hq t t' Ht. unfold bounded. destruct (bound _ _); [|done]. destruct (bound _ _); [|done]. by rewrite (Hq _ _ _ Ht).
Qed.

Lemma load_in_step f : xf_account_external_ref f = external_ref →
  in_step (load_portable_archive_state collate to_char to_char_stated timestamptz (ZE := ZE) decode_ref ref_value f).
Proof.
  intros Hf. apply in_step_bind; [|intros found].
  { apply fetch_in_step. intros t t' Ht. by rewrite Hf, (provenance_same t t'). }
  apply in_step_bind; [apply in_step_lift|intros [account provenance]].
  apply in_step_bind; [|intros projects; apply in_step_bind; [|intros conversations; apply in_step_bind; [|intros; apply in_step_ret]]].
  - apply fetch_in_step, bounded_same. intros within t t' Ht. by apply projects_same.
  - apply fetch_in_step, bounded_same. intros within t t' Ht. by apply conversations_same.
  - apply fetch_in_step, bounded_same. intros within t t' Ht. by rewrite (assets_same t t').
Qed.

Lemma opened_in_step c : in_step (opened connects c).
Proof.
  apply in_step_bind; [apply in_step_lift|intros root]. apply in_step_bind; [apply in_step_lift|intros _].
  apply in_step_bind; [|intros; apply in_step_ret]. apply in_step_map_err, in_step_transaction.
  apply in_step_bind; [apply in_step_map_err, in_step_take_lock|intros _]. apply in_step_map_err, in_step_statement.
  intros t t' Ht. by split.
Qed.

#[local] Abbreviation load := (load_portable_archive_state collate to_char to_char_stated timestamptz (ZE := ZE) decode_ref ref_value).

(** What the filter asks for. *)
Definition in_window (f : portable_export_filter) (observed_at : N) : Prop :=
  ∃ from until, bound timestamptz (xf_observed_from_rfc3339 f) = Ok from ∧
    bound timestamptz (xf_observed_to_rfc3339 f) = Ok until ∧
    (∀ n, from = Some n → n <= observed_at)%N ∧ (∀ n, until = Some n → observed_at <= n)%N.

Definition of_project (f : portable_export_filter) (project : option string) : Prop :=
  ∀ wanted, xf_project_external_id f = Some wanted → project = Some wanted.

(** The tenant's records that the filter asks for, and nothing else. *)
Record selection (f : portable_export_filter) (t : tables) (state : portable_archive_state) : Prop := Selection {
  sl_projects x : x ∈ xst_projects state ↔ ∃ id p, my_project t id p ∧ of_project f (Some (prj_external_id p)) ∧
    in_window f (project_observed_at t id p) ∧ x = portable_project_of to_char t (id, p);
  sl_conversations x : x ∈ xst_conversations state ↔ ∃ id c, my_conversation t id c ∧
    of_project f (project_external_id t c) ∧ in_window f (conversation_observed_at t id c) ∧
    x = portable_conversation_of to_char to_char_stated ref_value t (id, c);
  sl_assets x : x ∈ xst_assets state ↔ ∃ id a e, my_asset t id a ∧ asset_export t a = Some e ∧
    of_project f None ∧ in_window f (xp_received_at e) ∧ x = portable_asset_of to_char decode_ref t (id, a);
}.

Lemma none_or_iff {A} (o : option A) P : none_or o P = true ↔ ∀ a, o = Some a → P a = true.
Proof. destruct o; cbn; naive_solver. Qed.

Lemma within_iff f from until n :
  bound timestamptz (xf_observed_from_rfc3339 f) = Ok from → bound timestamptz (xf_observed_to_rfc3339 f) = Ok until →
  within from until n = true ↔ in_window f n.
Proof.
  intros Hf Hu. unfold within, in_window. rewrite andb_true_iff, !none_or_iff. setoid_rewrite N.leb_le. split.
  - intros [H1 H2]. by exists from, until.
  - intros (from' & until' & Hf' & Hu' & H1 & H2). rewrite Hf in Hf'. rewrite Hu in Hu'. by simplify_eq.
Qed.

Lemma fetch_Ok {A} (f : tables → result sql_error A) w a w' :
  w_others w = [] → fetch (ZE := ZE) f w = (Ok a, w') →
  f (w_tables w) = Ok a ∧ w_tables w' = w_tables w ∧ w_others w' = [].
Proof.
  intros Ho Hrun%smap_err_Ok_inv. pose proof (auto_Ok_inv _ _ _ _ Hrun) as Hop. rewrite (alone _ Ho) in Hop.
  destruct (f (w_tables w)) as [b|]; [|done]. injection Hop as -> Ht. split_and!; [done|by rewrite Ht|].
  unfold auto in Hrun. rewrite (alone _ Ho) in Hrun.
  repeat case_match; simplify_eq; done.
Qed.

Lemma bounded_Ok {A} f (query : (N → bool) → tables → A) t a :
  bounded timestamptz f query t = Ok a → ∃ P, a = query P t ∧ ∀ n, P n = true ↔ in_window f n.
Proof.
  unfold bounded. destruct (bound _ _) as [from|] eqn:Hf; [|done]. destruct (bound _ (xf_observed_to_rfc3339 f)) as [until|] eqn:Hu; [|done].
  intros [= <-]. exists (within from until). split; [done|]. intros n. by apply within_iff.
Qed.

Lemma rows_elem {A B} (P : uuid → A → bool) (m : gmap uuid A) (g : uuid * A → B) (Q : uuid → A → Prop) l x :
  l ≡ₚ rows_where P m → (∀ id a, m !! id = Some a ∧ P id a = true ↔ Q id a) →
  x ∈ g <$> l ↔ ∃ id a, Q id a ∧ x = g (id, a).
Proof.
  intros Hl HQ. rewrite list_elem_of_fmap. setoid_rewrite Hl. split.
  - intros ([id a] & -> & Hin%rows_where_elem%HQ). eauto.
  - intros (id & a & Hin%HQ%rows_where_elem & ->). eauto.
Qed.

Lemma load_selects f w state w' :
  xf_account_external_ref f = external_ref → w_others w = [] → load f w = (Ok state, w') →
  w_tables w' = w_tables w ∧ xst_account_external_ref state = external_ref ∧ selection f (w_tables w) state.
Proof.
  intros Hf Ho (found & w1 & (Hp & E1 & Ho1)%fetch_Ok & Hrun)%sbind_Ok_inv; [|done].
  apply sbind_Ok_inv in Hrun as ([account provenance] & w1' & Hl & Hrun). unfold slift in Hl.
  destruct found as [[? ?]|]; [|done]. cbn in Hl. injection Hl as -> -> <-.
  apply sbind_Ok_inv in Hrun as (projects & w2 & (Hj & E2 & Ho2)%fetch_Ok & Hrun); [|done].
  apply sbind_Ok_inv in Hrun as (conversations & w3 & (Hc & E3 & Ho3)%fetch_Ok & Hrun); [|done].
  apply sbind_Ok_inv in Hrun as (assets & w4 & (Ha & E4 & Ho4)%fetch_Ok & Hrun); [|done].
  injection Hrun as <- <-. rewrite ?E3, ?E2, ?E1 in *. split; [done|].
  apply bounded_Ok in Hj as (Pj & -> & HPj). apply bounded_Ok in Hc as (Pc & -> & HPc).
  apply bounded_Ok in Ha as (Pa & -> & HPa). injection Hp as Hp. apply bind_Some in Hp as (x & _ & [= <- _]).
  split; [done|]. unfold selected_projects, selected_conversations, selected_assets. constructor; cbn; intros y.
  - rewrite (rows_elem _ _ _ _ _ _ (sort_by_perm _ _) (λ id p, conj (λ H, H) (λ H, H))). f_equiv; intros id. f_equiv; intros p.
    rewrite !andb_true_iff, Hf, nullable_account_is_iff, none_or_iff, HPj. setoid_rewrite String.eqb_eq.
    unfold my_project, of_project. naive_solver.
  - rewrite (rows_elem _ _ _ _ _ _ (sort_by_perm _ _) (λ id p, conj (λ H, H) (λ H, H))). f_equiv; intros id. f_equiv; intros c.
    rewrite !andb_true_iff, Hf, nullable_account_is_iff, none_or_iff, HPc. setoid_rewrite bool_decide_eq_true.
    unfold my_conversation, of_project. naive_solver.
  - rewrite elem_of_sort_by, (rows_elem _ _ _ _ _ _ (reflexivity _) (λ id p, conj (λ H, H) (λ H, H))).
    f_equiv; intros id. f_equiv; intros a. unfold my_asset, my_export, asset_export.
    destruct (ast_observed_in a) as [e|] eqn:Ee; cbn; [|naive_solver].
    destruct (ev_exports _ !! e) as [xp|] eqn:Ex; cbn; [|naive_solver].
    rewrite !andb_true_iff, Hf, account_is_iff, HPa.
    assert (Hn : is_null (xf_project_external_id f) = true ↔ of_project f None).
    { unfold of_project. destruct (xf_project_external_id f); cbn; naive_solver. }
    rewrite Hn. naive_solver.
Qed.

End isolation.

(** ** Closed example *)

Module PortableLoadWitness.
Import PortableWitness LifecycleWitness.

#[local] Abbreviation tables := (atables blob_ref unit * portable_columns)%type.

Definition columns : portable_columns :=
  PortableColumns (λ _, "digest") (λ _, false) (λ _, 1%N) (λ _, "standard") (λ _, 1%N) (λ _, None) (λ _, false)
    (λ id, id) (λ _, None) (λ _, true).

Definition their_columns : portable_columns :=
  PortableColumns (λ _, "digest") (λ id, String.eqb id "p2") (λ _, 1%N) (λ _, "standard") (λ _, 1%N) (λ _, None)
    (λ _, false) (λ id, id) (λ _, None) (λ _, true).

Definition project_of (account external_id : string) : project_row :=
  ProjectRow (Some account) external_id (Some "title") None None None None None None None.

(** One account's project and export, alone and beside another's. *)
Definition tables_of (accounts : gmap uuid (option string)) (exports : gmap uuid (archive_export blob_ref))
    (projects : gmap uuid project_row) : atables blob_ref unit :=
  ATables accounts (Evidence exports ∅ ∅ ∅ ∅ ∅ ∅ ∅) (Normalized projects ∅ ∅ ∅ ∅ ∅ ∅ ∅ ∅) (Workflow ∅ ∅ ∅) ∅
    (OTables ∅ 1 100 ∅) ∅.

Definition export_row_of (account : string) : archive_export blob_ref :=
  ArchiveExport "archive" account "consumer_export" reference 10.

Definition mine : tables :=
  (tables_of {[ "me" := Some "my-ref" ]} {[ "x1" := export_row_of "me" ]} {[ "p1" := project_of "me" "one" ]}, columns).
Definition shared : tables :=
  (tables_of {[ "me" := Some "my-ref"; "them" := Some "their-ref" ]}
     {[ "x1" := export_row_of "me"; "x2" := export_row_of "them" ]}
     {[ "p1" := project_of "me" "one"; "p2" := project_of "them" "two" ]}, their_columns).

Definition world_of (t : tables) : world tables := World (Disk ∅ []) (Database t [] [] [] []) 7.

Definition command : portable_export_command :=
  PortableExportCommand (PortableExportFilter "my-ref" None None None) "/out/archive.zip".

#[local] Abbreviation main := (portable_export_main String.compare pretty pretty (λ _, None) (Some : blob_ref → option blob_ref)
  (λ _, JNull) (λ _ _ _, Ok tt) pretty sha to_vec zip (Ok configured) command).

Lemma account_mine (s : tables) a : s = mine ∨ s = shared → my_account "my-ref" s a ↔ a = "me".
Proof.
  intros [->| ->]; unfold my_account; cbn; rewrite ?lookup_insert_Some, lookup_singleton_Some; naive_solver.
Qed.

Lemma export_mine (s : tables) id x : s = mine ∨ s = shared → my_export "my-ref" s id x ↔ id = "x1" ∧ x = export_row_of "me".
Proof.
  intros Hs. unfold my_export. rewrite (account_mine s) by done.
  destruct Hs as [->| ->]; cbn; rewrite ?lookup_insert_Some, lookup_singleton_Some; naive_solver.
Qed.

Lemma project_mine (s : tables) id p :
  s = mine ∨ s = shared → my_project "my-ref" s id p ↔ id = "p1" ∧ p = project_of "me" "one".
Proof.
  intros Hs. unfold my_project. setoid_rewrite (account_mine s); [|done].
  destruct Hs as [->| ->]; cbn; rewrite ?lookup_insert_Some, lookup_singleton_Some; naive_solver.
Qed.

Lemma nothing_else_mine (s : tables) id : s = mine ∨ s = shared →
  (∀ r, ¬ my_run "my-ref" s id r) ∧ (∀ c, ¬ my_conversation "my-ref" s id c) ∧ (∀ m, ¬ my_message "my-ref" s id m) ∧
  (∀ p, ¬ my_part "my-ref" s id p) ∧ (∀ a, ¬ my_asset "my-ref" s id a).
Proof. intros [->| ->]; split_and!; intros ? [H _]; cbn in H; by rewrite lookup_empty in H. Qed.

Lemma sample_closed (s : tables) : s = mine ∨ s = shared → closed "my-ref" s.
Proof.
  intros Hs. constructor.
  - by intros id p x [-> ->]%(project_mine s).
  - intros id c x Hc. by apply (nothing_else_mine s) in Hc.
  - intros id c x Hc. by apply (nothing_else_mine s) in Hc.
  - intros id m x Hm. by apply (nothing_else_mine s) in Hm.
Qed.

Lemma tables_same : same_rows "my-ref" mine shared.
Proof.
  pose proof (or_introl eq_refl : mine = mine ∨ mine = shared) as Hm.
  pose proof (or_intror eq_refl : shared = mine ∨ shared = shared) as Hs.
  pose proof (λ id, nothing_else_mine mine id Hm) as Nm. pose proof (λ id, nothing_else_mine shared id Hs) as Ns.
  constructor; try (by apply sample_closed); try intros id; try intros ?;
    rewrite ?(account_mine mine), ?(account_mine shared), ?(export_mine mine), ?(export_mine shared),
      ?(project_mine mine), ?(project_mine shared) by done; try done;
    try (specialize (Nm id); specialize (Ns id); naive_solver).
Qed.

End PortableLoadWitness.
