(* ===== verification/Service.v ===== *)
(** * The service process ([services/chatgpt-archive/src/lib.rs], [admin.rs])

    Readiness, the loops that run the publisher and the importer until the
    service stops, and the status it ends with.  The loops take a script of
    what they find: whether the service is stopping when they look, and what
    ends their pause. *)

From S2P Require Import Prelude Std Json Disk BlobStore Archive Registry Parser Config Principals Postgres OutboxTable StreamErasure Outbox ArchiveTables NormalizedStore ArchiveEvents Reparse InitialImport AckConsumer.

#[local] Open Scope result_scope.

(** ** Readiness ([admin.rs]) *)

Record check_report : Set := CheckReport { cr_name : string; cr_state : string }.

(** A registered check and what it answers now. *)
Abbreviation check := (string * bool)%type.

(** [register_check]. *)
Definition register_check (checks : list check) (c : check) : list check := checks ++ [c].

Definition run_checks (checks : list check) : list check_report :=
  sort_by (cmp_on cr_name) ((λ c : check, CheckReport c.1 (if c.2 then "ok" else "failed")) <$> checks).

Record readiness : Set := Readiness { rd_state : string; rd_checks : list check_report }.

(** The status and the body of [GET /health/ready]. *)
Definition ready (checks : list check) : N * readiness :=
  let reports := run_checks checks in
  let ok := forallb (λ r, String.eqb (cr_state r) "ok") reports in
  (if ok then 200 else 503, Readiness (if ok then "ready" else "not_ready") reports)%N.

(** Every answer of the operator listener has this header, its 404 too. *)
Definition no_store (headers : list (string * string)) : list (string * string) :=
  ("cache-control", "no-store") :: filter (λ h : string * string, h.1 ≠ "cache-control") headers.

(** [register_flag_check]. *)
Definition register_flag_check (checks : list check) (name : string) (flag : bool) : list check :=
  register_check checks (name, flag).

(** ** The loops ([lib.rs]) *)

(** What ends a pause: the timer, a change of the stop flag, or its sender
    going away. *)
Inductive wake : Set := Slept | Changed (stopped : bool) | SenderGone.

Definition goes_on (w : wake) : bool :=
  match w with Slept => true | Changed stopped => negb stopped | SenderGone => false end.

Record tick : Set := Tick { tk_stopped : bool; tk_wake : wake }.

(** The readiness flag of a loop, and the signal that the service must stop. *)
Record loop_flags : Set := LoopFlags { lf_ready : bool; lf_fatal : bool }.

Section event_loop.
Context (to_vec : json → option string).
Context (event_envelope command_envelope : string → option (string * string)).
Context (parse_uuid : string → option string).
Context {wire : Type} (parse_wire : string → option wire) (pg_render : N → string).
Context (request_ok : string → bool) (producer_ok : bool) (owner_ok : string → bool).
Context (erasure_document : erasure_command (wire := wire) → result enqueue_error json).
Context (resend : tombstone_resend) (max_payload : N).

#[local] Abbreviation publish_pending_once :=
  (publish_pending_once to_vec event_envelope command_envelope parse_uuid parse_wire pg_render
     request_ok producer_ok owner_ok erasure_document resend max_payload).

Definition left_loop (f : loop_flags) : sm pump Empty_set (bool * loop_flags) :=
  let! _ := close in sret (true, f).

(** [true]: the loop was left, and the connection closed. *)
Fixpoint archive_event_loop (ticks : list tick) (f : loop_flags) : sm pump Empty_set (bool * loop_flags) :=
  match ticks with
  | [] => sret (false, f)
  | t :: rest =>
      if tk_stopped t then left_loop f
      else
        let! pass := stry publish_pending_once in
        let f := LoopFlags (is_ok pass) (lf_fatal f) in
        if match pass with Err e => is_fatal e | Ok _ => false end
        then left_loop (LoopFlags (lf_ready f) true)
        else if goes_on (tk_wake t) then archive_event_loop rest f else left_loop f
  end.
End event_loop.

Section import_loop.
Context {wire ref : Type} `{Contracts wire ref, OperationContracts wire ref}.
Context (to_string : json → string) (sha256_hex : string → string) (media_type_ok : string → bool).
Context (cp437 : ascii → string) (zip_at : gmap string node → string → zip_source).
Context (read_to_end : zip_entry → option string).
Context (new_uuid : N → uuid) (render : json → string) (pg_render render_instant : N → string).
Context (collate : string → string → comparison) (to_timestamp : N → N) (clock : N → wire).
Context {V R : Type} (decode_ref : V → option blob_ref) (encode_ref : blob_ref → option V).
Context (encode_project : project_version → option json).
Context (encode_conversation : conversation_version → option json).
Context {X : Type} (executor : X → parser_execution_input → list string →
  sm disk parser_execution_error parsed_conversations).

#[local] Abbreviation process_pending_once := (process_pending_once to_string sha256_hex media_type_ok cp437 zip_at
  read_to_end new_uuid render pg_render render_instant collate to_timestamp clock (R := R) decode_ref encode_ref
  encode_project encode_conversation executor).

(** The readiness flag is what the last pass answered. *)
Fixpoint initial_import_loop (e : reparse_engine X) (ticks : list tick) (is_ready : bool)
    : sm (world (atables V R)) Empty_set (bool * bool) :=
  match ticks with
  | [] => sret (false, is_ready)
  | t :: rest =>
      if tk_stopped t then sret (true, is_ready)
      else
        let! pass := stry (process_pending_once e) in
        if goes_on (tk_wake t) then initial_import_loop e rest (is_ok pass) else sret (true, is_ok pass)
  end.
End import_loop.

(** ** The end of the process *)

Inductive exit_error : Set := DeletionAckConsumerStopped | EventPublisherStopped.

(** The background tasks have ended or run into the shutdown bound. [ack_failed]:
    whether the consumer was started, and stopped on its own;
    [publisher_stopped]: the last value of the fatal signal. *)
Definition finish_background_tasks (ack_failed : option bool) (publisher_stopped : bool) : result exit_error unit :=
  if default false ack_failed then Err DeletionAckConsumerStopped
  else if publisher_stopped then Err EventPublisherStopped
  else Ok tt.

(** ** Laws *)

(** A service is ready exactly when every check answers, and the body lists
    the checks by name whatever the order of their registration. *)
Lemma ready_spec checks :
  (ready checks).1 = 200%N ↔ Forall (λ c : check, c.2 = true) checks.
Proof.
  unfold ready. cbn. rewrite Forall_forall. case_match eqn:E; split; try done; intros Hc.
  - intros [name ok] Hin. rewrite forallb_forall in E.
    specialize (E (CheckReport name (if ok then "ok" else "failed"))). cbn in E. destruct ok; [done|].
    assert ("failed" =? "ok" = true)%string; [|done]. apply E. apply list_elem_of_In.
    unfold run_checks. rewrite sort_by_perm. apply list_elem_of_fmap. by exists (name, false).
  - exfalso. apply not_true_iff_false in E. destruct E. apply forallb_forall. intros r Hr%list_elem_of_In.
    unfold run_checks in Hr. rewrite sort_by_perm in Hr. apply list_elem_of_fmap in Hr as ([name ok] & -> & Hin).
    apply Hc in Hin. cbn in *. by subst.
Qed.

(** ** The publisher's life and the service's end *)

Section publisher_laws.
Context (to_vec : json → option string).
Context (event_envelope command_envelope : string → option (string * string)).
Context (parse_uuid : string → option string).
Context {wire : Type} (parse_wire : string → option wire) (pg_render : N → string).
Context (request_ok : string → bool) (producer_ok : bool) (owner_ok : string → bool).
Context (erasure_document : erasure_command (wire := wire) → result enqueue_error json).
Context (resend : tombstone_resend) (max_payload : N).
Context (names : json → option (string * list N)).
Context (names_document : ∀ c doc, erasure_document c = Ok doc →
  names doc = Some (ec_owner c, ec_stream_sequences c)).
Context (envelope_uuid : ∀ bytes declared id,
  event_envelope bytes = Some (declared, id) → is_Some (parse_uuid id)).

#[local] Abbreviation publish_pending_once :=
  (publish_pending_once to_vec event_envelope command_envelope parse_uuid parse_wire pg_render
     request_ok producer_ok owner_ok erasure_document resend max_payload).
#[local] Abbreviation archive_event_loop :=
  (archive_event_loop to_vec event_envelope command_envelope parse_uuid parse_wire pg_render
     request_ok producer_ok owner_ok erasure_document resend max_payload).
#[local] Abbreviation pump_ok := (pump_ok (wire := wire) to_vec event_envelope command_envelope parse_uuid max_payload names).
#[local] Abbreviation advances := (advances (wire := wire) to_vec event_envelope command_envelope parse_uuid max_payload names).

(** The pass met a row that can never be delivered. *)
Definition undeliverable (x : result publish_error nat) : Prop := x = Err UnknownEventType ∨ x = Err InvalidRow.

(** The passes of a life and what they answered: one after the other, until
    the script of ticks is over (the life goes on), the service is found to be
    stopping, a pass meets an undeliverable row, or a pause ends in a stop. *)
Inductive lives : list tick → pump → list (result publish_error nat) → pump → bool → Prop :=
| goes_on_living p : lives [] p [] p false
| found_stopping t ts p : tk_stopped t = true → lives (t :: ts) p [] p true
| met_undeliverable t ts p x p1 : tk_stopped t = false → publish_pending_once p = (x, p1) → undeliverable x →
    lives (t :: ts) p [x] p1 true
| stopped_in_pause t ts p x p1 : tk_stopped t = false → publish_pending_once p = (x, p1) → ¬ undeliverable x →
    goes_on (tk_wake t) = false → lives (t :: ts) p [x] p1 true
| another_pass t ts p x p1 l p2 ended : tk_stopped t = false → publish_pending_once p = (x, p1) → ¬ undeliverable x →
    goes_on (tk_wake t) = true → lives ts p1 l p2 ended → lives (t :: ts) p (x :: l) p2 ended.

(** The flags are those of the last pass. *)
Definition flags_of (f : loop_flags) (l : list (result publish_error nat)) (f' : loop_flags) : Prop :=
  lf_ready f' = from_option is_ok (lf_ready f) (last l) ∧
  (lf_fatal f = false → lf_fatal f' = true ↔ ∃ x, last l = Some x ∧ undeliverable x).

Lemma is_fatal_spec x : match x with Err e => is_fatal e | Ok _ => false end = true ↔ undeliverable x.
Proof. unfold undeliverable. split; [destruct x as [|[]]; cbn; auto; done|by intros [->| ->]]. Qed.

Lemma flags_of_nil f : flags_of f [] f.
Proof. split; [done|]. intros ->. by split; [|intros (? & ? & _)]. Qed.

Lemma flags_of_cons f x l f' :
  flags_of (LoopFlags (is_ok x) (lf_fatal f)) l f' → ¬ undeliverable x → flags_of f (x :: l) f'.
Proof.
  intros [Hr Hf] Hx. cbn in *. split.
  - rewrite Hr, last_cons. by destruct (last l).
  - intros H. rewrite (Hf H), last_cons. destruct (last l); [done|]. naive_solver.
Qed.

Lemma flags_of_last f x b : (b = true ↔ lf_fatal f = true ∨ undeliverable x) →
  flags_of f [x] (LoopFlags (is_ok x) b).
Proof. intros Hb. split; [done|]. cbn. intros H. rewrite Hb, H. naive_solver. Qed.

Lemma close_advances p r p' :
  close p = (r, p') → pump_ok p → advances p p' ∧ r = Ok tt ∧ pm_connection p' ≠ Some false.
Proof.
  intros Hrun Hp. pose proof (step_advances (wire := wire) to_vec event_envelope command_envelope parse_uuid max_payload names
    _ _ _ _ (mark_closed_ok (wire := wire) to_vec event_envelope command_envelope parse_uuid max_payload names) Hrun Hp) as Ha.
  split; [exact Ha|]. unfold close, mark_closed in Hrun. injection Hrun as <- <-. split; [done|]. cbn. by destruct (pm_connection p).
Qed.

Lemma left_loop_inv f p r p' : left_loop f p = (r, p') → r = Ok (true, f) ∧ p' = (close p).2.
Proof. by intros [= <- <-]. Qed.

(** The loop lives as specified. *)
Lemma loop_lives ticks : ∀ f p r p',
  archive_event_loop ticks f p = (r, p') →
  ∃ l p1 ended f', r = Ok (ended, f') ∧ lives ticks p l p1 ended ∧ flags_of f l f' ∧
    p' = if ended then (close p1).2 else p1.
Proof.
  induction ticks as [|t ticks IH]; intros f p r p' Hrun; cbn [Service.archive_event_loop] in Hrun.
  { injection Hrun as <- <-. exists [], p, false, f. split_and!; [done|constructor|apply flags_of_nil|done]. }
  destruct (tk_stopped t) eqn:Ht.
  { apply left_loop_inv in Hrun as [-> ->]. exists [], p, true, f. split_and!; [done|by constructor|apply flags_of_nil|done]. }
  apply sbind_inv in Hrun as [(pass & p1 & Hpass & Hrun)|([] & _ & _)]. unfold stry in Hpass.
  destruct (publish_pending_once p) as [x u] eqn:Hpub. injection Hpass as -> ->.
  pose proof (is_fatal_spec pass) as Hx.
  destruct (match pass with Err e => is_fatal e | Ok _ => false end).
  - apply left_loop_inv in Hrun as [-> ->]. exists [pass], p1, true, (LoopFlags (is_ok pass) true).
    split_and!; [done|eapply met_undeliverable; [done..|by apply Hx]|apply flags_of_last; naive_solver|done].
  - assert (¬ undeliverable pass) as Hn by (by intros H%Hx). destruct (goes_on (tk_wake t)) eqn:Hg.
    + apply IH in Hrun as (l & p2 & ended & f' & -> & Hl & Hf & ->). exists (pass :: l), p2, ended, f'.
      split_and!; [done|by eapply another_pass|by apply flags_of_cons|done].
    + apply left_loop_inv in Hrun as [-> ->]. eexists [pass], p1, true, _.
      split_and!; [done|by eapply stopped_in_pause|apply flags_of_last; naive_solver|done].
Qed.

Lemma lives_advances ticks p l p1 ended : lives ticks p l p1 ended → pump_ok p → advances p p1.
Proof.
  induction 1 as [p|t ts p|t ts p x p1 _ Hpub|t ts p x p1 _ Hpub|t ts p x p1 l p2 ended _ Hpub _ _ _ IH]; intros Hp;
    [by apply advances_refl|by apply advances_refl| | |].
  all: pose proof (pass_advances to_vec event_envelope command_envelope parse_uuid parse_wire pg_render request_ok producer_ok
    owner_ok erasure_document resend max_payload names names_document envelope_uuid _ _ _ Hpub Hp) as Ha.
  1,2: exact Ha.
  eapply advances_trans; [exact Ha|exact IH].
Qed.

Lemma loop_advances ticks p l p1 ended :
  lives ticks p l p1 ended → pump_ok p → advances p (if ended then (close p1).2 else p1).
Proof.
  intros Hl Hp. pose proof (lives_advances _ _ _ _ _ Hl Hp) as Ha. destruct ended; [|done].
  destruct (close p1) as [r p2] eqn:Hc. eapply advances_trans; [exact Ha|].
  intros Hp1. by apply (close_advances _ _ _ Hc).
Qed.

Context {envelope : Type} (from_json : string → option envelope).
Context (event_type producer : envelope → string) (payload_as : envelope → option acknowledgement).
Context (render : json → string) (ACK_EVENT_TYPE : string).

#[local] Abbreviation supervise := (supervise render from_json event_type producer payload_as ACK_EVENT_TYPE).
#[local] Abbreviation session_failed := (session_failed render from_json event_type producer payload_as ACK_EVENT_TYPE).

(** C3. The publisher's life. From its start to any moment of its life,
    whatever the passes meet and the pauses end with: it made its passes one
    after the other until one met a row it can never deliver or the service
    stopped; it raised the fatal signal exactly when its last pass met such a
    row, and is ready exactly when its last pass succeeded; when the loop is
    left, no connection is left open; and every sequence the broker ever
    acknowledged for a content-bearing row is recorded, carried, or named by an
    erasure command. With the consumer of acknowledgements beside it, which
    fails exactly when the session it opened ended with an error, the service
    ends with success exactly when neither stopped on its own: a consumer that
    did is reported as such, and otherwise an undeliverable row is. *)
Theorem service_ends_as_its_tasks_did ticks p r p' rounds w ra w' :
  archive_event_loop ticks (LoopFlags false false) p = (r, p') → pump_ok p →
  supervise rounds (AckFlags false false false) w = (ra, w') →
  ∃ l p1 ended f stopped a, r = Ok (ended, f) ∧ ra = Ok (stopped, a) ∧
    lives ticks p l p1 ended ∧ p' = (if ended then (close p1).2 else p1) ∧
    (ended = true → pm_connection p' ≠ Some false) ∧
    lf_ready f = from_option is_ok false (last l) ∧
    (lf_fatal f = true ↔ ∃ x, last l = Some x ∧ undeliverable x) ∧
    (∀ m fact owner s, m ∈ pm_sent p' → ot_history (w_tables (pm_world p')) !! sn_row m = Some fact →
       content_bearing fact → owner_of_fact fact = Some owner → sn_answer m = Acked s →
       Outbox.recorded (w_tables (pm_world p')) (sn_row m) s ∨ is_carried (pm_carry p') (sn_row m) s ∨
       StreamErasure.asked names (w_tables (pm_world p')) owner s) ∧
    (af_failed a = true ↔ session_failed rounds w) ∧ (af_failed a = true → stopped = true ∧ af_ready a = false) ∧
    finish_background_tasks (Some (af_failed a)) (lf_fatal f || af_fatal a) =
      if af_failed a then Err DeletionAckConsumerStopped else if lf_fatal f then Err EventPublisherStopped else Ok tt.
Proof.
  intros Hrun Hp Hsup. destruct (loop_lives _ _ _ _ _ Hrun) as (l & p1 & ended & f & -> & Hl & [Hr Hf] & ->).
  pose proof (loop_advances _ _ _ _ _ Hl Hp) as [Hp' _].
  destruct (supervise_flags _ _ _ _ _ _ _ _ _ _ _ Hsup) as (stopped & a & -> & Hsame & _ & Hready & Hs); [done..|].
  destruct (supervise_failed _ _ _ _ _ _ _ _ _ _ _ Hsup) as (? & ? & [= <- <-] & Hfailed); [done|].
  exists l, p1, ended, f, stopped, a. split_and!; try done.
  - intros ->. by destruct (close_advances p1 _ _ (surjective_pairing _)) as (_ & _ & ?); [apply (lives_advances _ _ _ _ _ Hl)|].
  - by apply Hf.
  - intros m fact owner s. destruct Hp' as [_ _ [_ _ _ _ _ Hsent]]. apply Hsent.
  - intros Hx. split; [auto|]. apply Hready. auto.
  - unfold finish_background_tasks. rewrite <-Hsame. by destruct (af_failed a), (lf_fatal f).
Qed.
End publisher_laws.

(** ** Closed examples *)

Module ServiceWitness.
Import ErasureWitness OutboxWitness AckWitness.

(** The pass that loses its commit, the deletion, the pass that erases, and the
    stop signal. *)
Definition ticks : list tick := [Tick false Slept; Tick false (Changed false); Tick true Slept].

#[local] Abbreviation publisher := (archive_event_loop to_vec read_envelope read_envelope parse_uuid Some (λ n, pretty n)
  (λ _, true) true (λ _, true) document (TombstoneResend 600 21600) 1048576 ticks (LoopFlags false false) OutboxWitness.start).

(** The durable is not there yet, then it is, and its stream ends. *)
Definition durable (found : result unit consumer_config) : connecting := Connecting (Ok tt) (Ok tt) found (Ok tt).
Definition rounds : list round :=
  [Round false (durable (Err tt)) [] false;
   Round false (durable (Ok (ConsumerConfig (Some DURABLE) FILTER_SUBJECT AckExplicit 30 None))) [Arrived "alice"; Closed] false].

#[local] Abbreviation consumer := (supervise (λ _, "") decode (λ e, e.1.1) (λ e, e.1.2) (λ e, Some e.2)
  "knowledge.deletion.acknowledged.v1" rounds (AckFlags false false false) AckWitness.start).

Definition relayed : Outbox.sent :=
  Sent 2 "evt.ai_archive.conversation.added.v1" second_event ("ai_archive.conversation.added.v1|" +:+ second_event) (Acked 9).

Example lives :
  publisher.1 = Ok (true, LoopFlags true false) ∧ consumer.1 = Ok (true, AckFlags false true true).
Proof. vm_compute. done. Qed.

Lemma service_ends_as_its_tasks_did_witness :
  finish_background_tasks (Some true) true = Err DeletionAckConsumerStopped ∧
  (Outbox.recorded (w_tables (pm_world publisher.2)) 2 9 ∨ is_carried (pm_carry publisher.2) 2 9 ∨
   StreamErasure.asked names (w_tables (pm_world publisher.2)) "bob" 9).
Proof.
  destruct (service_ends_as_its_tasks_did to_vec read_envelope read_envelope parse_uuid Some (λ n, pretty n) (λ _, true)
    true (λ _, true) document (TombstoneResend 600 21600) 1048576 names names_document envelope_uuid
    decode (λ e, e.1.1) (λ e, e.1.2) (λ e, Some e.2) (λ _, "") "knowledge.deletion.acknowledged.v1"
    ticks OutboxWitness.start publisher.1 publisher.2 rounds AckWitness.start consumer.1 consumer.2
    (surjective_pairing _) start_ok (surjective_pairing _))
    as (l & p1 & ended & f & stopped & a & _ & _ & _ & _ & _ & _ & _ & Hkept & _).
  split; [reflexivity|].
  apply (Hkept relayed (added second_event "bob")); try (by vm_compute). vm_compute. by left.
Defined.
End ServiceWitness.
